(** * AxolotlDrive: the public files service

    A shallow embedding of [services/public_files/public_files.go] together
    with the parts of the Go standard library it calls ([strings],
    [path/filepath] on Unix, [os], [sort]), and of the hub of
    [services/public_files/websocket.go]; and the properties of the
    path-confinement layer, of the file store built on it and of the hub.

    Conventions.
    - A Go [string] / [[]byte] is a [string]: a sequence of 8-bit characters.
      [len] is [String.length]; case folding is the ASCII one.
    - Go's [int32] is a [Z] kept in range by [int32]; the byte count of an
      upload, an [int64], stays far below its bound and is a plain [Z].
    - The file system of [os] is a tree of directories and regular files,
      without symbolic links and without permissions; [os] calls resolve
      their path argument lexically against the working directory, and fail
      only for what the tree holds (no i/o errors). What is proved over [os]
      is proved of trees without symbolic links.
    - The file system of [linked] is a tree that may hold symbolic links;
      its calls resolve a path as the kernel does, following the links. The
      sanitizers, [DownloadItem] and [CreateFile] are embedded over it a
      second time: this is where the links are in the picture.
    - A message is emitted when it is handed to [wsHub.Broadcast]; [sent]
      records these messages.
    - [time.Now] reads the [now] field of the world. Random request and upload
      identifiers, modification times, mime types, the ids of items and the
      etags derived from modification times are left out of the records and
      payloads, as are the time stamp and request id of an error response: no
      property below depends on them. *)

From Stdlib Require Import ZArith List Bool Ascii String DecimalString Lia Sorted Permutation.
From Stdlib Require DecimalPos DecimalZ.
Import ListNotations.
Local Open Scope string_scope.
Local Open Scope bool_scope.

Set Implicit Arguments.

(** ** Results *)

Inductive result (E A : Type) : Type :=
| Ok (a : A)
| Err (e : E).
Arguments Ok {E A} a.
Arguments Err {E A} e.

Definition is_ok {E A} (r : result E A) : bool :=
  match r with Ok _ => true | Err _ => false end.

(** ** Package [strings] *)

Module strings.

Definition HasPrefix (s prefix : string) : bool := String.prefix prefix s.

Fixpoint Contains (s substr : string) : bool :=
  if String.prefix substr s then true
  else match s with
       | EmptyString => false
       | String _ t => Contains t substr
       end.

(** [ReplaceAll s old new] for one-character [old] and [new]. *)
Fixpoint ReplaceAll (s : string) (old new : ascii) : string :=
  match s with
  | EmptyString => EmptyString
  | String a t => String (if Ascii.eqb a old then new else a) (ReplaceAll t old new)
  end.

Fixpoint TrimLeft (s : string) (c : ascii) : string :=
  match s with
  | EmptyString => EmptyString
  | String a t => if Ascii.eqb a c then TrimLeft t c else s
  end.

Fixpoint TrimRight (s : string) (c : ascii) : string :=
  match s with
  | EmptyString => EmptyString
  | String a t =>
      match TrimRight t c with
      | EmptyString => if Ascii.eqb a c then EmptyString else String a EmptyString
      | t' => String a t'
      end
  end.

(** [Trim s cutset] for a one-character cutset. *)
Definition Trim (s : string) (c : ascii) : string := TrimRight (TrimLeft s c) c.

Definition TrimPrefix (s prefix : string) : string :=
  if String.prefix prefix s
  then substring (String.length prefix) (String.length s - String.length prefix) s
  else s.

(** [Split s sep] for a one-character separator: never empty. *)
Fixpoint Split (s : string) (sep : ascii) : list string :=
  match s with
  | EmptyString => [EmptyString]
  | String a t =>
      if Ascii.eqb a sep then EmptyString :: Split t sep
      else match Split t sep with
           | x :: r => String a x :: r
           | [] => [String a EmptyString]
           end
  end.

Definition lower_ascii (a : ascii) : ascii :=
  let n := nat_of_ascii a in
  if (65 <=? n)%nat && (n <=? 90)%nat then ascii_of_nat (n + 32) else a.

(** [strings.ToLower] on a string of ASCII bytes, where it lowers the letters
    [A] to [Z] byte by byte. On a string with a byte of 128 or more Go decodes
    UTF-8 and lowers the Unicode letters, which can change the length of the
    string; this is not embedded, and the names and queries of the properties
    that depend on [ToLower] are ASCII. *)
Fixpoint ToLower (s : string) : string :=
  match s with
  | EmptyString => EmptyString
  | String a t => String (lower_ascii a) (ToLower t)
  end.

Definition Join (elems : list string) (sep : string) : string := String.concat sep elems.

(** [len(s)] as a Go [int]. *)
Definition len (s : string) : Z := Z.of_nat (String.length s).

End strings.

(** ** Package [path/filepath] (Unix) *)

Module filepath.

Definition Separator : ascii := "/"%char.

Definition IsAbs (path : string) : bool := strings.HasPrefix path "/".

(** One turn of the scanning loop of [Clean], element by element; [out] is
    the output buffer as a stack of elements, the last one written first. *)
Definition clean_step (rooted : bool) (out : list string) (e : string) : list string :=
  if (e =? "") || (e =? ".") then out
  else if e =? ".." then
    match out with
    | top :: rest => if top =? ".." then e :: out else rest
    | [] => if rooted then [] else [e]
    end
  else e :: out.

Definition clean_stack (rooted : bool) (out : list string) (es : list string) : list string :=
  fold_left (clean_step rooted) es out.

Definition render (rooted : bool) (es : list string) : string :=
  if rooted then "/" ++ String.concat "/" es
  else match es with
       | [] => "."
       | _ => String.concat "/" es
       end.

Definition Clean (path : string) : string :=
  if path =? "" then "."
  else let rooted := IsAbs path in
       render rooted (rev (clean_stack rooted [] (strings.Split path Separator))).

(** [Join(a, b)]: empty elements are ignored, the rest is cleaned. *)
Definition Join (a b : string) : string :=
  if negb (a =? "") then Clean (a ++ "/" ++ b)
  else if negb (b =? "") then Clean b
  else "".

(** [Abs]: [os.Getwd] is taken to succeed, so [Abs] has no error case. *)
Definition Abs (cwd path : string) : string :=
  if IsAbs path then Clean path else Join cwd path.

(** The part of [path] up to and including its last separator. *)
Fixpoint dir_part (path : string) : string :=
  match path with
  | EmptyString => EmptyString
  | String a t =>
      match dir_part t with
      | EmptyString => if Ascii.eqb a Separator then String a EmptyString else EmptyString
      | d => String a d
      end
  end.

Definition Dir (path : string) : string := Clean (dir_part path).

Definition Base (path : string) : string :=
  if path =? "" then "."
  else let p := strings.TrimRight path Separator in
       if p =? "" then "/"
       else last (strings.Split p Separator) "".

(** The elements of a cleaned path. *)
Definition elements (clean : string) : list string :=
  if clean =? "." then []
  else filter (fun e => negb (e =? "")) (strings.Split clean Separator).

(** Position both paths at their first differing elements; the flag tells
    whether the scan stopped on a difference (rather than at an end). *)
Fixpoint first_difference (base targ : list string) : list string * list string * bool :=
  match base, targ with
  | b :: base', t :: targ' =>
      if b =? t then first_difference base' targ' else (base, targ, true)
  | _, _ => (base, targ, false)
  end.

Definition Rel (basepath targpath : string) : result string string :=
  let base := Clean basepath in
  let targ := Clean targpath in
  let cannot := Err ("Rel: can't make " ++ targpath ++ " relative to " ++ basepath) in
  if targ =? base then Ok "."
  else if negb (Bool.eqb (IsAbs base) (IsAbs targ)) then cannot
  else
    let '(b, t, differ) := first_difference (elements base) (elements targ) in
    if differ && (hd "" b =? "..") then cannot
    else match b with
         | [] => Ok (String.concat "/" t)
         | _ => Ok (String.concat "/" (map (fun _ => "..") b ++ t))
         end.

(** [Ext]: the suffix of the last element of [path] that starts at its last
    dot. The scan runs from the end of [path] and stops at a separator; the
    flag tells whether [path] holds a separator. *)
Fixpoint ext_scan (path : string) : string * bool :=
  match path with
  | EmptyString => (EmptyString, false)
  | String a t =>
      match ext_scan t with
      | (EmptyString, false) =>
          if Ascii.eqb a Separator then (EmptyString, true)
          else if Ascii.eqb a "."%char then (path, false)
          else (EmptyString, false)
      | found => found
      end
  end.

Definition Ext (path : string) : string := fst (ext_scan path).

End filepath.

(** ** Package [os]: a file system tree *)

Module os.

#[local] Unset Elimination Schemes.
Inductive node : Type :=
| File (data : string)
| Dir (entries : list (string * node)).
#[local] Set Elimination Schemes.

Inductive errno : Type :=
| ENOENT | ENOTDIR | EEXIST | EISDIR | ENOTEMPTY | EINVAL | EBUSY | ELOOP.

Definition strerror (e : errno) : string :=
  match e with
  | ENOENT => "no such file or directory"
  | ENOTDIR => "not a directory"
  | EEXIST => "file exists"
  | EISDIR => "is a directory"
  | ENOTEMPTY => "directory not empty"
  | EINVAL => "invalid argument"
  | EBUSY => "device or resource busy"
  | ELOOP => "too many levels of symbolic links"
  end.

(** [*PathError.Error()] *)
Definition path_error (op path : string) (e : errno) : string :=
  op ++ " " ++ path ++ ": " ++ strerror e.

Definition IsNotExist (e : errno) : bool :=
  match e with ENOENT => true | _ => false end.

Definition IsExist (e : errno) : bool :=
  match e with EEXIST | ENOTEMPTY => true | _ => false end.

Record FileInfo : Type := {
  Name : string;
  Size : Z;
  IsDir : bool;
}.

Fixpoint assoc (A : Type) (name : string) (es : list (string * A)) : option A :=
  match es with
  | [] => None
  | (k, v) :: es' => if k =? name then Some v else assoc name es'
  end.

Definition remove_entry (A : Type) (name : string) (es : list (string * A)) : list (string * A) :=
  filter (fun kv => negb (fst kv =? name)) es.

Fixpoint replace_entry (A : Type) (name : string) (c : A) (es : list (string * A))
  : list (string * A) :=
  match es with
  | [] => [(name, c)]
  | (k, v) :: es' => if k =? name then (name, c) :: es' else (k, v) :: replace_entry name c es'
  end.

Definition set_entry (A : Type) (name : string) (v : option A) (es : list (string * A))
  : list (string * A) :=
  match v with
  | None => remove_entry name es
  | Some c => replace_entry name c es
  end.

(** Directory entries in the order [ReadDir] and [filepath.Walk] see them:
    sorted by file name. *)
Fixpoint insert_by_name (A : Type) (kv : string * A) (l : list (string * A)) : list (string * A) :=
  match l with
  | [] => [kv]
  | kv' :: l' => if String.ltb (fst kv') (fst kv) then kv' :: insert_by_name kv l'
                 else kv :: l
  end.

Definition sort_by_name (A : Type) (l : list (string * A)) : list (string * A) :=
  fold_right (@insert_by_name A) [] l.

(** Path resolution: the elements of the absolute form of [path]. The empty
    path names nothing. *)
Definition resolve (cwd path : string) : option (list string) :=
  if path =? "" then None
  else Some (filepath.elements (filepath.Abs cwd path)).

Fixpoint find (p : list string) (n : node) : result errno node :=
  match p with
  | [] => Ok n
  | e :: p' =>
      match n with
      | File _ => Err ENOTDIR
      | Dir es => match assoc e es with
                  | None => Err ENOENT
                  | Some c => find p' c
                  end
      end
  end.

(** Replace what sits at [p]: [f] receives the current occupant of the last
    element of [p] in its parent directory and answers with the new one
    ([None] removes the entry). *)
Fixpoint update (p : list string) (f : option node -> result errno (option node)) (n : node)
  : result errno node :=
  match p with
  | [] => Err EBUSY
  | e :: p' =>
      match n with
      | File _ => Err ENOTDIR
      | Dir es =>
          match p' with
          | [] => match f (assoc e es) with
                  | Err err => Err err
                  | Ok v => Ok (Dir (set_entry e v es))
                  end
          | _ :: _ => match assoc e es with
                      | None => Err ENOENT
                      | Some c => match update p' f c with
                                  | Err err => Err err
                                  | Ok c' => Ok (Dir (set_entry e (Some c') es))
                                  end
                      end
          end
      end
  end.

Fixpoint mkdir_all (p : list string) (n : node) : result errno node :=
  match n with
  | File _ => Err ENOTDIR
  | Dir es =>
      match p with
      | [] => Ok n
      | e :: p' =>
          match mkdir_all p' (match assoc e es with Some c => c | None => Dir [] end) with
          | Err err => Err err
          | Ok c' => Ok (Dir (set_entry e (Some c') es))
          end
      end
  end.

(** [FileInfo] of the node at [path]; the size of a directory depends on the
    system and is taken to be 0. *)
Definition info_of (path : string) (n : node) : FileInfo :=
  match n with
  | File data => {| Name := filepath.Base path; Size := strings.len data; IsDir := false |}
  | Dir _ => {| Name := filepath.Base path; Size := 0; IsDir := true |}
  end.

Section Calls.
Variable cwd : string.

Definition at_path (A : Type) (path : string) (k : list string -> result errno A)
  : result errno A :=
  match resolve cwd path with
  | None => Err ENOENT
  | Some p => k p
  end.

(** The node that [path] names: what [Stat], [ReadFile] and [ReadDir] look at. *)
Definition Lookup (fs : node) (path : string) : result errno node :=
  at_path path (fun p => find p fs).

Definition Stat (fs : node) (path : string) : result errno FileInfo :=
  at_path path (fun p =>
    match find p fs with
    | Err e => Err e
    | Ok n => Ok (info_of path n)
    end).

Definition ReadFile (fs : node) (path : string) : result errno string :=
  at_path path (fun p =>
    match find p fs with
    | Err e => Err e
    | Ok (File data) => Ok data
    | Ok (Dir _) => Err EISDIR
    end).

(** The names and nodes of a directory, sorted by name. *)
Definition ReadDir (fs : node) (path : string) : result errno (list (string * node)) :=
  at_path path (fun p =>
    match find p fs with
    | Err e => Err e
    | Ok (File _) => Err ENOTDIR
    | Ok (Dir es) => Ok (sort_by_name es)
    end).

Definition Mkdir (fs : node) (path : string) : result errno node :=
  at_path path (fun p =>
    match p with
    | [] => Err EEXIST
    | _ => update p (fun cur => match cur with
                                | None => Ok (Some (Dir []))
                                | Some _ => Err EEXIST
                                end) fs
    end).

Definition MkdirAll (fs : node) (path : string) : result errno node :=
  at_path path (fun p => mkdir_all p fs).

(** [WriteFile] creates or truncates. *)
Definition WriteFile (fs : node) (path : string) (data : string) : result errno node :=
  at_path path (fun p =>
    match p with
    | [] => Err EISDIR
    | _ => update p (fun cur => match cur with
                                | Some (Dir _) => Err EISDIR
                                | _ => Ok (Some (File data))
                                end) fs
    end).

Definition Create (fs : node) (path : string) : result errno node :=
  WriteFile fs path "".

(** [f.Write] on the file opened at [path]: appends at the file offset. *)
Definition Write (fs : node) (path : string) (chunk : string) : result errno node :=
  at_path path (fun p =>
    update p (fun cur => match cur with
                         | Some (File data) => Ok (Some (File (data ++ chunk)))
                         | Some (Dir _) => Err EISDIR
                         | None => Err ENOENT
                         end) fs).

Definition Remove (fs : node) (path : string) : result errno node :=
  at_path path (fun p =>
    update p (fun cur => match cur with
                         | None => Err ENOENT
                         | Some (File _) => Ok None
                         | Some (Dir []) => Ok None
                         | Some (Dir (_ :: _)) => Err ENOTEMPTY
                         end) fs).

Definition endsWithDot (path : string) : bool :=
  (path =? ".") ||
  match rev (list_ascii_of_string path) with
  | a :: b :: _ => Ascii.eqb a "."%char && Ascii.eqb b "/"%char
  | _ => false
  end.

(** [RemoveAll]: removes the tree at [path]; a missing [path] is no error. *)
Definition RemoveAll (fs : node) (path : string) : result errno node :=
  if path =? "" then Ok fs
  else if endsWithDot path then Err EINVAL
  else at_path path (fun p =>
    match find p fs with
    | Err ENOENT => Ok fs
    | Err e => Err e
    | Ok _ => update p (fun _ => Ok None) fs
    end).

Fixpoint is_prefix (p q : list string) : bool :=
  match p, q with
  | [], _ => true
  | a :: p', b :: q' => (a =? b) && is_prefix p' q'
  | _ :: _, [] => false
  end.

(** [rename(2)]: moves the node at [oldpath] to [newpath], replacing a
    compatible occupant. A directory is not moved below itself; a path
    below a regular file runs through what is no directory. *)
Definition rename_at (po pn : list string) (fs : node) : result errno node :=
  match find po fs with
  | Err e => Err e
  | Ok n =>
      if list_eq_dec string_dec po pn then Ok fs
      else if is_prefix po pn
      then match n with File _ => Err ENOTDIR | Dir _ => Err EINVAL end
      else
        match update pn (fun cur =>
                match cur, n with
                | None, _ => Ok (Some n)
                | Some (File _), File _ => Ok (Some n)
                | Some (File _), Dir _ => Err ENOTDIR
                | Some (Dir _), File _ => Err EISDIR
                | Some (Dir []), Dir _ => Ok (Some n)
                | Some (Dir (_ :: _)), Dir _ => Err ENOTEMPTY
                end) fs with
        | Err e => Err e
        | Ok fs' => update po (fun _ => Ok None) fs'
        end
  end.

Definition Rename (fs : node) (oldpath newpath : string) : result errno node :=
  at_path oldpath (fun po => at_path newpath (fun pn => rename_at po pn fs)).

End Calls.

End os.

(** ** Package [sort] *)

Module sort.

Section Slice.
Variable A : Type.
Variable less : A -> A -> bool.

Fixpoint insert (x : A) (l : list A) : list A :=
  match l with
  | [] => [x]
  | y :: l' => if less x y then x :: l else y :: insert x l'
  end.

(** [sort.Slice]: some ordering of the slice by [less]; the order of
    elements that [less] does not separate is not specified by Go, here it
    is the one of an insertion sort. *)
Definition Slice (l : list A) : list A := fold_right insert [] l.
End Slice.

End sort.

(** ** Package [dtos] *)

Module dtos.

Record FileSystemItem : Type := {
  Name : string;
  Path : string;
  Size : Z;
  IsDir : bool;
}.

Record PaginatedItems : Type := {
  Items : list FileSystemItem;
  Total : Z;
  Page : Z;
  Limit : Z;
  TotalPages : Z;
  HasNext : bool;
  HasPrev : bool;
}.

Record ErrorResponse : Type := {
  Error : string;
  Debug : option string;
}.

(** The values stored in the [map[string]interface{}] payloads. *)
Inductive value : Type :=
| VBool (b : bool)
| VInt (z : Z)
| VStr (s : string).

Record WebSocketMessage : Type := {
  EventType : string;
  Data : list (string * value);
  Timestamp : Z;
}.

End dtos.

(** ** Machine integers *)

Definition int32 (z : Z) : Z := (z + 2 ^ 31) mod 2 ^ 32 - 2 ^ 31.

(** [s[lo:hi]]; [None] is the run-time panic on bounds out of range. *)
Definition slice (A : Type) (s : list A) (lo hi : Z) : option (list A) :=
  if (0 <=? lo)%Z && (lo <=? hi)%Z && (hi <=? Z.of_nat (List.length s))%Z
  then Some (firstn (Z.to_nat (hi - lo)) (skipn (Z.to_nat lo) s))
  else None.

(** ** The service *)

Definition maxChunkSize : Z := 10 * 1024 * 1024.
Definition maxTotalSize : Z := 1 * 1024 * 1024 * 1024 * 1024.
Definition maxSearchLength : Z := 255.

Record PublicFilesService : Type := {
  publicDir : string;
  (** whether [wsHub] is non-nil *)
  wsHub : bool;
}.

(** What the service acts on: the working directory of the process, the file
    system, the messages handed to [wsHub.Broadcast] so far (oldest first) and
    the clock. *)
Record World : Type := {
  cwd : string;
  fs : os.node;
  sent : list dtos.WebSocketMessage;
  now : Z;
}.

Definition with_fs (w : World) (fs' : os.node) : World :=
  {| cwd := cwd w; fs := fs'; sent := sent w; now := now w |}.

(** A call ends with an error response or, on a slice out of range, with a
    run-time panic. *)
Inductive failure : Type :=
| Response (e : dtos.ErrorResponse)
| Panic (msg : string).

Definition response (error : string) (debug : option string) : failure :=
  Response {| dtos.Error := error; dtos.Debug := debug |}.

Definition outcome (A : Type) : Type := result failure A * World.

Definition quote : string := String "034"%char "".
Definition nul : string := String "000"%char "".

Definition dangerousPatterns : list string :=
  [ ".."; "%2e%2e"; "%252e%252e"; "/etc/"; "/root/"; "/home/";
    "\"; ":"; "*"; "?"; quote; "<"; ">"; "|"; nul; "~"; "$"; "&"; ";"; "`"; "'";
    "("; ")"; "{"; "}"; "["; "]" ].

Section Service.
Variable p : PublicFilesService.

Definition ensurePublicDir (w : World) : result os.errno World :=
  match os.Stat (cwd w) (fs w) (publicDir p) with
  | Err e =>
      if os.IsNotExist e then
        match os.MkdirAll (cwd w) (fs w) (publicDir p) with
        | Err e' => Err e'
        | Ok fs' => Ok (with_fs w fs')
        end
      else Ok w
  | Ok _ => Ok w
  end.

(** The loop of [sanitizePathForRead] over the components of [relPath]. *)
Fixpoint check_components (canonical : string) (components : list string)
  : result string string :=
  match components with
  | [] => Ok canonical
  | component :: components' =>
      if strings.HasPrefix component "." && negb (component =? ".")
      then Err "access to hidden files is not allowed"
      else if strings.Contains component nul
              || strings.Contains component "/"
              || strings.Contains component "\"
      then Err "invalid filename characters"
      else check_components canonical components'
  end.

Definition sanitizePathForRead (w : World) (input : string) : result string string :=
  let decoded := input in
  match List.find (strings.Contains decoded) dangerousPatterns with
  | Some pattern => Err ("dangerous pattern detected: " ++ pattern)
  | None =>
      let normalized := strings.Trim (strings.ReplaceAll decoded "\"%char "/"%char) "/"%char in
      if normalized =? "" then Ok (publicDir p)
      else
        let clean := filepath.Join (publicDir p) normalized in
        let canonical := filepath.Abs (cwd w) clean in
        let publicCanonical := filepath.Abs (cwd w) (publicDir p) in
        if negb (strings.HasPrefix canonical publicCanonical)
        then Err "path escape attempt detected"
        else
          match os.Stat (cwd w) (fs w) canonical with
          | Err e =>
              if os.IsNotExist e then Err "directory does not exist"
              else Err ("path resolution failed: " ++ os.path_error "stat" canonical e)
          | Ok stat =>
              if negb (os.IsDir stat) && negb (strings.HasPrefix canonical publicCanonical)
              then Err "path escape attempt detected"
              else
                match filepath.Rel publicCanonical canonical with
                | Err e => Err ("path validation failed: " ++ e)
                | Ok relPath =>
                    check_components canonical (strings.Split relPath filepath.Separator)
                end
          end
  end.

Definition sanitizePathForWrite (w : World) (input : string) : result string string :=
  let decoded := input in
  match List.find (strings.Contains decoded) dangerousPatterns with
  | Some pattern => Err ("dangerous pattern detected: " ++ pattern)
  | None =>
      let normalized := strings.Trim (strings.ReplaceAll decoded "\"%char "/"%char) "/"%char in
      if normalized =? "" then Err "path cannot be empty"
      else
        let clean := filepath.Join (publicDir p) normalized in
        let canonical := filepath.Abs (cwd w) clean in
        let publicCanonical := filepath.Abs (cwd w) (publicDir p) in
        let parent := filepath.Dir canonical in
        if negb (parent =? "")
           && negb (strings.HasPrefix (filepath.Abs (cwd w) parent) publicCanonical)
        then Err "path escape attempt detected"
        else
          let fileName := filepath.Base canonical in
          if strings.HasPrefix fileName "." then Err "cannot create hidden files"
          else if (strings.len fileName >? 255)%Z then Err "filename too long"
          else if strings.Contains fileName nul
                  || strings.Contains fileName "/"
                  || strings.Contains fileName "\"
          then Err "invalid filename characters"
          else Ok canonical
  end.

Definition notifyWebSocket (w : World) (eventType : string) (data : list (string * dtos.value))
  : World :=
  if wsHub p
  then {| cwd := cwd w; fs := fs w; now := now w;
          sent := sent w ++ [ {| dtos.EventType := eventType; dtos.Data := data;
                                 dtos.Timestamp := now w |} ] |}
  else w.

(** The closing block of [listItemsImpl] and of [SearchItems], which differ
    in the upper bound of [limit] only. *)
Definition paginate (maxLimit : Z) (items : list dtos.FileSystemItem) (pageVal limitVal : Z)
  : result failure dtos.PaginatedItems :=
  let page := int32 pageVal in
  let page := if (page <? 1)%Z then 1%Z else page in
  let limit := int32 limitVal in
  let limit := if (limit <? 10)%Z then 10%Z else limit in
  let limit := if (limit >? maxLimit)%Z then maxLimit else limit in
  let total := int32 (Z.of_nat (List.length items)) in
  let totalPages := Z.quot (int32 (total + limit - 1)) limit in
  let start := int32 ((page - 1) * limit) in
  let end_ := int32 (start + limit) in
  let end_ := if (end_ >? total)%Z then total else end_ in
  let paginatedItems :=
    if (start <? Z.of_nat (List.length items))%Z then slice items start end_ else Some [] in
  match paginatedItems with
  | None => Err (Panic "slice bounds out of range")
  | Some paginatedItems =>
      Ok {| dtos.Items := paginatedItems;
            dtos.Total := total;
            dtos.Page := page;
            dtos.Limit := limit;
            dtos.TotalPages := totalPages;
            dtos.HasNext := (page <? totalPages)%Z;
            dtos.HasPrev := (page >? 1)%Z |}
  end.

Definition hidden_name (name : string) : bool :=
  strings.HasPrefix name "." || (name =? "..") || (name =? ".").

Definition item_less (a b : dtos.FileSystemItem) : bool :=
  if negb (Bool.eqb (dtos.IsDir a) (dtos.IsDir b)) then dtos.IsDir a
  else String.ltb (strings.ToLower (dtos.Name a)) (strings.ToLower (dtos.Name b)).

(** The loop of [listItemsImpl] over the directory entries. *)
Fixpoint list_entries (base : string) (entries : list (string * os.node))
  : list dtos.FileSystemItem :=
  match entries with
  | [] => []
  | (name, n) :: entries' =>
      if hidden_name name then list_entries base entries'
      else
        let filePath := filepath.Join base name in
        let info := os.info_of filePath n in
        match filepath.Rel (publicDir p) filePath with
        | Err _ => list_entries base entries'
        | Ok relPath =>
            {| dtos.Name := name; dtos.Path := relPath;
               dtos.Size := os.Size info; dtos.IsDir := os.IsDir info |}
            :: list_entries base entries'
        end
  end.

Definition listItemsImpl (w : World) (pathPtr : option string) (pageVal limitVal : Z)
  : outcome dtos.PaginatedItems :=
  match ensurePublicDir w with
  | Err e =>
      let msg := os.path_error "mkdir" (publicDir p) e in
      (Err (response msg (Some msg)), w)
  | Ok w =>
      let sanitized :=
        match pathPtr with
        | None => Ok (publicDir p)
        | Some path => sanitizePathForRead w path
        end in
      match sanitized with
      | Err e => (Err (response e (Some e)), w)
      | Ok base =>
          match os.Stat (cwd w) (fs w) base with
          | Err e =>
              if os.IsNotExist e
              then (Err (response "Directory not found"
                           (Some ("Path does not exist: " ++ base))), w)
              else let msg := os.path_error "stat" base e in
                   (Err (response ("Failed to read directory: " ++ msg) (Some msg)), w)
          | Ok info =>
              if negb (os.IsDir info)
              then (Err (response "Path is not a directory"
                           (Some ("Path is not a directory: " ++ base))), w)
              else
                match os.ReadDir (cwd w) (fs w) base with
                | Err e =>
                    let msg := os.path_error "open" base e in
                    (Err (response ("Failed to read directory: " ++ msg) (Some msg)), w)
                | Ok entries =>
                    let items := list_entries base entries in
                    let items := sort.Slice item_less items in
                    (paginate 100 items pageVal limitVal, w)
                end
          end
      end
  end.

Definition ListItemsRoot (w : World) (pageVal limitVal : Z) : outcome dtos.PaginatedItems :=
  listItemsImpl w None pageVal limitVal.

Definition ListItems (w : World) (path : string) (pageVal limitVal : Z)
  : outcome dtos.PaginatedItems :=
  if (path =? "") || (path =? "/") || (path =? "*")
  then listItemsImpl w None pageVal limitVal
  else listItemsImpl w (Some path) pageVal limitVal.

(** *** [filepath.Walk] *)

(** What a [WalkFunc] returns here: [nil] or [filepath.SkipDir]. *)
Inductive walk_signal : Type := Next | SkipDir.

Section Walk.
Variable S : Type.
(** The callback with the state it closes over; it is only ever called
    with a nil error, since [Lstat] and [ReadDir] cannot fail on a node
    that is in the tree. *)
Variable walkFn : string -> os.FileInfo -> S -> S * walk_signal.

Definition is_dir (n : os.node) : bool :=
  match n with os.Dir _ => true | os.File _ => false end.

(** The loop of [walk] over the sorted names of a directory: a child that
    is not a directory and answers [SkipDir] ends the loop. *)
Fixpoint walk_names (path : string)
    (children : list (string * (bool * (string -> S -> S * walk_signal)))) (st : S)
  : S * walk_signal :=
  match children with
  | [] => (st, Next)
  | (name, (isdir, walk_child)) :: children' =>
      let filename := filepath.Join path name in
      match walk_child filename st with
      | (st', SkipDir) => if isdir then walk_names path children' st' else (st', SkipDir)
      | (st', Next) => walk_names path children' st'
      end
  end.

Fixpoint walk (n : os.node) (path : string) (st : S) : S * walk_signal :=
  match n with
  | os.File _ => walkFn path (os.info_of path n) st
  | os.Dir entries =>
      match walkFn path (os.info_of path n) st with
      | (st', SkipDir) => (st', SkipDir)
      | (st', Next) =>
          walk_names path
            (os.sort_by_name (map (fun kv => (fst kv, (is_dir (snd kv), walk (snd kv)))) entries))
            st'
      end
  end.

(** [Walk(root, fn)]; when [Lstat(root)] fails the callback is called once
    with that error, and both callbacks of this service answer nil then. *)
Definition Walk (w : World) (root : string) (st : S) : S :=
  match os.resolve (cwd w) root with
  | None => st
  | Some r =>
      match os.find r (fs w) with
      | Err _ => st
      | Ok n => fst (walk n root st)
      end
  end.
End Walk.

(** The callback of [SearchItems]; its state is [results]. *)
Definition search_visit (queryLower : string) (pageVal limitVal : Z)
    (path : string) (info : os.FileInfo) (results : list dtos.FileSystemItem)
  : list dtos.FileSystemItem * walk_signal :=
  let name := os.Name info in
  if hidden_name name then (results, Next)
  else if (Z.of_nat (List.length results) >=? int32 (int32 pageVal * int32 limitVal))%Z
  then (results, SkipDir)
  else if strings.Contains (strings.ToLower name) queryLower then
    match filepath.Rel (publicDir p) path with
    | Err _ => (results, Next)
    | Ok relPath =>
        ((results ++ [ {| dtos.Name := name; dtos.Path := relPath;
                          dtos.Size := os.Size info; dtos.IsDir := os.IsDir info |} ])%list, Next)
    end
  else (results, Next).

Definition SearchItems (w : World) (query : string) (pageVal limitVal : Z)
  : outcome dtos.PaginatedItems :=
  let queryLower := strings.ToLower query in
  if (queryLower =? "") || (strings.len queryLower >? maxSearchLength)%Z
  then (Err (response "Search query must be 1-255 characters" None), w)
  else
    let results := Walk (search_visit queryLower pageVal limitVal) w (publicDir p) [] in
    (paginate 500 results pageVal limitVal, w).

(** *** Mutations *)

(** [fmt.Sprintf("%d", z)] *)
Definition decimal (z : Z) : string := NilZero.string_of_int (Z.to_int z).

Definition generateEtag (filePath : string) (modified : option Z) (size : Z) : string :=
  match modified with
  | Some m => quote ++ filePath ++ "-" ++ decimal m ++ "-" ++ decimal size ++ quote
  | None => quote ++ filePath ++ "-" ++ decimal size ++ quote
  end.

(** [relPath, _ := filepath.Rel(p.publicDir, target)] followed by
    [strings.TrimPrefix(relPath, "/")]. *)
Definition rel_path (target : string) : string :=
  strings.TrimPrefix
    (match filepath.Rel (publicDir p) target with Ok r => r | Err _ => "" end) "/".

Definition payload : Type := list (string * dtos.value).

Definition DeleteItem (w : World) (path : string) : outcome payload :=
  match sanitizePathForRead w path with
  | Err e => (Err (response e (Some e)), w)
  | Ok target =>
      match os.Stat (cwd w) (fs w) target with
      | Err _ =>
          (Err (response "File not found" (Some ("Target does not exist: " ++ target))), w)
      | Ok info =>
          match (if os.IsDir info
                 then os.RemoveAll (cwd w) (fs w) target
                 else os.Remove (cwd w) (fs w) target) with
          | Err e =>
              let msg := os.path_error "remove" target e in
              (Err (response ("Failed to delete item: " ++ msg) (Some msg)), w)
          | Ok fs' =>
              let w := with_fs w fs' in
              let relPath := rel_path target in
              let w := notifyWebSocket w "file_deleted"
                         [("path", dtos.VStr relPath); ("deleted_at", dtos.VInt (now w))] in
              (Ok [("success", dtos.VBool true); ("path", dtos.VStr relPath)], w)
          end
      end
  end.

(** An [io.Reader]: what the successive calls to [Read] deliver. Past the
    end of the list [Read] reports [(0, io.EOF)]. *)
Inductive read_error : Type :=
| EOF
| ReadFailure (msg : string).

Record read_result : Type := {
  chunk : string;
  read_err : option read_error;
}.

Definition Reader : Type := list read_result.

(** [os.Remove(file)] with its result dropped. *)
Definition remove_quietly (w : World) (fs0 : os.node) (file : string) : os.node :=
  match os.Remove (cwd w) fs0 file with
  | Ok fs' => fs'
  | Err _ => fs0
  end.

(** The read loop of [UploadFile]. *)
Fixpoint upload_loop (w : World) (file : string) (fs0 : os.node) (totalBytes : Z)
    (data : Reader) : result failure Z * os.node :=
  match data with
  | [] => (Ok totalBytes, fs0)
  | r :: data' =>
      let n := strings.len (chunk r) in
      let totalBytes' := if (n >? 0)%Z then (totalBytes + n)%Z else totalBytes in
      if (n >? 0)%Z && (totalBytes' >? maxTotalSize)%Z
      then (Err (response "File size exceeds maximum limit (1024.00 GB)"
                   (Some ("Total bytes: " ++ decimal totalBytes'))),
            remove_quietly w fs0 file)
      else
        match (if (n >? 0)%Z then os.Write (cwd w) fs0 file (chunk r) else Ok fs0) with
        | Err e =>
            let msg := os.path_error "write" file e in
            (Err (response ("Failed to write chunk: " ++ msg) (Some msg)),
             remove_quietly w fs0 file)
        | Ok fs1 =>
            match read_err r with
            | Some (ReadFailure msg) =>
                (Err (response ("Failed to read chunk: " ++ msg) (Some msg)),
                 remove_quietly w fs1 file)
            | Some EOF => (Ok totalBytes', fs1)
            | None => upload_loop w file fs1 totalBytes' data'
            end
        end
  end.

Definition UploadFile (w : World) (filePath : string) (data : Reader) : outcome payload :=
  match sanitizePathForWrite w filePath with
  | Err e => (Err (response e (Some e)), w)
  | Ok file =>
      match os.MkdirAll (cwd w) (fs w) (filepath.Dir file) with
      | Err e =>
          let msg := os.path_error "mkdir" (filepath.Dir file) e in
          (Err (response ("Failed to create parent directories: " ++ msg) (Some msg)), w)
      | Ok fs1 =>
          match os.Create (cwd w) fs1 file with
          | Err e =>
              let msg := os.path_error "open" file e in
              (Err (response ("Failed to create file: " ++ msg) (Some msg)), with_fs w fs1)
          | Ok fs2 =>
              match upload_loop w file fs2 0 data with
              | (Err f, fs3) => (Err f, with_fs w fs3)
              | (Ok totalBytes, fs3) =>
                  let w := with_fs w fs3 in
                  let relPath := rel_path file in
                  let w := notifyWebSocket w "file_created"
                             [("path", dtos.VStr relPath); ("size", dtos.VInt totalBytes)] in
                  (Ok [("success", dtos.VBool true); ("path", dtos.VStr relPath);
                       ("size_bytes", dtos.VInt totalBytes)], w)
              end
          end
      end
  end.

Definition CreateFolder (w : World) (path : string) : outcome payload :=
  match sanitizePathForWrite w path with
  | Err e => (Err (response e (Some e)), w)
  | Ok dirPath =>
      match os.MkdirAll (cwd w) (fs w) (filepath.Dir dirPath) with
      | Err e =>
          let msg := os.path_error "mkdir" (filepath.Dir dirPath) e in
          (Err (response ("Failed to create parent directories: " ++ msg) (Some msg)), w)
      | Ok fs1 =>
          let w := with_fs w fs1 in
          match os.Mkdir (cwd w) fs1 dirPath with
          | Err e =>
              let msg := os.path_error "mkdir" dirPath e in
              if negb (os.IsExist e)
              then (Err (response ("Failed to create folder: " ++ msg) (Some msg)), w)
              else (Err (response "Directory already exists" (Some msg)), w)
          | Ok fs2 =>
              let w := with_fs w fs2 in
              let relPath := rel_path dirPath in
              let createdAt := now w in
              let w := notifyWebSocket w "folder_created"
                         [("path", dtos.VStr relPath); ("created_at", dtos.VInt createdAt)] in
              (Ok [("success", dtos.VBool true); ("path", dtos.VStr relPath);
                   ("type", dtos.VStr "directory"); ("created_at", dtos.VInt createdAt)], w)
          end
      end
  end.

Definition CreateFile (w : World) (path : string) : outcome payload :=
  match sanitizePathForWrite w path with
  | Err e => (Err (response e (Some e)), w)
  | Ok filePath =>
      match os.MkdirAll (cwd w) (fs w) (filepath.Dir filePath) with
      | Err e =>
          let msg := os.path_error "mkdir" (filepath.Dir filePath) e in
          (Err (response ("Failed to create parent directories: " ++ msg) (Some msg)), w)
      | Ok fs1 =>
          let w := with_fs w fs1 in
          match os.WriteFile (cwd w) fs1 filePath "" with
          | Err e =>
              let msg := os.path_error "open" filePath e in
              (Err (response ("Failed to create file: " ++ msg) (Some msg)), w)
          | Ok fs2 =>
              let w := with_fs w fs2 in
              let relPath := rel_path filePath in
              let createdAt := now w in
              let w := notifyWebSocket w "file_created"
                         [("path", dtos.VStr relPath); ("size", dtos.VInt 0);
                          ("type", dtos.VStr "file"); ("created_at", dtos.VInt createdAt);
                          ("etag", dtos.VStr (generateEtag filePath None 0))] in
              (Ok [("success", dtos.VBool true); ("path", dtos.VStr relPath);
                   ("type", dtos.VStr "file"); ("size_bytes", dtos.VInt 0);
                   ("created_at", dtos.VInt createdAt);
                   ("etag", dtos.VStr (generateEtag filePath None 0))], w)
          end
      end
  end.

Definition RenameFile (w : World) (oldPath newPath : string) : outcome payload :=
  match sanitizePathForWrite w oldPath with
  | Err e => (Err (response e (Some e)), w)
  | Ok oldPathSanitized =>
      match sanitizePathForWrite w newPath with
      | Err e => (Err (response e (Some e)), w)
      | Ok newPathSanitized =>
          match os.Stat (cwd w) (fs w) oldPathSanitized with
          | Err _ =>
              (Err (response "Source file does not exist"
                      (Some "Source file does not exist")), w)
          | Ok _ =>
              match os.Stat (cwd w) (fs w) newPathSanitized with
              | Ok _ =>
                  (Err (response "Destination file already exists"
                          (Some "Destination file already exists")), w)
              | Err _ =>
                  match os.Rename (cwd w) (fs w) oldPathSanitized newPathSanitized with
                  | Err e =>
                      let msg := "rename " ++ oldPathSanitized ++ " " ++ newPathSanitized
                                 ++ ": " ++ os.strerror e in
                      (Err (response ("Failed to rename file: " ++ msg) (Some msg)), w)
                  | Ok fs' =>
                      let w := with_fs w fs' in
                      let oldRel := rel_path oldPathSanitized in
                      let newRel := rel_path newPathSanitized in
                      let w := notifyWebSocket w "file_renamed"
                                 [("old_path", dtos.VStr oldRel); ("new_path", dtos.VStr newRel);
                                  ("timestamp", dtos.VInt (now w))] in
                      (Ok [("success", dtos.VBool true);
                           ("message", dtos.VStr "File renamed successfully");
                           ("old_path", dtos.VStr oldRel); ("new_path", dtos.VStr newRel)], w)
                  end
              end
          end
      end
  end.

Definition CopyFile (w : World) (source destination : string) : outcome payload :=
  match sanitizePathForWrite w source with
  | Err e => (Err (response e (Some e)), w)
  | Ok sourcePath =>
      match sanitizePathForWrite w destination with
      | Err e => (Err (response e (Some e)), w)
      | Ok destPath =>
          match os.Stat (cwd w) (fs w) sourcePath with
          | Err _ =>
              (Err (response "Source file does not exist"
                      (Some "Source file does not exist")), w)
          | Ok _ =>
              match os.Stat (cwd w) (fs w) destPath with
              | Ok _ =>
                  (Err (response "Destination file already exists"
                          (Some "Destination file already exists")), w)
              | Err _ =>
                  (* os.MkdirAll(filepath.Dir(destPath), 0755), result dropped *)
                  let fs1 := match os.MkdirAll (cwd w) (fs w) (filepath.Dir destPath) with
                             | Ok fs1 => fs1
                             | Err _ => fs w
                             end in
                  let w := with_fs w fs1 in
                  match os.ReadFile (cwd w) fs1 sourcePath with
                  | Err e =>
                      let msg := os.path_error "read" sourcePath e in
                      (Err (response ("Failed to copy file: " ++ msg) (Some msg)), w)
                  | Ok data =>
                      match os.WriteFile (cwd w) fs1 destPath data with
                      | Err e =>
                          let msg := os.path_error "open" destPath e in
                          (Err (response ("Failed to copy file: " ++ msg) (Some msg)), w)
                      | Ok fs2 =>
                          let w := with_fs w fs2 in
                          let size := match os.Stat (cwd w) fs2 destPath with
                                      | Ok info => os.Size info
                                      | Err _ => 0%Z
                                      end in
                          let sourceRel := rel_path sourcePath in
                          let destRel := rel_path destPath in
                          let w := notifyWebSocket w "file_copied"
                                     [("source_path", dtos.VStr sourceRel);
                                      ("destination_path", dtos.VStr destRel);
                                      ("size", dtos.VInt size);
                                      ("timestamp", dtos.VInt (now w))] in
                          (Ok [("success", dtos.VBool true);
                               ("message", dtos.VStr "File copied successfully");
                               ("source", dtos.VStr sourceRel);
                               ("destination", dtos.VStr destRel);
                               ("size", dtos.VInt size);
                               ("bytes_copied", dtos.VInt (strings.len data))], w)
                      end
                  end
              end
          end
      end
  end.

(** *** Reading and editing files *)

Definition DownloadItem (w : World) (path : string) : outcome string :=
  match sanitizePathForRead w path with
  | Err e => (Err (response e (Some e)), w)
  | Ok filePath =>
      let notFound :=
        (Err (response "File not found"
                (Some ("File does not exist or is directory: " ++ filePath))), w) in
      match os.Stat (cwd w) (fs w) filePath with
      | Err _ => notFound
      | Ok info =>
          if os.IsDir info then notFound
          else
            match os.ReadFile (cwd w) (fs w) filePath with
            | Err e =>
                let msg := os.path_error "read" filePath e in
                (Err (response ("Failed to read file: " ++ msg) (Some msg)), w)
            | Ok data => (Ok data, w)
            end
      end
  end.

(** [allowedEditExtensions[ext]]: a missing key reads as [false]. *)
Definition allowedEditExtensions (ext : string) : bool :=
  existsb (String.eqb ext)
    [ "txt"; "md"; "json"; "yaml"; "yml"; "toml";
      "html"; "css"; "js"; "ts"; "jsx"; "tsx"; "xml";
      "csv"; "ini"; "env"; "sql"; "rs"; "py"; "go";
      "java"; "cpp"; "h"; "hpp"; "c" ].

(** The message of the panic of a method call on a nil [os.FileInfo]: what
    [info, _ := os.Stat(...)] followed by [info.Size()] ends in when [Stat]
    fails. *)
Definition nil_dereference : string :=
  "runtime error: invalid memory address or nil pointer dereference".

Definition EditFile (w : World) (filePath content : string) : outcome payload :=
  match sanitizePathForWrite w filePath with
  | Err e => (Err (response e (Some e)), w)
  | Ok file =>
      match os.Stat (cwd w) (fs w) file with
      | Err _ =>
          (Err (response "File not found" (Some ("File does not exist: " ++ file))), w)
      | Ok _ =>
          let ext := strings.TrimPrefix (filepath.Ext file) "." in
          if negb (allowedEditExtensions ext)
          then (Err (response ("File type not editable: ." ++ ext)
                       (Some ("Unsupported extension: " ++ ext))), w)
          else if (strings.len content >? 10 * 1024 * 1024)%Z
          then (Err (response "File content too large (maximum 10MB)"
                       (Some ("Content size: " ++ decimal (strings.len content) ++ " bytes"))), w)
          else
            match os.WriteFile (cwd w) (fs w) file content with
            | Err e =>
                let msg := os.path_error "open" file e in
                (Err (response ("Failed to write file: " ++ msg) (Some msg)), w)
            | Ok fs' =>
                let w := with_fs w fs' in
                match os.Stat (cwd w) fs' file with
                | Err _ => (Err (Panic nil_dereference), w)
                | Ok newInfo =>
                    let relPath := rel_path file in
                    let w := notifyWebSocket w "file_updated"
                               [("path", dtos.VStr relPath);
                                ("size", dtos.VInt (os.Size newInfo))] in
                    (Ok [("success", dtos.VBool true); ("path", dtos.VStr relPath);
                         ("size", dtos.VInt (os.Size newInfo))], w)
                end
            end
      end
  end.

(** *** Moving *)

Definition MoveFile (w : World) (source destination : string) : outcome payload :=
  match sanitizePathForWrite w source with
  | Err e => (Err (response e (Some e)), w)
  | Ok sourcePath =>
      match sanitizePathForWrite w destination with
      | Err e => (Err (response e (Some e)), w)
      | Ok destPath =>
          match os.Stat (cwd w) (fs w) sourcePath with
          | Err _ =>
              (Err (response "Source file does not exist"
                      (Some "Source file does not exist")), w)
          | Ok _ =>
              match os.Stat (cwd w) (fs w) destPath with
              | Ok _ =>
                  (Err (response "Destination file already exists"
                          (Some "Destination file already exists")), w)
              | Err _ =>
                  (* os.MkdirAll(filepath.Dir(destPath), 0755), result dropped *)
                  let fs1 := match os.MkdirAll (cwd w) (fs w) (filepath.Dir destPath) with
                             | Ok fs1 => fs1
                             | Err _ => fs w
                             end in
                  let w := with_fs w fs1 in
                  match os.Rename (cwd w) fs1 sourcePath destPath with
                  | Err e =>
                      let msg := "rename " ++ sourcePath ++ " " ++ destPath
                                 ++ ": " ++ os.strerror e in
                      (Err (response ("Failed to move file: " ++ msg) (Some msg)), w)
                  | Ok fs2 =>
                      let w := with_fs w fs2 in
                      match os.Stat (cwd w) fs2 destPath with
                      | Err _ => (Err (Panic nil_dereference), w)
                      | Ok info =>
                          let sourceRel := rel_path sourcePath in
                          let destRel := rel_path destPath in
                          let w := notifyWebSocket w "file_moved"
                                     [("source_path", dtos.VStr sourceRel);
                                      ("destination_path", dtos.VStr destRel);
                                      ("size", dtos.VInt (os.Size info));
                                      ("timestamp", dtos.VInt (now w))] in
                          (Ok [("success", dtos.VBool true);
                               ("message", dtos.VStr "File moved successfully");
                               ("source", dtos.VStr sourceRel);
                               ("destination", dtos.VStr destRel);
                               ("size", dtos.VInt (os.Size info))], w)
                      end
                  end
              end
          end
      end
  end.

Definition RenameFolder (w : World) (oldPath newPath : string) : outcome payload :=
  RenameFile w oldPath newPath.

Definition MoveFolder (w : World) (source destination : string) : outcome payload :=
  MoveFile w source destination.

(** *** Folders *)

(** [copyDirectory]: the error it returns, if any, as [err.Error()], and the
    file system it leaves. The recursion follows the directories it reads
    from the file system as it is at that moment; [depth] bounds its nesting
    and [None] tells that the bound was reached. An error of the operating
    system carries the path of the call that failed. *)
Fixpoint copyDirectory (depth : nat) (w : World) (fs0 : os.node) (src dst : string)
  : option (option string * os.node) :=
  match depth with
  | O => None
  | S depth' =>
      match os.ReadDir (cwd w) fs0 src with
      | Err e => Some (Some (os.path_error "open" src e), fs0)
      | Ok entries =>
          match os.MkdirAll (cwd w) fs0 dst with
          | Err e => Some (Some (os.path_error "mkdir" dst e), fs0)
          | Ok fs1 =>
              (fix copy_entries (entries : list (string * os.node)) (fs1 : os.node)
                 : option (option string * os.node) :=
                 match entries with
                 | [] => Some (None, fs1)
                 | (name, entry) :: entries' =>
                     let srcPath := filepath.Join src name in
                     let dstPath := filepath.Join dst name in
                     if is_dir entry then
                       match copyDirectory depth' w fs1 srcPath dstPath with
                       | None => None
                       | Some (Some err, fs2) => Some (Some err, fs2)
                       | Some (None, fs2) => copy_entries entries' fs2
                       end
                     else
                       match os.ReadFile (cwd w) fs1 srcPath with
                       | Err e => Some (Some (os.path_error "read" srcPath e), fs1)
                       | Ok data =>
                           match os.WriteFile (cwd w) fs1 dstPath data with
                           | Err e => Some (Some (os.path_error "open" dstPath e), fs1)
                           | Ok fs2 => copy_entries entries' fs2
                           end
                       end
                 end) entries fs1
          end
      end
  end.

Definition CopyFolder (depth : nat) (w : World) (source destination : string)
  : option (outcome payload) :=
  match sanitizePathForWrite w source with
  | Err e => Some (Err (response e (Some e)), w)
  | Ok sourcePath =>
      match sanitizePathForWrite w destination with
      | Err e => Some (Err (response e (Some e)), w)
      | Ok destPath =>
          match os.Stat (cwd w) (fs w) sourcePath with
          | Err _ =>
              Some (Err (response "Source folder does not exist"
                           (Some "Source folder does not exist")), w)
          | Ok _ =>
              match os.Stat (cwd w) (fs w) destPath with
              | Ok _ =>
                  Some (Err (response "Destination folder already exists"
                               (Some "Destination folder already exists")), w)
              | Err _ =>
                  (* os.MkdirAll(filepath.Dir(destPath), 0755), result dropped *)
                  let fs1 := match os.MkdirAll (cwd w) (fs w) (filepath.Dir destPath) with
                             | Ok fs1 => fs1
                             | Err _ => fs w
                             end in
                  match copyDirectory depth w fs1 sourcePath destPath with
                  | None => None
                  | Some (Some err, fs2) =>
                      Some (Err (response ("Failed to copy folder: " ++ err) (Some err)),
                            with_fs w fs2)
                  | Some (None, fs2) =>
                      let w := with_fs w fs2 in
                      match os.Stat (cwd w) fs2 destPath with
                      | Err _ => Some (Err (Panic nil_dereference), w)
                      | Ok info =>
                          let sourceRel := rel_path sourcePath in
                          let destRel := rel_path destPath in
                          let w := notifyWebSocket w "folder_copied"
                                     [("source_path", dtos.VStr sourceRel);
                                      ("destination_path",
                                       dtos.VStr (strings.TrimPrefix destPath "/"));
                                      ("size", dtos.VInt (os.Size info));
                                      ("timestamp", dtos.VInt (now w))] in
                          Some (Ok [("success", dtos.VBool true);
                                    ("message", dtos.VStr "Folder copied successfully");
                                    ("source", dtos.VStr sourceRel);
                                    ("destination", dtos.VStr destRel);
                                    ("size", dtos.VInt (os.Size info))], w)
                      end
                  end
              end
          end
      end
  end.

(** The loop of [UploadFolder] over [files], a [map[string][]byte]: the list
    holds its entries in the order in which the [range] visits them, which Go
    leaves open. *)
Fixpoint upload_files (w : World) (folder : string) (files : list (string * string))
    (fs0 : os.node) (uploadedCount : Z) : os.node * Z :=
  match files with
  | [] => (fs0, uploadedCount)
  | (fileName, fileData) :: files' =>
      let filePath := filepath.Join folder fileName in
      match os.MkdirAll (cwd w) fs0 (filepath.Dir filePath) with
      | Err _ => upload_files w folder files' fs0 uploadedCount
      | Ok fs1 =>
          match os.WriteFile (cwd w) fs1 filePath fileData with
          | Err _ => upload_files w folder files' fs1 uploadedCount
          | Ok fs2 => upload_files w folder files' fs2 (uploadedCount + 1)
          end
      end
  end.

Definition UploadFolder (w : World) (folderPath : string) (files : list (string * string))
  : outcome payload :=
  match sanitizePathForWrite w folderPath with
  | Err e => (Err (response e (Some e)), w)
  | Ok folderPathSanitized =>
      match os.MkdirAll (cwd w) (fs w) folderPathSanitized with
      | Err e =>
          let msg := os.path_error "mkdir" folderPathSanitized e in
          (Err (response ("Failed to create folder: " ++ msg) (Some msg)), w)
      | Ok fs1 =>
          let '(fs2, uploadedCount) := upload_files w folderPathSanitized files fs1 0 in
          let w := with_fs w fs2 in
          let relPath := rel_path folderPathSanitized in
          let createdAt := now w in
          let w := notifyWebSocket w "folder_uploaded"
                     [("path", dtos.VStr relPath); ("files_count", dtos.VInt uploadedCount);
                      ("created_at", dtos.VInt createdAt)] in
          (Ok [("success", dtos.VBool true); ("path", dtos.VStr relPath);
               ("type", dtos.VStr "directory"); ("files_count", dtos.VInt uploadedCount);
               ("created_at", dtos.VInt createdAt)], w)
      end
  end.

(** The callback of [DownloadFolder]; its state is [files], a
    [map[string][]byte] kept as the list of its entries: [files[relPath] = data]
    replaces the entry of [relPath] or adds one. *)
Definition download_visit (w : World) (folder : string)
    (path : string) (info : os.FileInfo) (files : list (string * string))
  : list (string * string) * walk_signal :=
  if negb (os.IsDir info) then
    match filepath.Rel folder path with
    | Err _ => (files, Next)
    | Ok relPath =>
        match os.ReadFile (cwd w) (fs w) path with
        | Err _ => (files, Next)
        | Ok data => (os.replace_entry relPath data files, Next)
        end
    end
  else (files, Next).

Definition DownloadFolder (w : World) (folderPath : string)
  : outcome (list (string * string)) :=
  match sanitizePathForRead w folderPath with
  | Err e => (Err (response e (Some e)), w)
  | Ok folderPathSanitized =>
      let notFound :=
        (Err (response "Folder not found or is not a directory"
                (Some ("Folder does not exist or is not directory: "
                       ++ folderPathSanitized))), w) in
      match os.Stat (cwd w) (fs w) folderPathSanitized with
      | Err _ => notFound
      | Ok info =>
          if negb (os.IsDir info) then notFound
          else (Ok (Walk (download_visit w folderPathSanitized) w folderPathSanitized []), w)
      end
  end.

End Service.

(** ** The WebSocket hub

    [services/public_files/websocket.go]. The goroutine of the hub ([Run]),
    the handler and the reader of each connection ([HandleConnection] with
    [writePump], [readPump]) and the callers of [Broadcast] run concurrently
    and meet at channels only. The embedding is a transition system: a state
    holds the buffers of the channels, the map of the hub, what each
    connection has been sent, and the place in its code where each goroutine
    stands; an event is one goroutine doing its next channel operation or its
    next call on the connection. An event that the goroutine cannot do in the
    state - it stands elsewhere, or the operation blocks - has no successor.

    Conventions.
    - A [*Client] is the position of the client in [heap], the clients made
      so far.
    - A buffered channel is its buffer, oldest first, and whether it is
      closed; a send to a waiting receiver is a send followed by a receive.
      Sending on a closed channel and closing a closed channel are run-time
      panics.
    - The two sides of an unbuffered channel meet in one event, which
      includes what the hub does with the client before it returns to its
      [select]: no other goroutine reads or writes what that code touches.
    - The order in which [range] visits the map of clients and the case that
      [select] takes among the ready ones are left to the events, as are the
      results of [ReadJSON] and [WriteJSON], the ids and the clock. The
      mutexes order nothing that the events do not: [h.mu] is taken by the
      goroutine of the hub only, [client.mu] by the reader only. *)

Module hub.

(** What [ReadJSON] decodes into a [Data] of type [interface{}]; an object
    holds each key once. *)
#[local] Unset Elimination Schemes.
Inductive json : Type :=
| JNull
| JBool (b : bool)
| JNumber (literal : string)
| JString (s : string)
| JArray (items : list json)
| JObject (fields : list (string * json)).
#[local] Set Elimination Schemes.

(** A message read from a connection. *)
Record Incoming : Type := {
  EventType : string;
  Data : json;
}.

(** A [chan interface{}] that carries messages. *)
Record channel : Type := {
  buffer : list dtos.WebSocketMessage;
  closed : bool;
}.

Definition make : channel := {| buffer := []; closed := false |}.

Definition send_on_closed : string := "send on closed channel".
Definition close_of_closed : string := "close of closed channel".

(** [ch <- m] on a channel of capacity [cap]: [None] while it blocks. *)
Definition send (cap : nat) (ch : channel) (m : dtos.WebSocketMessage)
  : option (result string channel) :=
  if closed ch then Some (Err send_on_closed)
  else if Nat.ltb (List.length (buffer ch)) cap
       then Some (Ok {| buffer := buffer ch ++ [m]; closed := false |})
       else None.

(** [select { case ch <- m: default: }] *)
Definition offer (cap : nat) (ch : channel) (m : dtos.WebSocketMessage)
  : result string channel :=
  match send cap ch m with
  | Some r => r
  | None => Ok ch
  end.

(** [close(ch)] *)
Definition close (ch : channel) : result string channel :=
  if closed ch then Err close_of_closed
  else Ok {| buffer := buffer ch; closed := true |}.

(** [m, ok := <-ch]: [None] while it blocks, [Some (None, _)] on a closed
    and drained channel. *)
Definition receive (ch : channel) : option (option dtos.WebSocketMessage * channel) :=
  match buffer ch with
  | m :: rest => Some (Some m, {| buffer := rest; closed := closed ch |})
  | [] => if closed ch then Some (None, ch) else None
  end.

(** Where the goroutine of [HandleConnection] stands. *)
Inductive handler_at : Type :=
| AtRegister                                  (* h.register <- client *)
| AtGreet (connMsg : dtos.WebSocketMessage)   (* client.Send <- connMsg *)
| AtWrite                                     (* writePump: for msg := range client.Send *)
| Returned.

(** Where the goroutine of [readPump] stands. *)
Inductive reader_at : Type :=
| NotStarted
| AtRead                                      (* client.Conn.ReadJSON(&msg) *)
| AtPong (pongMsg : dtos.WebSocketMessage)    (* client.Send <- pongMsg *)
| AtUnregister                                (* h.unregister <- client *)
| Ended.

Record Client : Type := {
  ID : string;
  Send : channel;
  Subs : list (string * bool);
  (** what [Conn.WriteJSON] has written to the connection, oldest first *)
  written : list dtos.WebSocketMessage;
  handler : handler_at;
  reader : reader_at;
}.

Record WebSocketHub : Type := {
  heap : list Client;
  (** the keys of [h.clients]; every value of the map is [true] *)
  clients : list nat;
  broadcast : channel;
  (** inside [for client := range h.clients]: the message and the clients
      still to visit *)
  visiting : option (dtos.WebSocketMessage * list nat);
}.

Definition NewWebSocketHub : WebSocketHub :=
  {| heap := []; clients := []; broadcast := make; visiting := None |}.

Definition broadcast_capacity : nat := 100.
Definition Send_capacity : nat := 10.

Inductive event : Type :=
| CallBroadcast (msg : dtos.WebSocketMessage)
| Connect (id : string)
| Register (client : nat) (now now' : Z)
| Greet (client : nat)
| Read (client : nat) (msg : option Incoming) (now : Z)
| Pong (client : nat)
| Unregister (client : nat)
| Take
| Offer (client : nat)
| Write (client : nat) (ok : bool).

(** The hub runs on, or the program has ended with a run-time panic. *)
Inductive status : Type :=
| Live (h : WebSocketHub)
| Crashed (panic : string).

Fixpoint store (A : Type) (i : nat) (x : A) (l : list A) : list A :=
  match l, i with
  | [], _ => []
  | _ :: l', O => x :: l'
  | y :: l', S i' => y :: store i' x l'
  end.

Definition with_heap (h : WebSocketHub) (heap' : list Client) : WebSocketHub :=
  {| heap := heap'; clients := clients h; broadcast := broadcast h; visiting := visiting h |}.

Definition with_client (h : WebSocketHub) (c : nat) (client : Client) : WebSocketHub :=
  with_heap h (store c client (heap h)).

Definition with_Send (client : Client) (ch : channel) : Client :=
  {| ID := ID client; Send := ch; Subs := Subs client; written := written client;
     handler := handler client; reader := reader client |}.

Definition with_Subs (client : Client) (subs : list (string * bool)) : Client :=
  {| ID := ID client; Send := Send client; Subs := subs; written := written client;
     handler := handler client; reader := reader client |}.

Definition handler_to (client : Client) (place : handler_at) : Client :=
  {| ID := ID client; Send := Send client; Subs := Subs client; written := written client;
     handler := place; reader := reader client |}.

Definition reader_to (client : Client) (place : reader_at) : Client :=
  {| ID := ID client; Send := Send client; Subs := Subs client; written := written client;
     handler := handler client; reader := place |}.

Definition WriteJSON (client : Client) (msg : dtos.WebSocketMessage) : Client :=
  {| ID := ID client; Send := Send client; Subs := Subs client;
     written := written client ++ [msg];
     handler := handler client; reader := reader client |}.

Definition has (c : nat) (keys : list nat) : bool := existsb (Nat.eqb c) keys.

(** [h.clients[client] = true] *)
Definition add (c : nat) (keys : list nat) : list nat :=
  if has c keys then keys else keys ++ [c].

(** [delete(h.clients, client)] *)
Definition delete (c : nat) (keys : list nat) : list nat :=
  filter (fun k => negb (Nat.eqb c k)) keys.

(** The loop over the clients goes on while some are still to visit. *)
Definition visit (msg : dtos.WebSocketMessage) (todo : list nat)
  : option (dtos.WebSocketMessage * list nat) :=
  match todo with
  | [] => None
  | _ :: _ => Some (msg, todo)
  end.

(** [Broadcast]: the message is dropped when the buffer is full. *)
Definition Broadcast (h : WebSocketHub) (msg : dtos.WebSocketMessage) : status :=
  match offer broadcast_capacity (broadcast h) msg with
  | Err panic => Crashed panic
  | Ok ch => Live {| heap := heap h; clients := clients h; broadcast := ch;
                     visiting := visiting h |}
  end.

(** [HandleConnection], to its first channel operation. *)
Definition HandleConnection (h : WebSocketHub) (id : string) : WebSocketHub :=
  with_heap h (heap h ++ [ {| ID := id; Send := make; Subs := []; written := [];
                              handler := AtRegister; reader := NotStarted |} ]).

Definition connMsg (id : string) (now now' : Z) : dtos.WebSocketMessage :=
  {| dtos.EventType := "connection_established";
     dtos.Data := [("client_id", dtos.VStr id); ("timestamp", dtos.VInt now)];
     dtos.Timestamp := now' |}.

Definition pongMsg (now : Z) : dtos.WebSocketMessage :=
  {| dtos.EventType := "pong"; dtos.Data := []; dtos.Timestamp := now |}.

(** [data["paths"].([]interface{})] of [msg.Data.(map[string]interface{})];
    a failed assertion leaves nothing to range over. *)
Definition paths (data : json) : list json :=
  match data with
  | JObject fields =>
      match os.assoc "paths" fields with
      | Some (JArray items) => items
      | _ => []
      end
  | _ => []
  end.

(** What [readPump] does with a message it has read, to its next channel
    operation or read. *)
Definition readPump_message (client : Client) (msg : Incoming) (now : Z) : Client :=
  if EventType msg =? "subscribe" then
    with_Subs client
      (fold_left (fun subs p =>
                    match p with
                    | JString path => os.replace_entry path true subs
                    | _ => subs
                    end) (paths (Data msg)) (Subs client))
  else if EventType msg =? "unsubscribe" then
    with_Subs client
      (fold_left (fun subs p =>
                    match p with
                    | JString path => os.remove_entry path subs
                    | _ => subs
                    end) (paths (Data msg)) (Subs client))
  else if EventType msg =? "ping" then reader_to client (AtPong (pongMsg now))
  else client.

(** The hub takes a client from [h.register]. *)
Definition Run_register (h : WebSocketHub) (c : nat) : WebSocketHub :=
  {| heap := heap h; clients := add c (clients h); broadcast := broadcast h;
     visiting := visiting h |}.

(** The hub takes a client from [h.unregister]; [client] is its record, the
    reader being on its way out. *)
Definition Run_unregister (h : WebSocketHub) (c : nat) (client : Client) : status :=
  if has c (clients h) then
    match close (Send client) with
    | Err panic => Crashed panic
    | Ok ch =>
        Live {| heap := store c (with_Send client ch) (heap h);
                clients := delete c (clients h);
                broadcast := broadcast h; visiting := visiting h |}
    end
  else Live (with_client h c client).

(** One event. *)
Definition step (h : WebSocketHub) (e : event) : option status :=
  match e with
  | CallBroadcast msg => Some (Broadcast h msg)
  | Connect id => Some (Live (HandleConnection h id))
  | Register c now now' =>
      (* [h.register <- client] meets [case client := <-h.register]; the
         handler goes on to make [connMsg] *)
      match visiting h, nth_error (heap h) c with
      | None, Some client =>
          match handler client with
          | AtRegister =>
              Some (Live (with_client (Run_register h c) c
                            (handler_to client (AtGreet (connMsg (ID client) now now')))))
          | _ => None
          end
      | _, _ => None
      end
  | Greet c =>
      (* [client.Send <- connMsg], then [go h.readPump(client)] and
         [h.writePump(client)] *)
      match nth_error (heap h) c with
      | Some client =>
          match handler client with
          | AtGreet msg =>
              match send Send_capacity (Send client) msg with
              | None => None
              | Some (Err panic) => Some (Crashed panic)
              | Some (Ok ch) =>
                  Some (Live (with_client h c
                                (reader_to (handler_to (with_Send client ch) AtWrite) AtRead)))
              end
          | _ => None
          end
      | None => None
      end
  | Read c msg now =>
      match nth_error (heap h) c with
      | Some client =>
          match reader client with
          | AtRead =>
              match msg with
              | None =>
                  (* [ReadJSON] fails: [break], and the deferred function runs *)
                  Some (Live (with_client h c (reader_to client AtUnregister)))
              | Some msg => Some (Live (with_client h c (readPump_message client msg now)))
              end
          | _ => None
          end
      | None => None
      end
  | Pong c =>
      (* [client.Send <- pongMsg] *)
      match nth_error (heap h) c with
      | Some client =>
          match reader client with
          | AtPong msg =>
              match send Send_capacity (Send client) msg with
              | None => None
              | Some (Err panic) => Some (Crashed panic)
              | Some (Ok ch) =>
                  Some (Live (with_client h c (reader_to (with_Send client ch) AtRead)))
              end
          | _ => None
          end
      | None => None
      end
  | Unregister c =>
      (* [h.unregister <- client] meets [case client := <-h.unregister]; the
         reader goes on to [client.Conn.Close()] and returns *)
      match visiting h, nth_error (heap h) c with
      | None, Some client =>
          match reader client with
          | AtUnregister => Some (Run_unregister h c (reader_to client Ended))
          | _ => None
          end
      | _, _ => None
      end
  | Take =>
      (* [case msg := <-h.broadcast], up to the loop over the clients *)
      match visiting h with
      | None =>
          match receive (broadcast h) with
          | Some (Some msg, ch) =>
              Some (Live {| heap := heap h; clients := clients h; broadcast := ch;
                            visiting := visit msg (clients h) |})
          | _ => None
          end
      | Some _ => None
      end
  | Offer c =>
      (* [select { case client.Send <- msg: default: }] for one client of
         the map *)
      match visiting h, nth_error (heap h) c with
      | Some (msg, todo), Some client =>
          if has c todo then
            match offer Send_capacity (Send client) msg with
            | Err panic => Some (Crashed panic)
            | Ok ch =>
                Some (Live {| heap := store c (with_Send client ch) (heap h);
                              clients := clients h; broadcast := broadcast h;
                              visiting := visit msg (delete c todo) |})
            end
          else None
      | _, _ => None
      end
  | Write c ok =>
      (* [writePump]: one turn of [for msg := range client.Send] *)
      match nth_error (heap h) c with
      | Some client =>
          match handler client with
          | AtWrite =>
              match receive (Send client) with
              | None => None
              | Some (None, _) => Some (Live (with_client h c (handler_to client Returned)))
              | Some (Some msg, ch) =>
                  Some (Live (with_client h c
                                (if ok then WriteJSON (with_Send client ch) msg
                                 else handler_to (with_Send client ch) Returned)))
              end
          | _ => None
          end
      | None => None
      end
  end.

(** The events of a schedule, one after the other; nothing follows a panic. *)
Fixpoint run (s : status) (schedule : list event) : option status :=
  match schedule with
  | [] => Some s
  | e :: schedule' =>
      match s with
      | Live h =>
          match step h e with
          | Some s' => run s' schedule'
          | None => None
          end
      | Crashed _ => None
      end
  end.

End hub.

(** ** The file system with symbolic links

    The service makes a path canonical with [filepath.Abs], which works on
    the text of the path; nothing in it looks at symbolic links
    ([filepath.EvalSymlinks], [os.Lstat], [os.Readlink] are not called). The
    [os] calls it makes then resolve the path as the kernel does, one
    component after the other, following the links they meet. This part
    embeds [sanitizePathForRead], [DownloadItem], [sanitizePathForWrite] and
    [CreateFile] once more, over a tree that may hold symbolic links. On a
    tree without links, what a call answers here when it succeeds is what
    the call of [os] above answers.

    Conventions: a path that is not absolute starts at the working
    directory, which is reached through no link; the kernel gives up after
    40 links ([ELOOP]); a name followed by a separator is not the last
    component of a path. *)

Module linked.

#[local] Unset Elimination Schemes.
Inductive node : Type :=
| File (data : string)
| Dir (entries : list (string * node))
| Symlink (target : string).
#[local] Set Elimination Schemes.

(** The node at the end of [p], a path through directories: no link is
    followed. *)
Fixpoint find (p : list string) (n : node) : result os.errno node :=
  match p with
  | [] => Ok n
  | e :: p' =>
      match n with
      | Dir es => match os.assoc e es with
                  | None => Err os.ENOENT
                  | Some c => find p' c
                  end
      | _ => Err os.ENOTDIR
      end
  end.

(** Put [v] at the end of [p], a path through directories. *)
Fixpoint put (p : list string) (v : node) (n : node) : node :=
  match p with
  | [] => v
  | e :: p' =>
      match n with
      | Dir es =>
          Dir (os.replace_entry e
                 (put p' v (match os.assoc e es with Some c => c | None => Dir [] end)) es)
      | _ => n
      end
  end.

(** What a path leads to: a node, with the path to it through directories,
    or a name that its directory does not hold. *)
Inductive place : Type :=
| Found (path : list string) (n : node)
| Missing (parent : list string) (name : string).

Definition maxSymlinks : nat := 40.

(** Path resolution, component after component: from the directory [here]
    along [comps]; every component is looked up in a directory. [follow]
    tells whether a link is followed when it is the last component; a link
    is followed by [onward], from the root when its target is absolute and
    from the directory of the link otherwise, along the components of the
    target and then the rest of the path; a link with an empty target leads
    nowhere. *)
Fixpoint steps (onward : list string -> list string -> result os.errno place)
    (root : node) (follow : bool) (here : list string) (comps : list string)
  : result os.errno place :=
  match comps with
  | [] => match find here root with
          | Ok n => Ok (Found here n)
          | Err e => Err e
          end
  | c :: rest =>
      match find here root with
      | Err e => Err e
      | Ok (Dir es) =>
          if (c =? "") || (c =? ".") then steps onward root follow here rest
          else if c =? ".." then steps onward root follow (removelast here) rest
          else
            match os.assoc c es with
            | None =>
                match rest with
                | [] => Ok (Missing here c)
                | _ :: _ => Err os.ENOENT
                end
            | Some (Symlink target) =>
                match rest, follow with
                | [], false => Ok (Found (here ++ [c])%list (Symlink target))
                | _, _ =>
                    if target =? "" then Err os.ENOENT
                    else onward (if filepath.IsAbs target then [] else here)
                                (strings.Split target filepath.Separator ++ rest)%list
                end
            | Some _ => steps onward root follow (here ++ [c])%list rest
            end
      | Ok _ => Err os.ENOTDIR
      end
  end.

(** With [links] links left to follow. *)
Fixpoint walk (links : nat) (root : node) (follow : bool)
    (here : list string) (comps : list string) {struct links} : result os.errno place :=
  steps (fun here' comps' =>
           match links with
           | O => Err os.ELOOP
           | S links' => walk links' root follow here' comps'
           end) root follow here comps.

Definition info_of (path : string) (n : node) : os.FileInfo :=
  match n with
  | File data =>
      {| os.Name := filepath.Base path; os.Size := strings.len data; os.IsDir := false |}
  | Dir _ => {| os.Name := filepath.Base path; os.Size := 0; os.IsDir := true |}
  | Symlink target =>
      {| os.Name := filepath.Base path; os.Size := strings.len target; os.IsDir := false |}
  end.

Section Calls.
Variable cwd : string.

Definition resolve (fs : node) (follow : bool) (path : string) : result os.errno place :=
  if path =? "" then Err os.ENOENT
  else walk maxSymlinks fs follow
         (if filepath.IsAbs path then [] else filepath.elements (filepath.Clean cwd))
         (strings.Split path filepath.Separator).

Definition Stat (fs : node) (path : string) : result os.errno os.FileInfo :=
  match resolve fs true path with
  | Err e => Err e
  | Ok (Missing _ _) => Err os.ENOENT
  | Ok (Found _ n) => Ok (info_of path n)
  end.

Definition Lstat (fs : node) (path : string) : result os.errno os.FileInfo :=
  match resolve fs false path with
  | Err e => Err e
  | Ok (Missing _ _) => Err os.ENOENT
  | Ok (Found _ n) => Ok (info_of path n)
  end.

Definition ReadFile (fs : node) (path : string) : result os.errno string :=
  match resolve fs true path with
  | Err e => Err e
  | Ok (Missing _ _) => Err os.ENOENT
  | Ok (Found _ (File data)) => Ok data
  | Ok (Found _ _) => Err os.EISDIR
  end.

(** [WriteFile] creates or truncates; through a link it writes the file that
    the link points to. *)
Definition WriteFile (fs : node) (path : string) (data : string) : result os.errno node :=
  match resolve fs true path with
  | Err e => Err e
  | Ok (Missing parent name) => Ok (put (parent ++ [name])%list (File data) fs)
  | Ok (Found at_ (File _)) => Ok (put at_ (File data) fs)
  | Ok (Found _ _) => Err os.EISDIR
  end.

Definition Mkdir (fs : node) (path : string) : result os.errno node :=
  match resolve fs false path with
  | Err e => Err e
  | Ok (Missing parent name) => Ok (put (parent ++ [name])%list (Dir []) fs)
  | Ok (Found _ _) => Err os.EEXIST
  end.

(** [path] without its last character. *)
Fixpoint chop (path : string) : string :=
  match path with
  | EmptyString => EmptyString
  | String a EmptyString => EmptyString
  | String a t => String a (chop t)
  end.

(** [MkdirAll]: nothing to do for a directory; otherwise the parent, the
    text before the last element and its separator, is made first, and then
    the directory itself. The parent is a shorter text: [fuel], the length
    of the path, is never used up. *)
Fixpoint MkdirAll_from (fuel : nat) (fs : node) (path : string) : result os.errno node :=
  match Stat fs path with
  | Ok dir => if os.IsDir dir then Ok fs else Err os.ENOTDIR
  | Err _ =>
      let before := filepath.dir_part (strings.TrimRight path filepath.Separator) in
      let made :=
        if (1 <? String.length before)%nat
        then match fuel with
             | O => Err os.EINVAL
             | S fuel' => MkdirAll_from fuel' fs (chop before)
             end
        else Ok fs in
      match made with
      | Err e => Err e
      | Ok fs1 =>
          match Mkdir fs1 path with
          | Ok fs2 => Ok fs2
          | Err e =>
              match Lstat fs1 path with
              | Ok dir => if os.IsDir dir then Ok fs1 else Err e
              | Err _ => Err e
              end
          end
      end
  end.

Definition MkdirAll (fs : node) (path : string) : result os.errno node :=
  MkdirAll_from (String.length path) fs path.

End Calls.

Record World : Type := {
  cwd : string;
  fs : node;
  sent : list dtos.WebSocketMessage;
  now : Z;
}.

Definition with_fs (w : World) (fs' : node) : World :=
  {| cwd := cwd w; fs := fs'; sent := sent w; now := now w |}.

Definition outcome (A : Type) : Type := result failure A * World.

Section Service.
Variable p : PublicFilesService.

Definition sanitizePathForRead (w : World) (input : string) : result string string :=
  let decoded := input in
  match List.find (strings.Contains decoded) dangerousPatterns with
  | Some pattern => Err ("dangerous pattern detected: " ++ pattern)
  | None =>
      let normalized := strings.Trim (strings.ReplaceAll decoded "\"%char "/"%char) "/"%char in
      if normalized =? "" then Ok (publicDir p)
      else
        let clean := filepath.Join (publicDir p) normalized in
        let canonical := filepath.Abs (cwd w) clean in
        let publicCanonical := filepath.Abs (cwd w) (publicDir p) in
        if negb (strings.HasPrefix canonical publicCanonical)
        then Err "path escape attempt detected"
        else
          match Stat (cwd w) (fs w) canonical with
          | Err e =>
              if os.IsNotExist e then Err "directory does not exist"
              else Err ("path resolution failed: " ++ os.path_error "stat" canonical e)
          | Ok stat =>
              if negb (os.IsDir stat) && negb (strings.HasPrefix canonical publicCanonical)
              then Err "path escape attempt detected"
              else
                match filepath.Rel publicCanonical canonical with
                | Err e => Err ("path validation failed: " ++ e)
                | Ok relPath =>
                    check_components canonical (strings.Split relPath filepath.Separator)
                end
          end
  end.

Definition sanitizePathForWrite (w : World) (input : string) : result string string :=
  let decoded := input in
  match List.find (strings.Contains decoded) dangerousPatterns with
  | Some pattern => Err ("dangerous pattern detected: " ++ pattern)
  | None =>
      let normalized := strings.Trim (strings.ReplaceAll decoded "\"%char "/"%char) "/"%char in
      if normalized =? "" then Err "path cannot be empty"
      else
        let clean := filepath.Join (publicDir p) normalized in
        let canonical := filepath.Abs (cwd w) clean in
        let publicCanonical := filepath.Abs (cwd w) (publicDir p) in
        let parent := filepath.Dir canonical in
        if negb (parent =? "")
           && negb (strings.HasPrefix (filepath.Abs (cwd w) parent) publicCanonical)
        then Err "path escape attempt detected"
        else
          let fileName := filepath.Base canonical in
          if strings.HasPrefix fileName "." then Err "cannot create hidden files"
          else if (strings.len fileName >? 255)%Z then Err "filename too long"
          else if strings.Contains fileName nul
                  || strings.Contains fileName "/"
                  || strings.Contains fileName "\"
          then Err "invalid filename characters"
          else Ok canonical
  end.

Definition notifyWebSocket (w : World) (eventType : string) (data : list (string * dtos.value))
  : World :=
  if wsHub p
  then {| cwd := cwd w; fs := fs w; now := now w;
          sent := sent w ++ [ {| dtos.EventType := eventType; dtos.Data := data;
                                 dtos.Timestamp := now w |} ] |}
  else w.

Definition DownloadItem (w : World) (path : string) : outcome string :=
  match sanitizePathForRead w path with
  | Err e => (Err (response e (Some e)), w)
  | Ok filePath =>
      let notFound :=
        (Err (response "File not found"
                (Some ("File does not exist or is directory: " ++ filePath))), w) in
      match Stat (cwd w) (fs w) filePath with
      | Err _ => notFound
      | Ok info =>
          if os.IsDir info then notFound
          else
            match ReadFile (cwd w) (fs w) filePath with
            | Err e =>
                let msg := os.path_error "read" filePath e in
                (Err (response ("Failed to read file: " ++ msg) (Some msg)), w)
            | Ok data => (Ok data, w)
            end
      end
  end.

Definition CreateFile (w : World) (path : string) : outcome payload :=
  match sanitizePathForWrite w path with
  | Err e => (Err (response e (Some e)), w)
  | Ok filePath =>
      match MkdirAll (cwd w) (fs w) (filepath.Dir filePath) with
      | Err e =>
          let msg := os.path_error "mkdir" (filepath.Dir filePath) e in
          (Err (response ("Failed to create parent directories: " ++ msg) (Some msg)), w)
      | Ok fs1 =>
          let w := with_fs w fs1 in
          match WriteFile (cwd w) fs1 filePath "" with
          | Err e =>
              let msg := os.path_error "open" filePath e in
              (Err (response ("Failed to create file: " ++ msg) (Some msg)), w)
          | Ok fs2 =>
              let w := with_fs w fs2 in
              let relPath := rel_path p filePath in
              let createdAt := now w in
              let w := notifyWebSocket w "file_created"
                         [("path", dtos.VStr relPath); ("size", dtos.VInt 0);
                          ("type", dtos.VStr "file"); ("created_at", dtos.VInt createdAt);
                          ("etag", dtos.VStr (generateEtag filePath None 0))] in
              (Ok [("success", dtos.VBool true); ("path", dtos.VStr relPath);
                   ("type", dtos.VStr "file"); ("size_bytes", dtos.VInt 0);
                   ("created_at", dtos.VInt createdAt);
                   ("etag", dtos.VStr (generateEtag filePath None 0))], w)
          end
      end
  end.

End Service.

(** A tree without links, as a tree that may hold some. *)
Fixpoint of_os (n : os.node) : node :=
  match n with
  | os.File data => File data
  | os.Dir entries => Dir (map (fun kv => (fst kv, of_os (snd kv))) entries)
  end.

End linked.

(** A world whose tree holds no link, as a world whose tree may hold some. *)
Definition as_linked (w : World) : linked.World :=
  {| linked.cwd := cwd w; linked.fs := linked.of_os (fs w);
     linked.sent := sent w; linked.now := now w |}.

(** ** A small store, for the examples *)

Module Demo.

(** The service over an absolute root, as the test suite sets it up. *)
Definition service : PublicFilesService := {| publicDir := "/srv/pub"; wsHub := true |}.

(** The service as [routes.SetupRoutes] wires it: the root is relative to the
    working directory of the process. *)
Definition production : PublicFilesService := {| publicDir := "data/public"; wsHub := true |}.

Definition store : os.node :=
  os.Dir [ ("docs", os.Dir [ ("b.txt", os.File "bb"); ("A.txt", os.File "a") ]);
           ("notes.txt", os.File "hello");
           (".secret", os.Dir [ ("notes2.txt", os.File "s") ]) ].

Definition tree : os.node :=
  os.Dir [ ("srv", os.Dir [ ("pub", store) ]);
           ("app", os.Dir [ ("data", os.Dir [ ("public", store) ]) ]) ].

Definition world : World := {| cwd := "/app"; fs := tree; sent := []; now := 100 |}.

(** A store with symbolic links below the root: to a file and to a
    directory outside of it, and one to itself. *)
Definition linked_store : linked.node :=
  linked.Dir [ ("docs", linked.Dir [ ("b.txt", linked.File "bb") ]);
               ("notes.txt", linked.File "hello");
               ("shadow", linked.Symlink "/etc/shadow");
               ("conf", linked.Symlink "/etc");
               ("up", linked.Symlink "../../etc/shadow");
               ("loop", linked.Symlink "loop") ].

Definition linked_tree : linked.node :=
  linked.Dir [ ("srv", linked.Dir [ ("pub", linked_store) ]);
               ("etc", linked.Dir [ ("shadow", linked.File "root:x") ]);
               ("app", linked.Dir []) ].

Definition linked_world : linked.World :=
  {| linked.cwd := "/app"; linked.fs := linked_tree; linked.sent := []; linked.now := 100 |}.

End Demo.

(** * Vocabulary of the properties *)

Unset Implicit Arguments.

(** ** Strings and path elements *)

(** [e] occurs in [s]. *)
Definition occurs (e s : string) : Prop := exists a b, s = a ++ e ++ b.

(** The character [c] is in [s]. *)
Fixpoint has_char (c : ascii) (s : string) : bool :=
  match s with
  | EmptyString => false
  | String a t => Ascii.eqb a c || has_char c t
  end.

(** An element that [Clean] keeps. *)
Definition real (e : string) : bool := negb ((e =? "") || (e =? ".")).

(** An element of a cleaned rooted path. *)
Definition plain (e : string) : Prop :=
  real e = true /\ e <> ".." /\ has_char "/" e = false.

(** An element that [Clean] may keep in a relative path. *)
Definition segment (e : string) : Prop := real e = true /\ has_char "/" e = false.

(** ** Inputs of the sanitizers *)

(** The input after [ReplaceAll] and [Trim], as both sanitizers compute it. *)
Definition normalized (input : string) : string :=
  strings.Trim (strings.ReplaceAll input "\"%char "/"%char) "/"%char.

(** The canonical path of the input and the canonical root. *)
Definition canonical_of (p : PublicFilesService) (w : World) (input : string) : string :=
  filepath.Abs (cwd w) (filepath.Join (publicDir p) (normalized input)).

Definition publicCanonical (p : PublicFilesService) (w : World) : string :=
  filepath.Abs (cwd w) (publicDir p).

(** No pattern of the denylist occurs in the input. *)
Definition denylist_free (input : string) : Prop :=
  List.find (strings.Contains input) dangerousPatterns = None.

(** A component that the loop of [sanitizePathForRead] lets pass. *)
Definition component_ok (c : string) : Prop :=
  strings.HasPrefix c "." && negb (c =? ".") = false
  /\ strings.Contains c nul || strings.Contains c "/" || strings.Contains c "\" = false.

(** No component of the input is hidden. *)
Definition no_hidden_component (input : string) : Prop :=
  Forall (fun c => strings.HasPrefix c "." = true -> c = ".")
         (strings.Split (normalized input) filepath.Separator).

(** The last component of the input: the name to be created. *)
Definition final_component (input : string) : string :=
  last (strings.Split (normalized input) filepath.Separator) "".

(** The input is empty or made of slashes only. *)
Fixpoint all_slashes (s : string) : bool :=
  match s with
  | EmptyString => true
  | String a t => Ascii.eqb a "/" && all_slashes t
  end.

(** ** Listing and pagination *)

(** [b] may follow [a] in a listing. *)
Definition in_order (a b : dtos.FileSystemItem) : Prop := item_less b a = false.

(** The page and the limit that [paginate] works with. *)
Definition clamp_page (pageVal : Z) : Z := Z.max 1 pageVal.
Definition clamp_limit (maxLimit limitVal : Z) : Z := Z.min maxLimit (Z.max 10 limitVal).

(** ** The tree and the hub *)

(** What sits at [p], if anything. *)
Definition occupant (p : list string) (n : os.node) : option os.node :=
  match os.find p n with Ok m => Some m | Err _ => None end.

Definition found (v : option os.node) : result os.errno os.node :=
  match v with Some n => Ok n | None => Err os.ENOENT end.

(** Between [w] and [w'] one message of the given type was handed to the hub
    (none at all when the service has no hub). *)
Definition one_notification (p : PublicFilesService) (w w' : World) (eventType : string) : Prop :=
  exists m, dtos.EventType m = eventType
            /\ sent w' = if wsHub p then (sent w ++ [m])%list else sent w.

(** ** Readers *)

(** The bytes a reader delivers up to its first read that reports [io.EOF]
    or a failure. *)
Fixpoint stream_bytes (data : Reader) : string :=
  match data with
  | [] => ""
  | r :: data' =>
      (chunk r ++ match read_err r with
                  | Some _ => ""
                  | None => stream_bytes data'
                  end)%string
  end.

(** The reader fails on no read before its [io.EOF]. *)
Fixpoint reads_to_end (data : Reader) : bool :=
  match data with
  | [] => true
  | r :: data' =>
      match read_err r with
      | Some EOF => true
      | Some (ReadFailure _) => false
      | None => reads_to_end data'
      end
  end.

(** A stream of 2^20 reads of one mebibyte each and a last read of one byte:
    one byte more than [maxTotalSize]. *)
Fixpoint replicate (n : nat) (c : ascii) : string :=
  match n with
  | O => EmptyString
  | S n' => String c (replicate n' c)
  end.

Definition mebibyte_read : read_result :=
  {| chunk := replicate (Z.to_nat (2 ^ 20)) "a"; read_err := None |}.

Definition last_read : read_result := {| chunk := "a"; read_err := Some EOF |}.

Definition one_byte_over : Reader :=
  (repeat mebibyte_read (Z.to_nat (2 ^ 20)) ++ [last_read])%list.

(** ** Walks *)

(** The entries at and below [n], in the order in which [filepath.Walk]
    visits them when nothing is skipped: a directory, then its children by
    name, each with what is below it. *)
Fixpoint walk_order (n : os.node) (path : string) : list (string * os.FileInfo) :=
  (path, os.info_of path n)
  :: match n with
     | os.File _ => []
     | os.Dir entries =>
         flat_map (fun child => snd child (filepath.Join path (fst child)))
           (os.sort_by_name (map (fun kv => (fst kv, walk_order (snd kv))) entries))
     end.

Definition walk_order_from (w : World) (root : string) : list (string * os.FileInfo) :=
  match os.resolve (cwd w) root with
  | None => []
  | Some r =>
      match os.find r (fs w) with
      | Err _ => []
      | Ok n => walk_order n root
      end
  end.

(** The effect of one call of the callback on its state. *)
Definition visit (S : Type) (walkFn : string -> os.FileInfo -> S -> S * walk_signal)
    (st : S) (entry : string * os.FileInfo) : S :=
  fst (walkFn (fst entry) (snd entry) st).

(** What [walk] and [walk_order] do with one child of a directory. *)
Definition walker (S : Type) (walkFn : string -> os.FileInfo -> S -> S * walk_signal)
    (n : os.node) : bool * (string -> S -> S * walk_signal) :=
  (is_dir n, walk walkFn n).

(** [walk] leaves the state that the visits in walk order leave, and gives
    [SkipDir] only in a state that no visit changes ([final]). *)
Definition visits_in_order (S : Type) (walkFn : string -> os.FileInfo -> S -> S * walk_signal)
    (final : S -> Prop) (n : os.node) : Prop :=
  forall path st,
    fst (walk walkFn n path st) = fold_left (visit S walkFn) (walk_order n path) st
    /\ (snd (walk walkFn n path st) = SkipDir -> final (fst (walk walkFn n path st))).

(** ** Search *)

(** The item that [SearchItems] makes of a visited entry: the entry's own name
    is not hidden and contains the lowered query. *)
Definition search_match (p : PublicFilesService) (queryLower : string)
    (entry : string * os.FileInfo) : list dtos.FileSystemItem :=
  let name := os.Name (snd entry) in
  if hidden_name name then []
  else if strings.Contains (strings.ToLower name) queryLower then
    match filepath.Rel (publicDir p) (fst entry) with
    | Err _ => []
    | Ok relPath => [ {| dtos.Name := name; dtos.Path := relPath;
                         dtos.Size := os.Size (snd entry); dtos.IsDir := os.IsDir (snd entry) |} ]
    end
  else [].

(** All the matches below the root, in walk order. *)
Definition search_matches (p : PublicFilesService) (queryLower : string) (w : World)
  : list dtos.FileSystemItem :=
  flat_map (search_match p queryLower) (walk_order_from w (publicDir p)).

(** [search_visit] with the threshold it compares [len(results)] with. *)
Definition visit_until (p : PublicFilesService) (queryLower : string) (threshold : Z)
    (path : string) (info : os.FileInfo) (results : list dtos.FileSystemItem)
  : list dtos.FileSystemItem * walk_signal :=
  let name := os.Name info in
  if hidden_name name then (results, Next)
  else if (Z.of_nat (List.length results) >=? threshold)%Z then (results, SkipDir)
  else match search_match p queryLower (path, info) with
       | [] => (results, Next)
       | i :: _ => ((results ++ [i])%list, Next)
       end.

(** The walk has collected what it was to. *)
Definition full (threshold : Z) (results : list dtos.FileSystemItem) : Prop :=
  (threshold <= Z.of_nat (List.length results))%Z.

(** ** Places in the tree *)

(** The elements of the canonical root: where the root sits in the tree. *)
Definition root_elements (p : PublicFilesService) (w : World) : list string :=
  filepath.elements (publicCanonical p w).

(** A name that [sanitizePathForRead] lets pass as a component. *)
Definition visible (e : string) : Prop := plain e /\ strings.HasPrefix e "." = false.

(** A name that [sanitizePathForWrite] lets pass as the last component. *)
Definition creatable (e : string) : Prop :=
  plain e /\ strings.HasPrefix e "." = false /\ (strings.len e <= 255)%Z.

(** Neither of two places is at or below the other. *)
Definition apart (q r : list string) : Prop :=
  os.is_prefix q r = false /\ os.is_prefix r q = false.

(** ** Pages *)

(** The items of a page; none when the call did not answer a page. *)
Definition page_items (r : result failure dtos.PaginatedItems) : list dtos.FileSystemItem :=
  match r with Ok page => dtos.Items page | Err _ => [] end.

(** The first index of the page, as [paginate] computes it. *)
Definition page_start (maxLimit pageVal limitVal : Z) : Z :=
  int32 ((clamp_page (int32 pageVal) - 1) * clamp_limit maxLimit (int32 limitVal)).

(** ** Hidden components *)

(** Some component of the input is hidden. *)
Definition hidden_component (input : string) : Prop :=
  Exists (fun c => strings.HasPrefix c "." = true /\ c <> ".")
         (strings.Split (normalized input) filepath.Separator).

Definition hidden_refused : string := "access to hidden files is not allowed".

(** ** Frames *)

(** Between [fs] and [fs'] nothing has changed at the places apart from [X]. *)
Definition inside (X : list string) (fs fs' : os.node) : Prop :=
  forall q, apart q X -> os.find q fs' = os.find q fs.

(** ** Names that climb *)

(** A file name that leads from [folder] up to the top of the tree and from
    there down to [target]. *)
Definition climbing_name (folder : string) (target : list string) : string :=
  String.concat "/" (repeat ".." (List.length (filepath.elements folder)) ++ target).

(** ** Well-formed trees *)

(** A file name as a directory holds it: not empty, not "." or "..", without
    a separator. *)
Definition file_name (e : string) : bool :=
  real e && negb (e =? "..") && negb (has_char "/" e).

Fixpoint distinct (names : list string) : bool :=
  match names with
  | [] => true
  | x :: names' => negb (existsb (String.eqb x) names') && distinct names'
  end.

(** At every level the names are file names, no two of them alike. *)
Fixpoint well_formed (n : os.node) : bool :=
  match n with
  | os.File _ => true
  | os.Dir entries =>
      forallb (fun kv => file_name (fst kv)) entries
      && distinct (map fst entries)
      && forallb (fun kv => well_formed (snd kv)) entries
  end.

(** The entries of the map that [DownloadFolder] fills, one after the other:
    for each regular file that the walk visits, its path relative to the
    folder and its bytes. *)
Definition download_writes (w : World) (folder : string)
    (visited : list (string * os.FileInfo)) : list (string * string) :=
  flat_map (fun entry =>
              if os.IsDir (snd entry) then []
              else match filepath.Rel folder (fst entry),
                         os.ReadFile (cwd w) (fs w) (fst entry) with
                   | Ok relPath, Ok data => [(relPath, data)]
                   | _, _ => []
                   end) visited.

(** ** Copies *)

(** The copy that [copyDirectory] makes of a tree: the entries of a
    directory come in the order in which [os.ReadDir] lists them. *)
Fixpoint copy_of (n : os.node) : os.node :=
  match n with
  | os.File data => os.File data
  | os.Dir entries =>
      os.Dir (os.sort_by_name (map (fun kv => (fst kv, copy_of (snd kv))) entries))
  end.

(** The number of directories that are nested at and below [n]. *)
Fixpoint height (n : os.node) : nat :=
  match n with
  | os.File _ => O
  | os.Dir entries => S (fold_right (fun kv h => Nat.max (height (snd kv)) h) O entries)
  end.

(** Put [m] at a place. *)
Definition put (m : os.node) (cur : option os.node) : result os.errno (option os.node) :=
  Ok (Some m).

(** ** Failing readers *)

(** The error of the first read of the reader that fails, when no read
    before it reports [io.EOF]. *)
Fixpoint fails_with (data : Reader) : option string :=
  match data with
  | [] => None
  | r :: data' =>
      match read_err r with
      | Some EOF => None
      | Some (ReadFailure msg) => Some msg
      | None => fails_with data'
      end
  end.

(** ** Uploaded folders *)

(** The entries of a directory that holds the files of a map, one regular
    file for each. *)
Definition as_files (files : list (string * string)) : list (string * os.node) :=
  map (fun kv => (fst kv, os.File (snd kv))) files.

(** ** Entity tags *)

(** The characters of [%d]'s digits. *)
Definition is_digit (c : ascii) : bool :=
  existsb (Ascii.eqb c) ["0"; "1"; "2"; "3"; "4"; "5"; "6"; "7"; "8"; "9"]%char.

(** What follows a number in a formatted string: nothing, or a character
    that is no digit. *)
Definition ends_number (rest : string) : Prop :=
  match rest with
  | EmptyString => True
  | String c _ => is_digit c = false
  end.

(** ** The hub *)

(** A message that comes from [Broadcast]: neither the greeting of a
    connection nor the answer to a ping. *)
Definition notification (m : dtos.WebSocketMessage) : bool :=
  negb (dtos.EventType m =? "connection_established") && negb (dtos.EventType m =? "pong").

(** The messages given to [Broadcast] in the course of a schedule, first
    call first. *)
Definition broadcasts (schedule : list hub.event) : list dtos.WebSocketMessage :=
  flat_map (fun e => match e with hub.CallBroadcast msg => [msg] | _ => [] end) schedule.

(** [l] is [l'] with some elements left out. *)
Inductive subsequence {A : Type} : list A -> list A -> Prop :=
| subsequence_nil : subsequence [] []
| subsequence_skip x l l' : subsequence l l' -> subsequence l (x :: l')
| subsequence_keep x l l' : subsequence l l' -> subsequence (x :: l) (x :: l').

(** A goroutine of the client waits to send on [Send], whose buffer is full,
    and no goroutine receives from it: the handler has not reached
    [writePump], or has left it. *)
Definition stuck (client : hub.Client) : bool :=
  negb (hub.closed (hub.Send client))
  && (hub.Send_capacity <=? List.length (hub.buffer (hub.Send client)))%nat
  && match hub.handler client, hub.reader client with
     | hub.AtGreet _, hub.NotStarted => true
     | hub.Returned, hub.AtPong _ => true
     | _, _ => false
     end.

(** What the hub keeps true of a client [c], [keys] being the keys of its
    map: the channel of the client is closed only once its reader has ended,
    and is open while the client is in the map; the reader starts when the
    handler has sent the greeting. *)
Definition sound_client (keys : list nat) (c : nat) (client : hub.Client) : Prop :=
  (hub.closed (hub.Send client) = true -> hub.reader client = hub.Ended)
  /\ (hub.has c keys = true -> hub.closed (hub.Send client) = false)
  /\ match hub.handler client with
     | hub.AtRegister | hub.AtGreet _ => hub.reader client = hub.NotStarted
     | _ => True
     end.

Definition sound (h : hub.WebSocketHub) : Prop :=
  hub.closed (hub.broadcast h) = false
  /\ (forall c, hub.has c (hub.clients h) = true -> c < List.length (hub.heap h))
  /\ (forall msg todo c, hub.visiting h = Some (msg, todo) ->
        hub.has c todo = true -> hub.has c (hub.clients h) = true)
  /\ forall c client, nth_error (hub.heap h) c = Some client ->
       sound_client (hub.clients h) c client.

Definition notifications (l : list dtos.WebSocketMessage) : list dtos.WebSocketMessage :=
  filter notification l.

(** The hub is inside its loop over the clients and has not come to [c]
    yet. *)
Definition pending (h : hub.WebSocketHub) (c : nat) : bool :=
  match hub.visiting h with
  | Some (_, todo) => hub.has c todo
  | None => false
  end.

(** The message that a handler or a reader is about to send is no
    notification. *)
Definition own_messages (client : hub.Client) : Prop :=
  match hub.handler client with
  | hub.AtGreet m => notification m = false
  | _ => True
  end
  /\ match hub.reader client with
     | hub.AtPong m => notification m = false
     | _ => True
     end.

(** What the hub keeps true of the messages, [history] being those given to
    [Broadcast] so far: the ones it has [taken] from its channel and the ones
    still there are among them, in their order; and what a client has been
    written and has in its channel are, its own messages apart, among those
    taken and offered to it, in their order. *)
Definition messages_in_order (history : list dtos.WebSocketMessage) (h : hub.WebSocketHub) : Prop :=
  exists taken,
    subsequence (taken ++ hub.buffer (hub.broadcast h)) history
    /\ (forall m todo, hub.visiting h = Some (m, todo) -> exists before, taken = (before ++ [m])%list)
    /\ forall c client, nth_error (hub.heap h) c = Some client ->
         own_messages client
         /\ subsequence
              (notifications (hub.written client ++ hub.buffer (hub.Send client)))
              (if pending h c then removelast taken else taken).

(** A client, a hub and a status without what the clients have subscribed
    to. *)
Definition without_Subs (client : hub.Client) : hub.Client := hub.with_Subs client [].

Definition forget_Subs (h : hub.WebSocketHub) : hub.WebSocketHub :=
  hub.with_heap h (map without_Subs (hub.heap h)).

Definition apart_from_Subs (s : hub.status) : hub.status :=
  match s with
  | hub.Live h => hub.Live (forget_Subs h)
  | hub.Crashed panic => hub.Crashed panic
  end.

(** Two events that differ at most in the data of the message that a client
    has sent, such as the paths it subscribes to. *)
Definition same_but_data (e e' : hub.event) : Prop :=
  match e, e' with
  | hub.Read c (Some msg) now, hub.Read c' (Some msg') now' =>
      c = c' /\ now = now' /\ hub.EventType msg = hub.EventType msg'
  | _, _ => e = e'
  end.

(** Between [h] and [h'] the client [c] has been offered [msg]: the message
    is appended to its channel if the buffer had room, and nothing else of
    the client has changed. *)
Definition offered (msg : dtos.WebSocketMessage) (h h' : hub.WebSocketHub) (c : nat) : Prop :=
  exists client ch,
    nth_error (hub.heap h) c = Some client
    /\ nth_error (hub.heap h') c = Some (hub.with_Send client ch)
    /\ hub.closed ch = false
    /\ hub.buffer ch
       = if (List.length (hub.buffer (hub.Send client)) <? hub.Send_capacity)%nat
         then (hub.buffer (hub.Send client) ++ [msg])%list
         else hub.buffer (hub.Send client).

(** ** Trees with symbolic links *)

(** A world whose tree may hold links, as far as the text of paths goes:
    the sanitizers take the working directory from it and nothing else. *)
Definition lexical (lw : linked.World) : World :=
  {| cwd := linked.cwd lw; fs := os.Dir []; sent := linked.sent lw; now := linked.now lw |}.

(** The elements of the canonical root, in a world whose tree may hold
    links. *)
Definition linked_root (p : PublicFilesService) (lw : linked.World) : list string :=
  root_elements p (lexical lw).

(** * Properties *)

(** ** The path functions on examples *)

Example Clean_examples :
  map filepath.Clean ["a//b/./c/.."; "/../a"; "../../x/.."; ""; "/"; "a/"]
  = ["a/b"; "/a"; "../.."; "."; "/"; "a"].
Proof. reflexivity. Qed.

Example Rel_examples :
  map (fun '(b, t) => filepath.Rel b t)
      [("/srv/pub", "/srv/pub/a/b"); ("/srv/pub", "/srv/pub"); ("/a/b", "/a/c/d"); ("/", "/x")]
  = [Ok "a/b"; Ok "."; Ok "../c/d"; Ok "x"].
Proof. reflexivity. Qed.

Example Rel_needs_cwd :
  is_ok (filepath.Rel "data/public" "/app/data/public/docs/a.txt") = false.
Proof. reflexivity. Qed.

Example Dir_Base_examples :
  map (fun p => (filepath.Dir p, filepath.Base p)) ["/srv/pub/a.txt"; "/a"; "a"; "/"; "a/b/"]
  = [("/srv/pub", "a.txt"); ("/", "a"); (".", "a"); ("/", "/"); ("a/b", "b")].
Proof. reflexivity. Qed.

(** ** Strings *)

Section StringFacts.

Lemma append_nil_r (s : string) : s ++ "" = s.
Proof. induction s; simpl; congruence. Qed.

Lemma append_assoc (a b c : string) : (a ++ b) ++ c = a ++ b ++ c.
Proof. induction a; simpl; congruence. Qed.

Lemma prefix_iff (e s : string) : String.prefix e s = true <-> exists b, s = e ++ b.
Proof.
  revert s; induction e as [|c e IH]; intros s.
  - destruct s; simpl; split; eauto.
  - destruct s as [|d s]; simpl.
    + split; [discriminate | intros [b H]; discriminate].
    + destruct (ascii_dec c d) as [->|Hcd].
      * rewrite IH. split; intros [b H]; exists b; congruence.
      * split; [discriminate | intros [b H]; congruence].
Qed.

Lemma prefix_append (a b : string) : String.prefix a (a ++ b) = true.
Proof. apply prefix_iff; eauto. Qed.

Lemma Contains_unfold (s e : string) :
  strings.Contains s e =
  String.prefix e s || match s with EmptyString => false | String _ t => strings.Contains t e end.
Proof.
  destruct s; unfold strings.Contains; fold strings.Contains;
    match goal with |- context [if ?b then _ else _] => destruct b end; reflexivity.
Qed.

Lemma Contains_iff (s e : string) : strings.Contains s e = true <-> occurs e s.
Proof.
  induction s as [|c s IH]; rewrite Contains_unfold, orb_true_iff, prefix_iff.
  - split.
    + intros [[b Hb]|]; [|discriminate]. now exists "", b.
    + intros (a & b & H). left. destruct a; [|discriminate]. now exists b.
  - rewrite IH. split.
    + intros [[b Hb]|(a & b & H)]; [now exists "", b|].
      exists (String c a), b. simpl. congruence.
    + intros (a & b & H). destruct a as [|d a]; simpl in H.
      * left. now exists b.
      * right. injection H as _ H. now exists a, b.
Qed.

Lemma occurs_refl (s : string) : occurs s s.
Proof. exists "", "". simpl. now rewrite append_nil_r. Qed.

Lemma occurs_trans (a b c : string) : occurs a b -> occurs b c -> occurs a c.
Proof.
  intros (x & y & ->) (u & v & ->).
  exists (u ++ x), (y ++ v). now rewrite !append_assoc.
Qed.

Lemma occurs_tail (e s : string) c : occurs e s -> occurs e (String c s).
Proof. intros (a & b & ->). now exists (String c a), b. Qed.

Lemma Contains_false_occurs (s t e : string) :
  strings.Contains s e = false -> occurs t s -> strings.Contains t e = false.
Proof.
  intros Hs Ht. destruct (strings.Contains t e) eqn:H; [|reflexivity].
  apply Contains_iff in H.
  assert (strings.Contains s e = true) by (apply Contains_iff; eapply occurs_trans; eauto).
  congruence.
Qed.

(** *** [Split] *)

Lemma Split_nonempty (s : string) c : strings.Split s c <> [].
Proof.
  induction s as [|a s IH]; simpl; [discriminate|].
  destruct (Ascii.eqb a c); [discriminate|].
  destruct (strings.Split s c); [contradiction | discriminate].
Qed.

Lemma Split_append (a b : string) c :
  strings.Split (a ++ String c b) c = (strings.Split a c ++ strings.Split b c)%list.
Proof.
  induction a as [|x a IH]; simpl.
  - now rewrite Ascii.eqb_refl.
  - destruct (Ascii.eqb x c); [now rewrite IH|].
    rewrite IH. pose proof (Split_nonempty a c).
    destruct (strings.Split a c); [contradiction | reflexivity].
Qed.

Lemma Split_head_prefix (s : string) c x r :
  strings.Split s c = x :: r -> exists v, s = x ++ v.
Proof.
  revert x r; induction s as [|a s IH]; simpl; intros x r.
  - intros [= <- _]. now exists "".
  - destruct (Ascii.eqb a c).
    + intros [= <- _]. now exists (String a s).
    + destruct (strings.Split s c) as [|y r'] eqn:E.
      * intros [= <- _]. exists s. reflexivity.
      * intros [= <- _]. destruct (IH y r' eq_refl) as [v ->]. now exists v.
Qed.

Lemma Split_occurs (s : string) c e : In e (strings.Split s c) -> occurs e s.
Proof.
  revert e; induction s as [|a s IH]; simpl; intros e.
  - intros [<-|[]]. apply occurs_refl.
  - destruct (Ascii.eqb a c).
    + intros [<-|H]; [exists "", (String a s); reflexivity | apply occurs_tail; auto].
    + destruct (strings.Split s c) as [|x r] eqn:E; [now destruct (Split_nonempty s c)|].
      intros [<-|H1].
      * destruct (Split_head_prefix _ _ _ _ E) as [v ->]. now exists "", v.
      * apply occurs_tail. apply IH. now right.
Qed.

Lemma Contains_char (s : string) c : strings.Contains s (String c "") = has_char c s.
Proof.
  induction s as [|a s IH]; simpl; [reflexivity|].
  destruct (ascii_dec c a) as [->|Hn].
  - rewrite Ascii.eqb_refl. now destruct s.
  - assert (Ascii.eqb a c = false) as -> by (apply Ascii.eqb_neq; congruence).
    simpl. exact IH.
Qed.

Lemma Split_no_sep (s : string) c : Forall (fun e => has_char c e = false) (strings.Split s c).
Proof.
  induction s as [|a s IH]; simpl.
  - constructor; [reflexivity | constructor].
  - destruct (Ascii.eqb a c) eqn:Hac.
    + constructor; [reflexivity | exact IH].
    + pose proof (Split_nonempty s c).
      destruct (strings.Split s c) as [|x r]; [contradiction|].
      inversion IH; subst. constructor; [simpl; now rewrite Hac | assumption].
Qed.

Lemma Split_no_char (s : string) c : has_char c s = false -> strings.Split s c = [s].
Proof.
  induction s as [|a s IH]; simpl; [reflexivity|].
  intros H. apply orb_false_iff in H as [-> H]. now rewrite (IH H).
Qed.

Lemma Split_concat (l : list string) c :
  l <> [] -> Forall (fun e => has_char c e = false) l ->
  strings.Split (String.concat (String c "") l) c = l.
Proof.
  induction l as [|e l IH]; [congruence|]. intros _ H. inversion H; subst.
  destruct l as [|e' l].
  - simpl. now apply Split_no_char.
  - change (String.concat (String c "") (e :: e' :: l))
      with (e ++ String c (String.concat (String c "") (e' :: l))).
    rewrite Split_append, IH by (auto; discriminate).
    now rewrite Split_no_char.
Qed.

(** *** [ReplaceAll] and [Trim] *)

Lemma ReplaceAll_absent (s : string) old new :
  has_char old s = false -> strings.ReplaceAll s old new = s.
Proof.
  induction s as [|a s IH]; simpl; [reflexivity|].
  intros H. apply orb_false_iff in H as [-> H]. now rewrite IH.
Qed.

Lemma TrimLeft_occurs (s : string) c : occurs (strings.TrimLeft s c) s.
Proof.
  induction s as [|a s IH]; simpl; [apply occurs_refl|].
  destruct (Ascii.eqb a c); [now apply occurs_tail | apply occurs_refl].
Qed.

Lemma TrimRight_prefix (s : string) c : exists b, s = strings.TrimRight s c ++ b.
Proof.
  induction s as [|a s [b IH]]; simpl; [now exists ""|].
  destruct (strings.TrimRight s c) eqn:E.
  - destruct (Ascii.eqb a c).
    + now exists (String a s).
    + exists s. reflexivity.
  - exists b. simpl in *. congruence.
Qed.

Lemma Trim_occurs (s : string) c : occurs (strings.Trim s c) s.
Proof.
  unfold strings.Trim. eapply occurs_trans; [|apply TrimLeft_occurs].
  destruct (TrimRight_prefix (strings.TrimLeft s c) c) as [b E].
  exists "", b. exact E.
Qed.

End StringFacts.

(** ** Lexical path cleaning *)

Section CleanFacts.
Import filepath.

Lemma clean_step_real r out e : real e = true -> e <> ".." -> clean_step r out e = e :: out.
Proof.
  unfold real, clean_step. intros H Hn. apply negb_true_iff in H. rewrite H.
  now apply String.eqb_neq in Hn as ->.
Qed.

Lemma clean_step_skip r out e : real e = false -> clean_step r out e = out.
Proof. unfold real, clean_step. intros H. apply negb_false_iff in H. now rewrite H. Qed.

Lemma clean_stack_no_dotdot r ys : forall out,
  Forall (fun e => e <> "..") ys ->
  clean_stack r out ys = (rev (filter real ys) ++ out)%list.
Proof.
  induction ys as [|y ys IH]; intros out H; [reflexivity|].
  inversion H; subst. unfold clean_stack in *. simpl.
  destruct (real y) eqn:Hy.
  - rewrite clean_step_real, IH by assumption. simpl. now rewrite <- app_assoc.
  - rewrite clean_step_skip by assumption. now apply IH.
Qed.

Lemma clean_step_keeps (P : string -> Prop) r out e :
  (real e = true -> P e) -> Forall P out -> Forall P (clean_step r out e).
Proof.
  intros He Hout. unfold clean_step.
  destruct ((e =? "") || (e =? ".")) eqn:Hs; [assumption|].
  assert (real e = true) by (unfold real; now rewrite Hs).
  destruct (e =? ".."); [|constructor; auto].
  destruct out as [|top rest]; [destruct r; auto|].
  destruct (top =? ".."); [constructor; auto | now inversion Hout].
Qed.

Lemma clean_stack_keeps (P : string -> Prop) r es : forall out,
  Forall (fun e => real e = true -> P e) es -> Forall P out -> Forall P (clean_stack r out es).
Proof.
  induction es as [|e es IH]; intros out He Hout; [assumption|].
  inversion He; subst. apply IH; [assumption|]. now apply clean_step_keeps.
Qed.

(** A rooted path never keeps a [..]. *)
Lemma clean_step_rooted (P : string -> Prop) out e :
  (real e = true -> e <> ".." -> P e) ->
  Forall (fun x => x <> ".." /\ P x) out ->
  Forall (fun x => x <> ".." /\ P x) (clean_step true out e).
Proof.
  intros He Hout. unfold clean_step.
  destruct ((e =? "") || (e =? ".")) eqn:Hs; [assumption|].
  assert (real e = true) by (unfold real; now rewrite Hs).
  destruct (String.eqb_spec e "..") as [->|Hn].
  - destruct out as [|top rest]; [constructor|].
    inversion Hout as [|? ? [Ht _] Hr]; subst.
    apply String.eqb_neq in Ht. now rewrite Ht.
  - constructor; auto.
Qed.

Lemma clean_stack_rooted (P : string -> Prop) es : forall out,
  Forall (fun e => real e = true -> e <> ".." -> P e) es ->
  Forall (fun x => x <> ".." /\ P x) out ->
  Forall (fun x => x <> ".." /\ P x) (clean_stack true out es).
Proof.
  induction es as [|e es IH]; intros out He Hout; [assumption|].
  inversion He; subst. apply IH; [assumption|]. now apply clean_step_rooted.
Qed.

Lemma clean_stack_app r out xs ys :
  clean_stack r out (xs ++ ys) = clean_stack r (clean_stack r out xs) ys.
Proof. apply fold_left_app. Qed.

(** Cleaning a relative path first and resolving it against a rooted
    prefix afterwards is the same as resolving the raw path. *)
Lemma clean_stack_relative_first raw : forall out,
  clean_stack true out raw = clean_stack true out (rev (clean_stack false [] raw)).
Proof.
  induction raw as [|e raw IH] using rev_ind; intros out; [reflexivity|].
  rewrite !clean_stack_app. cbn [clean_stack fold_left]. fold (clean_stack true out raw).
  rewrite IH.
  assert (Hreal : Forall (fun x => real x = true) (clean_stack false [] raw))
    by (apply clean_stack_keeps; [apply Forall_forall; auto | constructor]).
  fold (clean_stack false [] raw).
  set (C := clean_stack false [] raw) in *.
  destruct (real e) eqn:He; [|now rewrite !clean_step_skip].
  destruct (String.eqb_spec e "..") as [->|Hn].
  - unfold clean_step at 2. simpl.
    destruct C as [|top rest]; [reflexivity|].
    destruct (String.eqb_spec top "..") as [->|Ht].
    + cbn [rev]. now rewrite !clean_stack_app.
    + cbn [rev]. rewrite clean_stack_app. cbn [clean_stack fold_left].
      inversion Hreal; subst. rewrite (@clean_step_real true _ top) by assumption.
      unfold clean_step. simpl. now apply String.eqb_neq in Ht as ->.
  - rewrite (@clean_step_real false) by assumption. cbn [rev].
    now rewrite clean_stack_app.
Qed.

(** *** [render] *)

Lemma concat_cons_app (x : string) (l : list string) :
  l <> [] -> String.concat "/" (x :: l) = x ++ "/" ++ String.concat "/" l.
Proof. destruct l; [congruence | reflexivity]. Qed.

Lemma concat_app_prefix (xs ys : list string) :
  xs <> [] -> exists b, String.concat "/" (xs ++ ys) = String.concat "/" xs ++ b.
Proof.
  induction xs as [|x xs IH]; [congruence|]. intros _.
  destruct xs as [|x' xs].
  - destruct ys as [|y ys]; simpl.
    + exists "". now rewrite append_nil_r.
    + now exists ("/" ++ String.concat "/" (y :: ys)).
  - destruct IH as [b Hb]; [discriminate|].
    exists b. change ((x :: x' :: xs) ++ ys)%list with (x :: ((x' :: xs) ++ ys))%list.
    rewrite !concat_cons_app by discriminate. rewrite Hb.
    now rewrite !append_assoc.
Qed.

Lemma render_rooted_prefix (xs ys : list string) :
  strings.HasPrefix (render true (xs ++ ys)) (render true xs) = true.
Proof.
  unfold strings.HasPrefix, render. apply prefix_iff.
  destruct xs as [|x xs].
  - exists (String.concat "/" ys). reflexivity.
  - destruct (@concat_app_prefix (x :: xs) ys) as [b Hb]; [discriminate|].
    exists b. rewrite Hb. reflexivity.
Qed.

Lemma plain_no_slash l : Forall plain l -> Forall (fun e => has_char "/" e = false) l.
Proof. apply Forall_impl. now intros e (_ & _ & H). Qed.

Lemma plain_real l : Forall plain l -> Forall (fun e => real e = true) l.
Proof. apply Forall_impl. now intros e (H & _ & _). Qed.

Lemma plain_no_dotdot l : Forall plain l -> Forall (fun e => e <> "..") l.
Proof. apply Forall_impl. now intros e (_ & H & _). Qed.

Lemma filter_all (A : Type) (f : A -> bool) l :
  Forall (fun x => f x = true) l -> filter f l = l.
Proof. induction 1; simpl; [reflexivity|]. now rewrite H, IHForall. Qed.

Lemma Split_render_rooted l :
  Forall plain l ->
  strings.Split (render true l) Separator = "" :: match l with [] => [""] | _ => l end.
Proof.
  intros H. unfold render. simpl. f_equal.
  destruct l; [reflexivity|].
  apply (@Split_concat _ "/"%char); [discriminate | now apply plain_no_slash].
Qed.

Lemma clean_stack_plain r out l :
  Forall plain l -> clean_stack r out l = (rev l ++ out)%list.
Proof.
  intros H. rewrite clean_stack_no_dotdot by now apply plain_no_dotdot.
  now rewrite filter_all by now apply plain_real.
Qed.

Lemma render_rooted_not_empty l : (render true l =? "") = false.
Proof. reflexivity. Qed.

Lemma Clean_rooted (s : string) :
  IsAbs s = true ->
  Clean s = render true (rev (clean_stack true [] (strings.Split s Separator))).
Proof.
  intros H. unfold Clean. rewrite H.
  destruct s; [discriminate | reflexivity].
Qed.

Lemma Clean_relative (s : string) :
  IsAbs s = false -> s <> "" ->
  Clean s = render false (rev (clean_stack false [] (strings.Split s Separator))).
Proof.
  intros H Hs. unfold Clean. rewrite H.
  now apply String.eqb_neq in Hs as ->.
Qed.

Lemma IsAbs_render_rooted l : IsAbs (render true l) = true.
Proof. apply prefix_iff. now exists (String.concat "/" l). Qed.

Lemma Clean_render_rooted l : Forall plain l -> Clean (render true l) = render true l.
Proof.
  intros H. rewrite Clean_rooted by apply IsAbs_render_rooted.
  rewrite Split_render_rooted by assumption.
  change (clean_stack true [] ("" :: ?x)) with (clean_stack true [] x).
  destruct l; [reflexivity|].
  rewrite clean_stack_plain by assumption. now rewrite app_nil_r, rev_involutive.
Qed.

Lemma elements_render_rooted l : Forall plain l -> elements (render true l) = l.
Proof.
  intros H. unfold elements.
  replace (render true l =? ".") with false by reflexivity.
  rewrite Split_render_rooted by assumption. simpl.
  destruct l; [reflexivity|].
  apply filter_all. revert H. apply Forall_impl.
  intros e (Hr & _). unfold real in Hr. apply negb_true_iff, orb_false_iff in Hr as [-> _].
  reflexivity.
Qed.

(** *** The shape of [Abs (Join publicDir normalized)] *)

Lemma Split_segments (s : string) :
  Forall (fun e => real e = true -> segment e) (strings.Split s Separator).
Proof.
  eapply Forall_impl; [|apply Split_no_sep]. intros e H Hr. now split.
Qed.

Lemma Split_plain (s : string) :
  Forall (fun e => real e = true -> e <> ".." -> segment e) (strings.Split s Separator).
Proof.
  eapply Forall_impl; [|apply Split_no_sep]. intros e H Hr _. now split.
Qed.

Lemma rooted_stack_plain (s : string) out :
  Forall plain out -> Forall plain (clean_stack true out (strings.Split s Separator)).
Proof.
  intros Hout.
  assert (H : Forall (fun x => x <> ".." /\ segment x)
                (clean_stack true out (strings.Split s Separator))).
  { apply clean_stack_rooted; [apply Split_plain|].
    revert Hout. apply Forall_impl. intros e (H1 & H2 & H3). repeat split; assumption. }
  revert H. apply Forall_impl. intros e (H1 & H2 & H3). repeat split; assumption.
Qed.

Lemma relative_stack_segments (s : string) :
  Forall segment (clean_stack false [] (strings.Split s Separator)).
Proof. apply clean_stack_keeps; [apply Split_segments | constructor]. Qed.

Lemma IsAbs_cons c (x : string) : IsAbs (String c x) = Ascii.eqb "/" c.
Proof.
  unfold IsAbs, strings.HasPrefix.
  destruct (Ascii.eqb_spec "/" c) as [<-|Hn].
  - apply prefix_iff. now exists x.
  - destruct (String.prefix "/" (String c x)) eqn:E; [|reflexivity].
    apply prefix_iff in E as [b E]. injection E as E _. congruence.
Qed.

Lemma IsAbs_append (a b : string) : a <> "" -> IsAbs (a ++ b) = IsAbs a.
Proof.
  destruct a as [|c a]; [congruence|]. intros _.
  change (String c a ++ b) with (String c (a ++ b)). now rewrite !IsAbs_cons.
Qed.

Lemma IsAbs_render_relative l : Forall segment l -> IsAbs (render false l) = false.
Proof.
  intros H. destruct l as [|e l]; [reflexivity|].
  inversion H as [|? ? [Hr Hs] _]; subst.
  assert (E : exists b, render false (e :: l) = e ++ b).
  { destruct l; [exists ""; simpl; now rewrite append_nil_r|].
    unfold render. rewrite concat_cons_app by discriminate. eauto. }
  destruct E as [b ->]. rewrite IsAbs_append.
  - destruct e as [|c e]; [discriminate|]. rewrite IsAbs_cons.
    cbn [has_char] in Hs. apply orb_false_iff in Hs as [Hc _].
    now rewrite Ascii.eqb_sym.
  - intros ->. discriminate.
Qed.

Lemma Split_join (a b : string) :
  strings.Split (a ++ "/" ++ b) Separator
  = (strings.Split a Separator ++ strings.Split b Separator)%list.
Proof. exact (Split_append a b "/"%char). Qed.

Lemma Clean_join_rooted (a b : string) :
  IsAbs a = true ->
  Clean (a ++ "/" ++ b)
  = render true (rev (clean_stack true (clean_stack true [] (strings.Split a Separator))
                                       (strings.Split b Separator))).
Proof.
  intros Ha. assert (a <> "") by (intros ->; discriminate).
  rewrite Clean_rooted by (rewrite IsAbs_append; assumption).
  now rewrite Split_join, clean_stack_app.
Qed.

Lemma Clean_join_relative (a b : string) :
  IsAbs a = false -> a <> "" ->
  Clean (a ++ "/" ++ b)
  = render false (rev (clean_stack false (clean_stack false [] (strings.Split a Separator))
                                         (strings.Split b Separator))).
Proof.
  intros Ha Hne.
  rewrite Clean_relative; [| rewrite IsAbs_append; assumption | destruct a; [congruence | discriminate] ].
  now rewrite Split_join, clean_stack_app.
Qed.

(** Resolving a cleaned relative path against a rooted stack. *)
Lemma resolve_relative out l :
  Forall segment l ->
  clean_stack true out (strings.Split (render false l) Separator) = clean_stack true out l.
Proof.
  intros H. destruct l as [|e l]; [reflexivity|].
  unfold render. rewrite (@Split_concat _ "/"%char); [reflexivity | discriminate |].
  revert H. apply Forall_impl. now intros x [_ Hx].
Qed.

Lemma Join_nonempty (a b : string) : a <> "" -> Join a b = Clean (a ++ "/" ++ b).
Proof. intros H. unfold Join. now apply String.eqb_neq in H as ->. Qed.

Lemma Abs_relative cwd (s : string) :
  IsAbs cwd = true -> IsAbs s = false -> Abs cwd s = Clean (cwd ++ "/" ++ s).
Proof.
  intros Hc Hs. unfold Abs. rewrite Hs. apply Join_nonempty. intros ->. discriminate.
Qed.

Lemma plain_filter_real (s : string) :
  Forall (fun e => e <> "..") (strings.Split s Separator) ->
  Forall plain (filter real (strings.Split s Separator)).
Proof.
  intros H. apply Forall_forall. intros e He. apply filter_In in He as [Hin Hr].
  repeat split; [assumption | |].
  - rewrite Forall_forall in H. now apply H.
  - pose proof (Split_no_sep s "/"%char) as Hs. rewrite Forall_forall in Hs. now apply Hs.
Qed.

Lemma plain_segment l : Forall plain l -> Forall segment l.
Proof. apply Forall_impl. intros e (H1 & _ & H3). now split. Qed.

Theorem canonical_shape cwd pd n :
  IsAbs cwd = true -> IsAbs n = false -> n <> "" ->
  Forall (fun e => e <> "..") (strings.Split n Separator) ->
  exists X, Forall plain X
            /\ Abs cwd pd = render true X
            /\ Abs cwd (Join pd n) = render true (X ++ filter real (strings.Split n Separator)).
Proof.
  intros Hcwd Hn Hne Hdd.
  set (Rn := filter real (strings.Split n Separator)).
  assert (HRn : Forall plain Rn) by now apply plain_filter_real.
  set (Sc := clean_stack true [] (strings.Split cwd Separator)).
  assert (HSc : Forall plain Sc) by (apply rooted_stack_plain; constructor).
  destruct (String.eqb_spec pd "") as [->|Hpd].
  - (* the root is the working directory *)
    exists (rev Sc). split; [now apply Forall_rev|]. split.
    + rewrite Abs_relative by (assumption || reflexivity).
      now rewrite Clean_join_rooted.
    + unfold Join. simpl. apply String.eqb_neq in Hne as Hne'. rewrite Hne'. simpl.
      rewrite (Clean_relative _ Hn Hne).
      rewrite clean_stack_no_dotdot by assumption. fold Rn. rewrite app_nil_r, rev_involutive.
      rewrite Abs_relative; [|assumption|apply IsAbs_render_relative; now apply plain_segment].
      rewrite Clean_join_rooted by assumption. fold Sc.
      rewrite resolve_relative by now apply plain_segment.
      rewrite clean_stack_plain by assumption.
      now rewrite rev_app_distr, rev_involutive.
  - destruct (IsAbs pd) eqn:Hpa.
    + (* an absolute root *)
      set (Sp := clean_stack true [] (strings.Split pd Separator)).
      assert (HSp : Forall plain Sp) by (apply rooted_stack_plain; constructor).
      exists (rev Sp). split; [now apply Forall_rev|]. split.
      * unfold Abs. rewrite Hpa. now apply Clean_rooted.
      * rewrite Join_nonempty, Clean_join_rooted by assumption. fold Sp.
        rewrite clean_stack_no_dotdot by assumption. fold Rn.
        rewrite rev_app_distr, rev_involutive.
        unfold Abs. rewrite IsAbs_render_rooted.
        apply Clean_render_rooted. apply Forall_app. split; [now apply Forall_rev | assumption].
    + (* a root relative to the working directory *)
      set (X := clean_stack true Sc (strings.Split pd Separator)).
      assert (HX : Forall plain X) by now apply rooted_stack_plain.
      exists (rev X). split; [now apply Forall_rev|]. split.
      * rewrite Abs_relative by assumption. now rewrite Clean_join_rooted.
      * rewrite Join_nonempty, Clean_join_relative by assumption.
        rewrite clean_stack_no_dotdot by assumption. fold Rn.
        rewrite rev_app_distr, rev_involutive.
        set (Sp := clean_stack false [] (strings.Split pd Separator)).
        assert (HL : Forall segment (rev Sp ++ Rn)).
        { apply Forall_app. split; [apply Forall_rev, relative_stack_segments
                                   | now apply plain_segment]. }
        rewrite Abs_relative; [|assumption|now apply IsAbs_render_relative].
        rewrite Clean_join_rooted by assumption. fold Sc.
        rewrite resolve_relative by assumption.
        rewrite clean_stack_app. unfold Sp.
        rewrite <- clean_stack_relative_first. fold X.
        rewrite clean_stack_plain by assumption.
        now rewrite rev_app_distr, rev_involutive.
Qed.

End CleanFacts.

(** ** Paths below a root *)

Section BelowRoot.
Import filepath.

Lemma first_difference_prefix (xs ys : list string) :
  first_difference xs (xs ++ ys) = ([], ys, false).
Proof.
  induction xs as [|x xs IH]; simpl.
  - now destruct ys.
  - now rewrite String.eqb_refl.
Qed.

Lemma render_rooted_inj xs ys :
  Forall plain xs -> Forall plain ys -> render true xs = render true ys -> xs = ys.
Proof.
  intros Hx Hy E. rewrite <- (elements_render_rooted _ Hx), <- (elements_render_rooted _ Hy).
  now rewrite E.
Qed.

Lemma Rel_below X R :
  Forall plain X -> Forall plain R ->
  Rel (render true X) (render true (X ++ R))
  = Ok (match R with [] => "." | _ => String.concat "/" R end).
Proof.
  intros HX HR.
  assert (HXR : Forall plain (X ++ R)) by (apply Forall_app; now split).
  unfold Rel. rewrite !Clean_render_rooted by assumption.
  destruct R as [|r R].
  - now rewrite app_nil_r, String.eqb_refl.
  - destruct (String.eqb_spec (render true (X ++ r :: R)) (render true X)) as [E|_].
    + apply render_rooted_inj in E; try assumption.
      apply (f_equal (@List.length _)) in E. rewrite length_app in E. simpl in E. lia.
    + rewrite !IsAbs_render_rooted. cbn [Bool.eqb negb].
      rewrite !elements_render_rooted by assumption.
      now rewrite first_difference_prefix.
Qed.

(** *** [Dir] and [Base] of a rooted path *)

Lemma concat_snoc (l : list string) e :
  l <> [] -> String.concat "/" (l ++ [e]) = String.concat "/" l ++ "/" ++ e.
Proof.
  induction l as [|x l IH]; [congruence|]. intros _.
  destruct l as [|y l]; [reflexivity|].
  change ((x :: y :: l) ++ [e])%list with (x :: ((y :: l) ++ [e]))%list.
  rewrite !concat_cons_app by (try discriminate; now destruct l).
  rewrite IH by discriminate. now rewrite !append_assoc.
Qed.

Lemma render_rooted_snoc l e :
  render true (l ++ [e])
  = (match l with [] => "" | _ => render true l end) ++ "/" ++ e.
Proof.
  destruct l as [|x l]; [reflexivity|].
  unfold render. rewrite concat_snoc by discriminate. reflexivity.
Qed.

Lemma dir_part_append (a e : string) :
  has_char "/" e = false -> dir_part (a ++ "/" ++ e) = a ++ "/".
Proof.
  intros He.
  assert (H0 : dir_part e = "").
  { induction e as [|c e IH]; [reflexivity|]. cbn [has_char] in He.
    apply orb_false_iff in He as [Hc He]. cbn [dir_part]. rewrite (IH He).
    unfold Separator. now rewrite Hc. }
  assert (H1 : dir_part ("/" ++ e) = "/") by (simpl; now rewrite H0).
  induction a as [|c a IH]; [exact H1|].
  change (String c a ++ "/" ++ e) with (String c (a ++ "/" ++ e)).
  cbn [dir_part]. rewrite IH. now destruct a.
Qed.

Lemma Clean_trailing_slash l : Forall plain l -> Clean (render true l ++ "/") = render true l.
Proof.
  intros H. rewrite <- (Clean_render_rooted _ H) at 2.
  rewrite !Clean_rooted by (try rewrite IsAbs_append; try apply IsAbs_render_rooted; discriminate).
  change (render true l ++ "/") with (render true l ++ "/" ++ "").
  rewrite Split_join, clean_stack_app. reflexivity.
Qed.

Lemma Dir_rooted l e :
  Forall plain l -> plain e -> Dir (render true (l ++ [e])) = render true l.
Proof.
  intros Hl (_ & _ & He). unfold Dir. rewrite render_rooted_snoc, dir_part_append by assumption.
  destruct l; [reflexivity|]. now apply Clean_trailing_slash.
Qed.

Lemma TrimRight_id (a e : string) c :
  e <> "" -> has_char c e = false -> strings.TrimRight (a ++ e) c = a ++ e.
Proof.
  intros Hne He.
  assert (H0 : forall s, has_char c s = false -> strings.TrimRight s c = s).
  { induction s as [|x s IH]; [reflexivity|]. cbn [has_char]. intros H.
    apply orb_false_iff in H as [Hx Hs]. cbn [strings.TrimRight]. rewrite (IH Hs), Hx.
    now destruct s. }
  induction a as [|x a IH]; [now apply H0|].
  change (String x a ++ e) with (String x (a ++ e)). cbn [strings.TrimRight]. rewrite IH.
  destruct (a ++ e) eqn:E; [|reflexivity]. destruct a, e; try discriminate. congruence.
Qed.

Lemma Base_rooted l e :
  Forall plain l -> plain e -> Base (render true (l ++ [e])) = e.
Proof.
  intros Hl He. pose proof He as (Hr & _ & Hs).
  assert (Hne : e <> "") by (intros ->; discriminate).
  assert (HT : strings.TrimRight (render true (l ++ [e])) Separator = render true (l ++ [e])).
  { rewrite render_rooted_snoc, <- append_assoc. now apply TrimRight_id. }
  unfold Base. rewrite render_rooted_not_empty. cbv zeta. rewrite HT, render_rooted_not_empty.
  rewrite Split_render_rooted by (apply Forall_app; split; [assumption | now constructor]).
  destruct (l ++ [e])%list eqn:E; [now destruct l|].
  rewrite <- E. change ("" :: (l ++ [e]))%list with (("" :: l) ++ [e])%list.
  apply last_last.
Qed.

(** *** The normalized input *)

Lemma IsAbs_TrimLeft (s : string) : IsAbs (strings.TrimLeft s "/") = false.
Proof.
  induction s as [|c s IH]; [reflexivity|]. cbn [strings.TrimLeft].
  destruct (Ascii.eqb c "/") eqn:E; [assumption|].
  rewrite IsAbs_cons, Ascii.eqb_sym. exact E.
Qed.

Lemma IsAbs_TrimRight (s : string) : IsAbs s = false -> IsAbs (strings.TrimRight s "/") = false.
Proof.
  destruct s as [|c s]; [reflexivity|]. rewrite IsAbs_cons. intros H.
  cbn [strings.TrimRight]. destruct (strings.TrimRight s "/").
  - rewrite Ascii.eqb_sym, H. now rewrite IsAbs_cons.
  - now rewrite IsAbs_cons.
Qed.

Lemma IsAbs_Trim (s : string) : IsAbs (strings.Trim s "/") = false.
Proof. apply IsAbs_TrimRight, IsAbs_TrimLeft. Qed.

Lemma last_Split_cons c (s : string) a :
  s <> "" -> last (strings.Split s c) "" <> "" ->
  last (strings.Split (String a s) c) "" <> "".
Proof.
  intros Hs H. cbn [strings.Split].
  pose proof (Split_nonempty s c) as Hn.
  destruct (Ascii.eqb a c).
  - destruct (strings.Split s c); [contradiction | exact H].
  - destruct (strings.Split s c) as [|x [|y r]]; [contradiction | discriminate | exact H].
Qed.

Lemma last_Split_TrimRight (s : string) c :
  strings.TrimRight s c <> "" -> last (strings.Split (strings.TrimRight s c) c) "" <> "".
Proof.
  induction s as [|a s IH]; [intros H; now contradiction H|]. cbn [strings.TrimRight].
  destruct (strings.TrimRight s c) as [|b t] eqn:E.
  - destruct (Ascii.eqb a c) eqn:Hac; [intros H; now contradiction H|].
    intros _. simpl. rewrite Hac. discriminate.
  - intros _. apply last_Split_cons; [discriminate|]. apply IH. discriminate.
Qed.

Lemma filter_last (f : string -> bool) (l : list string) :
  l <> [] -> f (last l "") = true ->
  exists l', filter f l = (l' ++ [last l ""])%list.
Proof.
  intros Hl Hf. destruct (exists_last Hl) as (l0 & e & ->).
  rewrite last_last in *. exists (filter f l0).
  rewrite filter_app. simpl. now rewrite Hf.
Qed.

End BelowRoot.

(** ** Path confinement *)

Section Confinement.
Import filepath.
Variable p : PublicFilesService.
Variable w : World.

Lemma denylist_free_pattern input pattern :
  denylist_free input -> In pattern dangerousPatterns -> strings.Contains input pattern = false.
Proof. intros H Hin. exact (find_none _ _ H _ Hin). Qed.

Lemma denylisted_found input pattern :
  In pattern dangerousPatterns -> strings.Contains input pattern = true ->
  exists q, In q dangerousPatterns /\ strings.Contains input q = true
            /\ List.find (strings.Contains input) dangerousPatterns = Some q.
Proof.
  intros Hin Hc. destruct (List.find (strings.Contains input) dangerousPatterns) as [q|] eqn:E.
  - apply find_some in E as [H1 H2]. eauto.
  - rewrite (find_none _ _ E _ Hin) in Hc. discriminate.
Qed.

Lemma denylist_free_no_char input c :
  denylist_free input -> In (String c "") dangerousPatterns -> has_char c input = false.
Proof. intros H Hin. rewrite <- Contains_char. now apply denylist_free_pattern. Qed.

Lemma normalized_free input :
  denylist_free input -> normalized input = strings.Trim input "/".
Proof.
  intros H. unfold normalized. rewrite ReplaceAll_absent; [reflexivity|].
  apply denylist_free_no_char; [assumption|]. simpl. tauto.
Qed.

Lemma normalized_occurs input : denylist_free input -> occurs (normalized input) input.
Proof. intros H. rewrite normalized_free by assumption. apply Trim_occurs. Qed.

Lemma normalized_elements_occur input e :
  denylist_free input -> In e (strings.Split (normalized input) Separator) -> occurs e input.
Proof.
  intros H Hin. eapply occurs_trans; [eapply Split_occurs; eassumption|].
  now apply normalized_occurs.
Qed.

Lemma normalized_no_dotdot input :
  denylist_free input ->
  Forall (fun e => e <> "..") (strings.Split (normalized input) Separator).
Proof.
  intros H. apply Forall_forall. intros e Hin ->.
  apply (normalized_elements_occur _ _ H) in Hin. apply Contains_iff in Hin.
  rewrite denylist_free_pattern in Hin; [discriminate | assumption | simpl; tauto].
Qed.

(** The canonical path of a denylist-free input is the canonical root
    followed by the elements of the input that [Clean] keeps. *)
Lemma canonical_below_root input :
  IsAbs (cwd w) = true -> denylist_free input -> normalized input <> "" ->
  exists X, Forall plain X
            /\ Forall plain (filter real (strings.Split (normalized input) Separator))
            /\ publicCanonical p w = render true X
            /\ canonical_of p w input
               = render true (X ++ filter real (strings.Split (normalized input) Separator)).
Proof.
  intros Hcwd Hfree Hne.
  destruct (@canonical_shape (cwd w) (publicDir p) (normalized input)) as (X & HX & H1 & H2);
    try assumption.
  - rewrite normalized_free by assumption. apply IsAbs_Trim.
  - now apply normalized_no_dotdot.
  - exists X. repeat split; try assumption.
    apply plain_filter_real. now apply normalized_no_dotdot.
Qed.

Lemma check_components_ok canonical cs :
  Forall component_ok cs -> check_components canonical cs = Ok canonical.
Proof.
  induction 1 as [|c cs [H1 H2] _ IH]; [reflexivity|].
  cbn [check_components]. now rewrite H1, H2.
Qed.

Lemma denylist_free_chars input e :
  denylist_free input -> In e (strings.Split (normalized input) Separator) ->
  strings.Contains e nul || strings.Contains e "/" || strings.Contains e "\" = false.
Proof.
  intros H Hin. pose proof (normalized_elements_occur _ _ H Hin) as Hocc.
  rewrite (@Contains_false_occurs input e nul), (@Contains_false_occurs input e "\");
    try assumption; try (apply denylist_free_pattern; [assumption | simpl; tauto]).
  rewrite (Contains_char e "/").
  pose proof (Split_no_sep (normalized input) "/"%char) as Hs.
  rewrite Forall_forall in Hs. now rewrite (Hs e Hin).
Qed.

Theorem read_denylisted input pattern :
  In pattern dangerousPatterns -> strings.Contains input pattern = true ->
  exists q, In q dangerousPatterns
            /\ sanitizePathForRead p w input = Err ("dangerous pattern detected: " ++ q).
Proof.
  intros Hin Hc. destruct (denylisted_found _ _ Hin Hc) as (q & Hq & _ & E).
  exists q. split; [assumption|]. unfold sanitizePathForRead. now rewrite E.
Qed.

Theorem write_denylisted input pattern :
  In pattern dangerousPatterns -> strings.Contains input pattern = true ->
  exists q, In q dangerousPatterns
            /\ sanitizePathForWrite p w input = Err ("dangerous pattern detected: " ++ q).
Proof.
  intros Hin Hc. destruct (denylisted_found _ _ Hin Hc) as (q & Hq & _ & E).
  exists q. split; [assumption|]. unfold sanitizePathForWrite. now rewrite E.
Qed.

Theorem read_root input :
  denylist_free input -> normalized input = "" ->
  sanitizePathForRead p w input = Ok (publicDir p).
Proof.
  intros Hfree Hn. unfold sanitizePathForRead. rewrite Hfree. fold (normalized input).
  now rewrite Hn.
Qed.

Theorem read_below_root input :
  IsAbs (cwd w) = true -> denylist_free input -> normalized input <> "" ->
  is_ok (os.Stat (cwd w) (fs w) (canonical_of p w input)) = true ->
  no_hidden_component input ->
  sanitizePathForRead p w input = Ok (canonical_of p w input)
  /\ strings.HasPrefix (canonical_of p w input) (publicCanonical p w) = true.
Proof.
  intros Hcwd Hfree Hne Hstat Hhid.
  destruct (canonical_below_root _ Hcwd Hfree Hne) as (X & HX & HR & Hpc & Hc).
  assert (Hpre : strings.HasPrefix (canonical_of p w input) (publicCanonical p w) = true)
    by (rewrite Hc, Hpc; apply render_rooted_prefix).
  split; [|assumption].
  unfold sanitizePathForRead. rewrite Hfree. fold (normalized input).
  apply String.eqb_neq in Hne as ->. cbv zeta.
  fold (canonical_of p w input). fold (publicCanonical p w). rewrite Hpre. cbn [negb].
  destruct (os.Stat (cwd w) (fs w) (canonical_of p w input)) as [stat|]; [|discriminate].
  rewrite andb_false_r.
  rewrite Hpc, Hc at 1. rewrite Rel_below by assumption.
  apply check_components_ok.
  remember (filter real (strings.Split (normalized input) Separator)) as R eqn:ER.
  destruct R as [|r R'].
  - repeat constructor.
  - rewrite (Split_concat _ "/"%char) by (try discriminate; now apply plain_no_slash).
    apply Forall_forall. intros c Hc'. rewrite ER in Hc'. apply filter_In in Hc' as [Hin Hr].
    split; [|now apply (denylist_free_chars input)].
    unfold no_hidden_component in Hhid. rewrite Forall_forall in Hhid.
    destruct (strings.HasPrefix c ".") eqn:Hp; [|reflexivity].
    rewrite (Hhid c Hin Hp) in Hr. discriminate.
Qed.

Theorem write_below_root input :
  IsAbs (cwd w) = true -> denylist_free input -> normalized input <> "" ->
  strings.HasPrefix (final_component input) "." = false ->
  (strings.len (final_component input) <= 255)%Z ->
  sanitizePathForWrite p w input = Ok (canonical_of p w input)
  /\ strings.HasPrefix (canonical_of p w input) (publicCanonical p w) = true.
Proof.
  intros Hcwd Hfree Hne Hdot Hlen.
  destruct (canonical_below_root _ Hcwd Hfree Hne) as (X & HX & HR & Hpc & Hc).
  assert (Hpre : strings.HasPrefix (canonical_of p w input) (publicCanonical p w) = true)
    by (rewrite Hc, Hpc; apply render_rooted_prefix).
  split; [|assumption].
  (* the final component is kept by [Clean] *)
  assert (Hlast : final_component input <> "").
  { unfold final_component. rewrite normalized_free in * by assumption.
    unfold strings.Trim in *. now apply last_Split_TrimRight. }
  assert (Hreal : real (final_component input) = true).
  { unfold real. apply String.eqb_neq in Hlast as ->.
    destruct (String.eqb_spec (final_component input) ".") as [E|]; [|reflexivity].
    rewrite E in Hdot. discriminate. }
  destruct (@filter_last real (strings.Split (normalized input) Separator))
    as [R' HR']; [apply Split_nonempty | exact Hreal |].
  fold (final_component input) in HR'. rewrite HR' in *.
  apply Forall_app in HR as [HR1 HR2]. inversion HR2 as [|? ? Hf _]; subst.
  rewrite app_assoc in Hc.
  assert (HXR : Forall plain (X ++ R')) by (apply Forall_app; now split).
  unfold sanitizePathForWrite. rewrite Hfree. fold (normalized input).
  apply String.eqb_neq in Hne as ->. cbv zeta.
  fold (canonical_of p w input). fold (publicCanonical p w).
  rewrite Hc. rewrite Dir_rooted, Base_rooted by assumption.
  unfold Abs at 1. rewrite IsAbs_render_rooted, Clean_render_rooted by assumption.
  rewrite Hpc, render_rooted_prefix. cbn [negb]. rewrite andb_false_r.
  rewrite Hdot.
  destruct (Z.gtb_spec (strings.len (final_component input)) 255) as [Hgt|_]; [lia|].
  rewrite (denylist_free_chars input); [reflexivity | assumption |].
  unfold final_component.
  destruct (exists_last (@Split_nonempty (normalized input) "/"%char)) as (l0 & e & E).
  unfold Separator. rewrite E, last_last. apply in_or_app. right. now left.
Qed.

End Confinement.

(** C1 (amended). An input in which a pattern of the denylist occurs is
    rejected by both [sanitizePathForRead] and [sanitizePathForWrite] with
    "dangerous pattern detected". For an input free of these patterns, the
    working directory being absolute:
    - [sanitizePathForRead] answers the configured root itself when the
      normalized input is empty; otherwise, when the target exists and no
      component of the input is hidden, it answers the canonical path, which
      has the canonical root as a prefix;
    - [sanitizePathForWrite] answers the canonical path, which has the
      canonical root as a prefix, when the normalized input is not empty and
      its last component does not start with a dot and is at most 255 bytes
      long. *)
Theorem C1_path_confinement (p : PublicFilesService) (w : World) (input : string) :
  filepath.IsAbs (cwd w) = true ->
  (forall pattern, In pattern dangerousPatterns -> strings.Contains input pattern = true ->
     exists q, In q dangerousPatterns
               /\ sanitizePathForRead p w input = Err ("dangerous pattern detected: " ++ q)
               /\ sanitizePathForWrite p w input = Err ("dangerous pattern detected: " ++ q))
  /\ (denylist_free input ->
        (normalized input = "" -> sanitizePathForRead p w input = Ok (publicDir p))
        /\ (normalized input <> "" ->
            is_ok (os.Stat (cwd w) (fs w) (canonical_of p w input)) = true ->
            no_hidden_component input ->
            sanitizePathForRead p w input = Ok (canonical_of p w input)
            /\ strings.HasPrefix (canonical_of p w input) (publicCanonical p w) = true)
        /\ (normalized input <> "" ->
            strings.HasPrefix (final_component input) "." = false ->
            (strings.len (final_component input) <= 255)%Z ->
            sanitizePathForWrite p w input = Ok (canonical_of p w input)
            /\ strings.HasPrefix (canonical_of p w input) (publicCanonical p w) = true)).
Proof.
  intros Hcwd. split.
  - intros pattern Hin Hc. destruct (denylisted_found _ _ Hin Hc) as (q & Hq & _ & E).
    exists q. unfold sanitizePathForRead, sanitizePathForWrite. rewrite E. auto.
  - intros Hfree. split; [|split].
    + now apply read_root.
    + now apply read_below_root.
    + now apply write_below_root.
Qed.

Lemma C1_path_confinement_witness :
  sanitizePathForRead Demo.production Demo.world "docs/b.txt" = Ok "/app/data/public/docs/b.txt"
  /\ sanitizePathForWrite Demo.production Demo.world "docs/b.txt" = Ok "/app/data/public/docs/b.txt"
  /\ sanitizePathForRead Demo.production Demo.world "/" = Ok "data/public"
  /\ exists q, sanitizePathForWrite Demo.production Demo.world "docs/../../x"
               = Err ("dangerous pattern detected: " ++ q).
Proof.
  destruct (C1_path_confinement Demo.production Demo.world "docs/b.txt" eq_refl) as [_ H].
  destruct (H eq_refl) as (_ & Hr & Hw).
  destruct (C1_path_confinement Demo.production Demo.world "/" eq_refl) as [_ H0].
  destruct (H0 eq_refl) as (Hroot & _ & _).
  destruct (C1_path_confinement Demo.production Demo.world "docs/../../x" eq_refl) as [Hd _].
  split; [|split; [|split]].
  - apply Hr; [discriminate | reflexivity |].
    repeat constructor; intros E; vm_compute in E; discriminate E.
  - apply Hw; [discriminate | reflexivity | vm_compute; discriminate].
  - apply Hroot. reflexivity.
  - destruct (Hd ".." (or_introl eq_refl) eq_refl) as (q & _ & _ & E). exists q. exact E.
Defined.

(** C1, as stated, fails on the write side: [.hidden] holds no pattern of the
    denylist and its canonical form lies within the root, yet
    [sanitizePathForWrite] rejects it; so it does the empty input. *)
Lemma C1_counterexample :
  denylist_free ".hidden"
  /\ strings.HasPrefix (canonical_of Demo.service Demo.world ".hidden")
                       (publicCanonical Demo.service Demo.world) = true
  /\ sanitizePathForWrite Demo.service Demo.world ".hidden" = Err "cannot create hidden files"
  /\ denylist_free ""
  /\ sanitizePathForWrite Demo.service Demo.world "" = Err "path cannot be empty".
Proof. repeat split. Qed.

(** ** Pagination *)

Section Pagination.
Local Open Scope Z_scope.

Lemma int32_in_range (z : Z) : - 2 ^ 31 <= z < 2 ^ 31 -> int32 z = z.
Proof. intros H. unfold int32. rewrite Z.mod_small; lia. Qed.

Lemma int32_wraps (z k : Z) : int32 (z + k * 2 ^ 32) = int32 z.
Proof. unfold int32. now rewrite <- Z.add_assoc, (Z.add_comm (k * _)), Z.add_assoc, Z_mod_plus_full. Qed.

Lemma firstn_skipn_length (A : Type) (l : list A) (lo n : nat) :
  List.length (firstn n (skipn lo l)) = Nat.min n (List.length l - lo).
Proof. now rewrite length_firstn, length_skipn. Qed.

Lemma firstn_min_length (A : Type) (l : list A) (n : nat) :
  firstn (Nat.min n (List.length l)) l = firstn n l.
Proof.
  destruct (Nat.le_ge_cases n (List.length l)) as [H|H].
  - now rewrite Nat.min_l.
  - rewrite Nat.min_r by assumption. now rewrite !firstn_all2 by lia.
Qed.

(** Within the range of [int32], [paginate] computes the page as specified. *)
Lemma paginate_in_range (maxLimit : Z) (items : list dtos.FileSystemItem) (pageVal limitVal : Z) :
  let page := clamp_page pageVal in
  let limit := clamp_limit maxLimit limitVal in
  let total := Z.of_nat (List.length items) in
  10 <= maxLimit ->
  - 2 ^ 31 <= pageVal < 2 ^ 31 -> - 2 ^ 31 <= limitVal < 2 ^ 31 ->
  total + maxLimit < 2 ^ 31 -> page * limit < 2 ^ 31 ->
  paginate maxLimit items pageVal limitVal
  = Ok {| dtos.Items := firstn (Z.to_nat limit) (skipn (Z.to_nat ((page - 1) * limit)) items);
          dtos.Total := total;
          dtos.Page := page;
          dtos.Limit := limit;
          dtos.TotalPages := (total + limit - 1) / limit;
          dtos.HasNext := page <? (total + limit - 1) / limit;
          dtos.HasPrev := page >? 1 |}.
Proof.
  intros page limit total Hmax Hp Hl Ht Hpl.
  unfold paginate. rewrite (int32_in_range pageVal), (int32_in_range limitVal) by assumption.
  replace (if pageVal <? 1 then 1 else pageVal) with page
    by (unfold page, clamp_page; destruct (Z.ltb_spec pageVal 1); lia).
  replace (if (if limitVal <? 10 then 10 else limitVal) >? maxLimit then maxLimit
           else if limitVal <? 10 then 10 else limitVal) with limit
    by (unfold limit, clamp_limit; destruct (Z.ltb_spec limitVal 10);
        match goal with |- context [?a >? ?b] => destruct (Z.gtb_spec a b) end; lia).
  assert (Hlim : 10 <= limit <= maxLimit) by (unfold limit, clamp_limit; lia).
  assert (Hpage : 1 <= page) by (unfold page, clamp_page; lia).
  fold total. rewrite (int32_in_range total) by lia.
  rewrite (int32_in_range (total + limit - 1)) by lia.
  set (start := (page - 1) * limit).
  assert (Hstart : 0 <= start) by (apply Z.mul_nonneg_nonneg; lia).
  assert (Hnext : start + limit = page * limit) by (unfold start; ring).
  assert (Htotal : total = Z.of_nat (List.length items)) by reflexivity.
  clearbody start page limit total.
  rewrite (int32_in_range start) by lia.
  rewrite (int32_in_range (start + limit)) by lia.
  rewrite Z.quot_div_nonneg by lia.
  destruct (Z.ltb_spec start total) as [Hlt|Hge].
  - unfold slice.
    replace (0 <=? start) with true by (symmetry; apply Z.leb_le; lia).
    set (end_ := if start + limit >? total then total else start + limit).
    assert (Hend : end_ = Z.min (start + limit) total)
      by (unfold end_; destruct (Z.gtb_spec (start + limit) total); lia).
    replace (start <=? end_) with true by (symmetry; apply Z.leb_le; lia).
    rewrite <- Htotal.
    replace (end_ <=? total) with true by (symmetry; apply Z.leb_le; lia).
    cbn [andb]. do 2 f_equal.
    rewrite <- (firstn_min_length _ _ (Z.to_nat limit)). f_equal.
    rewrite length_skipn. lia.
  - do 2 f_equal. rewrite skipn_all2 by lia. now rewrite firstn_nil.
Qed.

Lemma paginate_count (items : list dtos.FileSystemItem) (page limit : Z) :
  1 <= page -> 0 <= limit ->
  Z.of_nat (List.length (firstn (Z.to_nat limit) (skipn (Z.to_nat ((page - 1) * limit)) items)))
  = Z.min limit (Z.max 0 (Z.of_nat (List.length items) - (page - 1) * limit)).
Proof. intros Hp Hl. rewrite firstn_skipn_length. nia. Qed.

Lemma ceil_div (total limit : Z) :
  0 <= total -> 0 < limit ->
  let pages := (total + limit - 1) / limit in
  (pages - 1) * limit < total <= pages * limit \/ (total = 0 /\ pages = 0).
Proof.
  intros Ht Hl pages.
  pose proof (Z.div_mod (total + limit - 1) limit ltac:(lia)) as E.
  pose proof (Z.mod_pos_bound (total + limit - 1) limit Hl) as B.
  fold pages in E. destruct (Z.eq_dec total 0) as [->|Hn].
  - right. split; [reflexivity|]. unfold pages. apply Z.div_small. lia.
  - left. nia.
Qed.

End Pagination.

(** C2. The pagination block computes in [int32]: at page 268435457 with limit
    16 the first index [(page-1)*limit] is [2^32], which wraps to 0, so the
    two entries of the first page come back as page 268435457, where the
    claimed count [min(limit, max(0, total - (page-1)*limit))] is 0. *)
Theorem C2_page_overflow_returns_first_page :
  fst (ListItemsRoot Demo.service Demo.world 268435457 16)
  = Ok {| dtos.Items := [ {| dtos.Name := "docs"; dtos.Path := "docs";
                             dtos.Size := 0; dtos.IsDir := true |};
                          {| dtos.Name := "notes.txt"; dtos.Path := "notes.txt";
                             dtos.Size := 5; dtos.IsDir := false |} ];
          dtos.Total := 2; dtos.Page := 268435457; dtos.Limit := 16;
          dtos.TotalPages := 1; dtos.HasNext := false; dtos.HasPrev := true |}
  /\ Z.min 16 (Z.max 0 (2 - (268435457 - 1) * 16)) = 0%Z.
Proof. split; vm_compute; reflexivity. Qed.

(** C3. [CreateFile] on a path that holds a file does not fail: [os.WriteFile]
    truncates the file, the call succeeds and [file_created] is broadcast.
    Here [notes.txt] holds "hello" before the call and nothing after it. *)
Theorem C3_CreateFile_truncates_existing_file :
  os.ReadFile "/app" (fs Demo.world) "/srv/pub/notes.txt" = Ok "hello"
  /\ let '(r, w') := CreateFile Demo.service Demo.world "notes.txt" in
     is_ok r = true
     /\ os.ReadFile "/app" (fs w') "/srv/pub/notes.txt" = Ok ""
     /\ map dtos.EventType (sent w') = ["file_created"].
Proof. vm_compute. repeat split. Qed.

(** C5. With the root the routes configure, [data/public], listing the
    directory [docs] yields no item although it holds two visible entries:
    [filepath.Rel] cannot relate the relative root to the absolute path of an
    entry, and the loop skips every entry. Over an absolute root the same
    listing has both entries. *)
Theorem C5_relative_root_lists_nothing :
  option_map (map fst)
    (match os.ReadDir "/app" (fs Demo.world) "/app/data/public/docs" with
     | Ok es => Some es | Err _ => None end) = Some ["A.txt"; "b.txt"]
  /\ fst (ListItems Demo.production Demo.world "docs" 1 10)
     = Ok {| dtos.Items := []; dtos.Total := 0; dtos.Page := 1; dtos.Limit := 10;
             dtos.TotalPages := 0; dtos.HasNext := false; dtos.HasPrev := false |}
  /\ match fst (ListItems Demo.service Demo.world "docs" 1 10) with
     | Ok page => map dtos.Path (dtos.Items page) = ["docs/A.txt"; "docs/b.txt"]
     | Err _ => False
     end.
Proof. vm_compute. repeat split. Qed.

(** C9. The callback of [SearchItems] answers nil on a hidden directory, so
    [filepath.Walk] descends into it and the entries below it whose own name
    is not hidden are matched: the search for "notes" returns
    [.secret/notes2.txt], a path with a hidden component. *)
Theorem C9_search_returns_entries_of_hidden_directories :
  match fst (SearchItems Demo.service Demo.world "notes" 1 10) with
  | Ok page =>
      map (fun i => (dtos.Name i, dtos.Path i)) (dtos.Items page)
      = [ ("notes2.txt", ".secret/notes2.txt"); ("notes.txt", "notes.txt") ]
  | Err _ => False
  end
  /\ existsb (fun c => strings.HasPrefix c ".")
             (strings.Split ".secret/notes2.txt" filepath.Separator) = true.
Proof. vm_compute. repeat split. Qed.

(** What [listItemsImpl] does keep to: no item of a listing has a hidden name. *)
Lemma list_entries_visible (p : PublicFilesService) (base : string)
    (entries : list (string * os.node)) :
  Forall (fun i => hidden_name (dtos.Name i) = false) (list_entries p base entries).
Proof.
  induction entries as [|[name n] entries IH]; cbn [list_entries]; [constructor|].
  destruct (hidden_name name) eqn:H; [assumption|].
  destruct (filepath.Rel (publicDir p) (filepath.Join base name)); [|assumption].
  constructor; [exact H | assumption].
Qed.

(** ** The file system tree *)

Section FileSystemFacts.
Import os.

Lemma assoc_replace_same (A : Type) (name : string) (c : A) es :
  assoc name (replace_entry name c es) = Some c.
Proof.
  induction es as [|[k v] es IH]; simpl.
  - now rewrite String.eqb_refl.
  - destruct (k =? name) eqn:E; simpl; [now rewrite String.eqb_refl | now rewrite E].
Qed.

Lemma assoc_replace_other (A : Type) (name k : string) (c : A) es :
  k <> name -> assoc k (replace_entry name c es) = assoc k es.
Proof.
  intros Hn. induction es as [|[k' v] es IH]; simpl.
  - apply not_eq_sym, String.eqb_neq in Hn. now rewrite Hn.
  - destruct (String.eqb_spec k' name) as [->|Hk]; simpl.
    + apply not_eq_sym, String.eqb_neq in Hn. now rewrite Hn.
    + now rewrite IH.
Qed.

Lemma assoc_remove_same (A : Type) (name : string) (es : list (string * A)) :
  assoc name (remove_entry name es) = None.
Proof.
  induction es as [|[k v] es IH]; simpl; [reflexivity|].
  destruct (k =? name) eqn:E; simpl; [assumption | now rewrite E].
Qed.

Lemma assoc_remove_other (A : Type) (name k : string) (es : list (string * A)) :
  k <> name -> assoc k (remove_entry name es) = assoc k es.
Proof.
  intros Hn. induction es as [|[k' v] es IH]; simpl; [reflexivity|].
  destruct (String.eqb_spec k' name) as [->|Hk]; simpl.
  - apply not_eq_sym, String.eqb_neq in Hn. now rewrite Hn.
  - now rewrite IH.
Qed.

Lemma assoc_set_same (A : Type) (name : string) (v : option A) es :
  assoc name (set_entry name v es) = v.
Proof. destruct v; [apply assoc_replace_same | apply assoc_remove_same]. Qed.

Lemma assoc_set_other (A : Type) (name k : string) (v : option A) es :
  k <> name -> assoc k (set_entry name v es) = assoc k es.
Proof. destruct v; [apply assoc_replace_other | apply assoc_remove_other]. Qed.

Lemma replace_entry_same (A : Type) (name : string) (c : A) es :
  assoc name es = Some c -> replace_entry name c es = es.
Proof.
  induction es as [|[k v] es IH]; simpl; [discriminate|].
  destruct (String.eqb_spec k name) as [->|Hk].
  - now intros [= ->].
  - intros H. now rewrite IH.
Qed.

Lemma find_update_same p : forall f n n',
  update p f n = Ok n' ->
  exists v, f (occupant p n) = Ok v /\ find p n' = found v.
Proof.
  induction p as [|e p IH]; intros f n n' H; [discriminate|].
  destruct n as [|es]; [discriminate|]. cbn [update] in H.
  destruct p as [|e' p'].
  - destruct (f (assoc e es)) as [v|] eqn:Hf; [|discriminate]. injection H as <-.
    exists v. split.
    + unfold occupant. cbn [find]. now destruct (assoc e es).
    + cbn [find]. rewrite assoc_set_same. now destruct v.
  - destruct (assoc e es) as [c|] eqn:Ha; [|discriminate].
    destruct (update (e' :: p') f c) as [c'|] eqn:Hu; [|discriminate]. injection H as <-.
    destruct (IH f c c' Hu) as (v & Hf & Hfind). exists v. split.
    + unfold occupant in *. cbn [find]. now rewrite Ha.
    + cbn [find]. rewrite assoc_replace_same. exact Hfind.
Qed.

Lemma find_update_diverge p : forall q f n n',
  update p f n = Ok n' -> is_prefix p q = false -> is_prefix q p = false ->
  find q n' = find q n.
Proof.
  induction p as [|e p IH]; intros q f n n' H Hpq Hqp; [discriminate|].
  destruct q as [|b q]; [discriminate|].
  destruct n as [|es]; [discriminate|]. cbn [update] in H. cbn [is_prefix] in Hpq, Hqp.
  destruct (String.eqb_spec e b) as [->|Hne].
  - rewrite String.eqb_refl in Hqp. cbn [andb] in Hpq, Hqp.
    destruct p as [|e' p']; [discriminate|].
    destruct (assoc b es) as [c|] eqn:Ha; [|discriminate].
    destruct (update (e' :: p') f c) as [c'|] eqn:Hu; [|discriminate]. injection H as <-.
    cbn [find]. rewrite assoc_replace_same, Ha. now apply (IH q f).
  - assert (E : exists v, n' = Dir (set_entry e v es)).
    { destruct p as [|e' p'].
      - destruct (f (assoc e es)) as [v|]; [|discriminate]. injection H as <-. now exists v.
      - destruct (assoc e es) as [c|]; [|discriminate].
        destruct (update (e' :: p') f c) as [c'|]; [|discriminate]. injection H as <-.
        now exists (Some c'). }
    destruct E as [v ->]. cbn [find]. rewrite assoc_set_other by congruence. reflexivity.
Qed.

Lemma is_prefix_app p q : is_prefix p (p ++ q) = true.
Proof. induction p as [|e p IH]; [reflexivity|]. simpl. now rewrite String.eqb_refl. Qed.

Lemma is_prefix_inv p : forall q, is_prefix p q = true -> exists r, q = (p ++ r)%list.
Proof.
  induction p as [|e p IH]; intros q H; [now exists q|].
  destruct q as [|b q]; [discriminate|]. simpl in H. apply andb_true_iff in H as [He Hp].
  apply String.eqb_eq in He as ->. destruct (IH q Hp) as [r ->]. now exists r.
Qed.

Lemma is_prefix_refl p : is_prefix p p = true.
Proof. rewrite <- (app_nil_r p) at 2. apply is_prefix_app. Qed.

Lemma find_app p : forall q n,
  find (p ++ q) n = match find p n with Ok m => find q m | Err e => Err e end.
Proof.
  induction p as [|e p IH]; intros q n; [reflexivity|].
  cbn [app find]. destruct n as [|es].
  - reflexivity.
  - destruct (assoc e es); [apply IH | reflexivity].
Qed.

Lemma find_below_file p q n data :
  find p n = Ok (File data) -> q <> [] -> find (p ++ q) n = Err ENOTDIR.
Proof. intros H Hq. rewrite find_app, H. now destruct q. Qed.

(** *** [MkdirAll] *)

Lemma mkdir_all_fresh l : exists c, mkdir_all l (Dir []) = Ok c.
Proof.
  induction l as [|e l [c IH]]; [now exists (Dir [])|].
  cbn [mkdir_all assoc]. rewrite IH. eauto.
Qed.

Lemma mkdir_all_missing l : forall e n,
  find (l ++ [e]) n = Err ENOENT -> exists n', mkdir_all l n = Ok n'.
Proof.
  induction l as [|a l IH]; intros e n H.
  - destruct n; [discriminate|]. simpl. eauto.
  - destruct n as [|es]; [discriminate|]. cbn [app find] in H. cbn [mkdir_all].
    destruct (assoc a es) as [c|].
    + destruct (IH e c H) as [c' ->]. eauto.
    + destruct (mkdir_all_fresh l) as [c' ->]. eauto.
Qed.

Lemma mkdir_all_existing l : forall n es,
  find l n = Ok (Dir es) -> mkdir_all l n = Ok n.
Proof.
  induction l as [|a l IH]; intros n es H.
  - simpl in H. injection H as ->. reflexivity.
  - destruct n as [|es0]; [discriminate|]. cbn [find] in H. cbn [mkdir_all].
    destruct (assoc a es0) as [c|] eqn:Ha; [|discriminate].
    rewrite (IH c es H). cbn [set_entry]. now rewrite replace_entry_same.
Qed.

Lemma mkdir_all_dir l : forall n n',
  mkdir_all l n = Ok n' -> exists es, find l n' = Ok (Dir es).
Proof.
  induction l as [|a l IH]; intros n n' H.
  - destruct n as [|es]; [discriminate|]. injection H as <-. simpl. eauto.
  - destruct n as [|es]; [discriminate|]. cbn [mkdir_all] in H.
    destruct (mkdir_all l _) as [c'|] eqn:Hm; [|discriminate]. injection H as <-.
    cbn [find set_entry]. rewrite assoc_replace_same. eapply IH; eassumption.
Qed.

Lemma mkdir_all_keeps_files l : forall n n' q data,
  mkdir_all l n = Ok n' -> find q n = Ok (File data) -> find q n' = Ok (File data).
Proof.
  induction l as [|a l IH]; intros n n' q data H Hq.
  - destruct n; [discriminate|]. now injection H as <-.
  - destruct n as [|es]; [discriminate|]. cbn [mkdir_all] in H.
    destruct (mkdir_all l _) as [c'|] eqn:Hm; [|discriminate]. injection H as <-.
    destruct q as [|b q]; [discriminate|]. cbn [find set_entry] in *.
    destruct (String.eqb_spec b a) as [->|Hne].
    + rewrite assoc_replace_same. destruct (assoc a es) as [c|]; [|discriminate].
      eapply IH; eassumption.
    + now rewrite assoc_replace_other.
Qed.

Lemma mkdir_all_keeps_missing l : forall n n' q,
  mkdir_all l n = Ok n' -> find q n = Err ENOENT -> is_prefix q l = false ->
  find q n' = Err ENOENT.
Proof.
  induction l as [|a l IH]; intros n n' q H Hq Hpre.
  - destruct n; [discriminate|]. now injection H as <-.
  - destruct n as [|es]; [discriminate|]. cbn [mkdir_all] in H.
    destruct (mkdir_all l _) as [c'|] eqn:Hm; [|discriminate]. injection H as <-.
    destruct q as [|b q]; [discriminate|]. cbn [find set_entry is_prefix] in *.
    destruct (String.eqb_spec b a) as [->|Hne].
    + rewrite assoc_replace_same. cbn [andb] in Hpre.
      destruct (assoc a es) as [c|].
      * eapply IH; eassumption.
      * eapply IH; [eassumption | | assumption].
        destruct q; [discriminate | reflexivity].
    + now rewrite assoc_replace_other.
Qed.

Lemma update_in_dir l : forall e f n es v,
  find l n = Ok (Dir es) -> f (assoc e es) = Ok v ->
  exists n', update (l ++ [e]) f n = Ok n'.
Proof.
  induction l as [|a l IH]; intros e f n es v H Hf.
  - simpl in H. injection H as ->. simpl. rewrite Hf. eauto.
  - destruct n as [|es0]; [discriminate|]. cbn [find] in H.
    destruct (assoc a es0) as [c|] eqn:Ha; [|discriminate].
    destruct (IH e f c es v H Hf) as [c' Hc'].
    cbn [app update]. rewrite Ha, Hc'. destruct (l ++ [e])%list eqn:E; [now destruct l|]. eauto.
Qed.

Lemma occupant_in_dir l e n es :
  find l n = Ok (Dir es) -> occupant (l ++ [e]) n = assoc e es.
Proof.
  intros H. unfold occupant. rewrite find_app, H. cbn [find]. now destruct (assoc e es).
Qed.

Lemma find_parent_dir l e n m :
  find (l ++ [e]) n = Ok m -> exists es, find l n = Ok (Dir es).
Proof.
  rewrite find_app. destruct (find l n) as [[|es]|]; try discriminate. eauto.
Qed.

Lemma find_missing_parent l e n :
  find (l ++ [e]) n = Err ENOENT ->
  find l n = Err ENOENT \/ exists es, find l n = Ok (Dir es) /\ assoc e es = None.
Proof.
  rewrite find_app. destruct (find l n) as [[|es]|err]; cbn [find].
  - discriminate.
  - destruct (assoc e es) eqn:E; [discriminate|]. right. eauto.
  - intros [= ->]. now left.
Qed.

End FileSystemFacts.

(** ** Sanitized paths and the tree *)

Section SanitizedPaths.
Import filepath.

Lemma length_append_string (a b : string) :
  String.length (a ++ b) = (String.length a + String.length b)%nat.
Proof. induction a; simpl; congruence. Qed.

Lemma HasPrefix_length (s t : string) :
  strings.HasPrefix s t = true -> (String.length t <= String.length s)%nat.
Proof.
  unfold strings.HasPrefix. intros H. apply prefix_iff in H as [b ->].
  rewrite length_append_string. lia.
Qed.

Lemma render_rooted_snoc_longer l e :
  e <> "" -> (String.length (render true l) < String.length (render true (l ++ [e])))%nat.
Proof.
  intros He. rewrite render_rooted_snoc.
  assert (0 < String.length e)%nat by (destruct e; [congruence | simpl; lia]).
  destruct l; rewrite !length_append_string; simpl; lia.
Qed.

Lemma plain_not_empty e : plain e -> e <> "".
Proof. intros (H & _ & _) ->. discriminate. Qed.

(** A path that [sanitizePathForWrite] accepts is the canonical root or a
    path below it, followed by one more element. *)
Lemma write_shape (p : PublicFilesService) (w : World) (input c : string) :
  IsAbs (cwd w) = true -> sanitizePathForWrite p w input = Ok c ->
  denylist_free input /\ normalized input <> "" /\ c = canonical_of p w input
  /\ exists l e, Forall plain l /\ plain e /\ c = render true (l ++ [e]).
Proof.
  intros Hcwd H. unfold sanitizePathForWrite in H.
  destruct (List.find (strings.Contains input) dangerousPatterns) eqn:Hfree; [discriminate|].
  fold (normalized input) in H.
  destruct (String.eqb_spec (normalized input) "") as [|Hne]; [discriminate|].
  cbv zeta in H. fold (canonical_of p w input) in H. fold (publicCanonical p w) in H.
  destruct (canonical_below_root p w input Hcwd Hfree Hne) as (X & HX & HR & Hpc & Hc).
  destruct (filter real (strings.Split (normalized input) Separator)) as [|r0 R0] eqn:ER.
  - (* the input names the root itself: rejected *)
    exfalso. rewrite app_nil_r in Hc. rewrite Hc, Hpc in H.
    destruct X as [|x0 X0] using rev_ind.
    + vm_compute in H. discriminate.
    + clear IHX0. apply Forall_app in HX as [HX0 Hx]. inversion Hx; subst.
      rewrite Dir_rooted in H by assumption.
      unfold Abs at 1 in H. rewrite IsAbs_render_rooted, Clean_render_rooted in H by assumption.
      destruct (strings.HasPrefix (render true X0) (render true (X0 ++ [x0]))) eqn:Hp.
      * apply HasPrefix_length in Hp.
        pose proof (render_rooted_snoc_longer X0 x0 (plain_not_empty _ H2)). lia.
      * rewrite render_rooted_not_empty in H. discriminate.
  - repeat match type of H with
           | (if ?b then _ else _) = _ => destruct b; try discriminate
           end.
    injection H as <-. repeat split; try assumption.
    assert (HR0 : r0 :: R0 <> []) by discriminate.
    destruct (exists_last HR0) as (R' & e & E). rewrite E in *.
    apply Forall_app in HR as [HR1 HR2]. inversion HR2; subst.
    exists (X ++ R')%list, e. split; [|split].
    + apply Forall_app. now split.
    + assumption.
    + now rewrite <- app_assoc.
Qed.

Lemma resolve_rooted (cwd0 : string) l :
  Forall plain l -> os.resolve cwd0 (render true l) = Some l.
Proof.
  intros H. unfold os.resolve. rewrite render_rooted_not_empty.
  unfold Abs. rewrite IsAbs_render_rooted, Clean_render_rooted by assumption.
  now rewrite elements_render_rooted.
Qed.

Lemma plain_snoc l e : Forall plain l -> plain e -> Forall plain (l ++ [e]).
Proof. intros Hl He. apply Forall_app. split; [assumption | now constructor]. Qed.

End SanitizedPaths.

(** ** [os] calls on sanitized paths *)

Section CallsOnPaths.
Import filepath.
Variable cwd0 : string.

Lemma at_rooted (A : Type) l (k : list string -> result os.errno A) :
  Forall plain l -> os.at_path cwd0 (render true l) k = k l.
Proof. intros H. unfold os.at_path. now rewrite resolve_rooted. Qed.

Lemma Lookup_rooted fs l : Forall plain l -> os.Lookup cwd0 fs (render true l) = os.find l fs.
Proof. intros H. unfold os.Lookup. now rewrite at_rooted. Qed.

Lemma Stat_Lookup fs path :
  os.Stat cwd0 fs path
  = match os.Lookup cwd0 fs path with
    | Ok n => Ok (os.info_of path n)
    | Err e => Err e
    end.
Proof.
  unfold os.Stat, os.Lookup, os.at_path. destruct (os.resolve cwd0 path); [|reflexivity].
  now destruct (os.find l fs).
Qed.

Lemma ReadFile_Lookup fs path :
  os.ReadFile cwd0 fs path
  = match os.Lookup cwd0 fs path with
    | Ok (os.File data) => Ok data
    | Ok (os.Dir _) => Err os.EISDIR
    | Err e => Err e
    end.
Proof.
  unfold os.ReadFile, os.Lookup, os.at_path. destruct (os.resolve cwd0 path); [|reflexivity].
  now destruct (os.find l fs) as [[|]|].
Qed.

Lemma rename_at_moves po pn fs fs' :
  os.rename_at po pn fs = Ok fs' -> is_ok (os.find pn fs) = false ->
  exists n, os.find po fs = Ok n /\ os.find po fs' = Err os.ENOENT /\ os.find pn fs' = Ok n.
Proof.
  unfold os.rename_at. intros H Hpn.
  destruct (os.find po fs) as [n|] eqn:Hpo; [|discriminate].
  destruct (list_eq_dec string_dec po pn) as [->|Hne]; [rewrite Hpo in Hpn; discriminate|].
  destruct (os.is_prefix po pn) eqn:Hpre; [destruct n; discriminate|].
  match type of H with
  | match os.update pn ?f fs with _ => _ end = _ =>
      set (place := f) in *; destruct (os.update pn place fs) as [fs1|] eqn:Hu; [|discriminate]
  end.
  exists n. split; [reflexivity|].
  assert (Hdiv : os.is_prefix pn po = false).
  { destruct (os.is_prefix pn po) eqn:E; [|reflexivity].
    apply is_prefix_inv in E as [r ->]. rewrite find_app in Hpo.
    destruct (os.find pn fs); discriminate. }
  split.
  - destruct (find_update_same _ _ _ _ H) as (v & Hv & Hf). injection Hv as <-. exact Hf.
  - rewrite (find_update_diverge po pn _ _ _ H Hpre Hdiv).
    destruct (find_update_same _ _ _ _ Hu) as (v & Hv & Hf). rewrite Hf.
    unfold place in Hv.
    destruct (occupant pn fs) as [[|[|]]|], n; try discriminate; now injection Hv as <-.
Qed.

End CallsOnPaths.

(** ** Rename *)

Lemma notify_one (p : PublicFilesService) (w0 w : World) eventType data :
  sent w = sent w0 -> one_notification p w0 (notifyWebSocket p w eventType data) eventType.
Proof.
  intros Hs. unfold notifyWebSocket.
  exists {| dtos.EventType := eventType; dtos.Data := data; dtos.Timestamp := now w |}.
  split; [reflexivity|]. destruct (wsHub p); simpl; now rewrite Hs.
Qed.

Lemma notify_world (p : PublicFilesService) (w : World) eventType data :
  cwd (notifyWebSocket p w eventType data) = cwd w
  /\ fs (notifyWebSocket p w eventType data) = fs w.
Proof. unfold notifyWebSocket. now destruct (wsHub p). Qed.

Lemma read_rejects_missing (p : PublicFilesService) (w : World) (input : string) :
  denylist_free input -> normalized input <> "" ->
  os.Stat (cwd w) (fs w) (canonical_of p w input) = Err os.ENOENT ->
  is_ok (sanitizePathForRead p w input) = false.
Proof.
  intros Hfree Hne Hstat. unfold sanitizePathForRead. rewrite Hfree.
  fold (normalized input). apply String.eqb_neq in Hne as ->. cbv zeta.
  fold (canonical_of p w input). fold (publicCanonical p w). rewrite Hstat.
  now destruct (strings.HasPrefix _ _).
Qed.

(** C6. For paths [a] and [b] that resolve for writing, [RenameFile a b]
    fails when [a] is missing or [b] exists, and a failing call leaves the
    world as it was. When it succeeds, [a] names nothing any more (and no
    longer resolves for reading), [b] names what [a] named before, and one
    [file_renamed] message was handed to the hub. *)
Theorem C6_rename (p : PublicFilesService) (w : World) (oldPath newPath src dst : string) :
  filepath.IsAbs (cwd w) = true ->
  sanitizePathForWrite p w oldPath = Ok src ->
  sanitizePathForWrite p w newPath = Ok dst ->
  (is_ok (os.Stat (cwd w) (fs w) src) = false ->
   RenameFile p w oldPath newPath
   = (Err (response "Source file does not exist" (Some "Source file does not exist")), w))
  /\ (is_ok (os.Stat (cwd w) (fs w) src) = true ->
      is_ok (os.Stat (cwd w) (fs w) dst) = true ->
      RenameFile p w oldPath newPath
      = (Err (response "Destination file already exists"
                (Some "Destination file already exists")), w))
  /\ (forall e w', RenameFile p w oldPath newPath = (Err e, w') -> w' = w)
  /\ (forall r w', RenameFile p w oldPath newPath = (Ok r, w') ->
      exists n,
        os.Lookup (cwd w) (fs w) src = Ok n
        /\ os.Lookup (cwd w') (fs w') src = Err os.ENOENT
        /\ is_ok (sanitizePathForRead p w' oldPath) = false
        /\ os.Lookup (cwd w') (fs w') dst = Ok n
        /\ one_notification p w w' "file_renamed").
Proof.
  intros Hcwd Hsrc Hdst. unfold RenameFile. rewrite Hsrc, Hdst.
  split; [|split; [|split]].
  - intros H. now destruct (os.Stat (cwd w) (fs w) src).
  - intros H1 H2. destruct (os.Stat (cwd w) (fs w) src); [|discriminate].
    now destruct (os.Stat (cwd w) (fs w) dst).
  - intros e w' H.
    destruct (os.Stat (cwd w) (fs w) src); [|now injection H as _ <-].
    destruct (os.Stat (cwd w) (fs w) dst); [now injection H as _ <-|].
    destruct (os.Rename (cwd w) (fs w) src dst); [discriminate | now injection H as _ <-].
  - intros r w' H.
    destruct (write_shape p w oldPath src Hcwd Hsrc) as (Hfree & Hne & Hcan & l1 & e1 & Hl1 & He1 & ->).
    destruct (write_shape p w newPath dst Hcwd Hdst) as (_ & _ & _ & l2 & e2 & Hl2 & He2 & ->).
    pose proof (plain_snoc _ _ Hl1 He1) as Hp1. pose proof (plain_snoc _ _ Hl2 He2) as Hp2.
    rewrite !Stat_Lookup, !Lookup_rooted in H by assumption.
    destruct (os.find (l1 ++ [e1]) (fs w)) as [n|] eqn:Hf1; [|discriminate].
    destruct (os.find (l2 ++ [e2]) (fs w)) as [m|] eqn:Hf2; [discriminate|].
    unfold os.Rename in H. rewrite !at_rooted in H by assumption.
    destruct (os.rename_at _ _ (fs w)) as [fs'|] eqn:Hr; [|discriminate].
    injection H as _ <-.
    destruct (rename_at_moves _ _ _ _ Hr) as (n' & Hn' & Hgone & Hnew); [now rewrite Hf2|].
    rewrite Hn' in Hf1. injection Hf1 as ->.
    match goal with |- context [notifyWebSocket p ?w0 ?ev ?d] =>
      destruct (notify_world p w0 ev d) as [Ecwd Efs];
      pose proof (notify_one p w w0 ev d eq_refl) as Hone;
      set (w1 := notifyWebSocket p w0 ev d) in *
    end.
    simpl in Ecwd, Efs.
    exists n. rewrite Ecwd, Efs, !Lookup_rooted by assumption.
    repeat split; try assumption.
    apply read_rejects_missing; try assumption.
    unfold canonical_of. rewrite Ecwd. fold (canonical_of p w oldPath). rewrite <- Hcan.
    now rewrite Stat_Lookup, Efs, Lookup_rooted, Hgone.
Qed.

Lemma C6_rename_witness :
  os.Lookup "/app" (fs Demo.world) "/srv/pub/notes.txt" = Ok (os.File "hello")
  /\ (let w' := snd (RenameFile Demo.service Demo.world "notes.txt" "docs/n.txt") in
      os.Lookup "/app" (fs w') "/srv/pub/notes.txt" = Err os.ENOENT
      /\ os.Lookup "/app" (fs w') "/srv/pub/docs/n.txt" = Ok (os.File "hello")
      /\ map dtos.EventType (sent w') = ["file_renamed"])
  /\ fst (RenameFile Demo.service Demo.world "notes.txt" "docs/b.txt")
     = Err (response "Destination file already exists" (Some "Destination file already exists")).
Proof.
  destruct (C6_rename Demo.service Demo.world "notes.txt" "docs/n.txt"
              "/srv/pub/notes.txt" "/srv/pub/docs/n.txt" eq_refl eq_refl eq_refl)
    as (_ & _ & _ & H).
  destruct (H _ _ eq_refl) as (n & H1 & H2 & _ & H4 & _).
  destruct (C6_rename Demo.service Demo.world "notes.txt" "docs/b.txt"
              "/srv/pub/notes.txt" "/srv/pub/docs/b.txt" eq_refl eq_refl eq_refl)
    as (_ & H5 & _ & _).
  split; [reflexivity|]. split; [|now rewrite (H5 eq_refl eq_refl)].
  split; [exact H2|]. split; [|reflexivity].
  exact (eq_trans H4 (eq_sym H1)).
Defined.

(** ** Copy *)

Section CopyFacts.
Import filepath.

Lemma is_prefix_longer l e : os.is_prefix (l ++ [e]) l = false.
Proof.
  destruct (os.is_prefix (l ++ [e]) l) eqn:E; [|reflexivity].
  apply is_prefix_inv in E as [r E]. apply (f_equal (@List.length _)) in E.
  rewrite !length_app in E. simpl in E. lia.
Qed.

Lemma WriteFile_rooted cwd0 fs0 l e data :
  Forall plain (l ++ [e]) ->
  os.WriteFile cwd0 fs0 (render true (l ++ [e])) data
  = os.update (l ++ [e]) (fun cur => match cur with
                                     | Some (os.Dir _) => Err os.EISDIR
                                     | _ => Ok (Some (os.File data))
                                     end) fs0.
Proof.
  intros H. unfold os.WriteFile. rewrite at_rooted by assumption.
  destruct (l ++ [e])%list eqn:E; [now destruct l | reflexivity].
Qed.

Lemma MkdirAll_rooted cwd0 fs0 l :
  Forall plain l -> os.MkdirAll cwd0 fs0 (render true l) = os.mkdir_all l fs0.
Proof. intros H. unfold os.MkdirAll. now rewrite at_rooted. Qed.

(** Paths that name a file and a missing entry of one tree diverge. *)
Lemma file_and_missing_diverge s d fs0 data :
  os.find s fs0 = Ok (os.File data) -> os.find d fs0 = Err os.ENOENT ->
  os.is_prefix d s = false /\ os.is_prefix s d = false.
Proof.
  intros Hs Hd. split.
  - destruct (os.is_prefix d s) eqn:E; [|reflexivity].
    apply is_prefix_inv in E as [r ->]. rewrite find_app, Hd in Hs. discriminate.
  - destruct (os.is_prefix s d) eqn:E; [|reflexivity].
    apply is_prefix_inv in E as [r ->]. destruct r as [|x r].
    + rewrite app_nil_r, Hs in Hd. discriminate.
    + rewrite (find_below_file s (x :: r) fs0 data Hs) in Hd by discriminate. discriminate.
Qed.

(** Writing a file at a path that is missing, after creating its parents. *)
Lemma write_fresh l e s fs0 data content :
  os.find s fs0 = Ok (os.File data) -> os.find (l ++ [e]) fs0 = Err os.ENOENT ->
  exists fs1 fs2,
    os.mkdir_all l fs0 = Ok fs1
    /\ os.find s fs1 = Ok (os.File data)
    /\ os.update (l ++ [e]) (fun cur => match cur with
                                        | Some (os.Dir _) => Err os.EISDIR
                                        | _ => Ok (Some (os.File content))
                                        end) fs1 = Ok fs2
    /\ os.find (l ++ [e]) fs2 = Ok (os.File content)
    /\ os.find s fs2 = Ok (os.File data).
Proof.
  intros Hs Hd.
  destruct (mkdir_all_missing l e fs0 Hd) as [fs1 Hm].
  pose proof (mkdir_all_keeps_files _ _ _ _ _ Hm Hs) as Hs1.
  pose proof (mkdir_all_keeps_missing _ _ _ _ Hm Hd (is_prefix_longer l e)) as Hd1.
  destruct (mkdir_all_dir _ _ _ Hm) as [es Hes].
  pose proof (occupant_in_dir l e fs1 es Hes) as Hocc.
  unfold occupant in Hocc. rewrite Hd1 in Hocc.
  set (f := fun cur : option os.node =>
              match cur with
              | Some (os.Dir _) => Err os.EISDIR
              | _ => Ok (Some (os.File content))
              end).
  destruct (update_in_dir l e f fs1 es (Some (os.File content)) Hes) as [fs2 Hu];
    [now rewrite <- Hocc|].
  exists fs1, fs2. repeat split; try assumption.
  - destruct (find_update_same _ _ _ _ Hu) as (v & Hv & Hf). rewrite Hf.
    unfold f in Hv. destruct (occupant (l ++ [e]) fs1) as [[|]|]; try discriminate;
      now injection Hv as <-.
  - destruct (file_and_missing_diverge _ _ _ _ Hs1 Hd1) as [H1 H2].
    now rewrite (find_update_diverge _ _ _ _ _ Hu H1 H2).
Qed.

End CopyFacts.

(** C7. For paths [a] and [b] that resolve for writing, [a] a regular file
    and [b] missing, [CopyFile a b] succeeds; afterwards [b] reads as [a] did
    and [a] reads as before, the answer carries the number of bytes copied
    and one [file_copied] message was handed to the hub. [CopyFile] fails,
    leaving the world as it was, when [a] is missing or [b] exists. *)
Theorem C7_copy (p : PublicFilesService) (w : World) (source destination src dst : string) :
  filepath.IsAbs (cwd w) = true ->
  sanitizePathForWrite p w source = Ok src ->
  sanitizePathForWrite p w destination = Ok dst ->
  (forall data,
     os.ReadFile (cwd w) (fs w) src = Ok data ->
     os.Stat (cwd w) (fs w) dst = Err os.ENOENT ->
     exists r w',
       CopyFile p w source destination = (Ok r, w')
       /\ os.ReadFile (cwd w') (fs w') dst = Ok data
       /\ os.ReadFile (cwd w') (fs w') src = Ok data
       /\ In ("bytes_copied", dtos.VInt (strings.len data)) r
       /\ one_notification p w w' "file_copied")
  /\ (is_ok (os.Stat (cwd w) (fs w) src) = false ->
      CopyFile p w source destination
      = (Err (response "Source file does not exist" (Some "Source file does not exist")), w))
  /\ (is_ok (os.Stat (cwd w) (fs w) src) = true ->
      is_ok (os.Stat (cwd w) (fs w) dst) = true ->
      CopyFile p w source destination
      = (Err (response "Destination file already exists"
                (Some "Destination file already exists")), w)).
Proof.
  intros Hcwd Hsrc Hdst. unfold CopyFile. rewrite Hsrc, Hdst.
  split; [|split].
  - intros data Hread Hmiss.
    destruct (write_shape p w source src Hcwd Hsrc) as (_ & _ & _ & l1 & e1 & Hl1 & He1 & ->).
    destruct (write_shape p w destination dst Hcwd Hdst) as (_ & _ & _ & l2 & e2 & Hl2 & He2 & ->).
    pose proof (plain_snoc _ _ Hl1 He1) as Hp1. pose proof (plain_snoc _ _ Hl2 He2) as Hp2.
    rewrite ReadFile_Lookup, Lookup_rooted in Hread by assumption.
    rewrite Stat_Lookup, Lookup_rooted in Hmiss by assumption.
    destruct (os.find (l1 ++ [e1]) (fs w)) as [[d|]|] eqn:Hf1; try discriminate.
    injection Hread as ->.
    destruct (os.find (l2 ++ [e2]) (fs w)) as [|err] eqn:Hf2; [discriminate|].
    injection Hmiss as ->.
    destruct (write_fresh l2 e2 (l1 ++ [e1]) (fs w) data data Hf1 Hf2)
      as (fs1 & fs2 & Hm & Hs1 & Hu & Hd2 & Hs2).
    rewrite !Stat_Lookup, !Lookup_rooted, Hf1, Hf2 by assumption.
    rewrite Dir_rooted, MkdirAll_rooted, Hm by assumption.
    cbn [cwd fs with_fs].
    rewrite ReadFile_Lookup, Lookup_rooted, Hs1 by assumption.
    rewrite WriteFile_rooted, Hu by assumption.
    eexists. eexists. split; [reflexivity|].
    match goal with |- context [notifyWebSocket p ?w0 ?ev ?d] =>
      destruct (notify_world p w0 ev d) as [Ecwd Efs];
      pose proof (notify_one p w w0 ev d eq_refl) as Hone;
      set (w1 := notifyWebSocket p w0 ev d) in *
    end.
    simpl in Ecwd, Efs. rewrite Ecwd, Efs.
    rewrite !ReadFile_Lookup, !Lookup_rooted, Hd2, Hs2 by assumption.
    repeat split; try assumption. simpl. tauto.
  - intros H. now destruct (os.Stat (cwd w) (fs w) src).
  - intros H1 H2. destruct (os.Stat (cwd w) (fs w) src); [|discriminate].
    now destruct (os.Stat (cwd w) (fs w) dst).
Qed.

Lemma C7_copy_witness :
  os.ReadFile "/app" (fs Demo.world) "/srv/pub/notes.txt" = Ok "hello"
  /\ (let '(r, w') := CopyFile Demo.service Demo.world "notes.txt" "backup/notes.txt" in
      os.ReadFile "/app" (fs w') "/srv/pub/backup/notes.txt" = Ok "hello"
      /\ os.ReadFile "/app" (fs w') "/srv/pub/notes.txt" = Ok "hello"
      /\ match r with
         | Ok payload => In ("bytes_copied", dtos.VInt 5) payload
         | Err _ => False
         end)
  /\ fst (CopyFile Demo.service Demo.world "missing.txt" "backup/notes.txt")
     = Err (response "Source file does not exist" (Some "Source file does not exist")).
Proof.
  destruct (C7_copy Demo.service Demo.world "notes.txt" "backup/notes.txt"
              "/srv/pub/notes.txt" "/srv/pub/backup/notes.txt" eq_refl eq_refl eq_refl)
    as (H & _ & _).
  destruct (H "hello" eq_refl eq_refl) as (r & w' & E & H1 & H2 & H3 & _).
  destruct (C7_copy Demo.service Demo.world "missing.txt" "backup/notes.txt"
              "/srv/pub/missing.txt" "/srv/pub/backup/notes.txt" eq_refl eq_refl eq_refl)
    as (_ & H4 & _).
  split; [reflexivity|]. split; [|now rewrite (H4 eq_refl)].
  rewrite E. auto.
Defined.

(** ** Delete *)

Section DeleteFacts.
Import filepath.

Lemma all_slashes_append (a b : string) :
  all_slashes (a ++ b) = all_slashes a && all_slashes b.
Proof. induction a as [|c a IH]; simpl; [reflexivity|]. now rewrite IH, andb_assoc. Qed.

Lemma all_slashes_occurs (e s : string) :
  occurs e s -> all_slashes s = true -> all_slashes e = true.
Proof.
  intros (a & b & ->). rewrite !all_slashes_append.
  intros H. apply andb_true_iff in H as [_ H]. now apply andb_true_iff in H as [H _].
Qed.

Lemma all_slashes_free (s : string) : all_slashes s = true -> denylist_free s.
Proof.
  intros H. unfold denylist_free.
  destruct (List.find (strings.Contains s) dangerousPatterns) as [q|] eqn:E; [|reflexivity].
  apply find_some in E as [Hin Hc]. apply Contains_iff in Hc.
  apply all_slashes_occurs in Hc; [|assumption].
  simpl in Hin. repeat (destruct Hin as [<-|Hin]; [discriminate Hc|]). contradiction.
Qed.

Lemma all_slashes_TrimLeft (s : string) : all_slashes s = true -> strings.TrimLeft s "/" = "".
Proof.
  induction s as [|a s IH]; [reflexivity|]. simpl. intros H.
  apply andb_true_iff in H as [-> H]. auto.
Qed.

Lemma all_slashes_normalized (s : string) : all_slashes s = true -> normalized s = "".
Proof.
  intros H. rewrite normalized_free by now apply all_slashes_free.
  unfold strings.Trim. now rewrite all_slashes_TrimLeft.
Qed.

Lemma update_existing l e f fs0 n v :
  os.find (l ++ [e]) fs0 = Ok n -> f (Some n) = Ok v ->
  exists fs1, os.update (l ++ [e]) f fs0 = Ok fs1 /\ os.find (l ++ [e]) fs1 = found v.
Proof.
  intros Hf Hv. destruct (find_parent_dir _ _ _ _ Hf) as [es Hes].
  pose proof (occupant_in_dir l e fs0 es Hes) as Hocc. unfold occupant in Hocc.
  rewrite Hf in Hocc.
  destruct (update_in_dir l e f fs0 es v Hes) as [fs1 Hu]; [now rewrite <- Hocc|].
  exists fs1. split; [assumption|].
  destruct (find_update_same _ _ _ _ Hu) as (v' & Hv' & Hfind).
  unfold occupant in Hv'. rewrite Hf, Hv in Hv'. injection Hv' as <-. exact Hfind.
Qed.

End DeleteFacts.

(** C10. [DeleteItem] with an empty or all-slash path passes validation:
    [sanitizePathForRead] answers the root directory itself, and, the root
    being an existing directory, [DeleteItem] removes it with everything
    below it and answers with success, handing one [file_deleted] message to
    the hub. *)
Theorem C10_delete_root (p : PublicFilesService) (w : World) (input : string)
    (root : list string) (entries : list (string * os.node)) :
  all_slashes input = true ->
  os.resolve (cwd w) (publicDir p) = Some root -> root <> [] ->
  os.find root (fs w) = Ok (os.Dir entries) ->
  os.endsWithDot (publicDir p) = false ->
  sanitizePathForRead p w input = Ok (publicDir p)
  /\ exists r w',
       DeleteItem p w input = (Ok r, w')
       /\ In ("success", dtos.VBool true) r
       /\ os.Stat (cwd w') (fs w') (publicDir p) = Err os.ENOENT
       /\ (forall below, os.find (root ++ below) (fs w') = Err os.ENOENT)
       /\ one_notification p w w' "file_deleted".
Proof.
  intros Hall Hres Hroot Hfind Hdot.
  assert (Hread : sanitizePathForRead p w input = Ok (publicDir p))
    by (apply read_root; [now apply all_slashes_free | now apply all_slashes_normalized]).
  split; [assumption|].
  unfold DeleteItem. rewrite Hread.
  assert (Hne : (publicDir p =? "") = false).
  { unfold os.resolve in Hres. destruct (publicDir p =? ""); [discriminate | reflexivity]. }
  unfold os.Stat at 1, os.at_path. rewrite Hres, Hfind. cbn [os.info_of os.IsDir].
  unfold os.RemoveAll, os.at_path. rewrite Hne, Hdot, Hres, Hfind.
  destruct (exists_last Hroot) as (l & e & ->).
  destruct (update_existing l e (fun _ => Ok None) (fs w) _ None Hfind eq_refl) as (fs' & Hu & Hgone).
  rewrite Hu. eexists. eexists. split; [reflexivity|].
  match goal with |- context [notifyWebSocket p ?w0 ?ev ?d] =>
    destruct (notify_world p w0 ev d) as [Ecwd Efs];
    pose proof (notify_one p w w0 ev d eq_refl) as Hone;
    set (w1 := notifyWebSocket p w0 ev d) in *
  end.
  simpl in Ecwd, Efs. rewrite Ecwd, Efs.
  split; [simpl; tauto|]. split; [|split; [|assumption]].
  - unfold os.Stat, os.at_path. now rewrite Hres, Hgone.
  - intros below. now rewrite find_app, Hgone.
Qed.

Lemma C10_delete_root_witness :
  sanitizePathForRead Demo.production Demo.world "//" = Ok "data/public"
  /\ (let '(r, w') := DeleteItem Demo.production Demo.world "//" in
      is_ok r = true
      /\ os.Stat "/app" (fs w') "data/public" = Err os.ENOENT
      /\ os.Lookup "/app" (fs w') "/app/data/public/notes.txt" = Err os.ENOENT).
Proof.
  destruct (C10_delete_root Demo.production Demo.world "//" ["app"; "data"; "public"]
              (match Demo.store with os.Dir es => es | os.File _ => [] end)
              eq_refl eq_refl ltac:(discriminate) eq_refl eq_refl)
    as (H1 & r & w' & E & _ & H2 & H3 & _).
  split; [exact H1|].
  assert (Ecwd : cwd w' = "/app") by (vm_compute in E; now injection E as _ <-).
  rewrite Ecwd in H2. rewrite E. split; [reflexivity|]. split; [exact H2|].
  exact (H3 ["notes.txt"]).
Defined.

(** ** Upload *)

Section UploadFacts.
Import filepath.
Local Open Scope Z_scope.

Lemma len_append (a b : string) : strings.len (a ++ b) = strings.len a + strings.len b.
Proof. unfold strings.len. rewrite length_append_string. lia. Qed.

Lemma len_nonneg (a : string) : 0 <= strings.len a.
Proof. unfold strings.len. lia. Qed.

Lemma len_zero (a : string) : strings.len a <= 0 -> a = "".
Proof. destruct a; [reflexivity|]. unfold strings.len. simpl. lia. Qed.

Variable w : World.
Variables (l : list string) (e : string).
Hypothesis Hplain : Forall plain (l ++ [e]).

Let file : string := render true (l ++ [e]).

Lemma Write_appends fs0 d0 c :
  os.find (l ++ [e]) fs0 = Ok (os.File d0) ->
  exists fs1, os.Write (cwd w) fs0 file c = Ok fs1
              /\ os.find (l ++ [e]) fs1 = Ok (os.File (d0 ++ c)).
Proof.
  intros Hf. unfold os.Write, file. rewrite at_rooted by assumption.
  match goal with |- context [os.update _ ?f _] =>
    destruct (update_existing l e f fs0 _ (Some (os.File (d0 ++ c))) Hf eq_refl) as (fs1 & -> & H1)
  end.
  now exists fs1.
Qed.

Lemma remove_quietly_file fs0 d0 :
  os.find (l ++ [e]) fs0 = Ok (os.File d0) ->
  os.find (l ++ [e]) (remove_quietly w fs0 file) = Err os.ENOENT.
Proof.
  intros Hf. unfold remove_quietly, os.Remove, file. rewrite at_rooted by assumption.
  match goal with |- context [os.update _ ?f _] =>
    destruct (update_existing l e f fs0 _ None Hf eq_refl) as (fs1 & -> & H1)
  end.
  exact H1.
Qed.

Lemma upload_loop_spec (data : Reader) : forall fs0 d0,
  os.find (l ++ [e]) fs0 = Ok (os.File d0) ->
  reads_to_end data = true ->
  strings.len d0 <= maxTotalSize ->
  let d := (d0 ++ stream_bytes data)%string in
  (strings.len d <= maxTotalSize ->
   exists fs',
     upload_loop w file fs0 (strings.len d0) data = (Ok (strings.len d), fs')
     /\ os.find (l ++ [e]) fs' = Ok (os.File d))
  /\ (strings.len d > maxTotalSize ->
      exists dbg fs',
        upload_loop w file fs0 (strings.len d0) data
        = (Err (response "File size exceeds maximum limit (1024.00 GB)" dbg), fs')
        /\ os.find (l ++ [e]) fs' = Err os.ENOENT).
Proof.
  induction data as [|r data IH]; intros fs0 d0 Hf Hclean Hcap d; subst d.
  - cbn [stream_bytes upload_loop]. rewrite append_nil_r. split; [eauto | lia].
  - cbn [stream_bytes upload_loop reads_to_end] in *.
    rewrite <- !append_assoc.
    pose proof (len_nonneg (chunk r)) as Hn.
    pose proof (len_append d0 (chunk r)) as Hlen.
    destruct (Z.gtb_spec (strings.len (chunk r)) 0) as [Hpos|Hzero].
    + (* the read delivered bytes *)
      rewrite <- Hlen. cbn [andb].
      destruct (Z.gtb_spec (strings.len (d0 ++ chunk r)) maxTotalSize) as [Hover|Hfits].
      * split.
        -- intros H. rewrite len_append in H.
           pose proof (len_nonneg
                         (match read_err r with Some _ => "" | None => stream_bytes data end)).
           lia.
        -- intros _. eexists. eexists. split; [reflexivity|].
           eapply remove_quietly_file; eassumption.
      * destruct (Write_appends fs0 d0 (chunk r) Hf) as (fs1 & -> & Hf1).
        destruct (read_err r) as [[|msg]|].
        -- rewrite append_nil_r. split; [eauto | lia].
        -- discriminate.
        -- exact (IH fs1 (d0 ++ chunk r)%string Hf1 Hclean Hfits).
    + (* an empty read *)
      assert (Hempty : chunk r = "") by (apply len_zero; lia).
      cbn [andb]. rewrite Hempty, append_nil_r.
      destruct (read_err r) as [[|msg]|].
      * rewrite append_nil_r. split; [eauto | lia].
      * discriminate.
      * exact (IH fs0 d0 Hf Hclean Hcap).
Qed.

End UploadFacts.

Lemma create_target l e fs0 :
  os.find (l ++ [e]) fs0 = Err os.ENOENT
  \/ (exists old, os.find (l ++ [e]) fs0 = Ok (os.File old)) ->
  exists fs1 fs2,
    os.mkdir_all l fs0 = Ok fs1
    /\ os.update (l ++ [e]) (fun cur => match cur with
                                        | Some (os.Dir _) => Err os.EISDIR
                                        | _ => Ok (Some (os.File ""))
                                        end) fs1 = Ok fs2
    /\ os.find (l ++ [e]) fs2 = Ok (os.File "").
Proof.
  intros [Hmiss|[old Hold]].
  - destruct (mkdir_all_missing l e fs0 Hmiss) as [fs1 Hm].
    pose proof (mkdir_all_keeps_missing _ _ _ _ Hm Hmiss (is_prefix_longer l e)) as Hd1.
    destruct (mkdir_all_dir _ _ _ Hm) as [es Hes].
    pose proof (occupant_in_dir l e fs1 es Hes) as Hocc.
    unfold occupant in Hocc. rewrite Hd1 in Hocc.
    match goal with |- context [os.update _ ?f _] =>
      destruct (update_in_dir l e f fs1 es (Some (os.File "")) Hes) as [fs2 Hu];
        [now rewrite <- Hocc|]
    end.
    exists fs1, fs2. repeat split; try assumption.
    destruct (find_update_same _ _ _ _ Hu) as (v & Hv & Hf). rewrite Hf.
    unfold occupant in Hv. rewrite Hd1 in Hv. now injection Hv as <-.
  - destruct (find_parent_dir _ _ _ _ Hold) as [es Hes].
    rewrite (mkdir_all_existing l fs0 es Hes).
    match goal with |- context [os.update _ ?f _] =>
      destruct (update_existing l e f fs0 _ (Some (os.File "")) Hold eq_refl) as (fs2 & Hu & Hf)
    end.
    exists fs0, fs2. repeat split; assumption.
Qed.

(** C4. For a path that resolves for writing and names nothing or a regular
    file, and a reader that fails on no read: when the bytes of the stream
    exceed [maxTotalSize], be it by one, [UploadFile] fails with "File size
    exceeds maximum limit", the file is not there afterwards and no message
    was handed to the hub; when they do not, [UploadFile] succeeds, the file
    holds exactly the bytes of the stream and one [file_created] message was
    handed to the hub. *)
Theorem C4_upload (p : PublicFilesService) (w : World) (filePath file : string) (data : Reader) :
  filepath.IsAbs (cwd w) = true ->
  sanitizePathForWrite p w filePath = Ok file ->
  (os.Stat (cwd w) (fs w) file = Err os.ENOENT
   \/ exists old, os.ReadFile (cwd w) (fs w) file = Ok old) ->
  reads_to_end data = true ->
  ((strings.len (stream_bytes data) > maxTotalSize)%Z ->
   exists dbg w',
     UploadFile p w filePath data
     = (Err (response "File size exceeds maximum limit (1024.00 GB)" dbg), w')
     /\ os.Stat (cwd w') (fs w') file = Err os.ENOENT
     /\ sent w' = sent w)
  /\ ((strings.len (stream_bytes data) <= maxTotalSize)%Z ->
      exists r w',
        UploadFile p w filePath data = (Ok r, w')
        /\ os.ReadFile (cwd w') (fs w') file = Ok (stream_bytes data)
        /\ In ("size_bytes", dtos.VInt (strings.len (stream_bytes data))) r
        /\ one_notification p w w' "file_created").
Proof.
  intros Hcwd Hfile Htarget Hclean.
  destruct (write_shape p w filePath file Hcwd Hfile) as (_ & _ & _ & l & e & Hl & He & ->).
  pose proof (plain_snoc _ _ Hl He) as Hp.
  assert (Ht : os.find (l ++ [e]) (fs w) = Err os.ENOENT
               \/ exists old, os.find (l ++ [e]) (fs w) = Ok (os.File old)).
  { destruct Htarget as [H|[old H]].
    - left. rewrite Stat_Lookup, Lookup_rooted in H by assumption.
      destruct (os.find (l ++ [e]) (fs w)); [discriminate | congruence].
    - right. exists old. rewrite ReadFile_Lookup, Lookup_rooted in H by assumption.
      destruct (os.find (l ++ [e]) (fs w)) as [[|]|]; try discriminate. congruence. }
  destruct (create_target l e (fs w) Ht) as (fs1 & fs2 & Hm & Hu & Hf2).
  assert (Hstart : (strings.len "" <= maxTotalSize)%Z) by (vm_compute; discriminate).
  destruct (upload_loop_spec w l e Hp data fs2 "" Hf2 Hclean Hstart) as [Hfits Hover].
  cbv zeta in Hfits, Hover. cbn [String.append] in Hfits, Hover.
  change (strings.len "") with 0%Z in Hfits, Hover.
  unfold UploadFile. rewrite Hfile.
  rewrite Dir_rooted, MkdirAll_rooted, Hm by assumption.
  unfold os.Create. rewrite WriteFile_rooted, Hu by assumption.
  split.
  - intros H. destruct (Hover H) as (dbg & fs' & -> & Hgone).
    exists dbg. eexists. split; [reflexivity|]. cbn [cwd fs sent with_fs].
    split; [|reflexivity]. now rewrite Stat_Lookup, Lookup_rooted, Hgone.
  - intros H. destruct (Hfits H) as (fs' & -> & Hdone).
    eexists. eexists. split; [reflexivity|].
    match goal with |- context [notifyWebSocket p ?w0 ?ev ?d] =>
      destruct (notify_world p w0 ev d) as [Ecwd Efs];
      pose proof (notify_one p w w0 ev d eq_refl) as Hone;
      set (w1 := notifyWebSocket p w0 ev d) in *
    end.
    simpl in Ecwd, Efs. rewrite Ecwd, Efs.
    rewrite ReadFile_Lookup, Lookup_rooted, Hdone by assumption.
    repeat split; try assumption. simpl. tauto.
Qed.

Lemma len_replicate (n : nat) (c : ascii) : strings.len (replicate n c) = Z.of_nat n.
Proof. unfold strings.len. f_equal. induction n; simpl; congruence. Qed.

Lemma stream_bytes_repeat (r : read_result) (k : nat) (rest : Reader) :
  read_err r = None ->
  strings.len (stream_bytes (repeat r k ++ rest)%list)
  = (Z.of_nat k * strings.len (chunk r) + strings.len (stream_bytes rest))%Z.
Proof.
  intros Hr. induction k as [|k IH].
  - cbn [repeat app]. lia.
  - cbn [repeat app stream_bytes]. rewrite Hr, len_append, IH. lia.
Qed.

Lemma reads_to_end_repeat (r : read_result) (k : nat) (rest : Reader) :
  read_err r = None -> reads_to_end (repeat r k ++ rest)%list = reads_to_end rest.
Proof.
  intros Hr. induction k as [|k IH]; [reflexivity|].
  cbn [repeat app reads_to_end]. now rewrite Hr.
Qed.

Lemma one_byte_over_size : strings.len (stream_bytes one_byte_over) = (maxTotalSize + 1)%Z.
Proof.
  unfold one_byte_over. rewrite stream_bytes_repeat by reflexivity.
  unfold mebibyte_read at 1. cbn [chunk]. rewrite len_replicate, Z2Nat.id by lia.
  reflexivity.
Qed.

Lemma one_byte_over_reads_to_end : reads_to_end one_byte_over = true.
Proof. unfold one_byte_over. now rewrite reads_to_end_repeat. Qed.

Lemma C4_upload_witness :
  (let '(r, w') := UploadFile Demo.service Demo.world "up/f.bin"
                     [ {| chunk := "abc"; read_err := None |};
                       {| chunk := "de"; read_err := Some EOF |} ] in
   is_ok r = true
   /\ os.ReadFile "/app" (fs w') "/srv/pub/up/f.bin" = Ok "abcde"
   /\ map dtos.EventType (sent w') = ["file_created"])
  /\ exists dbg w',
       UploadFile Demo.service Demo.world "up/f.bin" one_byte_over
       = (Err (response "File size exceeds maximum limit (1024.00 GB)" dbg), w')
       /\ os.Stat (cwd w') (fs w') "/srv/pub/up/f.bin" = Err os.ENOENT
       /\ sent w' = [].
Proof.
  split.
  - destruct (C4_upload Demo.service Demo.world "up/f.bin" "/srv/pub/up/f.bin"
                [ {| chunk := "abc"; read_err := None |};
                  {| chunk := "de"; read_err := Some EOF |} ]
                eq_refl eq_refl (or_introl eq_refl) eq_refl) as [_ H].
    destruct (H ltac:(vm_compute; discriminate)) as (r & w' & E & _).
    vm_compute in E. injection E as <- <-. repeat split.
  - destruct (C4_upload Demo.service Demo.world "up/f.bin" "/srv/pub/up/f.bin" one_byte_over
                eq_refl eq_refl (or_introl eq_refl) one_byte_over_reads_to_end) as [H _].
    apply H. rewrite one_byte_over_size. unfold maxTotalSize. lia.
Defined.

(** ** Walking the tree *)

Lemma node_induction (P : os.node -> Prop) :
  (forall data, P (os.File data)) ->
  (forall entries, Forall (fun kv => P (snd kv)) entries -> P (os.Dir entries)) ->
  forall n, P n.
Proof.
  intros P_File P_Dir. fix node_induction 1. intros [data|entries].
  - apply P_File.
  - apply P_Dir. induction entries as [|kv entries IH]; constructor.
    + apply node_induction.
    + exact IH.
Qed.

Section SortByName.
Variables (A B : Type) (f : A -> B).

Let relabel (kv : string * A) : string * B := (fst kv, f (snd kv)).

Lemma insert_by_name_map kv l :
  os.insert_by_name (relabel kv) (map relabel l) = map relabel (os.insert_by_name kv l).
Proof.
  induction l as [|kv' l IH]; [reflexivity|]. cbn [map os.insert_by_name].
  change (fst (relabel kv')) with (fst kv'). change (fst (relabel kv)) with (fst kv).
  destruct (String.ltb (fst kv') (fst kv)); cbn [map]; [now rewrite IH | reflexivity].
Qed.

Lemma sort_by_name_map l :
  os.sort_by_name (map relabel l) = map relabel (os.sort_by_name l).
Proof.
  induction l as [|kv l IH]; [reflexivity|].
  cbn [map]. unfold os.sort_by_name in *. cbn [fold_right]. rewrite IH.
  apply insert_by_name_map.
Qed.

Lemma insert_by_name_In (kv x : string * A) l :
  In x (os.insert_by_name kv l) -> x = kv \/ In x l.
Proof.
  induction l as [|kv' l IH]; cbn [os.insert_by_name].
  - intros [<-|[]]. now left.
  - destruct (String.ltb (fst kv') (fst kv)).
    + intros [<-|H]; [right; now left|]. destruct (IH H); [now left | right; now right].
    + intros [<-|H]; [now left | now right].
Qed.

Lemma sort_by_name_In (x : string * A) l : In x (os.sort_by_name l) -> In x l.
Proof.
  induction l as [|kv l IH]; [auto|]. unfold os.sort_by_name in *. cbn [fold_right].
  intros H. apply insert_by_name_In in H as [->|H]; [now left | right; auto].
Qed.

End SortByName.

Section WalkFacts.
Variable S : Type.
Variable walkFn : string -> os.FileInfo -> S -> S * walk_signal.

(** States that no visit changes any more. *)
Variable final : S -> Prop.
Hypothesis final_stays : forall st path info, final st -> fst (walkFn path info st) = st.
Hypothesis skip_final : forall st st' path info, walkFn path info st = (st', SkipDir) -> final st'.

Lemma visit_final l : forall st, final st -> fold_left (visit S walkFn) l st = st.
Proof.
  induction l as [|x l IH]; intros st H; [reflexivity|].
  cbn [fold_left]. unfold visit at 2. rewrite final_stays by assumption. now apply IH.
Qed.

Lemma walk_names_in_order path (children : list (string * os.node)) :
  Forall (fun kv => visits_in_order S walkFn final (snd kv)) children ->
  forall st,
    fst (walk_names path (map (fun kv => (fst kv, walker S walkFn (snd kv))) children) st)
    = fold_left (visit S walkFn)
        (flat_map (fun child => snd child (filepath.Join path (fst child)))
                  (map (fun kv => (fst kv, walk_order (snd kv))) children)) st
    /\ (snd (walk_names path (map (fun kv => (fst kv, walker S walkFn (snd kv))) children) st) = SkipDir ->
        final (fst (walk_names path (map (fun kv => (fst kv, walker S walkFn (snd kv))) children) st))).
Proof.
  induction 1 as [|[name n] children Hn _ IH]; intros st.
  - split; [reflexivity | discriminate].
  - cbn [map flat_map fst snd walk_names walker]. rewrite fold_left_app.
    destruct (Hn (filepath.Join path name) st) as [Hfold Hskip]. cbn [snd] in Hfold, Hskip.
    destruct (walk walkFn n (filepath.Join path name) st) as [st1 [|]] eqn:Hw;
      cbn [fst snd] in Hfold, Hskip; rewrite <- Hfold.
    + apply IH.
    + destruct (is_dir n); [apply IH|].
      cbn [fst snd]. specialize (Hskip eq_refl). rewrite visit_final by assumption. auto.
Qed.

Lemma walk_in_order (n : os.node) : visits_in_order S walkFn final n.
Proof.
  induction n as [data|entries IH] using node_induction; intros path st.
  - cbn [walk walk_order fold_left]. unfold visit. cbn [fst snd]. split; [reflexivity|].
    destruct (walkFn path _ st) as [st' [|]] eqn:E; [discriminate|].
    intros _. eapply skip_final; eassumption.
  - cbn [walk walk_order fold_left]. unfold visit at 2. cbn [fst snd].
    destruct (walkFn path _ st) as [st' [|]] eqn:E; cbn [fst snd].
    + change (fun kv : string * os.node => (fst kv, (is_dir (snd kv), walk walkFn (snd kv))))
        with (fun kv : string * os.node => (fst kv, walker S walkFn (snd kv))).
      rewrite !sort_by_name_map. apply walk_names_in_order.
      apply Forall_forall. intros kv Hin. apply sort_by_name_In in Hin.
      rewrite Forall_forall in IH. now apply IH.
    + pose proof (skip_final _ _ _ _ E) as Hf. rewrite visit_final by assumption. auto.
Qed.

Lemma Walk_in_order (w : World) (root : string) (st : S) :
  Walk walkFn w root st = fold_left (visit S walkFn) (walk_order_from w root) st.
Proof.
  unfold Walk, walk_order_from. destruct (os.resolve (cwd w) root) as [r|]; [|reflexivity].
  destruct (os.find r (fs w)) as [n|]; [|reflexivity]. apply walk_in_order.
Qed.

End WalkFacts.

(** ** Search *)

Section SearchFacts.
Local Open Scope Z_scope.
Variable p : PublicFilesService.
Variable queryLower : string.
Variable threshold : Z.

Lemma visit_until_full st path info :
  full threshold st -> fst (visit_until p queryLower threshold path info st) = st.
Proof.
  intros H. unfold visit_until. destruct (hidden_name (os.Name info)); [reflexivity|].
  destruct (Z.geb_spec (Z.of_nat (List.length st)) threshold); [reflexivity|].
  unfold full in H. lia.
Qed.

Lemma visit_until_skip st st' path info :
  visit_until p queryLower threshold path info st = (st', SkipDir) -> full threshold st'.
Proof.
  unfold visit_until. destruct (hidden_name (os.Name info)); [discriminate|].
  destruct (Z.geb_spec (Z.of_nat (List.length st)) threshold) as [H|H].
  - intros [= <-]. unfold full. lia.
  - destruct (search_match p queryLower (path, info)); discriminate.
Qed.

Lemma collect_until (entries : list (string * os.FileInfo)) : forall st,
  fold_left (visit _ (visit_until p queryLower threshold)) entries st
  = (st ++ firstn (Z.to_nat (threshold - Z.of_nat (List.length st)))
                  (flat_map (search_match p queryLower) entries))%list.
Proof.
  induction entries as [|[path info] entries IH]; intros st.
  - cbn [fold_left flat_map]. now rewrite firstn_nil, app_nil_r.
  - cbn [fold_left flat_map]. rewrite IH. unfold visit, visit_until. cbn [fst snd].
    unfold search_match at 2 4. cbn [fst snd].
    destruct (hidden_name (os.Name info)) eqn:Hh; [reflexivity|].
    destruct (Z.geb_spec (Z.of_nat (List.length st)) threshold) as [Hfull|Hroom].
    + cbn [fst]. replace (Z.to_nat (threshold - Z.of_nat (List.length st))) with 0%nat by lia.
      reflexivity.
    + unfold search_match. cbn [fst snd]. rewrite Hh.
      destruct (strings.Contains (strings.ToLower (os.Name info)) queryLower); [|reflexivity].
      destruct (filepath.Rel (publicDir p) path) as [relPath|]; [|reflexivity].
      cbn [fst app]. rewrite length_app. cbn [List.length].
      replace (Z.to_nat (threshold - Z.of_nat (List.length st)))
        with (Datatypes.S (Z.to_nat (threshold - Z.of_nat (List.length st + 1)))) by lia.
      cbn [firstn]. now rewrite <- app_assoc.
Qed.

End SearchFacts.

Lemma search_visit_until (p : PublicFilesService) (queryLower : string) (pageVal limitVal : Z)
    (path : string) (info : os.FileInfo) (results : list dtos.FileSystemItem) :
  search_visit p queryLower pageVal limitVal path info results
  = visit_until p queryLower (int32 (int32 pageVal * int32 limitVal)) path info results.
Proof.
  unfold search_visit, visit_until, search_match. cbn [fst snd].
  destruct (hidden_name (os.Name info)); [reflexivity|].
  destruct (_ >=? _)%Z; [reflexivity|].
  destruct (strings.Contains _ _); [|reflexivity].
  now destruct (filepath.Rel _ _).
Qed.

(** The results that [SearchItems] collects: the first [page*limit] matches
    in walk order, for the product as the code takes it. *)
Lemma search_collects (p : PublicFilesService) (w : World) (queryLower : string)
    (pageVal limitVal : Z) :
  Walk (search_visit p queryLower pageVal limitVal) w (publicDir p) []
  = firstn (Z.to_nat (int32 (int32 pageVal * int32 limitVal))) (search_matches p queryLower w).
Proof.
  set (threshold := int32 (int32 pageVal * int32 limitVal)).
  rewrite (Walk_in_order _ (search_visit p queryLower pageVal limitVal) (full threshold)).
  - assert (E : forall l st,
               fold_left (visit _ (search_visit p queryLower pageVal limitVal)) l st
               = fold_left (visit _ (visit_until p queryLower threshold)) l st).
    { induction l as [|x l IH]; intros st; [reflexivity|]. cbn [fold_left].
      rewrite IH. f_equal. unfold visit. now rewrite search_visit_until. }
    rewrite E, collect_until. cbn [List.length app]. now rewrite Z.sub_0_r.
  - intros st path info H. rewrite search_visit_until. now apply visit_until_full.
  - intros st st' path info H. rewrite search_visit_until in H.
    eapply visit_until_skip; eassumption.
Qed.

Lemma ToLower_length (s : string) :
  String.length (strings.ToLower s) = String.length s.
Proof. induction s; simpl; congruence. Qed.

Lemma ToLower_empty (s : string) : strings.ToLower s = "" <-> s = "".
Proof. split; [now destruct s | now intros ->]. Qed.

Lemma search_match_name (p : PublicFilesService) (queryLower : string) entry i :
  In i (search_match p queryLower entry) ->
  dtos.Name i = os.Name (snd entry)
  /\ hidden_name (dtos.Name i) = false
  /\ strings.Contains (strings.ToLower (dtos.Name i)) queryLower = true.
Proof.
  unfold search_match. destruct (hidden_name _) eqn:Hh; [intros []|].
  destruct (strings.Contains _ _) eqn:Hc; [|intros []].
  destruct (filepath.Rel _ _); [|intros []].
  intros [<-|[]]. cbn [dtos.Name]. auto.
Qed.

Lemma paginate_bounds (maxLimit : Z) (items : list dtos.FileSystemItem) (pageVal limitVal : Z)
    (page : dtos.PaginatedItems) :
  (10 <= maxLimit)%Z ->
  paginate maxLimit items pageVal limitVal = Ok page ->
  (10 <= dtos.Limit page <= maxLimit)%Z /\ (1 <= dtos.Page page)%Z
  /\ dtos.Total page = int32 (Z.of_nat (List.length items)).
Proof.
  intros Hmax. unfold paginate.
  match goal with |- match ?s with _ => _ end = _ -> _ => destruct s; [|discriminate] end.
  intros [= <-]. cbn [dtos.Limit dtos.Page dtos.Total].
  repeat match goal with |- context [(?a <? ?b)%Z] => destruct (Z.ltb_spec a b) end;
    repeat match goal with |- context [(?a >? ?b)%Z] => destruct (Z.gtb_spec a b) end;
    repeat split; lia.
Qed.

(** [SearchItems] rejects the empty query and a query of more than 255 bytes;
    otherwise the matches are entries whose own name, lowered, contains the
    lowered query, and the pagination block is applied to the first matches in
    walk order, as many as the product of [page] and [limit] as they were
    requested. *)
Lemma search_collects_then_paginates (p : PublicFilesService) (w : World) (query : string)
    (pageVal limitVal : Z) :
  (query = "" \/ (strings.len query > 255)%Z ->
   SearchItems p w query pageVal limitVal
   = (Err (response "Search query must be 1-255 characters" None), w))
  /\ (query <> "" -> (strings.len query <= 255)%Z ->
      let found := search_matches p (strings.ToLower query) w in
      Forall (fun i => hidden_name (dtos.Name i) = false
                       /\ strings.Contains (strings.ToLower (dtos.Name i))
                                           (strings.ToLower query) = true) found
      /\ ((- 2 ^ 31 <= pageVal < 2 ^ 31)%Z -> (- 2 ^ 31 <= limitVal < 2 ^ 31)%Z ->
          (- 2 ^ 31 <= pageVal * limitVal < 2 ^ 31)%Z ->
          SearchItems p w query pageVal limitVal
          = (paginate 500 (firstn (Z.to_nat (pageVal * limitVal)) found) pageVal limitVal, w))).
Proof.
  assert (Hlen : strings.len (strings.ToLower query) = strings.len query)
    by (unfold strings.len; now rewrite ToLower_length).
  unfold SearchItems. rewrite Hlen. unfold maxSearchLength. split.
  - intros [->|H]; [reflexivity|].
    destruct (Z.gtb_spec (strings.len query) 255); [|lia]. now rewrite orb_true_r.
  - intros Hne Hle. set (found := search_matches p (strings.ToLower query) w).
    assert (Hq : (strings.ToLower query =? "") = false).
    { apply String.eqb_neq. intros E. apply (proj1 (ToLower_empty query)) in E. contradiction. }
    rewrite Hq. destruct (Z.gtb_spec (strings.len query) 255); [lia|]. cbn [orb].
    rewrite search_collects. fold found. split.
    + apply Forall_forall. intros i Hi. unfold found, search_matches in Hi.
      apply in_flat_map in Hi as (entry & _ & Hi).
      now apply search_match_name in Hi as (_ & H1 & H2).
    + intros Hp Hl Hpl. now rewrite (int32_in_range pageVal), (int32_in_range limitVal),
        (int32_in_range (pageVal * limitVal)) by assumption.
Qed.

(** Where the requested [page] and [limit] are what the pagination block
    works with - a page of 1 or more, a limit between 10 and 500 - the answer
    is the requested page of the matches; the matches that the walk has not
    collected lie behind that page, and [Total] counts the collected ones. *)
Lemma search_in_range (p : PublicFilesService) (w : World) (query : string)
    (pageVal limitVal : Z) :
  query <> "" -> (strings.len query <= 255)%Z ->
  (1 <= pageVal)%Z -> (10 <= limitVal <= 500)%Z -> (pageVal * limitVal + 500 < 2 ^ 31)%Z ->
  let found := search_matches p (strings.ToLower query) w in
  let total := Z.min (pageVal * limitVal) (Z.of_nat (List.length found)) in
  SearchItems p w query pageVal limitVal
  = (Ok {| dtos.Items := firstn (Z.to_nat limitVal)
                           (skipn (Z.to_nat ((pageVal - 1) * limitVal)) found);
           dtos.Total := total;
           dtos.Page := pageVal;
           dtos.Limit := limitVal;
           dtos.TotalPages := ((total + limitVal - 1) / limitVal)%Z;
           dtos.HasNext := (pageVal <? (total + limitVal - 1) / limitVal)%Z;
           dtos.HasPrev := (pageVal >? 1)%Z |}, w).
Proof.
  intros Hne Hle Hp Hl Hpl found total.
  assert (Hprod : (pageVal <= pageVal * limitVal)%Z) by nia.
  destruct (search_collects_then_paginates p w query pageVal limitVal) as [_ H].
  destruct (H Hne Hle) as [_ Hsearch]. rewrite Hsearch by lia. fold found.
  set (collected := firstn (Z.to_nat (pageVal * limitVal)) found).
  assert (Hcount : Z.of_nat (List.length collected) = total).
  { unfold collected, total. rewrite length_firstn. lia. }
  rewrite paginate_in_range; unfold clamp_page, clamp_limit; rewrite ?Hcount;
    [|lia | lia | lia | unfold total; lia | nia].
  replace (Z.max 1 pageVal) with pageVal by lia.
  replace (Z.min 500 (Z.max 10 limitVal)) with limitVal by lia.
  do 2 f_equal. f_equal. unfold collected.
  assert (Hstart : (0 <= (pageVal - 1) * limitVal)%Z) by nia.
  rewrite skipn_firstn_comm, firstn_firstn. f_equal. nia.
Qed.

(** C8. The walk of [SearchItems] stops at the product of [page] and [limit]
    as they were requested, before the pagination block raises a page below
    1 to 1 and a limit below 10 to 10. Asked for page 0 the search finds
    nothing, though it answers as page 1 and [docs] matches; asked for a
    limit of 3 it answers a page of 10 that ends after 3 of the 4 matches,
    as the only page. Asked for page 1 and a limit of 10 it answers the
    matches. *)
Theorem C8_search_stops_at_the_requested_product :
  fst (SearchItems Demo.service Demo.world "DOC" 0 10)
  = Ok {| dtos.Items := []; dtos.Total := 0; dtos.Page := 1; dtos.Limit := 10;
          dtos.TotalPages := 0; dtos.HasNext := false; dtos.HasPrev := false |}
  /\ fst (SearchItems Demo.service Demo.world "DOC" 1 10)
     = Ok {| dtos.Items := [ {| dtos.Name := "docs"; dtos.Path := "docs";
                                dtos.Size := 0; dtos.IsDir := true |} ];
             dtos.Total := 1; dtos.Page := 1; dtos.Limit := 10;
             dtos.TotalPages := 1; dtos.HasNext := false; dtos.HasPrev := false |}
  /\ fst (SearchItems Demo.service Demo.world "txt" 1 3)
     = Ok {| dtos.Items := [ {| dtos.Name := "notes2.txt"; dtos.Path := ".secret/notes2.txt";
                                dtos.Size := 1; dtos.IsDir := false |};
                             {| dtos.Name := "A.txt"; dtos.Path := "docs/A.txt";
                                dtos.Size := 1; dtos.IsDir := false |};
                             {| dtos.Name := "b.txt"; dtos.Path := "docs/b.txt";
                                dtos.Size := 2; dtos.IsDir := false |} ];
             dtos.Total := 3; dtos.Page := 1; dtos.Limit := 10;
             dtos.TotalPages := 1; dtos.HasNext := false; dtos.HasPrev := false |}
  /\ map dtos.Path (search_matches Demo.service "txt" Demo.world)
     = [".secret/notes2.txt"; "docs/A.txt"; "docs/b.txt"; "notes.txt"].
Proof. repeat split; vm_compute; reflexivity. Qed.

(** ** Supplements *)

Lemma update_refused l e f fs0 es err :
  os.find l fs0 = Ok (os.Dir es) -> f (os.assoc e es) = Err err ->
  os.update (l ++ [e]) f fs0 = Err err.
Proof.
  revert fs0. induction l as [|a l IH]; intros fs0 H Hf.
  - simpl in H. injection H as ->. simpl. now rewrite Hf.
  - destruct fs0 as [|es0]; [discriminate|]. cbn [os.find] in H.
    destruct (os.assoc a es0) as [c|] eqn:Ha; [|discriminate].
    cbn [app os.update]. rewrite Ha, (IH c H Hf).
    destruct (l ++ [e])%list eqn:E; [now destruct l | reflexivity].
Qed.

(** [CreateFolder], unlike [CreateFile], refuses a path that names something:
    nothing changes and nothing is handed to the hub. *)
Lemma CreateFolder_existing (p : PublicFilesService) (w : World) (path dirPath : string) :
  filepath.IsAbs (cwd w) = true ->
  sanitizePathForWrite p w path = Ok dirPath ->
  is_ok (os.Stat (cwd w) (fs w) dirPath) = true ->
  exists debug w',
    CreateFolder p w path = (Err (response "Directory already exists" debug), w')
    /\ fs w' = fs w /\ sent w' = sent w.
Proof.
  intros Hcwd Hdir Hstat.
  destruct (write_shape p w path dirPath Hcwd Hdir) as (_ & _ & _ & l & e & Hl & He & ->).
  pose proof (plain_snoc _ _ Hl He) as Hp.
  rewrite Stat_Lookup, Lookup_rooted in Hstat by assumption.
  destruct (os.find (l ++ [e]) (fs w)) as [n|] eqn:Hf; [|discriminate].
  destruct (find_parent_dir _ _ _ _ Hf) as [es Hes].
  pose proof (occupant_in_dir l e (fs w) es Hes) as Hocc. unfold occupant in Hocc.
  rewrite Hf in Hocc.
  unfold CreateFolder. rewrite Hdir.
  rewrite Dir_rooted, MkdirAll_rooted, (mkdir_all_existing l (fs w) es Hes) by assumption.
  cbn [cwd fs with_fs]. unfold os.Mkdir. rewrite at_rooted by assumption.
  destruct (l ++ [e])%list eqn:E; [now destruct l|]. rewrite <- E.
  erewrite update_refused; [| eassumption | now rewrite <- Hocc].
  cbn [os.IsExist negb]. eexists. eexists. split; [reflexivity|]. now split.
Qed.

(** [sort.Slice] with [item_less] permutes the items and leaves no later item
    before an earlier one: directories first, then by lowered name. *)
Lemma ltb_asym (a b : string) : String.ltb a b = true -> String.ltb b a = false.
Proof.
  unfold String.ltb. rewrite (String.compare_antisym a b).
  now destruct (String.compare b a).
Qed.

Lemma item_less_asym (a b : dtos.FileSystemItem) :
  item_less a b = true -> item_less b a = false.
Proof.
  unfold item_less. destruct (dtos.IsDir a), (dtos.IsDir b); cbn [Bool.eqb negb];
    try discriminate; try reflexivity; apply ltb_asym.
Qed.

Lemma insert_sorted (x : dtos.FileSystemItem) l :
  Sorted in_order l -> Sorted in_order (sort.insert item_less x l).
Proof.
  induction 1 as [|y l Hs IH Hhd]; cbn [sort.insert].
  - repeat constructor.
  - destruct (item_less x y) eqn:Hxy.
    + constructor; [now constructor|]. constructor. now apply item_less_asym.
    + constructor; [assumption|].
      destruct l as [|z l]; cbn [sort.insert].
      * now constructor.
      * destruct (item_less x z); constructor; [exact Hxy | now inversion Hhd].
Qed.

Lemma Slice_sorted (l : list dtos.FileSystemItem) : Sorted in_order (sort.Slice item_less l).
Proof.
  induction l as [|x l IH]; [constructor|]. unfold sort.Slice in *. cbn [fold_right].
  now apply insert_sorted.
Qed.

Lemma insert_permutation (x : dtos.FileSystemItem) l :
  Permutation (x :: l) (sort.insert item_less x l).
Proof.
  induction l as [|y l IH]; cbn [sort.insert]; [reflexivity|].
  destruct (item_less x y); [reflexivity|].
  rewrite perm_swap. now constructor.
Qed.

Lemma Slice_permutation (l : list dtos.FileSystemItem) :
  Permutation l (sort.Slice item_less l).
Proof.
  induction l as [|x l IH]; [constructor|]. unfold sort.Slice in *. cbn [fold_right].
  rewrite <- insert_permutation. now constructor.
Qed.

(** * Further properties *)

(** ** Where sanitized paths lead *)

Lemma check_components_inv canonical cs c :
  check_components canonical cs = Ok c -> c = canonical /\ Forall component_ok cs.
Proof.
  induction cs as [|x cs IH]; cbn [check_components].
  - intros [= <-]. now split.
  - destruct (strings.HasPrefix x "." && negb (x =? ".")) eqn:H1; [discriminate|].
    destruct (strings.Contains x nul || strings.Contains x "/" || strings.Contains x "\") eqn:H2;
      [discriminate|].
    intros H. destruct (IH H) as [-> HF]. split; [reflexivity|].
    constructor; [now split | assumption].
Qed.

Lemma root_elements_plain (p : PublicFilesService) (w : World) X :
  Forall plain X -> publicCanonical p w = filepath.render true X -> root_elements p w = X.
Proof. intros HX E. unfold root_elements. rewrite E. now apply elements_render_rooted. Qed.

Lemma write_below (p : PublicFilesService) (w : World) (input c : string) :
  filepath.IsAbs (cwd w) = true -> sanitizePathForWrite p w input = Ok c ->
  exists R e,
    Forall plain (root_elements p w) /\ Forall plain R /\ creatable e
    /\ publicCanonical p w = filepath.render true (root_elements p w)
    /\ c = filepath.render true (root_elements p w ++ R ++ [e])
    /\ filter real (strings.Split (normalized input) filepath.Separator) = (R ++ [e])%list.
Proof.
  intros Hcwd H.
  destruct (write_shape p w input c Hcwd H) as (Hfree & Hne & Hcan & _).
  destruct (canonical_below_root p w input Hcwd Hfree Hne) as (X & HX & HR & Hpc & Hc).
  rewrite (root_elements_plain p w X HX Hpc).
  unfold sanitizePathForWrite in H. rewrite Hfree in H. fold (normalized input) in H.
  apply String.eqb_neq in Hne as Hne'. rewrite Hne' in H. cbv zeta in H.
  fold (canonical_of p w input) in H. fold (publicCanonical p w) in H.
  destruct (filter real (strings.Split (normalized input) filepath.Separator)) as [|r0 R0] eqn:ER.
  - exfalso. rewrite app_nil_r in Hc. rewrite Hc, Hpc in H.
    destruct X as [|x0 X0] using rev_ind.
    + vm_compute in H. discriminate.
    + clear IHX0. apply Forall_app in HX as [HX0 Hx]. inversion Hx; subst.
      rewrite Dir_rooted in H by assumption.
      unfold filepath.Abs at 1 in H.
      rewrite IsAbs_render_rooted, Clean_render_rooted in H by assumption.
      destruct (strings.HasPrefix (filepath.render true X0) (filepath.render true (X0 ++ [x0]))) eqn:Hp.
      * apply HasPrefix_length in Hp.
        pose proof (render_rooted_snoc_longer X0 x0 (plain_not_empty _ H2)). lia.
      * rewrite render_rooted_not_empty in H. discriminate.
  - assert (HR0 : r0 :: R0 <> []) by discriminate.
    destruct (exists_last HR0) as (R' & e & E). rewrite E in *.
    apply Forall_app in HR as [HR1 HR2]. inversion HR2 as [|? ? He _]; subst.
    assert (HXR : Forall plain (X ++ R')) by (apply Forall_app; now split).
    rewrite app_assoc in Hc. rewrite Hc in H.
    rewrite Dir_rooted, Base_rooted in H by assumption.
    repeat match type of H with
           | (if ?b then _ else _) = _ => destruct b eqn:?; try discriminate
           end.
    clear H. exists R', e.
    assert (Hlen : (strings.len e <= 255)%Z)
      by (destruct (Z.gtb_spec (strings.len e) 255); [discriminate | assumption]).
    unfold creatable. rewrite <- app_assoc in Hc. tauto.
Qed.

Lemma read_below (p : PublicFilesService) (w : World) (input c : string) :
  filepath.IsAbs (cwd w) = true -> sanitizePathForRead p w input = Ok c ->
  denylist_free input
  /\ ((normalized input = "" /\ c = publicDir p)
      \/ (normalized input <> ""
          /\ exists R n,
               Forall plain (root_elements p w) /\ Forall visible R
               /\ publicCanonical p w = filepath.render true (root_elements p w)
               /\ c = filepath.render true (root_elements p w ++ R)
               /\ os.find (root_elements p w ++ R) (fs w) = Ok n
               /\ filter real (strings.Split (normalized input) filepath.Separator) = R)).
Proof.
  intros Hcwd H. unfold sanitizePathForRead in H.
  destruct (List.find (strings.Contains input) dangerousPatterns) eqn:Hfree; [discriminate|].
  split; [exact Hfree|].
  fold (normalized input) in H.
  destruct (String.eqb_spec (normalized input) "") as [Hn|Hne].
  - left. split; [assumption | now injection H as <-].
  - right. split; [assumption|]. cbv zeta in H.
    fold (canonical_of p w input) in H. fold (publicCanonical p w) in H.
    destruct (canonical_below_root p w input Hcwd Hfree Hne) as (X & HX & HR & Hpc & Hc).
    rewrite (root_elements_plain p w X HX Hpc).
    set (R := filter real (strings.Split (normalized input) filepath.Separator)) in *.
    assert (HXR : Forall plain (X ++ R)) by (apply Forall_app; now split).
    destruct (negb (strings.HasPrefix (canonical_of p w input) (publicCanonical p w)));
      [discriminate|].
    rewrite Stat_Lookup, Hc, Lookup_rooted in H by assumption.
    destruct (os.find (X ++ R) (fs w)) as [n|err] eqn:Hf;
      [|destruct (os.IsNotExist err); discriminate].
    match type of H with
    | (if ?b then _ else _) = _ => destruct b; [discriminate|]
    end.
    rewrite Hpc, Rel_below in H by assumption.
    apply check_components_inv in H as [-> Hok].
    exists R, n. split; [assumption|].
    split; [|repeat split; try assumption; reflexivity].
    destruct R as [|r R']; [constructor|].
    rewrite (Split_concat _ "/"%char) in Hok by (try discriminate; now apply plain_no_slash).
    rewrite Forall_forall in *. intros e He. split; [now apply HR|].
    destruct (Hok e He) as [H1 _]. destruct (HR e He) as (Hreal & _).
    destruct (strings.HasPrefix e "."); [|reflexivity].
    unfold real in Hreal. destruct (e =? "."); [|discriminate H1].
    rewrite orb_true_r in Hreal. discriminate.
Qed.

Lemma Clean_canonical R : Forall plain R -> filepath.Clean (filepath.render true R) = filepath.render true R.
Proof. apply Clean_render_rooted. Qed.

(** X1. A path that [sanitizePathForWrite] accepts is in canonical form and
    names a place strictly below the root: the operating system resolves it
    to the elements of the root followed by at least one more element; none
    of them is empty, "." or "..", and the last one, the name to be created,
    does not start with a dot and is at most 255 bytes long. *)
Theorem X1_write_target_below_root (p : PublicFilesService) (w : World) (input c : string) :
  filepath.IsAbs (cwd w) = true -> sanitizePathForWrite p w input = Ok c ->
  filepath.Clean c = c
  /\ (publicDir p <> "" -> os.resolve (cwd w) (publicDir p) = Some (root_elements p w))
  /\ exists R e,
       os.resolve (cwd w) c = Some (root_elements p w ++ R ++ [e])%list
       /\ Forall plain (root_elements p w) /\ Forall plain R /\ creatable e.
Proof.
  intros Hcwd H.
  destruct (write_below p w input c Hcwd H) as (R & e & HX & HR & He & Hpc & -> & _).
  assert (Hall : Forall plain (root_elements p w ++ R ++ [e])).
  { apply Forall_app. split; [assumption|]. apply Forall_app. split; [assumption|].
    constructor; [apply He | constructor]. }
  split; [now apply Clean_render_rooted|]. split.
  - intros Hne. unfold os.resolve. apply String.eqb_neq in Hne as ->. reflexivity.
  - exists R, e. split; [now apply resolve_rooted | tauto].
Qed.

Lemma X1_write_target_below_root_witness :
  sanitizePathForWrite Demo.service Demo.world "docs//new.txt" = Ok "/srv/pub/docs/new.txt"
  /\ root_elements Demo.service Demo.world = ["srv"; "pub"]
  /\ exists R e,
       os.resolve "/app" "/srv/pub/docs/new.txt" = Some (["srv"; "pub"] ++ R ++ [e])%list
       /\ creatable e.
Proof.
  destruct (X1_write_target_below_root Demo.service Demo.world "docs//new.txt"
              "/srv/pub/docs/new.txt" eq_refl eq_refl) as (_ & _ & R & e & H1 & _ & _ & H2).
  split; [reflexivity|]. split; [reflexivity|]. exists R, e. now split.
Defined.

(** X2. A path that [sanitizePathForRead] accepts is the root as it is
    configured, for an input that is empty after normalization, or else a
    path in canonical form that names something that exists at or below the
    root, through components none of which starts with a dot. *)
Theorem X2_read_target_exists_below_root (p : PublicFilesService) (w : World) (input c : string) :
  filepath.IsAbs (cwd w) = true -> sanitizePathForRead p w input = Ok c ->
  (normalized input = "" /\ c = publicDir p)
  \/ (filepath.Clean c = c
      /\ exists R n,
           os.resolve (cwd w) c = Some (root_elements p w ++ R)%list
           /\ Forall visible R
           /\ os.Lookup (cwd w) (fs w) c = Ok n).
Proof.
  intros Hcwd H.
  destruct (read_below p w input c Hcwd H) as (_ & [Hroot|(_ & R & n & HX & HR & _ & -> & Hf & _)]);
    [now left | right].
  assert (Hall : Forall plain (root_elements p w ++ R)).
  { apply Forall_app. split; [assumption|]. eapply Forall_impl; [|exact HR]. now intros a [Ha _]. }
  split; [now apply Clean_render_rooted|].
  exists R, n. split; [now apply resolve_rooted|]. split; [assumption|].
  now rewrite Lookup_rooted.
Qed.

Lemma X2_read_target_exists_below_root_witness :
  sanitizePathForRead Demo.service Demo.world "/docs/A.txt/" = Ok "/srv/pub/docs/A.txt"
  /\ exists R n,
       os.resolve "/app" "/srv/pub/docs/A.txt" = Some (["srv"; "pub"] ++ R)%list
       /\ Forall visible R
       /\ os.Lookup "/app" (fs Demo.world) "/srv/pub/docs/A.txt" = Ok n.
Proof.
  destruct (X2_read_target_exists_below_root Demo.service Demo.world "/docs/A.txt/"
              "/srv/pub/docs/A.txt" eq_refl eq_refl) as [[H _]|(_ & H)];
    [discriminate H|].
  split; [reflexivity | exact H].
Defined.

(** ** Pages *)

Section PaginationMore.
Local Open Scope Z_scope.

Lemma int32_bounds (z : Z) : - 2 ^ 31 <= int32 z < 2 ^ 31.
Proof. unfold int32. pose proof (Z.mod_pos_bound (z + 2 ^ 31) (2 ^ 32) ltac:(lia)). lia. Qed.

Lemma paginate_start (maxLimit : Z) (items : list dtos.FileSystemItem) (pageVal limitVal : Z) :
  10 <= maxLimit <= 500 -> Z.of_nat (List.length items) + 500 < 2 ^ 31 ->
  let start := page_start maxLimit pageVal limitVal in
  (start < 0 -> paginate maxLimit items pageVal limitVal = Err (Panic "slice bounds out of range"))
  /\ (0 <= start ->
      exists page, paginate maxLimit items pageVal limitVal = Ok page
                   /\ dtos.Items page
                      = firstn (Z.to_nat (clamp_limit maxLimit (int32 limitVal)))
                          (skipn (Z.to_nat start) items)).
Proof.
  intros Hmax Hlen start. unfold paginate.
  replace (if int32 pageVal <? 1 then 1 else int32 pageVal) with (clamp_page (int32 pageVal))
    by (unfold clamp_page; destruct (Z.ltb_spec (int32 pageVal) 1); lia).
  replace (if (if int32 limitVal <? 10 then 10 else int32 limitVal) >? maxLimit then maxLimit
           else if int32 limitVal <? 10 then 10 else int32 limitVal)
    with (clamp_limit maxLimit (int32 limitVal))
    by (unfold clamp_limit; destruct (Z.ltb_spec (int32 limitVal) 10);
        match goal with |- context [?a >? ?b] => destruct (Z.gtb_spec a b) end; lia).
  fold (page_start maxLimit pageVal limitVal). fold start.
  set (limit := clamp_limit maxLimit (int32 limitVal)).
  assert (Hlim : 10 <= limit <= maxLimit) by (unfold limit, clamp_limit; lia).
  set (total := Z.of_nat (List.length items)) in *.
  rewrite (int32_in_range total) by lia.
  clearbody start limit. split.
  - intros Hneg.
    replace (start <? total) with true by (symmetry; apply Z.ltb_lt; lia).
    unfold slice. replace (0 <=? start) with false by (symmetry; apply Z.leb_gt; lia).
    reflexivity.
  - intros Hpos. destruct (Z.ltb_spec start total) as [Hlt|Hge].
    + rewrite (int32_in_range (start + limit)) by lia.
      unfold slice. replace (0 <=? start) with true by (symmetry; apply Z.leb_le; lia).
      set (end_ := if start + limit >? total then total else start + limit).
      assert (Hend : end_ = Z.min (start + limit) total)
        by (unfold end_; destruct (Z.gtb_spec (start + limit) total); lia).
      replace (start <=? end_) with true by (symmetry; apply Z.leb_le; lia).
      fold total.
      replace (end_ <=? total) with true by (symmetry; apply Z.leb_le; lia).
      cbn [andb]. eexists. split; [reflexivity|]. cbn [dtos.Items].
      rewrite <- (firstn_min_length _ _ (Z.to_nat limit)). f_equal.
      rewrite length_skipn. unfold total in *. lia.
    + eexists. split; [reflexivity|]. cbn [dtos.Items].
      rewrite skipn_all2 by (unfold total in *; lia). now rewrite firstn_nil.
Qed.

End PaginationMore.

Section PaginationCover.
Local Open Scope Z_scope.

Lemma firstn_add (A : Type) (a b : nat) (l : list A) :
  firstn (a + b) l = (firstn a l ++ firstn b (skipn a l))%list.
Proof.
  revert l. induction a as [|a IH]; intros l; [reflexivity|].
  destruct l as [|x l]; [simpl; now rewrite firstn_nil|]. cbn [Nat.add firstn skipn app].
  now rewrite IH.
Qed.

Lemma chunks_firstn (A : Type) (L : nat) (l : list A) (n : nat) :
  List.concat (map (fun k => firstn L (skipn (k * L) l)) (seq 0 n)) = firstn (n * L) l.
Proof.
  induction n as [|n IH]; [reflexivity|].
  rewrite seq_S, map_app, concat_app, IH. cbn [map List.concat Nat.add Nat.mul].
  rewrite app_nil_r. rewrite (Nat.add_comm L), <- firstn_add. reflexivity.
Qed.

(** X3. [paginate] ends in a run-time panic exactly when the first index of
    the page, computed in [int32], is negative. *)
Theorem X3_paginate_panics_on_negative_start (maxLimit : Z) (items : list dtos.FileSystemItem)
    (pageVal limitVal : Z) :
  10 <= maxLimit <= 500 -> Z.of_nat (List.length items) + 500 < 2 ^ 31 ->
  paginate maxLimit items pageVal limitVal = Err (Panic "slice bounds out of range")
  <-> page_start maxLimit pageVal limitVal < 0.
Proof.
  intros Hmax Hlen.
  destruct (paginate_start maxLimit items pageVal limitVal Hmax Hlen) as [Hneg Hpos].
  split.
  - intros H. destruct (Z.lt_ge_cases (page_start maxLimit pageVal limitVal) 0) as [|Hge];
      [assumption|].
    destruct (Hpos Hge) as (page & E & _). rewrite E in H. discriminate.
  - exact Hneg.
Qed.

Lemma X3_paginate_panics_on_negative_start_witness :
  page_start 100 134217729 16 = - 2 ^ 31
  /\ paginate 100 [] 134217729 16 = Err (Panic "slice bounds out of range")
  /\ fst (ListItemsRoot Demo.service Demo.world 134217729 16)
     = Err (Panic "slice bounds out of range")
  /\ fst (SearchItems Demo.service Demo.world "notes" 134217729 16)
     = Err (Panic "slice bounds out of range").
Proof.
  split; [reflexivity|]. split; [|split; reflexivity].
  apply (X3_paginate_panics_on_negative_start 100 [] 134217729 16);
    [lia | simpl; lia | vm_compute; reflexivity].
Defined.

(** X4. The pages 1 to [TotalPages], one after the other, hold the items
    once each and in order; a page after the last one is empty. *)
Theorem X4_pages_cover_the_items (maxLimit : Z) (items : list dtos.FileSystemItem)
    (limitVal : Z) :
  10 <= maxLimit -> - 2 ^ 31 <= limitVal < 2 ^ 31 ->
  Z.of_nat (List.length items) + maxLimit < 2 ^ 31 ->
  let limit := clamp_limit maxLimit limitVal in
  let totalPages := (Z.of_nat (List.length items) + limit - 1) / limit in
  List.concat (map (fun k => page_items (paginate maxLimit items (Z.of_nat k) limitVal))
              (seq 1 (Z.to_nat totalPages))) = items
  /\ forall pageVal, totalPages < pageVal -> pageVal * limit < 2 ^ 31 ->
       page_items (paginate maxLimit items pageVal limitVal) = [].
Proof.
  intros Hmax Hl Hlen limit totalPages.
  assert (Hlim : 10 <= limit <= maxLimit) by (unfold limit, clamp_limit; lia).
  set (total := Z.of_nat (List.length items)) in *.
  assert (Hcover : total <= totalPages * limit /\ 0 <= totalPages
                   /\ totalPages * limit < total + limit).
  { destruct (ceil_div total limit ltac:(lia) ltac:(lia)) as [Hceil|[H0 HT]];
      fold totalPages in Hceil || fold totalPages in HT; unfold total in *; nia. }
  destruct Hcover as (Hc1 & Hc2 & Hc3). split.
  - rewrite <- seq_shift, map_map.
    rewrite (map_ext_in _ (fun k => firstn (Z.to_nat limit)
                                      (skipn (k * Z.to_nat limit) items))).
    + rewrite chunks_firstn. apply firstn_all2. unfold total in *. nia.
    + intros k Hk. apply in_seq in Hk.
      assert (Hk1 : 1 <= Z.of_nat (S k) <= totalPages) by lia.
      assert (Hk2 : Z.of_nat (S k) * limit < 2 ^ 31).
      { pose proof (Z.mul_le_mono_nonneg_r (Z.of_nat (S k)) totalPages limit). lia. }
      assert (Hk3 : clamp_page (Z.of_nat (S k)) = Z.of_nat (S k)) by (unfold clamp_page; lia).
      rewrite paginate_in_range; try assumption; fold limit; rewrite ?Hk3; try lia.
      cbn [page_items dtos.Items]. f_equal. f_equal. nia.
  - intros pageVal Hafter Hrange.
    assert (Hp3 : clamp_page pageVal = pageVal) by (unfold clamp_page; lia).
    rewrite paginate_in_range; try assumption; fold limit; rewrite ?Hp3; try lia.
    cbn [page_items dtos.Items].
    rewrite skipn_all2; [now rewrite firstn_nil|].
    unfold total in *. nia.
Qed.

Lemma X4_pages_cover_the_items_witness :
  let item := {| dtos.Name := "f"; dtos.Path := "f"; dtos.Size := 0; dtos.IsDir := false |} in
  let items := repeat item 25 in
  List.concat (map (fun k => page_items (paginate 100 items (Z.of_nat k) 10)) [1; 2; 3]%nat)
  = items
  /\ page_items (paginate 100 items 4 10) = [].
Proof.
  intros item items.
  destruct (X4_pages_cover_the_items 100 items 10) as [H1 H2];
    [lia | lia | vm_compute; reflexivity |].
  split; [exact H1 | apply H2; vm_compute; reflexivity].
Defined.
End PaginationCover.

(** ** Written files *)

Lemma check_components_hidden canonical cs :
  Exists (fun c => strings.HasPrefix c "." = true /\ c <> ".") cs ->
  Forall (fun c => strings.Contains c nul || strings.Contains c "/"
                   || strings.Contains c "\" = false) cs ->
  check_components canonical cs = Err hidden_refused.
Proof.
  induction cs as [|c cs IH]; intros Hex Hall; [inversion Hex|].
  inversion Hall as [|? ? Hc Hcs]; subst. cbn [check_components].
  destruct (strings.HasPrefix c "." && negb (c =? ".")) eqn:Hh; [reflexivity|].
  rewrite Hc. apply IH; [|assumption].
  inversion Hex as [? ? [H1 H2]|]; subst; [|assumption].
  rewrite H1 in Hh. apply String.eqb_neq in H2. rewrite H2 in Hh. discriminate.
Qed.

Lemma read_refuses_hidden (p : PublicFilesService) (w : World) (input : string) :
  filepath.IsAbs (cwd w) = true -> denylist_free input ->
  is_ok (os.Stat (cwd w) (fs w) (canonical_of p w input)) = true ->
  hidden_component input ->
  sanitizePathForRead p w input = Err hidden_refused.
Proof.
  intros Hcwd Hfree Hstat Hhid.
  assert (Hne : normalized input <> "").
  { intros E. unfold hidden_component in Hhid. rewrite E in Hhid. cbn in Hhid.
    inversion Hhid as [? ? [H _]|? ? H]; subst; [discriminate | inversion H]. }
  destruct (canonical_below_root p w input Hcwd Hfree Hne) as (X & HX & HR & Hpc & Hc).
  unfold sanitizePathForRead. rewrite Hfree. fold (normalized input).
  apply String.eqb_neq in Hne as ->. cbv zeta.
  fold (canonical_of p w input). fold (publicCanonical p w).
  assert (Hpre : strings.HasPrefix (canonical_of p w input) (publicCanonical p w) = true)
    by (rewrite Hc, Hpc; apply render_rooted_prefix).
  rewrite Hpre. cbn [negb].
  destruct (os.Stat (cwd w) (fs w) (canonical_of p w input)) as [stat|]; [|discriminate].
  rewrite andb_false_r. rewrite Hpc, Hc at 1. rewrite Rel_below by assumption.
  set (R := filter real (strings.Split (normalized input) filepath.Separator)) in *.
  assert (HexR : Exists (fun c => strings.HasPrefix c "." = true /\ c <> ".") R).
  { unfold hidden_component in Hhid. apply Exists_exists in Hhid as (c & Hin & H1 & H2).
    apply Exists_exists. exists c. split; [|now split].
    apply filter_In. split; [assumption|]. unfold real.
    apply String.eqb_neq in H2 as ->. destruct c; [discriminate | reflexivity]. }
  destruct R as [|r R'] eqn:ER; [inversion HexR|].
  rewrite (Split_concat _ "/"%char) by (try discriminate; now apply plain_no_slash).
  apply check_components_hidden; [assumption|].
  apply Forall_forall. intros c Hin. apply (denylist_free_chars input); [assumption|].
  rewrite <- ER in Hin. unfold R in Hin. now apply filter_In in Hin as [Hin _].
Qed.

Lemma canonical_of_cwd (p : PublicFilesService) (w w' : World) (input : string) :
  cwd w' = cwd w -> canonical_of p w' input = canonical_of p w input.
Proof. intros E. unfold canonical_of. now rewrite E. Qed.

(** A path accepted for writing is accepted for reading under the same name
    once it exists, unless a component of the input is hidden. *)
Lemma read_after_write (p : PublicFilesService) (w w' : World) (input c : string) :
  filepath.IsAbs (cwd w) = true -> sanitizePathForWrite p w input = Ok c ->
  cwd w' = cwd w -> is_ok (os.Stat (cwd w') (fs w') c) = true ->
  (no_hidden_component input -> sanitizePathForRead p w' input = Ok c)
  /\ (hidden_component input -> sanitizePathForRead p w' input = Err hidden_refused).
Proof.
  intros Hcwd Hw Ecwd Hstat.
  destruct (write_shape p w input c Hcwd Hw) as (Hfree & Hne & Hcan & _).
  rewrite <- (canonical_of_cwd p w w' input Ecwd) in Hcan. subst c.
  rewrite <- Ecwd in Hcwd. split; intros Hh.
  - now apply read_below_root.
  - now apply read_refuses_hidden.
Qed.

Section WrittenFiles.
Variable p : PublicFilesService.
Variable w : World.
Hypothesis Hcwd : filepath.IsAbs (cwd w) = true.

Lemma upload_loop_ok l e (Hplain : Forall plain (l ++ [e])) (data : Reader) :
  forall fs0 d0 n fs',
    os.find (l ++ [e]) fs0 = Ok (os.File d0) ->
    upload_loop w (filepath.render true (l ++ [e])) fs0 (strings.len d0) data = (Ok n, fs') ->
    os.find (l ++ [e]) fs' = Ok (os.File (d0 ++ stream_bytes data))
    /\ n = strings.len (d0 ++ stream_bytes data).
Proof.
  induction data as [|r data IH]; intros fs0 d0 n fs' Hf H.
  - cbn [upload_loop stream_bytes] in *. injection H as <- <-. now rewrite append_nil_r.
  - cbn [upload_loop stream_bytes] in *. rewrite <- !append_assoc.
    pose proof (len_append d0 (chunk r)) as Hlen.
    destruct (Z.gtb_spec (strings.len (chunk r)) 0) as [Hpos|Hzero].
    + rewrite <- Hlen in H. cbn [andb] in H.
      destruct (strings.len (d0 ++ chunk r) >? maxTotalSize)%Z; [discriminate|].
      destruct (Write_appends w l e Hplain fs0 d0 (chunk r) Hf) as (fs1 & E & Hf1).
      rewrite E in H.
      destruct (read_err r) as [[|msg]|].
      * injection H as <- <-. now rewrite append_nil_r.
      * discriminate.
      * exact (IH fs1 (d0 ++ chunk r)%string n fs' Hf1 H).
    + assert (Hempty : chunk r = "") by (apply len_zero; lia).
      cbn [andb] in H. rewrite Hempty, append_nil_r.
      destruct (read_err r) as [[|msg]|].
      * injection H as <- <-. now rewrite append_nil_r.
      * discriminate.
      * exact (IH fs0 d0 n fs' Hf H).
Qed.

(** What [os.WriteFile] leaves at its path. *)
Lemma WriteFile_holds l e fs0 fs1 content :
  Forall plain (l ++ [e]) ->
  os.WriteFile (cwd w) fs0 (filepath.render true (l ++ [e])) content = Ok fs1 ->
  os.find (l ++ [e]) fs1 = Ok (os.File content).
Proof.
  intros Hp H. rewrite WriteFile_rooted in H by assumption.
  destruct (find_update_same _ _ _ _ H) as (v & Hv & Hf). rewrite Hf.
  destruct (occupant (l ++ [e]) fs0) as [[|]|]; try discriminate; now injection Hv as <-.
Qed.

Lemma UploadFile_ok input data r w' :
  UploadFile p w input data = (Ok r, w') ->
  exists c, sanitizePathForWrite p w input = Ok c /\ cwd w' = cwd w
            /\ os.ReadFile (cwd w') (fs w') c = Ok (stream_bytes data)
            /\ In ("size_bytes", dtos.VInt (strings.len (stream_bytes data))) r
            /\ one_notification p w w' "file_created".
Proof.
  intros H. unfold UploadFile in H.
  destruct (sanitizePathForWrite p w input) as [c|] eqn:Hw; [|discriminate].
  exists c. split; [reflexivity|].
  destruct (write_below p w input c Hcwd Hw) as (R & e & HX & HR & He & _ & -> & _).
  rewrite app_assoc in *.
  assert (Hl : Forall plain (root_elements p w ++ R)) by (apply Forall_app; now split).
  pose proof (plain_snoc _ _ Hl (proj1 He)) as Hp.
  rewrite Dir_rooted, MkdirAll_rooted in H by (assumption || apply He).
  destruct (os.mkdir_all _ (fs w)) as [fs1|]; [|discriminate].
  unfold os.Create in H.
  destruct (os.WriteFile (cwd w) fs1 _ "") as [fs2|] eqn:Hwf; [|discriminate].
  apply WriteFile_holds in Hwf; [|assumption].
  destruct (upload_loop w _ fs2 0 data) as [[n|f] fs3] eqn:Hloop; [|discriminate].
  change 0%Z with (strings.len "") in Hloop.
  destruct (upload_loop_ok _ _ Hp data fs2 "" n fs3 Hwf Hloop) as [Hf ->].
  cbn [String.append] in *.
  match type of H with context [notifyWebSocket p ?w0 ?ev ?d] =>
    destruct (notify_world p w0 ev d) as [Ecwd Efs];
    pose proof (notify_one p w w0 ev d eq_refl) as Hone;
    set (w1 := notifyWebSocket p w0 ev d) in *
  end.
  injection H as <- <-. simpl in Ecwd, Efs. rewrite Ecwd, Efs.
  split; [reflexivity|]. split; [now rewrite ReadFile_Lookup, Lookup_rooted, Hf|].
  split; [simpl; tauto | assumption].
Qed.

Lemma CreateFile_ok input r w' :
  CreateFile p w input = (Ok r, w') ->
  exists c, sanitizePathForWrite p w input = Ok c /\ cwd w' = cwd w
            /\ os.ReadFile (cwd w') (fs w') c = Ok ""
            /\ one_notification p w w' "file_created".
Proof.
  intros H. unfold CreateFile in H.
  destruct (sanitizePathForWrite p w input) as [c|] eqn:Hw; [|discriminate].
  exists c. split; [reflexivity|].
  destruct (write_below p w input c Hcwd Hw) as (R & e & HX & HR & He & _ & -> & _).
  rewrite app_assoc in *.
  assert (Hl : Forall plain (root_elements p w ++ R)) by (apply Forall_app; now split).
  pose proof (plain_snoc _ _ Hl (proj1 He)) as Hp.
  destruct (os.MkdirAll (cwd w) (fs w) _) as [fs1|]; [|discriminate].
  cbn [cwd fs with_fs] in H.
  destruct (os.WriteFile (cwd w) fs1 _ "") as [fs2|] eqn:Hwf; [|discriminate].
  apply WriteFile_holds in Hwf; [|assumption].
  match type of H with context [notifyWebSocket p ?w0 ?ev ?d] =>
    destruct (notify_world p w0 ev d) as [Ecwd Efs];
    pose proof (notify_one p w w0 ev d eq_refl) as Hone;
    set (w1 := notifyWebSocket p w0 ev d) in *
  end.
  injection H as <- <-. simpl in Ecwd, Efs. rewrite Ecwd, Efs.
  split; [reflexivity|]. split; [now rewrite ReadFile_Lookup, Lookup_rooted, Hwf|assumption].
Qed.

Lemma EditFile_ok input content r w' :
  EditFile p w input content = (Ok r, w') ->
  exists c, sanitizePathForWrite p w input = Ok c /\ cwd w' = cwd w
            /\ os.ReadFile (cwd w') (fs w') c = Ok content
            /\ In ("size", dtos.VInt (strings.len content)) r
            /\ one_notification p w w' "file_updated".
Proof.
  intros H. unfold EditFile in H.
  destruct (sanitizePathForWrite p w input) as [c|] eqn:Hw; [|discriminate].
  exists c. split; [reflexivity|].
  destruct (write_below p w input c Hcwd Hw) as (R & e & HX & HR & He & _ & -> & _).
  rewrite app_assoc in *.
  assert (Hl : Forall plain (root_elements p w ++ R)) by (apply Forall_app; now split).
  pose proof (plain_snoc _ _ Hl (proj1 He)) as Hp.
  destruct (os.Stat (cwd w) (fs w) _); [|discriminate].
  cbv zeta in H.
  destruct (negb (allowedEditExtensions _)); [discriminate|].
  destruct (strings.len content >? 10 * 1024 * 1024)%Z; [discriminate|].
  destruct (os.WriteFile (cwd w) (fs w) _ content) as [fs2|] eqn:Hwf; [|discriminate].
  apply WriteFile_holds in Hwf; [|assumption].
  cbn [cwd fs with_fs] in H. rewrite Stat_Lookup, Lookup_rooted, Hwf in H by assumption.
  cbn [os.info_of os.Size] in H.
  match type of H with context [notifyWebSocket p ?w0 ?ev ?d] =>
    destruct (notify_world p w0 ev d) as [Ecwd Efs];
    pose proof (notify_one p w w0 ev d eq_refl) as Hone;
    set (w1 := notifyWebSocket p w0 ev d) in *
  end.
  injection H as <- <-. simpl in Ecwd, Efs. rewrite Ecwd, Efs.
  split; [reflexivity|]. split; [now rewrite ReadFile_Lookup, Lookup_rooted, Hwf|].
  split; [simpl; tauto | assumption].
Qed.

(** What a path accepted for writing reads as once a file is there. *)
Lemma DownloadItem_written input c w' data :
  sanitizePathForWrite p w input = Ok c -> cwd w' = cwd w ->
  os.ReadFile (cwd w') (fs w') c = Ok data ->
  (no_hidden_component input -> DownloadItem p w' input = (Ok data, w'))
  /\ (hidden_component input ->
      DownloadItem p w' input = (Err (response hidden_refused (Some hidden_refused)), w')).
Proof.
  intros Hw Ecwd Hread.
  assert (Hstat : exists info, os.Stat (cwd w') (fs w') c = Ok info /\ os.IsDir info = false).
  { rewrite Stat_Lookup. rewrite ReadFile_Lookup in Hread.
    destruct (os.Lookup (cwd w') (fs w') c) as [[d|es]|]; try discriminate.
    eexists. split; reflexivity. }
  destruct Hstat as (info & Hstat & Hdir).
  destruct (read_after_write p w w' input c Hcwd Hw Ecwd) as [Hvis Hhid];
    [now rewrite Hstat|].
  unfold DownloadItem. split; intros Hh.
  - rewrite (Hvis Hh). cbv zeta. now rewrite Hstat, Hdir, Hread.
  - now rewrite (Hhid Hh).
Qed.

End WrittenFiles.

(** X5. What was written under a name reads back under that name: after a
    successful [UploadFile], [EditFile] or [CreateFile], [DownloadItem] with
    the same path answers the bytes of the stream, the new content and the
    empty content, provided no component of the path is hidden. *)
Theorem X5_written_files_read_back (p : PublicFilesService) (w w' : World) (input : string) :
  filepath.IsAbs (cwd w) = true -> no_hidden_component input ->
  (forall data r, UploadFile p w input data = (Ok r, w') ->
                  DownloadItem p w' input = (Ok (stream_bytes data), w'))
  /\ (forall content r, EditFile p w input content = (Ok r, w') ->
                        DownloadItem p w' input = (Ok content, w'))
  /\ (forall r, CreateFile p w input = (Ok r, w') -> DownloadItem p w' input = (Ok "", w')).
Proof.
  intros Hcwd Hvis. split; [|split].
  - intros data r H.
    destruct (UploadFile_ok p w Hcwd _ _ _ _ H) as (c & Hw & Ecwd & Hread & _).
    now apply (DownloadItem_written p w Hcwd input c w').
  - intros content r H.
    destruct (EditFile_ok p w Hcwd _ _ _ _ H) as (c & Hw & Ecwd & Hread & _).
    now apply (DownloadItem_written p w Hcwd input c w').
  - intros r H.
    destruct (CreateFile_ok p w Hcwd _ _ _ H) as (c & Hw & Ecwd & Hread & _).
    now apply (DownloadItem_written p w Hcwd input c w').
Qed.

Lemma X5_written_files_read_back_witness :
  let data := [ {| chunk := "abc"; read_err := None |};
                {| chunk := "de"; read_err := Some EOF |} ] in
  let w' := snd (UploadFile Demo.service Demo.world "up/f.bin" data) in
  fst (DownloadItem Demo.service w' "up/f.bin") = Ok "abcde".
Proof.
  intros data w'.
  destruct (UploadFile Demo.service Demo.world "up/f.bin" data) as [[r|f] w1] eqn:E;
    [|vm_compute in E; discriminate].
  assert (Hvis : no_hidden_component "up/f.bin").
  { unfold no_hidden_component.
    repeat (constructor; [intros H; vm_compute in H; discriminate H|]). constructor. }
  destruct (X5_written_files_read_back Demo.service Demo.world w1 "up/f.bin" eq_refl Hvis)
    as (H & _).
  subst w'. cbn [snd]. now rewrite (H _ _ E).
Defined.

(** X6. What was written below a hidden directory cannot be reached again:
    [sanitizePathForWrite] looks at the last component only, so [CreateFile]
    and [UploadFile] succeed there, and afterwards [DownloadItem],
    [DeleteItem] and [DownloadFolder] refuse the very same path. *)
Theorem X6_below_a_hidden_directory_is_write_only (p : PublicFilesService) (w w' : World)
    (input : string) (r : payload) :
  filepath.IsAbs (cwd w) = true -> hidden_component input ->
  CreateFile p w input = (Ok r, w')
  \/ (exists data, UploadFile p w input data = (Ok r, w')) ->
  let refused := response hidden_refused (Some hidden_refused) in
  DownloadItem p w' input = (Err refused, w')
  /\ DeleteItem p w' input = (Err refused, w')
  /\ DownloadFolder p w' input = (Err refused, w').
Proof.
  intros Hcwd Hhid Hwritten refused.
  assert (H : exists c data, sanitizePathForWrite p w input = Ok c /\ cwd w' = cwd w
                             /\ os.ReadFile (cwd w') (fs w') c = Ok data).
  { destruct Hwritten as [H|[data H]].
    - destruct (CreateFile_ok p w Hcwd _ _ _ H) as (c & Hw & Ecwd & Hread & _). eauto.
    - destruct (UploadFile_ok p w Hcwd _ _ _ _ H) as (c & Hw & Ecwd & Hread & _). eauto. }
  destruct H as (c & data & Hw & Ecwd & Hread).
  assert (Hs : is_ok (os.Stat (cwd w') (fs w') c) = true).
  { rewrite Stat_Lookup. rewrite ReadFile_Lookup in Hread.
    now destruct (os.Lookup (cwd w') (fs w') c). }
  destruct (read_after_write p w w' input c Hcwd Hw Ecwd Hs) as [_ Href].
  specialize (Href Hhid).
  unfold DownloadItem, DeleteItem, DownloadFolder. rewrite Href. repeat split.
Qed.

Lemma X6_below_a_hidden_directory_is_write_only_witness :
  let '(r, w') := CreateFile Demo.service Demo.world ".cache/x.txt" in
  is_ok r = true
  /\ os.ReadFile "/app" (fs w') "/srv/pub/.cache/x.txt" = Ok ""
  /\ fst (DownloadItem Demo.service w' ".cache/x.txt")
     = Err (response hidden_refused (Some hidden_refused))
  /\ fst (DeleteItem Demo.service w' ".cache/x.txt")
     = Err (response hidden_refused (Some hidden_refused)).
Proof.
  destruct (CreateFile Demo.service Demo.world ".cache/x.txt") as [[r|f] w'] eqn:E;
    [|vm_compute in E; discriminate].
  assert (Hhid : hidden_component ".cache/x.txt").
  { unfold hidden_component. apply Exists_cons_hd. split; [reflexivity | discriminate]. }
  destruct (X6_below_a_hidden_directory_is_write_only Demo.service Demo.world w'
              ".cache/x.txt" r eq_refl Hhid (or_introl E)) as (H1 & H2 & _).
  rewrite H1, H2. split; [reflexivity|]. split; [|split; reflexivity].
  vm_compute in E. injection E as _ <-. reflexivity.
Defined.

(** What [EditFile] does with a path that the sanitizer accepts. *)
Lemma EditFile_cases (p : PublicFilesService) (w : World) (input file content : string) :
  filepath.IsAbs (cwd w) = true -> sanitizePathForWrite p w input = Ok file ->
  let ext := strings.TrimPrefix (filepath.Ext file) "." in
  (is_ok (os.Stat (cwd w) (fs w) file) = false ->
   EditFile p w input content
   = (Err (response "File not found" (Some ("File does not exist: " ++ file))), w))
  /\ (is_ok (os.Stat (cwd w) (fs w) file) = true -> allowedEditExtensions ext = false ->
      EditFile p w input content
      = (Err (response ("File type not editable: ." ++ ext)
                (Some ("Unsupported extension: " ++ ext))), w))
  /\ (is_ok (os.Stat (cwd w) (fs w) file) = true -> allowedEditExtensions ext = true ->
      (strings.len content > 10 * 1024 * 1024)%Z ->
      exists dbg, EditFile p w input content
                  = (Err (response "File content too large (maximum 10MB)" dbg), w))
  /\ (forall old, os.ReadFile (cwd w) (fs w) file = Ok old ->
      allowedEditExtensions ext = true -> (strings.len content <= 10 * 1024 * 1024)%Z ->
      exists r w',
        EditFile p w input content = (Ok r, w')
        /\ os.ReadFile (cwd w') (fs w') file = Ok content
        /\ In ("size", dtos.VInt (strings.len content)) r
        /\ one_notification p w w' "file_updated")
  /\ (forall es, os.Lookup (cwd w) (fs w) file = Ok (os.Dir es) ->
      allowedEditExtensions ext = true -> (strings.len content <= 10 * 1024 * 1024)%Z ->
      let msg := os.path_error "open" file os.EISDIR in
      EditFile p w input content
      = (Err (response ("Failed to write file: " ++ msg) (Some msg)), w))
  /\ (forall f w', EditFile p w input content = (Err f, w') ->
      w' = w /\ exists e, f = Response e).
Proof.
  intros Hcwd Hw ext.
  destruct (write_shape p w input file Hcwd Hw) as (_ & _ & _ & l & e & Hl & He & ->).
  pose proof (plain_snoc _ _ Hl He) as Hp.
  unfold EditFile. rewrite Hw. cbv zeta. fold ext.
  set (file := filepath.render true (l ++ [e])) in *.
  split; [|split; [|split; [|split; [|split]]]].
  - intros H. now destruct (os.Stat (cwd w) (fs w) file).
  - intros H1 H2. destruct (os.Stat (cwd w) (fs w) file); [|discriminate]. now rewrite H2.
  - intros H1 H2 H3. destruct (os.Stat (cwd w) (fs w) file); [|discriminate]. rewrite H2.
    cbn [negb]. destruct (Z.gtb_spec (strings.len content) (10 * 1024 * 1024)); [|lia].
    eexists. reflexivity.
  - intros old Hold Hext Hlen.
    assert (Hf : os.find (l ++ [e]) (fs w) = Ok (os.File old)).
    { unfold file in Hold. rewrite ReadFile_Lookup, Lookup_rooted in Hold by assumption.
      destruct (os.find (l ++ [e]) (fs w)) as [[|]|]; try discriminate. congruence. }
    unfold file at 1. rewrite Stat_Lookup, Lookup_rooted, Hf, Hext by assumption. cbn [negb].
    destruct (Z.gtb_spec (strings.len content) (10 * 1024 * 1024)); [lia|].
    unfold file at 1. rewrite WriteFile_rooted by assumption.
    match goal with |- context [os.update _ ?f _] =>
      destruct (update_existing l e f (fs w) _ (Some (os.File content)) Hf eq_refl)
        as (fs2 & -> & Hf2)
    end.
    cbn [cwd fs with_fs found] in *. unfold file at 1.
    rewrite Stat_Lookup, Lookup_rooted, Hf2 by assumption. cbn [os.info_of os.Size].
    eexists. eexists. split; [reflexivity|].
    match goal with |- context [notifyWebSocket p ?w0 ?ev ?d] =>
      destruct (notify_world p w0 ev d) as [Ecwd Efs];
      pose proof (notify_one p w w0 ev d eq_refl) as Hone;
      set (w1 := notifyWebSocket p w0 ev d) in *
    end.
    simpl in Ecwd, Efs. rewrite Ecwd, Efs. unfold file.
    rewrite ReadFile_Lookup, Lookup_rooted, Hf2 by assumption.
    repeat split; try assumption. simpl. tauto.
  - intros es Hdir Hext Hlen.
    unfold file in Hdir. rewrite Lookup_rooted in Hdir by assumption.
    unfold file at 1. rewrite Stat_Lookup, Lookup_rooted, Hdir, Hext by assumption.
    cbn [negb]. destruct (Z.gtb_spec (strings.len content) (10 * 1024 * 1024)); [lia|].
    unfold file at 1. rewrite WriteFile_rooted by assumption.
    destruct (find_parent_dir _ _ _ _ Hdir) as [es0 Hes0].
    rewrite find_app, Hes0 in Hdir. cbn [os.find] in Hdir.
    destruct (os.assoc e es0) as [c|] eqn:Ha; [|discriminate].
    cbn [os.find] in Hdir. injection Hdir as ->.
    now rewrite (update_refused l e _ (fs w) es0 os.EISDIR Hes0) by now rewrite Ha.
  - intros f w' H.
    destruct (os.Stat (cwd w) (fs w) file); [|injection H as <- <-; split; [reflexivity | unfold response; eauto]].
    destruct (negb (allowedEditExtensions ext)); [injection H as <- <-; split; [reflexivity | unfold response; eauto]|].
    destruct (strings.len content >? 10 * 1024 * 1024)%Z; [injection H as <- <-; split; [reflexivity | unfold response; eauto]|].
    destruct (os.WriteFile (cwd w) (fs w) file content) as [fs2|] eqn:Hwf;
      [|injection H as <- <-; split; [reflexivity | unfold response; eauto]].
    apply (WriteFile_holds w l e) in Hwf; [|assumption].
    cbn [cwd fs with_fs] in H. unfold file in H.
    rewrite Stat_Lookup, Lookup_rooted, Hwf in H by assumption. discriminate.
Qed.

(** X12. [EditFile] replaces the content of an existing regular file whose
    extension is in the list and answers its new size; it refuses a path
    that names nothing, an extension that is not in the list, a content of
    more than 10 MiB and a directory. Whatever its arguments, when it does
    not succeed it answers an error response - it never ends in a run-time
    panic - and leaves everything as it was. *)
Theorem X12_EditFile (p : PublicFilesService) (w : World) (input content : string) :
  filepath.IsAbs (cwd w) = true ->
  (forall f w', EditFile p w input content = (Err f, w') ->
     w' = w /\ exists e, f = Response e)
  /\ forall file, sanitizePathForWrite p w input = Ok file ->
     let ext := strings.TrimPrefix (filepath.Ext file) "." in
     (is_ok (os.Stat (cwd w) (fs w) file) = false ->
      EditFile p w input content
      = (Err (response "File not found" (Some ("File does not exist: " ++ file))), w))
     /\ (is_ok (os.Stat (cwd w) (fs w) file) = true -> allowedEditExtensions ext = false ->
         EditFile p w input content
         = (Err (response ("File type not editable: ." ++ ext)
                   (Some ("Unsupported extension: " ++ ext))), w))
     /\ (is_ok (os.Stat (cwd w) (fs w) file) = true -> allowedEditExtensions ext = true ->
         (strings.len content > 10 * 1024 * 1024)%Z ->
         exists dbg, EditFile p w input content
                     = (Err (response "File content too large (maximum 10MB)" dbg), w))
     /\ (forall old, os.ReadFile (cwd w) (fs w) file = Ok old ->
         allowedEditExtensions ext = true -> (strings.len content <= 10 * 1024 * 1024)%Z ->
         exists r w',
           EditFile p w input content = (Ok r, w')
           /\ os.ReadFile (cwd w') (fs w') file = Ok content
           /\ In ("size", dtos.VInt (strings.len content)) r
           /\ one_notification p w w' "file_updated")
     /\ (forall es, os.Lookup (cwd w) (fs w) file = Ok (os.Dir es) ->
         allowedEditExtensions ext = true -> (strings.len content <= 10 * 1024 * 1024)%Z ->
         let msg := os.path_error "open" file os.EISDIR in
         EditFile p w input content
         = (Err (response ("Failed to write file: " ++ msg) (Some msg)), w)).
Proof.
  intros Hcwd. split.
  - intros f w' H. destruct (sanitizePathForWrite p w input) as [file|e] eqn:Hw.
    + destruct (EditFile_cases p w input file content Hcwd Hw) as (_ & _ & _ & _ & _ & Hsafe).
      now apply Hsafe.
    + unfold EditFile in H. rewrite Hw in H. injection H as <- <-.
      split; [reflexivity | unfold response; eauto].
  - intros file Hw ext.
    destruct (EditFile_cases p w input file content Hcwd Hw) as (H1 & H2 & H3 & H4 & H5 & _).
    repeat split; assumption.
Qed.

Lemma X12_EditFile_witness :
  (exists r w',
     EditFile Demo.service Demo.world "notes.txt" "new" = (Ok r, w')
     /\ os.ReadFile (cwd w') (fs w') "/srv/pub/notes.txt" = Ok "new"
     /\ In ("size", dtos.VInt 3) r)
  /\ fst (EditFile Demo.service Demo.world "docs/A.TXT" "new")
     = Err (response "File not found" (Some "File does not exist: /srv/pub/docs/A.TXT"))
  /\ (forall f w', EditFile Demo.service Demo.world "docs" "new" = (Err f, w') ->
      w' = Demo.world /\ exists e, f = Response e).
Proof.
  destruct (X12_EditFile Demo.service Demo.world "notes.txt" "new" eq_refl) as (_ & Hcases).
  destruct (Hcases "/srv/pub/notes.txt" eq_refl) as (_ & _ & _ & H & _).
  destruct (H "hello" eq_refl eq_refl ltac:(vm_compute; discriminate))
    as (r & w' & E & Hr & Hs & _).
  destruct (X12_EditFile Demo.service Demo.world "docs/A.TXT" "new" eq_refl) as (_ & Hmissing).
  destruct (Hmissing "/srv/pub/docs/A.TXT" eq_refl) as (H0 & _).
  destruct (X12_EditFile Demo.service Demo.world "docs" "new" eq_refl) as (Hsafe & _).
  split; [|split; [now rewrite (H0 eq_refl) | exact Hsafe]].
  exists r, w'. repeat split; assumption.
Defined.

(** ** Moving *)

Section TreeFrames.
Import os.

Lemma apart_cons a b q l : apart (b :: q) (a :: l) -> b <> a \/ (b = a /\ apart q l).
Proof.
  unfold apart. cbn [is_prefix]. intros [H1 H2].
  destruct (String.eqb_spec b a) as [->|Hne]; [right | now left].
  rewrite String.eqb_refl in H2. now repeat split.
Qed.

Lemma apart_nonempty q l : apart q l -> q <> [] /\ l <> [].
Proof. unfold apart. intros [H1 H2]. split; intros ->; discriminate. Qed.

Lemma is_prefix_trans a : forall b c, is_prefix a b = true -> is_prefix b c = true -> is_prefix a c = true.
Proof.
  induction a as [|x a IH]; intros b c H1 H2; [reflexivity|].
  destruct b as [|y b]; [discriminate|]. destruct c as [|z c]; [discriminate|].
  cbn [is_prefix] in *. apply andb_true_iff in H1 as [E1 H1]. apply andb_true_iff in H2 as [E2 H2].
  apply String.eqb_eq in E1 as ->. rewrite E2. cbn [andb]. eapply IH; eassumption.
Qed.

(** Two prefixes of one list are comparable. *)
Lemma is_prefix_comparable a : forall b c,
  is_prefix a c = true -> is_prefix b c = true -> is_prefix a b = true \/ is_prefix b a = true.
Proof.
  induction a as [|x a IH]; intros b c H1 H2; [now left|].
  destruct b as [|y b]; [now right|]. destruct c as [|z c]; [discriminate|].
  cbn [is_prefix] in *. apply andb_true_iff in H1 as [E1 H1]. apply andb_true_iff in H2 as [E2 H2].
  apply String.eqb_eq in E1 as ->. apply String.eqb_eq in E2 as ->. rewrite String.eqb_refl.
  cbn [andb]. eapply IH; eassumption.
Qed.

Lemma apart_below q X S : apart q X -> apart q (X ++ S).
Proof.
  intros [H1 H2]. split.
  - destruct (is_prefix q (X ++ S)) eqn:E; [|reflexivity].
    destruct (is_prefix_comparable q X (X ++ S) E (is_prefix_app X S)); congruence.
  - destruct (is_prefix (X ++ S) q) eqn:E; [|reflexivity].
    rewrite (is_prefix_trans X (X ++ S) q (is_prefix_app X S) E) in H2. discriminate.
Qed.

Lemma mkdir_all_frame l : forall n n' q,
  mkdir_all l n = Ok n' -> apart q l -> find q n' = find q n.
Proof.
  induction l as [|a l IH]; intros n n' q H Hap.
  - now destruct (apart_nonempty _ _ Hap).
  - destruct q as [|b q]; [now destruct (apart_nonempty _ _ Hap)|].
    destruct n as [|es]; [discriminate|]. cbn [mkdir_all] in H.
    destruct (mkdir_all l _) as [c'|] eqn:Hm; [|discriminate]. injection H as <-.
    cbn [find set_entry].
    destruct (apart_cons _ _ _ _ Hap) as [Hne|[-> Hap']].
    + now rewrite assoc_replace_other.
    + rewrite assoc_replace_same. rewrite (IH _ _ q Hm Hap').
      destruct (assoc a es); [reflexivity|].
      destruct q; [now destruct (apart_nonempty _ _ Hap') | reflexivity].
Qed.

(** [mkdir_all] keeps what is not on its way. *)
Lemma mkdir_all_keeps_node l : forall n n' q m,
  mkdir_all l n = Ok n' -> find q n = Ok m -> is_prefix q l = false -> find q n' = Ok m.
Proof.
  induction l as [|a l IH]; intros n n' q m H Hq Hpre.
  - destruct n; [discriminate|]. now injection H as <-.
  - destruct n as [|es]; [discriminate|]. cbn [mkdir_all] in H.
    destruct (mkdir_all l _) as [c'|] eqn:Hm; [|discriminate]. injection H as <-.
    destruct q as [|b q]; [discriminate|]. cbn [find set_entry is_prefix] in *.
    destruct (String.eqb_spec b a) as [->|Hne].
    + rewrite assoc_replace_same. cbn [andb] in Hpre.
      destruct (assoc a es) as [c|]; [|discriminate].
      eapply IH; eassumption.
    + now rewrite assoc_replace_other.
Qed.

Lemma update_frame t f n n' q :
  update t f n = Ok n' -> apart q t -> find q n' = find q n.
Proof. intros H [H1 H2]. exact (find_update_diverge t q f n n' H H2 H1). Qed.

Lemma update_missing_parent l : forall e f n,
  find l n = Err ENOENT -> update (l ++ [e]) f n = Err ENOENT.
Proof.
  induction l as [|a l IH]; intros e f n H; [discriminate|].
  destruct n as [|es]; [discriminate|]. cbn [find] in H. cbn [app update].
  destruct (l ++ [e])%list eqn:E; [now destruct l|]. rewrite <- E.
  destruct (assoc a es) as [c|]; [|reflexivity]. now rewrite (IH e f c H).
Qed.

Lemma exists_and_missing_apart s d fs0 n :
  find s fs0 = Ok n -> find d fs0 = Err ENOENT -> is_prefix d s = false.
Proof.
  intros Hs Hd. destruct (is_prefix d s) eqn:E; [|reflexivity].
  apply is_prefix_inv in E as [r ->]. rewrite find_app, Hd in Hs. discriminate.
Qed.

Lemma rename_at_succeeds po l e fs0 n es :
  find po fs0 = Ok n -> find l fs0 = Ok (Dir es) -> find (l ++ [e]) fs0 = Err ENOENT ->
  is_prefix po (l ++ [e]) = false ->
  exists fs', rename_at po (l ++ [e]) fs0 = Ok fs'.
Proof.
  intros Hpo Hl Hpn Hpre. unfold rename_at. rewrite Hpo.
  destruct (list_eq_dec string_dec po (l ++ [e])) as [->|Hne]; [congruence|].
  rewrite Hpre.
  pose proof (occupant_in_dir l e fs0 es Hl) as Hocc. unfold occupant in Hocc.
  rewrite Hpn in Hocc.
  match goal with |- context [update (l ++ [e]) ?f fs0] =>
    destruct (update_in_dir l e f fs0 es (Some n) Hl) as [fs1 Hu];
      [now rewrite <- Hocc | rewrite Hu]
  end.
  pose proof (exists_and_missing_apart _ _ _ _ Hpo Hpn) as Hdiv.
  assert (Hpo1 : find po fs1 = Ok n)
    by (rewrite (find_update_diverge _ po _ _ _ Hu); assumption).
  destruct po as [|x po] using rev_ind; [discriminate|]. clear IHpo.
  destruct (update_existing po x (fun _ => Ok None) fs1 n None Hpo1 eq_refl) as (fs2 & -> & _).
  now exists fs2.
Qed.

End TreeFrames.

Lemma mkdir_all_ok_missing l : forall e n n',
  os.mkdir_all l n = Ok n' -> is_ok (os.find (l ++ [e]) n) = false ->
  os.find (l ++ [e]) n = Err os.ENOENT.
Proof.
  induction l as [|a l IH]; intros e n n' H Hf.
  - destruct n as [|es]; [discriminate|]. cbn [app os.find] in *.
    destruct (os.assoc e es); [discriminate | reflexivity].
  - destruct n as [|es]; [discriminate|]. cbn [os.mkdir_all] in H. cbn [app os.find] in *.
    destruct (os.mkdir_all l _) as [c'|] eqn:Hm; [|discriminate].
    destruct (os.assoc a es) as [c|]; [|reflexivity]. eapply IH; eassumption.
Qed.

Ltac notified p w H :=
  match type of H with context [notifyWebSocket p ?w0 ?ev ?d] =>
    let Ecwd := fresh "Ecwd" in
    let Efs := fresh "Efs" in
    let Hone := fresh "Hone" in
    destruct (notify_world p w0 ev d) as [Ecwd Efs];
    pose proof (notify_one p w w0 ev d eq_refl) as Hone;
    set (w1 := notifyWebSocket p w0 ev d) in *;
    simpl in Ecwd, Efs
  end.

(** X7. For paths that resolve for writing, [MoveFile] fails, leaving the
    world as it was, when the source is missing or the destination exists.
    When it succeeds, the source names nothing any more, the destination
    names what the source named before, and one [file_moved] message was
    handed to the hub. It succeeds whenever the source exists, the
    destination names nothing and does not lie below the source. *)
Theorem X7_MoveFile (p : PublicFilesService) (w : World) (source destination src dst : string) :
  filepath.IsAbs (cwd w) = true ->
  sanitizePathForWrite p w source = Ok src ->
  sanitizePathForWrite p w destination = Ok dst ->
  (is_ok (os.Stat (cwd w) (fs w) src) = false ->
   MoveFile p w source destination
   = (Err (response "Source file does not exist" (Some "Source file does not exist")), w))
  /\ (is_ok (os.Stat (cwd w) (fs w) src) = true ->
      is_ok (os.Stat (cwd w) (fs w) dst) = true ->
      MoveFile p w source destination
      = (Err (response "Destination file already exists"
                (Some "Destination file already exists")), w))
  /\ (forall r w', MoveFile p w source destination = (Ok r, w') ->
      exists n,
        os.Lookup (cwd w) (fs w) src = Ok n
        /\ os.Lookup (cwd w') (fs w') src = Err os.ENOENT
        /\ os.Lookup (cwd w') (fs w') dst = Ok n
        /\ one_notification p w w' "file_moved")
  /\ (forall n from to,
        os.Lookup (cwd w) (fs w) src = Ok n ->
        os.Lookup (cwd w) (fs w) dst = Err os.ENOENT ->
        os.resolve (cwd w) src = Some from -> os.resolve (cwd w) dst = Some to ->
        os.is_prefix from to = false ->
        exists r w', MoveFile p w source destination = (Ok r, w')).
Proof.
  intros Hcwd Hsrc Hdst. unfold MoveFile. rewrite Hsrc, Hdst.
  destruct (write_shape p w source src Hcwd Hsrc) as (_ & _ & _ & l1 & e1 & Hl1 & He1 & ->).
  destruct (write_shape p w destination dst Hcwd Hdst) as (_ & _ & _ & l2 & e2 & Hl2 & He2 & ->).
  pose proof (plain_snoc _ _ Hl1 He1) as Hp1. pose proof (plain_snoc _ _ Hl2 He2) as Hp2.
  rewrite !Stat_Lookup, !Lookup_rooted by assumption.
  rewrite Dir_rooted, MkdirAll_rooted by assumption.
  split; [|split; [|split]].
  - intros H. now destruct (os.find (l1 ++ [e1]) (fs w)).
  - intros H1 H2. destruct (os.find (l1 ++ [e1]) (fs w)); [|discriminate].
    now destruct (os.find (l2 ++ [e2]) (fs w)).
  - intros r w' H.
    destruct (os.find (l1 ++ [e1]) (fs w)) as [n|] eqn:Hf1; [|discriminate].
    destruct (os.find (l2 ++ [e2]) (fs w)) as [m|err] eqn:Hf2; [discriminate|].
    cbn [cwd fs with_fs] in H. unfold os.Rename in H. rewrite !at_rooted in H by assumption.
    match type of H with context [os.rename_at _ _ ?t] => set (fs1 := t) in * end.
    destruct (os.rename_at _ _ fs1) as [fs2|] eqn:Hr; [|discriminate].
    assert (Hpre : os.is_prefix (l1 ++ [e1]) (l2 ++ [e2]) = false).
    { unfold os.rename_at in Hr. destruct (os.find (l1 ++ [e1]) fs1) as [moved|]; [|discriminate].
      destruct (list_eq_dec string_dec _ _) as [E|_].
      - rewrite E, Hf2 in Hf1. discriminate.
      - destruct (os.is_prefix (l1 ++ [e1]) (l2 ++ [e2])); [|reflexivity].
        destruct moved; discriminate. }
    assert (Hfs1 : os.find (l1 ++ [e1]) fs1 = Ok n /\ is_ok (os.find (l2 ++ [e2]) fs1) = false).
    { unfold fs1. destruct (os.mkdir_all l2 (fs w)) as [fs1'|] eqn:Hm.
      - split.
        + eapply mkdir_all_keeps_node; [eassumption | eassumption |].
          destruct (os.is_prefix (l1 ++ [e1]) l2) eqn:E; [|reflexivity].
          rewrite (is_prefix_trans _ _ _ E (is_prefix_app l2 [e2])) in Hpre. discriminate.
        + assert (Hmiss : os.find (l2 ++ [e2]) (fs w) = Err os.ENOENT)
            by (apply (mkdir_all_ok_missing l2 e2 _ _ Hm); now rewrite Hf2).
          now rewrite (mkdir_all_keeps_missing _ _ _ _ Hm Hmiss (is_prefix_longer l2 e2)).
      - split; [assumption | now rewrite Hf2]. }
    destruct Hfs1 as [Hn1 Hm1].
    destruct (rename_at_moves _ _ _ _ Hr Hm1) as (n' & Hn' & Hgone & Hnew).
    rewrite Hn' in Hn1. injection Hn1 as ->.
    rewrite Stat_Lookup, Lookup_rooted, Hnew in H by assumption.
    notified p w H. injection H as _ <-.
    exists n. rewrite Ecwd, Efs, !Lookup_rooted by assumption. tauto.
  - intros n from to Hn Hmiss Hfrom Hto Hpre.
    rewrite resolve_rooted in Hfrom, Hto by assumption.
    injection Hfrom as <-. injection Hto as <-.
    rewrite Hn, Hmiss.
    destruct (mkdir_all_missing l2 e2 (fs w) Hmiss) as [fs1 Hm]. rewrite Hm.
    cbn [cwd fs with_fs]. unfold os.Rename. rewrite !at_rooted by assumption.
    assert (Hn1 : os.find (l1 ++ [e1]) fs1 = Ok n).
    { eapply mkdir_all_keeps_node; [eassumption | eassumption |].
      destruct (os.is_prefix (l1 ++ [e1]) l2) eqn:E; [|reflexivity].
      rewrite (is_prefix_trans _ _ _ E (is_prefix_app l2 [e2])) in Hpre. discriminate. }
    pose proof (mkdir_all_keeps_missing _ _ _ _ Hm Hmiss (is_prefix_longer l2 e2)) as Hm1.
    destruct (mkdir_all_dir _ _ _ Hm) as [es Hes].
    destruct (rename_at_succeeds _ l2 e2 fs1 n es Hn1 Hes Hm1 Hpre) as [fs2 Hr].
    rewrite Hr.
    destruct (rename_at_moves _ _ _ _ Hr) as (n' & _ & _ & Hnew); [now rewrite Hm1|].
    rewrite Stat_Lookup, Lookup_rooted, Hnew by assumption.
    eexists. eexists. reflexivity.
Qed.

Lemma X7_MoveFile_witness :
  os.Lookup "/app" (fs Demo.world) "/srv/pub/notes.txt" = Ok (os.File "hello")
  /\ (let w' := snd (MoveFile Demo.service Demo.world "notes.txt" "a/b/n.txt") in
      os.Lookup "/app" (fs w') "/srv/pub/notes.txt" = Err os.ENOENT
      /\ os.Lookup "/app" (fs w') "/srv/pub/a/b/n.txt" = Ok (os.File "hello")
      /\ map dtos.EventType (sent w') = ["file_moved"])
  /\ fst (MoveFile Demo.service Demo.world "notes.txt" "docs/b.txt")
     = Err (response "Destination file already exists" (Some "Destination file already exists")).
Proof.
  destruct (X7_MoveFile Demo.service Demo.world "notes.txt" "a/b/n.txt"
              "/srv/pub/notes.txt" "/srv/pub/a/b/n.txt" eq_refl eq_refl eq_refl)
    as (_ & _ & H & _).
  destruct (H _ _ eq_refl) as (n & H1 & H2 & H3 & _).
  destruct (X7_MoveFile Demo.service Demo.world "notes.txt" "docs/b.txt"
              "/srv/pub/notes.txt" "/srv/pub/docs/b.txt" eq_refl eq_refl eq_refl)
    as (_ & H5 & _).
  split; [reflexivity|]. split; [|now rewrite (H5 eq_refl eq_refl)].
  split; [exact H2|]. split; [|reflexivity].
  exact (eq_trans H3 (eq_sym H1)).
Defined.

Lemma find_prefix_ok l : forall r n m, os.find (l ++ r) n = Ok m -> exists m', os.find l n = Ok m'.
Proof. intros r n m H. rewrite find_app in H. destruct (os.find l n); [eauto | discriminate]. Qed.

(** X8. Where the source is there, the destination does not lie at or below
    it and the directory that is to hold the destination is missing,
    [RenameFile] fails and changes nothing, while [MoveFile] creates the
    directory and moves the source. *)
Theorem X8_MoveFile_creates_the_parent (p : PublicFilesService) (w : World)
    (source destination src dst : string) (n : os.node) (from to : list string) :
  filepath.IsAbs (cwd w) = true ->
  sanitizePathForWrite p w source = Ok src ->
  sanitizePathForWrite p w destination = Ok dst ->
  os.Lookup (cwd w) (fs w) src = Ok n ->
  os.Lookup (cwd w) (fs w) (filepath.Dir dst) = Err os.ENOENT ->
  os.resolve (cwd w) src = Some from -> os.resolve (cwd w) dst = Some to ->
  os.is_prefix from to = false ->
  (exists e, RenameFile p w source destination = (Err e, w))
  /\ exists r w',
       MoveFile p w source destination = (Ok r, w')
       /\ os.Lookup (cwd w') (fs w') dst = Ok n
       /\ exists entries, os.Lookup (cwd w') (fs w') (filepath.Dir dst) = Ok (os.Dir entries).
Proof.
  intros Hcwd Hsrc Hdst Hn Hparent Hfrom Hto Hpre.
  destruct (write_shape p w source src Hcwd Hsrc) as (_ & _ & _ & l1 & e1 & Hl1 & He1 & ->).
  destruct (write_shape p w destination dst Hcwd Hdst) as (_ & _ & _ & l2 & e2 & Hl2 & He2 & ->).
  pose proof (plain_snoc _ _ Hl1 He1) as Hp1. pose proof (plain_snoc _ _ Hl2 He2) as Hp2.
  rewrite resolve_rooted in Hfrom, Hto by assumption.
  injection Hfrom as <-. injection Hto as <-.
  rewrite Dir_rooted in * by assumption. rewrite Lookup_rooted in Hn, Hparent by assumption.
  assert (Hmiss : os.find (l2 ++ [e2]) (fs w) = Err os.ENOENT) by now rewrite find_app, Hparent.
  split.
  - unfold RenameFile. rewrite Hsrc, Hdst, !Stat_Lookup, !Lookup_rooted, Hn, Hmiss by assumption.
    unfold os.Rename. rewrite !at_rooted by assumption.
    unfold os.rename_at. rewrite Hn.
    destruct (list_eq_dec string_dec _ _) as [E|_]; [rewrite E, Hmiss in Hn; discriminate|].
    rewrite Hpre, (update_missing_parent l2 e2 _ _ Hparent). eexists. reflexivity.
  - unfold MoveFile. rewrite Hsrc, Hdst, !Stat_Lookup, !Lookup_rooted, Hn, Hmiss by assumption.
    rewrite Dir_rooted, MkdirAll_rooted by assumption.
    destruct (mkdir_all_missing l2 e2 (fs w) Hmiss) as [fs1 Hm]. rewrite Hm.
    cbn [cwd fs with_fs]. unfold os.Rename. rewrite !at_rooted by assumption.
    assert (Hn1 : os.find (l1 ++ [e1]) fs1 = Ok n).
    { eapply mkdir_all_keeps_node; [eassumption | eassumption |].
      destruct (os.is_prefix (l1 ++ [e1]) l2) eqn:E; [|reflexivity].
      rewrite (is_prefix_trans _ _ _ E (is_prefix_app l2 [e2])) in Hpre. discriminate. }
    pose proof (mkdir_all_keeps_missing _ _ _ _ Hm Hmiss (is_prefix_longer l2 e2)) as Hm1.
    destruct (mkdir_all_dir _ _ _ Hm) as [es Hes].
    destruct (rename_at_succeeds _ l2 e2 fs1 n es Hn1 Hes Hm1 Hpre) as [fs2 Hr].
    rewrite Hr.
    destruct (rename_at_moves _ _ _ _ Hr) as (n' & Hn' & _ & Hnew); [now rewrite Hm1|].
    rewrite Hn1 in Hn'. injection Hn' as <-.
    rewrite Stat_Lookup, Lookup_rooted, Hnew by assumption.
    eexists. eexists. split; [reflexivity|].
    match goal with |- context [notifyWebSocket p ?w0 ?ev ?d] =>
      destruct (notify_world p w0 ev d) as [Ecwd Efs];
      set (w1 := notifyWebSocket p w0 ev d) in *
    end.
    simpl in Ecwd, Efs. rewrite Ecwd, Efs, !Lookup_rooted by assumption.
    split; [assumption|].
    destruct (find_parent_dir _ _ _ _ Hnew) as [es' Hes']. eauto.
Qed.

Lemma X8_MoveFile_creates_the_parent_witness :
  is_ok (fst (RenameFile Demo.service Demo.world "notes.txt" "a/b/n.txt")) = false
  /\ exists r w',
       MoveFile Demo.service Demo.world "notes.txt" "a/b/n.txt" = (Ok r, w')
       /\ os.Lookup (cwd w') (fs w') "/srv/pub/a/b/n.txt" = Ok (os.File "hello").
Proof.
  destruct (X8_MoveFile_creates_the_parent Demo.service Demo.world "notes.txt" "a/b/n.txt"
              "/srv/pub/notes.txt" "/srv/pub/a/b/n.txt" (os.File "hello")
              ["srv"; "pub"; "notes.txt"] ["srv"; "pub"; "a"; "b"; "n.txt"]
              eq_refl eq_refl eq_refl eq_refl eq_refl eq_refl eq_refl eq_refl)
    as ([e He] & r & w' & Hm & Hn & _).
  split; [now rewrite He|]. exists r, w'. now split.
Defined.

Lemma is_prefix_snoc a l e :
  os.is_prefix a (l ++ [e]) = true -> a = (l ++ [e])%list \/ os.is_prefix a l = true.
Proof.
  intros H. apply is_prefix_inv in H as [r E].
  destruct r as [|x r] using rev_ind.
  - left. now rewrite app_nil_r in E.
  - right. rewrite app_assoc in E. apply app_inj_tail in E as [-> _]. apply is_prefix_app.
Qed.

Lemma mkdir_all_fresh_empty l : forall c, os.mkdir_all l (os.Dir []) = Ok c -> l <> [] ->
  os.find l c = Ok (os.Dir []).
Proof.
  induction l as [|a l IH]; intros c H Hne; [congruence|].
  cbn [os.mkdir_all os.assoc] in H.
  destruct (os.mkdir_all l (os.Dir [])) as [c'|] eqn:Hm; [|discriminate]. injection H as <-.
  cbn [os.find os.set_entry os.replace_entry os.assoc]. rewrite String.eqb_refl.
  destruct l as [|b l]; [now injection Hm as <-|]. apply IH; [reflexivity | discriminate].
Qed.

Lemma mkdir_all_new_empty l : forall n n',
  os.find l n = Err os.ENOENT -> os.mkdir_all l n = Ok n' -> os.find l n' = Ok (os.Dir []).
Proof.
  induction l as [|a l IH]; intros n n' Hf H; [discriminate|].
  destruct n as [|es]; [discriminate|]. cbn [os.mkdir_all] in H. cbn [os.find] in Hf.
  destruct (os.mkdir_all l _) as [c'|] eqn:Hm; [|discriminate]. injection H as <-.
  cbn [os.find os.set_entry]. rewrite assoc_replace_same.
  destruct (os.assoc a es) as [c|].
  - eapply IH; eassumption.
  - destruct l as [|b l]; [now injection Hm as <-|].
    apply mkdir_all_fresh_empty; [assumption | discriminate].
Qed.

(** X9. A call of [MoveFile] that fails may leave its mark: moving a
    directory to a place below itself fails with "invalid argument", after
    the directory that was to hold the destination has been created. *)
Theorem X9_failed_MoveFile_leaves_directories (p : PublicFilesService) (w : World)
    (source destination src dst : string) (entries : list (string * os.node))
    (from to : list string) :
  filepath.IsAbs (cwd w) = true ->
  sanitizePathForWrite p w source = Ok src ->
  sanitizePathForWrite p w destination = Ok dst ->
  os.Lookup (cwd w) (fs w) src = Ok (os.Dir entries) ->
  os.Lookup (cwd w) (fs w) (filepath.Dir dst) = Err os.ENOENT ->
  os.resolve (cwd w) src = Some from -> os.resolve (cwd w) dst = Some to ->
  os.is_prefix from to = true ->
  exists w',
    MoveFile p w source destination
    = (let msg := "rename " ++ src ++ " " ++ dst ++ ": invalid argument" in
       Err (response ("Failed to move file: " ++ msg) (Some msg)), w')
    /\ os.Lookup (cwd w') (fs w') (filepath.Dir dst) = Ok (os.Dir [])
    /\ sent w' = sent w.
Proof.
  intros Hcwd Hsrc Hdst Hn Hparent Hfrom Hto Hpre.
  destruct (write_shape p w source src Hcwd Hsrc) as (_ & _ & _ & l1 & e1 & Hl1 & He1 & ->).
  destruct (write_shape p w destination dst Hcwd Hdst) as (_ & _ & _ & l2 & e2 & Hl2 & He2 & ->).
  pose proof (plain_snoc _ _ Hl1 He1) as Hp1. pose proof (plain_snoc _ _ Hl2 He2) as Hp2.
  rewrite resolve_rooted in Hfrom, Hto by assumption.
  injection Hfrom as <-. injection Hto as <-.
  rewrite Dir_rooted in * by assumption. rewrite Lookup_rooted in Hn, Hparent by assumption.
  assert (Hmiss : os.find (l2 ++ [e2]) (fs w) = Err os.ENOENT) by now rewrite find_app, Hparent.
  unfold MoveFile. rewrite Hsrc, Hdst, !Stat_Lookup, !Lookup_rooted, Hn, Hmiss by assumption.
  rewrite Dir_rooted, MkdirAll_rooted by assumption.
  destruct (mkdir_all_missing l2 e2 (fs w) Hmiss) as [fs1 Hm]. rewrite Hm.
  cbn [cwd fs with_fs]. unfold os.Rename. rewrite !at_rooted by assumption.
  pose proof (mkdir_all_new_empty l2 _ _ Hparent Hm) as Hnew.
  destruct (is_prefix_snoc _ _ _ Hpre) as [E|Hpre2]; [rewrite E, Hmiss in Hn; discriminate|].
  apply is_prefix_inv in Hpre2 as [r Er].
  assert (Hpo : exists m, os.find (l1 ++ [e1]) fs1 = Ok m)
    by (rewrite Er in Hnew; eapply find_prefix_ok; eassumption).
  destruct Hpo as [m Hpo].
  assert (Hdir : exists below, m = os.Dir below).
  { rewrite Er, find_app, Hpo in Hnew. destruct m as [d|below]; [|eauto].
    destruct r; discriminate. }
  destruct Hdir as [below ->]. unfold os.rename_at. rewrite Hpo.
  destruct (list_eq_dec string_dec _ _) as [E|_]; [rewrite E, Hmiss in Hn; discriminate|].
  rewrite Hpre. eexists. split; [reflexivity|]. cbn [cwd fs sent with_fs].
  split; [now rewrite Lookup_rooted | reflexivity].
Qed.

Lemma X9_failed_MoveFile_leaves_directories_witness :
  os.Lookup "/app" (fs Demo.world) "/srv/pub/docs/x" = Err os.ENOENT
  /\ exists w',
       MoveFile Demo.service Demo.world "docs" "docs/x/y"
       = (Err (response
                 "Failed to move file: rename /srv/pub/docs /srv/pub/docs/x/y: invalid argument"
                 (Some "rename /srv/pub/docs /srv/pub/docs/x/y: invalid argument")), w')
       /\ os.Lookup (cwd w') (fs w') "/srv/pub/docs/x" = Ok (os.Dir []).
Proof.
  split; [reflexivity|].
  destruct (X9_failed_MoveFile_leaves_directories Demo.service Demo.world "docs" "docs/x/y"
              "/srv/pub/docs" "/srv/pub/docs/x/y"
              [("b.txt", os.File "bb"); ("A.txt", os.File "a")]
              ["srv"; "pub"; "docs"] ["srv"; "pub"; "docs"; "x"; "y"]
              eq_refl eq_refl eq_refl eq_refl eq_refl eq_refl eq_refl eq_refl)
    as (w' & H1 & H2 & _).
  exists w'. split; [exact H1 | exact H2].
Defined.

(** ** Frames *)

Section Frames.
Variable cwd0 : string.
Variable X : list string.

Lemma inside_refl fs0 : inside X fs0 fs0.
Proof. now intros q _. Qed.

Lemma inside_trans fs0 fs1 fs2 : inside X fs0 fs1 -> inside X fs1 fs2 -> inside X fs0 fs2.
Proof. intros H1 H2 q Hq. now rewrite (H2 q Hq), (H1 q Hq). Qed.

Lemma apart_prefix q t : os.is_prefix X t = true -> apart q X -> apart q t.
Proof. intros H Hq. apply is_prefix_inv in H as [S ->]. now apply apart_below. Qed.

Lemma update_inside t f fs0 fs1 :
  os.is_prefix X t = true -> os.update t f fs0 = Ok fs1 -> inside X fs0 fs1.
Proof. intros Ht H q Hq. eapply update_frame; [eassumption | now apply apart_prefix]. Qed.

Lemma at_path_resolved (A : Type) path t (k : list string -> result os.errno A) :
  os.resolve cwd0 path = Some t -> os.at_path cwd0 path k = k t.
Proof. intros H. unfold os.at_path. now rewrite H. Qed.

Section OnePath.
Variables (path : string) (t : list string).
Hypothesis Hres : os.resolve cwd0 path = Some t.
Hypothesis Ht : os.is_prefix X t = true.

Lemma MkdirAll_inside fs0 fs1 : os.MkdirAll cwd0 fs0 path = Ok fs1 -> inside X fs0 fs1.
Proof.
  unfold os.MkdirAll. rewrite (at_path_resolved _ _ _ _ Hres). intros H q Hq.
  eapply mkdir_all_frame; [eassumption | now apply apart_prefix].
Qed.

Lemma Mkdir_inside fs0 fs1 : os.Mkdir cwd0 fs0 path = Ok fs1 -> inside X fs0 fs1.
Proof.
  unfold os.Mkdir. rewrite (at_path_resolved _ _ _ _ Hres).
  destruct t; [discriminate|]. now apply update_inside.
Qed.

Lemma WriteFile_inside fs0 fs1 data : os.WriteFile cwd0 fs0 path data = Ok fs1 -> inside X fs0 fs1.
Proof.
  unfold os.WriteFile. rewrite (at_path_resolved _ _ _ _ Hres).
  destruct t; [discriminate|]. now apply update_inside.
Qed.

Lemma Write_inside fs0 fs1 data : os.Write cwd0 fs0 path data = Ok fs1 -> inside X fs0 fs1.
Proof. unfold os.Write. rewrite (at_path_resolved _ _ _ _ Hres). now apply update_inside. Qed.

Lemma Remove_inside fs0 fs1 : os.Remove cwd0 fs0 path = Ok fs1 -> inside X fs0 fs1.
Proof. unfold os.Remove. rewrite (at_path_resolved _ _ _ _ Hres). now apply update_inside. Qed.

Lemma RemoveAll_inside fs0 fs1 : os.RemoveAll cwd0 fs0 path = Ok fs1 -> inside X fs0 fs1.
Proof.
  unfold os.RemoveAll. destruct (path =? ""); [intros [= <-]; apply inside_refl|].
  destruct (os.endsWithDot path); [discriminate|].
  rewrite (at_path_resolved _ _ _ _ Hres).
  destruct (os.find t fs0) as [n|[]]; try discriminate.
  - now apply update_inside.
  - intros [= <-]. apply inside_refl.
Qed.

End OnePath.

Lemma Rename_inside oldpath newpath po pn fs0 fs1 :
  os.resolve cwd0 oldpath = Some po -> os.is_prefix X po = true ->
  os.resolve cwd0 newpath = Some pn -> os.is_prefix X pn = true ->
  os.Rename cwd0 fs0 oldpath newpath = Ok fs1 -> inside X fs0 fs1.
Proof.
  intros Ho Hpo Hn Hpn. unfold os.Rename.
  rewrite (at_path_resolved _ _ _ _ Ho), (at_path_resolved _ _ _ _ Hn).
  unfold os.rename_at. destruct (os.find po fs0) as [moved|]; [|discriminate].
  destruct (list_eq_dec string_dec po pn); [intros [= <-]; apply inside_refl|].
  destruct (os.is_prefix po pn); [destruct moved; discriminate|].
  destruct (os.update pn _ fs0) as [fs'|] eqn:Hu; [|discriminate].
  intros H. apply (inside_trans fs0 fs' fs1).
  - eapply update_inside; [exact Hpn | exact Hu].
  - eapply update_inside; [exact Hpo | exact H].
Qed.

End Frames.

Section Confined.
Variable p : PublicFilesService.
Variable w : World.
Hypothesis Hcwd : filepath.IsAbs (cwd w) = true.


Lemma fs_notify (w0 : World) ev d : fs (notifyWebSocket p w0 ev d) = fs w0.
Proof. apply notify_world. Qed.

Lemma write_places input c :
  sanitizePathForWrite p w input = Ok c ->
  exists t t',
    os.resolve (cwd w) c = Some t /\ os.is_prefix (root_elements p w) t = true
    /\ os.resolve (cwd w) (filepath.Dir c) = Some t' /\ os.is_prefix (root_elements p w) t' = true.
Proof.
  intros H. destruct (write_below p w input c Hcwd H) as (R & e & HX & HR & He & _ & -> & _).
  rewrite app_assoc.
  assert (Hl : Forall plain ((root_elements p w) ++ R)) by (apply Forall_app; now split).
  pose proof (plain_snoc _ _ Hl (proj1 He)) as Hp.
  exists (((root_elements p w) ++ R) ++ [e])%list, ((root_elements p w) ++ R)%list.
  rewrite Dir_rooted, !resolve_rooted by (assumption || apply He).
  rewrite <- app_assoc, !is_prefix_app. tauto.
Qed.

Lemma read_places input c t :
  sanitizePathForRead p w input = Ok c -> os.resolve (cwd w) c = Some t ->
  os.is_prefix (root_elements p w) t = true.
Proof.
  intros H Ht.
  destruct (read_below p w input c Hcwd H) as (_ & [[_ ->]|(_ & R & n & HX & HR & _ & -> & _)]).
  - unfold os.resolve in Ht. destruct (publicDir p =? ""); [discriminate|].
    injection Ht as <-. apply is_prefix_refl.
  - assert (Hall : Forall plain ((root_elements p w) ++ R)).
    { apply Forall_app. split; [assumption|]. eapply Forall_impl; [|exact HR]. now intros a [Ha _]. }
    rewrite resolve_rooted in Ht by assumption. injection Ht as <-. apply is_prefix_app.
Qed.

Lemma remove_quietly_inside fs0 file t :
  os.resolve (cwd w) file = Some t -> os.is_prefix (root_elements p w) t = true ->
  inside (root_elements p w) fs0 (remove_quietly w fs0 file).
Proof.
  intros Hr Ht. unfold remove_quietly.
  destruct (os.Remove (cwd w) fs0 file) eqn:E; [|apply inside_refl].
  eapply Remove_inside; eassumption.
Qed.

Lemma upload_loop_inside file t (data : Reader) :
  os.resolve (cwd w) file = Some t -> os.is_prefix (root_elements p w) t = true ->
  forall fs0 n, inside (root_elements p w) fs0 (snd (upload_loop w file fs0 n data)).
Proof.
  intros Hr Ht. induction data as [|r data IH]; intros fs0 n; cbn [upload_loop].
  - apply inside_refl.
  - destruct (_ && _); [now apply (remove_quietly_inside _ _ t)|].
    destruct (strings.len (chunk r) >? 0)%Z.
    + destruct (os.Write (cwd w) fs0 file (chunk r)) as [fs1|] eqn:E;
        [|now apply (remove_quietly_inside _ _ t)].
      pose proof (Write_inside _ _ _ _ Hr Ht _ _ _ E) as H1.
      destruct (read_err r) as [[|msg]|]; cbn [snd].
      * assumption.
      * eapply inside_trans; [eassumption | now apply (remove_quietly_inside _ _ t)].
      * eapply inside_trans; [eassumption | apply IH].
    + destruct (read_err r) as [[|msg]|]; cbn [snd].
      * apply inside_refl.
      * now apply (remove_quietly_inside _ _ t).
      * apply IH.
Qed.

Ltac settle :=
  cbn [snd fs cwd with_fs]; rewrite ?fs_notify; cbn [snd fs cwd with_fs];
  eauto 6 using inside_refl, inside_trans.

Lemma CreateFile_inside input : inside (root_elements p w) (fs w) (fs (snd (CreateFile p w input))).
Proof.
  unfold CreateFile.
  destruct (sanitizePathForWrite p w input) as [c|] eqn:Hw; [|settle].
  destruct (write_places _ _ Hw) as (t & t' & Ht & Hpt & Ht' & Hpt').
  destruct (os.MkdirAll (cwd w) (fs w) _) as [fs1|] eqn:E1; [|settle].
  pose proof (MkdirAll_inside _ _ _ _ Ht' Hpt' _ _ E1).
  cbn [cwd with_fs].
  destruct (os.WriteFile (cwd w) fs1 c "") as [fs2|] eqn:E2; [|settle].
  pose proof (WriteFile_inside _ _ _ _ Ht Hpt _ _ _ E2).
  settle.
Qed.

Lemma CreateFolder_inside input : inside (root_elements p w) (fs w) (fs (snd (CreateFolder p w input))).
Proof.
  unfold CreateFolder.
  destruct (sanitizePathForWrite p w input) as [c|] eqn:Hw; [|settle].
  destruct (write_places _ _ Hw) as (t & t' & Ht & Hpt & Ht' & Hpt').
  destruct (os.MkdirAll (cwd w) (fs w) _) as [fs1|] eqn:E1; [|settle].
  pose proof (MkdirAll_inside _ _ _ _ Ht' Hpt' _ _ E1).
  cbn [cwd with_fs].
  destruct (os.Mkdir (cwd w) fs1 c) as [fs2|] eqn:E2.
  - pose proof (Mkdir_inside _ _ _ _ Ht Hpt _ _ E2). settle.
  - destruct (negb (os.IsExist e)); settle.
Qed.

Lemma UploadFile_inside input data : inside (root_elements p w) (fs w) (fs (snd (UploadFile p w input data))).
Proof.
  unfold UploadFile.
  destruct (sanitizePathForWrite p w input) as [c|] eqn:Hw; [|settle].
  destruct (write_places _ _ Hw) as (t & t' & Ht & Hpt & Ht' & Hpt').
  destruct (os.MkdirAll (cwd w) (fs w) _) as [fs1|] eqn:E1; [|settle].
  pose proof (MkdirAll_inside _ _ _ _ Ht' Hpt' _ _ E1).
  unfold os.Create.
  destruct (os.WriteFile (cwd w) fs1 c "") as [fs2|] eqn:E2; [|settle].
  pose proof (WriteFile_inside _ _ _ _ Ht Hpt _ _ _ E2).
  pose proof (upload_loop_inside c t data Ht Hpt fs2 0%Z) as H3.
  destruct (upload_loop w c fs2 0 data) as [[n|f] fs3]; cbn [snd] in H3; settle.
Qed.

Lemma EditFile_inside input content : inside (root_elements p w) (fs w) (fs (snd (EditFile p w input content))).
Proof.
  unfold EditFile.
  destruct (sanitizePathForWrite p w input) as [c|] eqn:Hw; [|settle].
  destruct (write_places _ _ Hw) as (t & t' & Ht & Hpt & Ht' & Hpt').
  destruct (os.Stat (cwd w) (fs w) c); [|settle]. cbv zeta.
  destruct (negb _); [settle|]. destruct (_ >? _)%Z; [settle|].
  destruct (os.WriteFile (cwd w) (fs w) c content) as [fs2|] eqn:E2; [|settle].
  pose proof (WriteFile_inside _ _ _ _ Ht Hpt _ _ _ E2).
  cbn [cwd with_fs]. destruct (os.Stat (cwd w) fs2 c); settle.
Qed.

Lemma DeleteItem_inside input : inside (root_elements p w) (fs w) (fs (snd (DeleteItem p w input))).
Proof.
  unfold DeleteItem.
  destruct (sanitizePathForRead p w input) as [c|] eqn:Hr; [|settle].
  destruct (os.Stat (cwd w) (fs w) c) as [info|] eqn:Hs; [|settle].
  assert (Ht : exists t, os.resolve (cwd w) c = Some t).
  { unfold os.Stat, os.at_path in Hs. destruct (os.resolve (cwd w) c); [eauto | discriminate]. }
  destruct Ht as [t Ht]. pose proof (read_places _ _ _ Hr Ht) as Hpt.
  destruct (os.IsDir info).
  - destruct (os.RemoveAll (cwd w) (fs w) c) as [fs1|] eqn:E; [|settle].
    pose proof (RemoveAll_inside _ _ _ _ Ht Hpt _ _ E). settle.
  - destruct (os.Remove (cwd w) (fs w) c) as [fs1|] eqn:E; [|settle].
    pose proof (Remove_inside _ _ _ _ Ht Hpt _ _ E). settle.
Qed.

Lemma dropped_MkdirAll_inside path t :
  os.resolve (cwd w) path = Some t -> os.is_prefix (root_elements p w) t = true ->
  inside (root_elements p w) (fs w) (match os.MkdirAll (cwd w) (fs w) path with Ok fs1 => fs1 | Err _ => fs w end).
Proof.
  intros Ht Hpt. destruct (os.MkdirAll (cwd w) (fs w) path) eqn:E; [|apply inside_refl].
  eapply MkdirAll_inside; eassumption.
Qed.

Lemma RenameFile_inside a b : inside (root_elements p w) (fs w) (fs (snd (RenameFile p w a b))).
Proof.
  unfold RenameFile.
  destruct (sanitizePathForWrite p w a) as [c1|] eqn:Hw1; [|settle].
  destruct (sanitizePathForWrite p w b) as [c2|] eqn:Hw2; [|settle].
  destruct (write_places _ _ Hw1) as (t1 & _ & Ht1 & Hpt1 & _).
  destruct (write_places _ _ Hw2) as (t2 & _ & Ht2 & Hpt2 & _).
  destruct (os.Stat (cwd w) (fs w) c1); [|settle].
  destruct (os.Stat (cwd w) (fs w) c2); [settle|].
  destruct (os.Rename (cwd w) (fs w) c1 c2) as [fs1|] eqn:E; [|settle].
  pose proof (Rename_inside _ _ _ _ _ _ _ _ Ht1 Hpt1 Ht2 Hpt2 E). settle.
Qed.

Lemma MoveFile_inside a b : inside (root_elements p w) (fs w) (fs (snd (MoveFile p w a b))).
Proof.
  unfold MoveFile.
  destruct (sanitizePathForWrite p w a) as [c1|] eqn:Hw1; [|settle].
  destruct (sanitizePathForWrite p w b) as [c2|] eqn:Hw2; [|settle].
  destruct (write_places _ _ Hw1) as (t1 & _ & Ht1 & Hpt1 & _).
  destruct (write_places _ _ Hw2) as (t2 & t2' & Ht2 & Hpt2 & Ht2' & Hpt2').
  destruct (os.Stat (cwd w) (fs w) c1); [|settle].
  destruct (os.Stat (cwd w) (fs w) c2); [settle|].
  pose proof (dropped_MkdirAll_inside _ _ Ht2' Hpt2') as H1.
  cbn [cwd fs with_fs].
  match goal with |- context [os.Rename _ ?f _ _] => set (fs1 := f) in * end.
  destruct (os.Rename (cwd w) fs1 c1 c2) as [fs2|] eqn:E; [|settle].
  pose proof (Rename_inside _ _ _ _ _ _ _ _ Ht1 Hpt1 Ht2 Hpt2 E).
  destruct (os.Stat (cwd w) fs2 c2); settle.
Qed.

Lemma CopyFile_inside a b : inside (root_elements p w) (fs w) (fs (snd (CopyFile p w a b))).
Proof.
  unfold CopyFile.
  destruct (sanitizePathForWrite p w a) as [c1|] eqn:Hw1; [|settle].
  destruct (sanitizePathForWrite p w b) as [c2|] eqn:Hw2; [|settle].
  destruct (write_places _ _ Hw2) as (t2 & t2' & Ht2 & Hpt2 & Ht2' & Hpt2').
  destruct (os.Stat (cwd w) (fs w) c1); [|settle].
  destruct (os.Stat (cwd w) (fs w) c2); [settle|].
  pose proof (dropped_MkdirAll_inside _ _ Ht2' Hpt2') as H1.
  cbn [cwd fs with_fs].
  match goal with |- context [os.ReadFile _ ?f _] => set (fs1 := f) in * end.
  destruct (os.ReadFile (cwd w) fs1 c1) as [data|]; [|settle].
  destruct (os.WriteFile (cwd w) fs1 c2 data) as [fs2|] eqn:E; [|settle].
  pose proof (WriteFile_inside _ _ _ _ Ht2 Hpt2 _ _ _ E).
  settle.
Qed.

End Confined.

(** X10. When [DeleteItem] succeeds, the target and everything below it are
    gone, and every place apart from the target names what it named before. *)
Theorem X10_DeleteItem_removes_the_target_only (p : PublicFilesService) (w : World)
    (input : string) (r : payload) (w' : World) :
  DeleteItem p w input = (Ok r, w') ->
  exists target t n,
    sanitizePathForRead p w input = Ok target
    /\ os.resolve (cwd w) target = Some t
    /\ os.find t (fs w) = Ok n
    /\ (forall below, os.find (t ++ below) (fs w') = Err os.ENOENT)
    /\ (forall q, apart q t -> os.find q (fs w') = os.find q (fs w))
    /\ one_notification p w w' "file_deleted".
Proof.
  intros H. unfold DeleteItem in H.
  destruct (sanitizePathForRead p w input) as [c|] eqn:Hr; [|discriminate].
  destruct (os.Stat (cwd w) (fs w) c) as [info|] eqn:Hs; [|discriminate].
  unfold os.Stat, os.at_path in Hs.
  destruct (os.resolve (cwd w) c) as [t|] eqn:Ht; [|discriminate].
  destruct (os.find t (fs w)) as [n|] eqn:Hn; [|discriminate].
  assert (Hu : exists f fs', os.update t f (fs w) = Ok fs'
                             /\ (forall cur v, f cur = Ok v -> v = None)
                             /\ (if os.IsDir info
                                 then os.RemoveAll (cwd w) (fs w) c
                                 else os.Remove (cwd w) (fs w) c) = Ok fs').
  { destruct (os.IsDir info).
    - unfold os.RemoveAll in *. 
      assert (Hne : (c =? "") = false)
        by (unfold os.resolve in Ht; destruct (c =? ""); [discriminate | reflexivity]).
      rewrite Hne in *. destruct (os.endsWithDot c); [discriminate|].
      unfold os.at_path in *. rewrite Ht, Hn in *.
      destruct (os.update t _ (fs w)) as [fs'|] eqn:Hu; [|discriminate].
      eexists. exists fs'. split; [exact Hu|]. split; [|reflexivity].
      now intros cur v [= <-].
    - unfold os.Remove, os.at_path in *. rewrite Ht in *.
      destruct (os.update t _ (fs w)) as [fs'|] eqn:Hu; [|discriminate].
      eexists. exists fs'. split; [exact Hu|]. split; [|reflexivity].
      intros [[|[|]]|] v; intros [= <-] || discriminate; reflexivity. }
  destruct Hu as (f & fs' & Hu & Hf & E). rewrite E in H.
  match type of H with context [notifyWebSocket p ?w0 ?ev ?d] =>
    destruct (notify_world p w0 ev d) as [Ecwd Efs];
    pose proof (notify_one p w w0 ev d eq_refl) as Hone;
    set (w1 := notifyWebSocket p w0 ev d) in *
  end.
  injection H as _ <-. simpl in Ecwd, Efs. rewrite Efs.
  exists c, t, n. repeat split; try assumption.
  - intros below. destruct (find_update_same _ _ _ _ Hu) as (v & Hv & Hfind).
    rewrite (Hf _ _ Hv) in Hfind. now rewrite find_app, Hfind.
  - intros q Hq. eapply update_frame; eassumption.
Qed.

Lemma X10_DeleteItem_removes_the_target_only_witness :
  let w' := snd (DeleteItem Demo.service Demo.world "docs") in
  os.find ["srv"; "pub"; "docs"; "A.txt"] (fs w') = Err os.ENOENT
  /\ os.find ["srv"; "pub"; "notes.txt"] (fs w') = Ok (os.File "hello").
Proof.
  intros w'.
  destruct (DeleteItem Demo.service Demo.world "docs") as [[r|f] w1] eqn:E;
    [|vm_compute in E; discriminate].
  destruct (X10_DeleteItem_removes_the_target_only Demo.service Demo.world "docs" r w1 E)
    as (target & t & n & Hs & Ht & _ & Hgone & Hframe & _).
  injection Hs as <-. injection Ht as <-. subst w'. cbn [snd]. split.
  - exact (Hgone ["A.txt"]).
  - rewrite (Hframe ["srv"; "pub"; "notes.txt"]); [reflexivity | split; reflexivity].
Defined.

(** ** Uploading a folder *)

Section JoinFacts.
Import filepath.

Lemma clean_stack_pops out :
  Forall plain out -> clean_stack true out (repeat ".." (List.length out)) = [].
Proof.
  induction 1 as [|top rest (_ & Hdd & _) _ IH]; [reflexivity|].
  cbn [List.length repeat clean_stack fold_left]. unfold clean_step at 2. cbn [String.eqb orb].
  change (".." =? "..") with true. cbv iota.
  apply String.eqb_neq in Hdd as ->. exact IH.
Qed.

(** [Join] of a rooted canonical path with a relative one, element by
    element. *)
Lemma Join_rooted F ns :
  Forall plain F -> ns <> [] -> Forall (fun e => has_char "/" e = false) ns ->
  Join (render true F) (String.concat "/" ns)
  = render true (rev (clean_stack true (rev F) ns)).
Proof.
  intros HF Hne Hns. unfold Join. rewrite render_rooted_not_empty. cbn [negb].
  rewrite Clean_join_rooted by apply IsAbs_render_rooted.
  rewrite Split_render_rooted by assumption.
  rewrite (Split_concat _ "/"%char) by assumption.
  do 3 f_equal. destruct F as [|x F]; [reflexivity|].
  change (clean_stack true [] ("" :: x :: F)) with (clean_stack true [] (x :: F)).
  rewrite clean_stack_plain by assumption. apply app_nil_r.
Qed.

Lemma Join_rooted_plain F ns :
  Forall plain F -> Forall plain ns -> ns <> [] ->
  Join (render true F) (String.concat "/" ns) = render true (F ++ ns).
Proof.
  intros HF Hns Hne. rewrite Join_rooted; [|assumption..|now apply plain_no_slash].
  rewrite clean_stack_plain by assumption. now rewrite rev_app_distr, !rev_involutive.
Qed.

Lemma Join_climbing F target :
  Forall plain F -> Forall plain target -> target <> [] ->
  Join (render true F) (climbing_name (render true F) target) = render true target.
Proof.
  intros HF Ht Hne. unfold climbing_name. rewrite elements_render_rooted by assumption.
  rewrite Join_rooted.
  - rewrite clean_stack_app. rewrite <- (length_rev F), clean_stack_pops by now apply Forall_rev.
    rewrite clean_stack_plain by assumption. now rewrite app_nil_r, rev_involutive.
  - assumption.
  - destruct (repeat ".." (List.length F)); [assumption | discriminate].
  - apply Forall_app. split; [|now apply plain_no_slash].
    apply Forall_forall. intros e He. apply repeat_spec in He as ->. reflexivity.
Qed.

End JoinFacts.

(** X13. [UploadFolder] does not confine the names of the files: joined to
    the folder, a name that climbs with ".." leads anywhere, and any regular
    file of the system, inside the root or not, is overwritten with the
    uploaded bytes. The call answers with success and counts the file. *)
Theorem X13_UploadFolder_writes_anywhere (p : PublicFilesService) (w : World)
    (folderPath folder : string) (target : list string) (old data : string) :
  filepath.IsAbs (cwd w) = true ->
  sanitizePathForWrite p w folderPath = Ok folder ->
  is_ok (os.MkdirAll (cwd w) (fs w) folder) = true ->
  Forall plain target ->
  os.find target (fs w) = Ok (os.File old) ->
  exists r w',
    UploadFolder p w folderPath [(climbing_name folder target, data)] = (Ok r, w')
    /\ os.find target (fs w') = Ok (os.File data)
    /\ In ("files_count", dtos.VInt 1) r.
Proof.
  intros Hcwd Hw Hmk Ht Hold.
  destruct (write_below p w folderPath folder Hcwd Hw) as (R & e & HX & HR & He & _ & -> & _).
  set (F := (root_elements p w ++ R ++ [e])%list) in *.
  assert (HF : Forall plain F).
  { apply Forall_app. split; [assumption|]. apply Forall_app. split; [assumption|].
    constructor; [apply He | constructor]. }
  unfold UploadFolder. rewrite Hw. rewrite MkdirAll_rooted in * by assumption.
  destruct (os.mkdir_all F (fs w)) as [fs1|] eqn:Hm; [|discriminate].
  assert (Hne : target <> []).
  { intros ->. cbn [os.find] in Hold. injection Hold as E. rewrite E in Hm.
    destruct F; discriminate. }
  pose proof (mkdir_all_keeps_files _ _ _ _ _ Hm Hold) as Hold1.
  cbn [upload_files]. rewrite Join_climbing by assumption.
  destruct (exists_last Hne) as (l & x & ->).
  apply Forall_app in Ht as [Hl Hx]. inversion Hx as [|? ? Hx' _]; subst.
  pose proof (plain_snoc _ _ Hl Hx') as Hp.
  rewrite Dir_rooted, MkdirAll_rooted by assumption.
  destruct (find_parent_dir _ _ _ _ Hold1) as [es Hes].
  rewrite (mkdir_all_existing l fs1 es Hes).
  rewrite WriteFile_rooted by assumption.
  match goal with |- context [os.update _ ?f _] =>
    destruct (update_existing l x f fs1 _ (Some (os.File data)) Hold1 eq_refl)
      as (fs2 & -> & Hf2)
  end.
  eexists. eexists. split; [reflexivity|]. rewrite fs_notify. cbn [fs with_fs].
  split; [exact Hf2 | simpl; tauto].
Qed.

Lemma X13_UploadFolder_writes_anywhere_witness :
  apart ["app"; "data"; "public"; "notes.txt"] (root_elements Demo.service Demo.world)
  /\ climbing_name "/srv/pub/up" ["app"; "data"; "public"; "notes.txt"]
     = "../../../app/data/public/notes.txt"
  /\ exists r w',
       UploadFolder Demo.service Demo.world "up"
         [("../../../app/data/public/notes.txt", "overwritten")] = (Ok r, w')
       /\ os.find ["app"; "data"; "public"; "notes.txt"] (fs w') = Ok (os.File "overwritten").
Proof.
  split; [split; reflexivity|]. split; [reflexivity|].
  destruct (X13_UploadFolder_writes_anywhere Demo.service Demo.world "up" "/srv/pub/up"
              ["app"; "data"; "public"; "notes.txt"] "hello" "overwritten"
              eq_refl eq_refl eq_refl) as (r & w' & H1 & H2 & _).
  - repeat constructor; discriminate.
  - reflexivity.
  - exists r, w'. split; [exact H1 | exact H2].
Defined.

(** ** Downloading a folder *)

Section WellFormed.

Lemma file_name_plain e : file_name e = true <-> plain e.
Proof.
  unfold file_name, plain. rewrite !andb_true_iff, !negb_true_iff, String.eqb_neq. tauto.
Qed.

Lemma distinct_assoc (A : Type) (es : list (string * A)) name c :
  distinct (map fst es) = true -> In (name, c) es -> os.assoc name es = Some c.
Proof.
  induction es as [|[k v] es IH]; [intros _ []|].
  cbn [map fst distinct os.assoc]. intros H Hin. apply andb_true_iff in H as [Hk Hd].
  destruct Hin as [[= -> ->]|Hin]; [now rewrite String.eqb_refl|].
  destruct (String.eqb_spec k name) as [->|Hne]; [|now apply IH].
  apply negb_true_iff in Hk. exfalso.
  assert (Hex : existsb (String.eqb name) (map fst es) = true).
  { apply existsb_exists. exists name. split; [|apply String.eqb_refl].
    apply in_map_iff. now exists (name, c). }
  congruence.
Qed.

Lemma assoc_In (A : Type) (es : list (string * A)) name c :
  os.assoc name es = Some c -> In (name, c) es.
Proof.
  induction es as [|[k v] es IH]; [discriminate|]. cbn [os.assoc].
  destruct (String.eqb_spec k name) as [->|Hne].
  - intros [= ->]. now left.
  - intros H. right. now apply IH.
Qed.

Lemma well_formed_Dir entries :
  well_formed (os.Dir entries) = true ->
  Forall (fun kv => plain (fst kv) /\ well_formed (snd kv) = true) entries
  /\ distinct (map fst entries) = true.
Proof.
  cbn [well_formed]. rewrite !andb_true_iff, !forallb_forall. intros [[H1 H2] H3].
  split; [|assumption]. apply Forall_forall. intros kv Hin. split.
  - apply file_name_plain. now apply H1.
  - now apply H3.
Qed.

Lemma In_sort_by_name (A : Type) (x : string * A) l : In x l -> In x (os.sort_by_name l).
Proof.
  assert (Hins : forall kv l0, In x (os.insert_by_name kv l0) <-> x = kv \/ In x l0).
  { intros kv l0. induction l0 as [|kv' l0 IH]; cbn [os.insert_by_name].
    - simpl. intuition congruence.
    - destruct (String.ltb (fst kv') (fst kv)); simpl in *; intuition congruence. }
  induction l as [|kv l IH]; [auto|]. unfold os.sort_by_name in *. cbn [fold_right].
  intros [->|H]; apply Hins; [now left | right; auto].
Qed.

End WellFormed.

Section Visited.
Import filepath.

Lemma Join_rooted_name t name :
  Forall plain t -> plain name -> Join (render true t) name = render true (t ++ [name]).
Proof.
  intros Ht Hn. change name with (String.concat "/" [name]) at 1.
  apply Join_rooted_plain; [assumption | now constructor | discriminate].
Qed.

(** What a walk visits, in a well-formed tree: the places at and below its
    root, each under its path and with its own [FileInfo]. *)
Lemma visited_iff (n : os.node) : forall t,
  well_formed n = true -> Forall plain t ->
  forall path info,
    In (path, info) (walk_order n (render true t))
    <-> exists sub m, Forall plain sub /\ os.find sub n = Ok m
                      /\ path = render true (t ++ sub) /\ info = os.info_of path m.
Proof.
  induction n as [data|entries IH] using node_induction; intros t Hwf Ht path info.
  - cbn [walk_order]. split.
    + intros [[= <- <-]|[]]. exists [], (os.File data). rewrite app_nil_r. repeat split. constructor.
    + intros (sub & m & _ & Hf & -> & ->). destruct sub; [|discriminate].
      injection Hf as <-. rewrite app_nil_r. now left.
  - destruct (well_formed_Dir _ Hwf) as [Hes Hd]. cbn [walk_order].
    rewrite sort_by_name_map. split.
    + intros [[= <- <-]|Hin].
      * exists [], (os.Dir entries). rewrite app_nil_r. repeat split. constructor.
      * apply in_flat_map in Hin as (child & Hc & Hin).
        apply in_map_iff in Hc as ([name c] & <- & Hc). cbn [fst snd] in Hin.
        apply sort_by_name_In in Hc.
        rewrite Forall_forall in IH, Hes. destruct (Hes _ Hc) as [Hname Hwfc].
        cbn [fst snd] in Hname, Hwfc.
        rewrite Join_rooted_name in Hin by assumption.
        apply (IH _ Hc (t ++ [name])%list Hwfc (plain_snoc _ _ Ht Hname)) in Hin
          as (sub & m & Hsub & Hf & -> & ->).
        exists (name :: sub), m. rewrite <- app_assoc. cbn [app os.find].
        rewrite (distinct_assoc _ _ _ _ Hd Hc). repeat split; [now constructor | assumption].
    + intros (sub & m & Hsub & Hf & -> & ->). destruct sub as [|name sub].
      * injection Hf as <-. rewrite app_nil_r. now left.
      * right. cbn [os.find] in Hf. destruct (os.assoc name entries) as [c|] eqn:Ha; [|discriminate].
        apply assoc_In in Ha. inversion Hsub as [|? ? Hname Hsub']; subst.
        rewrite Forall_forall in IH, Hes. destruct (Hes _ Ha) as [_ Hwfc]. cbn [snd] in Hwfc.
        apply in_flat_map. exists (name, walk_order c). split.
        -- apply in_map_iff. exists (name, c). split; [reflexivity | now apply In_sort_by_name].
        -- cbn [fst snd]. rewrite Join_rooted_name by assumption.
           apply (IH _ Ha (t ++ [name])%list Hwfc (plain_snoc _ _ Ht Hname)).
           exists sub, m. rewrite <- app_assoc. repeat split; assumption.
Qed.

End Visited.

Section Downloads.
Import filepath.

Lemma assoc_put_in (ws : list (string * string)) : forall acc k v,
  os.assoc k (fold_left (fun acc kv => os.replace_entry (fst kv) (snd kv) acc) ws acc) = Some v ->
  In (k, v) ws \/ os.assoc k acc = Some v.
Proof.
  induction ws as [|[k' v'] ws IH]; intros acc k v H; [now right|].
  cbn [fold_left fst snd] in H. destruct (IH _ _ _ H) as [Hin|Ha]; [left; now right|].
  destruct (String.eqb_spec k k') as [->|Hne].
  - rewrite assoc_replace_same in Ha. injection Ha as ->. left. now left.
  - rewrite assoc_replace_other in Ha by assumption. now right.
Qed.

Lemma assoc_put_last (ws : list (string * string)) : forall acc k v,
  In (k, v) ws \/ os.assoc k acc = Some v ->
  (forall v', In (k, v') ws -> v' = v) ->
  os.assoc k (fold_left (fun acc kv => os.replace_entry (fst kv) (snd kv) acc) ws acc) = Some v.
Proof.
  induction ws as [|[k' v'] ws IH]; intros acc k v H Huniq.
  - destruct H as [[]|H]. exact H.
  - cbn [fold_left fst snd]. apply IH; [|intros v0 H0; apply Huniq; now right].
    destruct (String.eqb_spec k k') as [->|Hne].
    + right. rewrite assoc_replace_same. f_equal. apply Huniq. now left.
    + rewrite assoc_replace_other by assumption.
      destruct H as [[[= -> ->]|H]|H]; [congruence | now left | now right].
Qed.

Lemma concat_inj (a b : list string) :
  Forall plain a -> Forall plain b -> a <> [] -> b <> [] ->
  String.concat "/" a = String.concat "/" b -> a = b.
Proof.
  intros Ha Hb Hna Hnb E.
  rewrite <- (Split_concat a "/"%char), <- (Split_concat b "/"%char);
    try assumption; try now apply plain_no_slash.
  now rewrite E.
Qed.

Variable w : World.
Variable folder : string.

Lemma download_visit_next path info files : snd (download_visit w folder path info files) = Next.
Proof.
  unfold download_visit. destruct (negb (os.IsDir info)); [|reflexivity].
  destruct (Rel folder path); [|reflexivity].
  now destruct (os.ReadFile (cwd w) (fs w) path).
Qed.

Lemma fold_download visited : forall acc,
  fold_left (visit _ (download_visit w folder)) visited acc
  = fold_left (fun acc kv => os.replace_entry (fst kv) (snd kv) acc)
      (download_writes w folder visited) acc.
Proof.
  induction visited as [|[path info] visited IH]; intros acc; [reflexivity|].
  unfold download_writes in *. cbn [fold_left flat_map fst snd]. rewrite fold_left_app, <- IH.
  f_equal. unfold visit, download_visit. cbn [fst snd].
  destruct (os.IsDir info); [reflexivity|]. cbn [negb].
  destruct (Rel folder path); [|reflexivity].
  now destruct (os.ReadFile (cwd w) (fs w) path).
Qed.

Lemma Walk_download root :
  Walk (download_visit w folder) w root []
  = fold_left (fun acc kv => os.replace_entry (fst kv) (snd kv) acc)
      (download_writes w folder (walk_order_from w root)) [].
Proof.
  rewrite <- fold_download.
  apply (Walk_in_order _ (download_visit w folder) (fun _ => False)).
  - intros st path info [].
  - intros st st' path info H. pose proof (download_visit_next path info st) as Hn.
    rewrite H in Hn. discriminate.
Qed.

End Downloads.

Section DownloadFolderFacts.
Import filepath.
Variable w : World.
Variables (t : list string) (entries : list (string * os.node)).
Hypothesis Ht : Forall plain t.
Hypothesis Hdir : os.find t (fs w) = Ok (os.Dir entries).
Hypothesis Hwf : well_formed (os.Dir entries) = true.

Lemma download_writes_iff k data :
  In (k, data) (download_writes w (render true t) (walk_order (os.Dir entries) (render true t)))
  <-> exists sub, Forall plain sub /\ k = String.concat "/" sub
                  /\ os.find (t ++ sub) (fs w) = Ok (os.File data).
Proof.
  unfold download_writes. rewrite in_flat_map. split.
  - intros ([path info] & Hv & Hin).
    apply (visited_iff _ t Hwf Ht) in Hv as (sub & m & Hsub & Hf & -> & ->).
    assert (Hall : Forall plain (t ++ sub)) by (apply Forall_app; now split).
    cbn [fst snd] in Hin.
    rewrite Rel_below, ReadFile_Lookup, Lookup_rooted, find_app, Hdir, Hf in Hin by assumption.
    destruct m as [d|es]; [|destruct (os.IsDir _); destruct Hin].
    cbn [os.info_of os.IsDir] in Hin. destruct Hin as [[= <- <-]|[]].
    exists sub. rewrite find_app, Hdir, Hf. destruct sub; [discriminate|]. now repeat split.
  - intros (sub & Hsub & -> & Hf).
    assert (Hall : Forall plain (t ++ sub)) by (apply Forall_app; now split).
    exists (render true (t ++ sub), os.info_of (render true (t ++ sub)) (os.File data)).
    rewrite find_app, Hdir in Hf. split.
    + apply (visited_iff _ t Hwf Ht). exists sub, (os.File data). now repeat split.
    + cbn [fst snd os.info_of os.IsDir].
      rewrite Rel_below, ReadFile_Lookup, Lookup_rooted, find_app, Hdir, Hf by assumption.
      destruct sub; [discriminate|]. now left.
Qed.

Lemma download_assoc_iff k data :
  os.assoc k (fold_left (fun acc kv => os.replace_entry (fst kv) (snd kv) acc)
                (download_writes w (render true t)
                   (walk_order (os.Dir entries) (render true t))) []) = Some data
  <-> exists sub, Forall plain sub /\ k = String.concat "/" sub
                  /\ os.find (t ++ sub) (fs w) = Ok (os.File data).
Proof.
  rewrite <- download_writes_iff. split.
  - intros H. now destruct (assoc_put_in _ _ _ _ H) as [Hin|Habs].
  - intros Hin. apply assoc_put_last; [now left|].
    intros v' Hin'. apply download_writes_iff in Hin as (sub & Hsub & -> & Hf).
    apply download_writes_iff in Hin' as (sub' & Hsub' & E & Hf').
    assert (Hne : forall s d, os.find (t ++ s) (fs w) = Ok (os.File d) -> s <> []).
    { intros s d H ->. rewrite app_nil_r, Hdir in H. discriminate. }
    apply concat_inj in E; try assumption; [|eapply Hne; eassumption..].
    subst sub'. congruence.
Qed.

End DownloadFolderFacts.

(** X14. [DownloadFolder] answers every regular file at any depth below the
    folder, hidden files and the content of hidden directories included,
    each under its path relative to the folder and with its bytes, and
    nothing else. (For the root itself: when it is configured in canonical
    form.) *)
Theorem X14_DownloadFolder_returns_every_file (p : PublicFilesService) (w : World)
    (input folder : string) (t : list string) (entries : list (string * os.node)) :
  filepath.IsAbs (cwd w) = true ->
  sanitizePathForRead p w input = Ok folder ->
  (normalized input = "" -> publicDir p = publicCanonical p w) ->
  os.resolve (cwd w) folder = Some t ->
  os.find t (fs w) = Ok (os.Dir entries) ->
  well_formed (os.Dir entries) = true ->
  exists files,
    DownloadFolder p w input = (Ok files, w)
    /\ forall k data,
         os.assoc k files = Some data
         <-> exists sub, Forall plain sub /\ k = String.concat "/" sub
                         /\ os.find (t ++ sub) (fs w) = Ok (os.File data).
Proof.
  intros Hcwd Hr Hroot Hres Hdir Hwf.
  assert (Hshape : Forall plain t /\ folder = filepath.render true t).
  { destruct (read_below p w input folder Hcwd Hr)
      as (Hfree & [[Hn ->]|(_ & R & n & HX & HR & Hpc & -> & _)]).
    - destruct (canonical_shape (cwd w) (publicDir p) "x" Hcwd eq_refl ltac:(discriminate))
        as (X & HX & Hpc & _); [repeat constructor; discriminate|].
      fold (publicCanonical p w) in Hpc. rewrite (Hroot Hn), Hpc in *.
      rewrite resolve_rooted in Hres by assumption. injection Hres as <-. now split.
    - assert (Hall : Forall plain (root_elements p w ++ R)).
      { apply Forall_app. split; [assumption|]. eapply Forall_impl; [|exact HR]. now intros a [Ha _]. }
      rewrite resolve_rooted in Hres by assumption. injection Hres as <-. now split. }
  destruct Hshape as [Ht ->].
  unfold DownloadFolder. rewrite Hr. cbv zeta.
  rewrite Stat_Lookup, Lookup_rooted, Hdir by assumption. cbn [os.info_of os.IsDir negb].
  eexists. split; [reflexivity|]. intros k data.
  rewrite Walk_download. unfold walk_order_from. rewrite resolve_rooted, Hdir by assumption.
  now apply download_assoc_iff.
Qed.

Lemma X14_DownloadFolder_returns_every_file_witness :
  exists files,
    DownloadFolder Demo.service Demo.world "" = (Ok files, Demo.world)
    /\ os.assoc ".secret/notes2.txt" files = Some "s"
    /\ os.assoc "docs/A.txt" files = Some "a".
Proof.
  destruct (X14_DownloadFolder_returns_every_file Demo.service Demo.world "" "/srv/pub"
              ["srv"; "pub"] (match Demo.store with os.Dir es => es | os.File _ => [] end)
              eq_refl eq_refl (fun _ => eq_refl) eq_refl eq_refl eq_refl)
    as (files & E & H).
  exists files. split; [exact E|]. split; apply H.
  - exists [".secret"; "notes2.txt"]. split; [repeat constructor; discriminate|]. now split.
  - exists ["docs"; "A.txt"]. split; [repeat constructor; discriminate|]. now split.
Defined.

(** ** Copying a folder *)

Section TreeAlgebra.
Import os.

Lemma replace_replace (A : Type) name (c c' : A) es :
  replace_entry name c' (replace_entry name c es) = replace_entry name c' es.
Proof.
  induction es as [|[k v] es IH]; cbn [replace_entry].
  - now rewrite String.eqb_refl.
  - destruct (k =? name) eqn:E; cbn [replace_entry]; [now rewrite String.eqb_refl|].
    now rewrite E, IH.
Qed.

Lemma replace_absent (A : Type) name (c : A) es :
  assoc name es = None -> replace_entry name c es = (es ++ [(name, c)])%list.
Proof.
  induction es as [|[k v] es IH]; cbn [replace_entry assoc app]; [reflexivity|].
  destruct (k =? name); [discriminate|]. intros H. now rewrite IH.
Qed.

(** [MkdirAll] of a missing name in an existing directory. *)
Lemma mkdir_all_leaf l : forall x n es,
  find l n = Ok (Dir es) -> assoc x es = None ->
  mkdir_all (l ++ [x]) n = update (l ++ [x]) (put (Dir [])) n.
Proof.
  induction l as [|a l IH]; intros x n es Hf Hx.
  - cbn [find] in Hf. injection Hf as ->. cbn [app mkdir_all update]. now rewrite Hx.
  - destruct n as [|es0]; [discriminate|]. cbn [find] in Hf.
    destruct (assoc a es0) as [c|] eqn:Ha; [|discriminate].
    cbn [app mkdir_all update]. rewrite Ha, (IH x c es Hf Hx).
    destruct (l ++ [x])%list eqn:E; [now destruct l | reflexivity].
Qed.

Lemma update_cons a q f es :
  q <> [] ->
  update (a :: q) f (Dir es)
  = match assoc a es with
    | None => Err ENOENT
    | Some c => match update q f c with
                | Err err => Err err
                | Ok c' => Ok (Dir (set_entry a (Some c') es))
                end
    end.
Proof. destruct q; [congruence | reflexivity]. Qed.

(** Changing an entry of a directory that was just put in place. *)
Lemma update_child d : forall name f n n1 X v,
  d <> [] -> update d (put (Dir X)) n = Ok n1 -> f (assoc name X) = Ok v ->
  update (d ++ [name]) f n1 = update d (put (Dir (set_entry name v X))) n.
Proof.
  induction d as [|a d IH]; intros name f n n1 X v Hne Hu Hf; [congruence|].
  destruct n as [|es0]; [discriminate|].
  destruct d as [|b d].
  - cbn [update put] in Hu. injection Hu as <-.
    change ([a] ++ [name])%list with (a :: [name])%list.
    rewrite update_cons by discriminate. cbn [set_entry]. rewrite assoc_replace_same.
    cbn [update put]. rewrite Hf. cbn [set_entry]. do 2 f_equal. apply replace_replace.
  - rewrite update_cons in Hu by discriminate.
    destruct (assoc a es0) as [c|] eqn:Ha; [|discriminate].
    destruct (update (b :: d) (put (Dir X)) c) as [c1|] eqn:Hc; [|discriminate].
    injection Hu as <-.
    change ((a :: b :: d) ++ [name])%list with (a :: ((b :: d) ++ [name]))%list.
    rewrite !update_cons by discriminate. cbn [set_entry].
    rewrite assoc_replace_same, Ha.
    rewrite (IH name f c c1 X v ltac:(discriminate) Hc Hf).
    destruct (update (b :: d) (put (Dir (set_entry name v X))) c); [|reflexivity].
    do 2 f_equal. apply replace_replace.
Qed.

Lemma distinct_NoDup l : distinct l = true <-> NoDup l.
Proof.
  induction l as [|x l IH]; cbn [distinct]; [split; [constructor | reflexivity]|].
  rewrite andb_true_iff, negb_true_iff, IH. split.
  - intros [Hx Hl]. constructor; [|assumption]. intros Hin.
    assert (existsb (String.eqb x) l = true)
      by (apply existsb_exists; exists x; split; [assumption | apply String.eqb_refl]).
    congruence.
  - intros H. inversion H as [|? ? Hx Hl]; subst. split; [|assumption].
    destruct (existsb (String.eqb x) l) eqn:E; [|reflexivity].
    apply existsb_exists in E as (y & Hy & Exy). apply String.eqb_eq in Exy as ->. contradiction.
Qed.

Lemma insert_by_name_perm (A : Type) (kv : string * A) l :
  Permutation (kv :: l) (insert_by_name kv l).
Proof.
  induction l as [|kv' l IH]; cbn [insert_by_name]; [reflexivity|].
  destruct (String.ltb (fst kv') (fst kv)); [|reflexivity].
  rewrite perm_swap. now constructor.
Qed.

Lemma sort_by_name_perm (A : Type) (l : list (string * A)) : Permutation l (sort_by_name l).
Proof.
  induction l as [|kv l IH]; [constructor|]. unfold sort_by_name in *. cbn [fold_right].
  rewrite <- insert_by_name_perm. now constructor.
Qed.

Lemma sorted_names_NoDup (A : Type) (l : list (string * A)) :
  distinct (map fst l) = true -> NoDup (map fst (sort_by_name l)).
Proof.
  intros H. apply distinct_NoDup in H.
  eapply Permutation_NoDup; [|exact H]. apply Permutation_map, sort_by_name_perm.
Qed.

Lemma assoc_absent (A : Type) (es : list (string * A)) name :
  ~ In name (map fst es) -> assoc name es = None.
Proof.
  induction es as [|[k v] es IH]; [reflexivity|]. cbn [map fst assoc]. intros H.
  destruct (String.eqb_spec k name) as [->|Hne]; [exfalso; apply H; now left|].
  apply IH. intros Hin. apply H. now right.
Qed.

End TreeAlgebra.

Section CopyDirectory.
Import filepath.
Variable w : World.

Lemma apart_sym q r : apart q r -> apart r q.
Proof. intros [H1 H2]. now split. Qed.

Lemma apart_children s d a b : apart s d -> apart (s ++ [a]) (d ++ [b]).
Proof.
  intros H. apply apart_sym, apart_below, apart_sym, apart_below. exact H.
Qed.

Lemma update_put_any d : forall m m' n n1,
  os.update d (put m) n = Ok n1 -> exists n2, os.update d (put m') n = Ok n2.
Proof.
  induction d as [|a d IH]; intros m m' n n1 H; [discriminate|].
  destruct n as [|es]; [discriminate|]. destruct d as [|b d].
  - cbn [os.update put]. eauto.
  - rewrite update_cons in * by discriminate.
    destruct (os.assoc a es) as [c|]; [|discriminate].
    destruct (os.update (b :: d) (put m) c) as [c1|] eqn:Hc; [|discriminate].
    destruct (IH m m' c c1 Hc) as [c2 ->]. eauto.
Qed.

Lemma height_child name c entries :
  In (name, c) entries -> (height c < height (os.Dir entries))%nat.
Proof.
  cbn [height]. induction entries as [|kv entries IH]; [intros []|].
  cbn [fold_right]. intros [->|Hin]; cbn [snd]; [lia|]. specialize (IH Hin). lia.
Qed.

Lemma map_fst_copies (l : list (string * os.node)) :
  map fst (map (fun kv => (fst kv, copy_of (snd kv))) l) = map fst l.
Proof. rewrite map_map. now apply map_ext. Qed.

(** [copyDirectory] puts the copy of a directory at a name that is missing
    in an existing directory, provided neither place is below the other. *)
Lemma copyDirectory_copies (n : os.node) :
  forall depth fs0 s l x es',
    is_dir n = true -> well_formed n = true -> (height n <= depth)%nat ->
    Forall plain s -> Forall plain (l ++ [x]) ->
    os.find s fs0 = Ok n ->
    os.find l fs0 = Ok (os.Dir es') -> os.assoc x es' = None ->
    apart s (l ++ [x]) ->
    exists fs',
      copyDirectory depth w fs0 (render true s) (render true (l ++ [x])) = Some (None, fs')
      /\ os.update (l ++ [x]) (put (copy_of n)) fs0 = Ok fs'.
Proof.
  induction n as [data|entries IH] using node_induction;
    intros depth fs0 s l x es' Hisdir Hwf Hdepth Hs Hd Hfs Hfl Hx Hap; [discriminate|].
  destruct depth as [|k]; [cbn [height] in Hdepth; lia|].
  destruct (well_formed_Dir _ Hwf) as [Hes Hdist].
  set (d := (l ++ [x])%list) in *.
  assert (Hdne : d <> []) by (unfold d; now destruct l).
  set (cp := fun kv : string * os.node => (fst kv, copy_of (snd kv))).
  set (E := os.sort_by_name entries).
  assert (Hcopy : copy_of (os.Dir entries) = os.Dir (map cp E)).
  { cbn [copy_of]. unfold E. now rewrite sort_by_name_map. }
  rewrite Hcopy.
  cbn [copyDirectory]. unfold os.ReadDir. rewrite at_rooted, Hfs by assumption.
  rewrite MkdirAll_rooted by assumption. unfold d at 1.
  rewrite (mkdir_all_leaf l x fs0 es' Hfl Hx). fold d.
  destruct (update_in_dir l x (put (os.Dir [])) fs0 es' (Some (os.Dir [])) Hfl eq_refl)
    as [fs1 Hfs1].
  fold d in Hfs1. rewrite Hfs1. fold E.
  match goal with |- exists fs', ?L E fs1 = _ /\ _ => set (loop := L) end.
  assert (Hnil : forall fs_i, loop [] fs_i = Some (None, fs_i)) by reflexivity.
  assert (Hstep : forall name c rest fs_i,
            loop ((name, c) :: rest) fs_i
            = if is_dir c then
                match copyDirectory k w fs_i (Join (render true s) name)
                        (Join (render true d) name) with
                | None => None
                | Some (Some err, fs2) => Some (Some err, fs2)
                | Some (None, fs2) => loop rest fs2
                end
              else
                match os.ReadFile (cwd w) fs_i (Join (render true s) name) with
                | Err e => Some (Some (os.path_error "read" (Join (render true s) name) e), fs_i)
                | Ok data =>
                    match os.WriteFile (cwd w) fs_i (Join (render true d) name) data with
                    | Err e =>
                        Some (Some (os.path_error "open" (Join (render true d) name) e), fs_i)
                    | Ok fs2 => loop rest fs2
                    end
                end) by reflexivity.
  clearbody loop.
  assert (Hloop : forall rest done fs_i,
            E = (done ++ rest)%list ->
            os.update d (put (os.Dir (map cp done))) fs0 = Ok fs_i ->
            exists fs', loop rest fs_i = Some (None, fs')
                        /\ os.update d (put (os.Dir (map cp E))) fs0 = Ok fs').
  { induction rest as [|[name c] rest IHrest]; intros done fs_i HE Hi.
    - rewrite app_nil_r in HE. subst done. rewrite Hnil. eauto.
    - assert (HinE : In (name, c) E) by (rewrite HE; apply in_or_app; right; now left).
      pose proof (sort_by_name_In _ _ _ HinE) as Hin.
      rewrite Forall_forall in Hes, IH. destruct (Hes _ Hin) as [Hname Hwfc].
      cbn [fst snd] in Hname, Hwfc.
      assert (Hfresh : os.assoc name (map cp done) = None).
      { apply assoc_absent. unfold cp. rewrite map_fst_copies. intros Hdone.
        pose proof (sorted_names_NoDup _ entries Hdist) as Hnd. fold E in Hnd.
        rewrite HE, map_app in Hnd. cbn [map fst] in Hnd.
        apply NoDup_remove_2 in Hnd. apply Hnd, in_or_app. now left. }
      assert (Hsrc : os.find (s ++ [name]) fs_i = Ok c).
      { rewrite (find_update_diverge d (s ++ [name]) _ _ _ Hi);
          [|apply (apart_sym _ _ (apart_below _ _ [name] (apart_sym _ _ Hap)))..].
        rewrite find_app, Hfs. cbn [os.find].
        now rewrite (distinct_assoc _ _ _ _ Hdist Hin). }
      assert (Hdst : os.find d fs_i = Ok (os.Dir (map cp done))).
      { destruct (find_update_same _ _ _ _ Hi) as (v & Hv & Hf).
        cbn [put] in Hv. injection Hv as <-. exact Hf. }
      pose proof (plain_snoc _ _ Hs Hname) as Hps.
      pose proof (plain_snoc _ _ Hd Hname) as Hpd.
      rewrite Hstep, !Join_rooted_name by assumption.
      assert (HE' : E = ((done ++ [(name, c)]) ++ rest)%list) by now rewrite <- app_assoc.
      destruct c as [data|centries].
      + cbn [is_dir]. rewrite ReadFile_Lookup, Lookup_rooted, Hsrc by assumption.
        rewrite WriteFile_rooted by assumption.
        rewrite (update_child d name _ fs0 fs_i (map cp done) (Some (os.File data)) Hdne Hi)
          by now rewrite Hfresh.
        cbn [os.set_entry]. rewrite replace_absent by assumption.
        change [(name, os.File data)] with (map cp [(name, os.File data)]).
        rewrite <- map_app.
        destruct (update_put_any d _ (os.Dir (map cp (done ++ [(name, os.File data)]))) _ _ Hi)
          as [fs2 H2].
        rewrite H2. exact (IHrest _ fs2 HE' H2).
      + cbn [is_dir].
        assert (Hk : (height (os.Dir centries) <= k)%nat)
          by (pose proof (height_child _ _ _ Hin); lia).
        destruct (IH _ Hin k fs_i (s ++ [name])%list d name (map cp done)
                    eq_refl Hwfc Hk Hps Hpd Hsrc Hdst Hfresh (apart_children _ _ _ _ Hap))
          as (fs2 & Hrun & H2).
        cbn [snd] in Hrun. rewrite Hrun.
        rewrite (update_child d name _ fs0 fs_i (map cp done)
                   (Some (copy_of (os.Dir centries))) Hdne Hi eq_refl) in H2.
        cbn [os.set_entry] in H2. rewrite replace_absent in H2 by assumption.
        change [(name, copy_of (os.Dir centries))]
          with (map cp [(name, os.Dir centries)]) in H2.
        rewrite <- map_app in H2. exact (IHrest _ fs2 HE' H2). }
  exact (Hloop E [] fs1 eq_refl Hfs1).
Qed.

End CopyDirectory.

Lemma mkdir_all_keeps l : forall n n' q,
  os.mkdir_all l n = Ok n' -> os.is_prefix q l = false -> os.find q n' = os.find q n.
Proof.
  induction l as [|a l IH]; intros n n' q H Hq.
  - destruct n; [discriminate|]. now injection H as <-.
  - destruct q as [|b q]; [discriminate|].
    destruct n as [|es]; [discriminate|]. cbn [os.mkdir_all] in H.
    destruct (os.mkdir_all l _) as [c'|] eqn:Hm; [|discriminate]. injection H as <-.
    cbn [os.find os.set_entry os.is_prefix] in *.
    destruct (String.eqb_spec b a) as [->|Hne].
    + rewrite assoc_replace_same. cbn [andb] in Hq. rewrite (IH _ _ q Hm Hq).
      destruct (os.assoc a es); [reflexivity|].
      destruct q; [discriminate | reflexivity].
    + now rewrite assoc_replace_other.
Qed.

(** X15. [CopyFolder] of an existing directory to a name that is missing,
    not below the directory itself: with room for the nesting of the source,
    the call succeeds; afterwards the destination holds a copy of the whole
    tree, file by file, with the entries of each directory in the order of
    their names; the source is as before and so is every place apart from
    the destination. The [folder_copied] message names the destination by
    its path on the server without the leading slash, where the answer
    names it relative to the root. *)
Theorem X15_CopyFolder_copies_the_tree (p : PublicFilesService) (w : World)
    (source destination src dst : string) (entries : list (string * os.node))
    (depth : nat) (from to : list string) :
  filepath.IsAbs (cwd w) = true ->
  sanitizePathForWrite p w source = Ok src ->
  sanitizePathForWrite p w destination = Ok dst ->
  os.Lookup (cwd w) (fs w) src = Ok (os.Dir entries) ->
  well_formed (os.Dir entries) = true ->
  os.Lookup (cwd w) (fs w) dst = Err os.ENOENT ->
  os.resolve (cwd w) src = Some from -> os.resolve (cwd w) dst = Some to ->
  os.is_prefix from to = false ->
  (height (os.Dir entries) <= depth)%nat ->
  exists r w',
    CopyFolder p depth w source destination = Some (Ok r, w')
    /\ os.Lookup (cwd w') (fs w') dst = Ok (copy_of (os.Dir entries))
    /\ os.Lookup (cwd w') (fs w') src = Ok (os.Dir entries)
    /\ (forall q, apart q to -> os.find q (fs w') = os.find q (fs w))
    /\ In ("destination", dtos.VStr (rel_path p dst)) r
    /\ exists m,
         sent w' = (if wsHub p then sent w ++ [m] else sent w)%list
         /\ dtos.EventType m = "folder_copied"
         /\ In ("destination_path", dtos.VStr (strings.TrimPrefix dst "/")) (dtos.Data m).
Proof.
  intros Hcwd Hsrc Hdst Hn Hwf Hmiss Hfrom Hto Hpre Hdepth.
  destruct (write_shape p w source src Hcwd Hsrc) as (_ & _ & _ & l1 & e1 & Hl1 & He1 & ->).
  destruct (write_shape p w destination dst Hcwd Hdst) as (_ & _ & _ & l2 & e2 & Hl2 & He2 & ->).
  pose proof (plain_snoc _ _ Hl1 He1) as Hp1. pose proof (plain_snoc _ _ Hl2 He2) as Hp2.
  rewrite resolve_rooted in Hfrom, Hto by assumption.
  injection Hfrom as <-. injection Hto as <-.
  rewrite Lookup_rooted in Hn, Hmiss by assumption.
  unfold CopyFolder. rewrite Hsrc, Hdst, !Stat_Lookup, !Lookup_rooted, Hn, Hmiss by assumption.
  rewrite Dir_rooted, MkdirAll_rooted by assumption.
  destruct (mkdir_all_missing l2 e2 (fs w) Hmiss) as [fs1 Hm]. rewrite Hm.
  assert (Hpre2 : os.is_prefix (l1 ++ [e1]) l2 = false).
  { destruct (os.is_prefix (l1 ++ [e1]) l2) eqn:E; [|reflexivity].
    rewrite (is_prefix_trans _ _ _ E (is_prefix_app l2 [e2])) in Hpre. discriminate. }
  pose proof (mkdir_all_keeps_node _ _ _ _ _ Hm Hn Hpre2) as Hn1.
  pose proof (mkdir_all_keeps_missing _ _ _ _ Hm Hmiss (is_prefix_longer l2 e2)) as Hm1.
  destruct (mkdir_all_dir _ _ _ Hm) as [es' Hes'].
  assert (Hx : os.assoc e2 es' = None).
  { pose proof (occupant_in_dir l2 e2 fs1 es' Hes') as Hocc. unfold occupant in Hocc.
    now rewrite Hm1 in Hocc. }
  assert (Hap : apart (l1 ++ [e1]) (l2 ++ [e2])).
  { split; [assumption|]. eapply exists_and_missing_apart; eassumption. }
  destruct (copyDirectory_copies w (os.Dir entries) depth fs1 (l1 ++ [e1]) l2 e2 es'
              eq_refl Hwf Hdepth Hp1 Hp2 Hn1 Hes' Hx Hap) as (fs2 & -> & Hu).
  destruct (find_update_same _ _ _ _ Hu) as (v & Hv & Hf2).
  cbn [put] in Hv. injection Hv as <-. cbn [found] in Hf2.
  cbn [cwd fs with_fs]. rewrite Stat_Lookup, Lookup_rooted, Hf2 by assumption.
  eexists. eexists. split; [reflexivity|].
  match goal with |- context [notifyWebSocket p ?w0 ?ev ?d] =>
    destruct (notify_world p w0 ev d) as [Ecwd Efs];
    assert (Hsent : sent (notifyWebSocket p w0 ev d)
                    = (if wsHub p
                       then sent w ++ [ {| dtos.EventType := ev; dtos.Data := d;
                                           dtos.Timestamp := now w |} ]
                       else sent w)%list)
      by (unfold notifyWebSocket; now destruct (wsHub p));
    set (w1 := notifyWebSocket p w0 ev d) in *
  end.
  simpl in Ecwd, Efs. rewrite Ecwd, Efs, !Lookup_rooted by assumption.
  split; [assumption|]. split; [|split; [|split]].
  - destruct Hap as [H1 H2]. now rewrite (find_update_diverge _ _ _ _ _ Hu H2 H1).
  - intros q Hq. rewrite (update_frame _ _ _ _ _ Hu Hq).
    apply (mkdir_all_keeps _ _ _ _ Hm). destruct Hq as [Hq _].
    destruct (os.is_prefix q l2) eqn:E; [|reflexivity].
    rewrite (is_prefix_trans _ _ _ E (is_prefix_app l2 [e2])) in Hq. discriminate.
  - simpl. tauto.
  - eexists. split; [exact Hsent|]. split; [reflexivity|]. simpl. tauto.
Qed.

Lemma X15_CopyFolder_copies_the_tree_witness :
  exists r w',
    CopyFolder Demo.service 1 Demo.world "docs" "copy/docs2" = Some (Ok r, w')
    /\ os.Lookup (cwd w') (fs w') "/srv/pub/copy/docs2"
       = Ok (os.Dir [("A.txt", os.File "a"); ("b.txt", os.File "bb")])
    /\ In ("destination", dtos.VStr "copy/docs2") r
    /\ exists m,
         sent w' = [m]
         /\ In ("destination_path", dtos.VStr "srv/pub/copy/docs2") (dtos.Data m).
Proof.
  destruct (X15_CopyFolder_copies_the_tree Demo.service Demo.world "docs" "copy/docs2"
              "/srv/pub/docs" "/srv/pub/copy/docs2"
              [("b.txt", os.File "bb"); ("A.txt", os.File "a")] 1
              ["srv"; "pub"; "docs"] ["srv"; "pub"; "copy"; "docs2"]
              eq_refl eq_refl eq_refl eq_refl eq_refl eq_refl eq_refl eq_refl eq_refl
              (le_n 1))
    as (r & w' & E & Hd & _ & _ & Hr & m & Hs & _ & Hm).
  exists r, w'. split; [exact E|]. split; [exact Hd|]. split; [exact Hr|].
  exists m. split; [exact Hs | exact Hm].
Defined.

(** ** Reading and failed uploads *)

(** Links apart, [DownloadItem] discloses nothing but regular files at or
    below the root that are reached through components none of which starts
    with a dot; it never changes the world. *)
Lemma DownloadItem_reads_below (p : PublicFilesService) (w w' : World)
    (input data : string) :
  filepath.IsAbs (cwd w) = true ->
  DownloadItem p w input = (Ok data, w') ->
  w' = w
  /\ exists R, Forall visible R
               /\ os.find (root_elements p w ++ R) (fs w) = Ok (os.File data).
Proof.
  intros Hcwd H. unfold DownloadItem in H.
  destruct (sanitizePathForRead p w input) as [c|] eqn:Hr; [|discriminate].
  cbv zeta in H.
  destruct (os.Stat (cwd w) (fs w) c) as [info|] eqn:Hs; [|discriminate].
  destruct (os.IsDir info); [discriminate|].
  destruct (os.ReadFile (cwd w) (fs w) c) as [d|] eqn:Hread; [|discriminate].
  injection H as <- <-. split; [reflexivity|].
  rewrite ReadFile_Lookup in Hread.
  destruct (read_below p w input c Hcwd Hr) as (_ & [[_ ->]|(_ & R & n & HX & HR & _ & -> & _)]).
  - exists []. split; [constructor|]. rewrite app_nil_r.
    unfold os.Lookup, os.at_path, os.resolve in Hread.
    destruct (publicDir p =? ""); [discriminate|].
    fold (publicCanonical p w) in Hread. fold (root_elements p w) in Hread.
    destruct (os.find (root_elements p w) (fs w)) as [[|]|]; try discriminate. congruence.
  - exists R. split; [assumption|].
    assert (Hall : Forall plain (root_elements p w ++ R)).
    { apply Forall_app. split; [assumption|]. eapply Forall_impl; [|exact HR]. now intros a [Ha _]. }
    rewrite Lookup_rooted in Hread by assumption.
    destruct (os.find (root_elements p w ++ R) (fs w)) as [[|]|]; try discriminate. congruence.
Qed.

Section FailedUpload.
Local Open Scope Z_scope.
Variable w : World.
Variables (l : list string) (e : string).
Hypothesis Hplain : Forall plain (l ++ [e]).

Lemma upload_loop_fails (data : Reader) : forall fs0 d0 msg,
  os.find (l ++ [e]) fs0 = Ok (os.File d0) ->
  fails_with data = Some msg ->
  strings.len (d0 ++ stream_bytes data) <= maxTotalSize ->
  exists fs',
    upload_loop w (filepath.render true (l ++ [e])) fs0 (strings.len d0) data
    = (Err (response ("Failed to read chunk: " ++ msg) (Some msg)), fs')
    /\ os.find (l ++ [e]) fs' = Err os.ENOENT.
Proof.
  induction data as [|r data IH]; intros fs0 d0 msg Hf Hfail Hcap; [discriminate|].
  cbn [upload_loop stream_bytes fails_with] in *.
  rewrite <- append_assoc in Hcap.
  pose proof (len_append d0 (chunk r)) as Hlen.
  pose proof (len_append (d0 ++ chunk r)
                (match read_err r with Some _ => "" | None => stream_bytes data end)) as Hlen2.
  pose proof (len_nonneg (match read_err r with Some _ => "" | None => stream_bytes data end)).
  destruct (Z.gtb_spec (strings.len (chunk r)) 0) as [Hpos|Hzero].
  - rewrite <- Hlen. cbn [andb].
    destruct (Z.gtb_spec (strings.len (d0 ++ chunk r)) maxTotalSize) as [Hover|Hfits]; [lia|].
    destruct (Write_appends w l e Hplain fs0 d0 (chunk r) Hf) as (fs1 & -> & Hf1).
    destruct (read_err r) as [[|msg']|]; [discriminate | |].
    + injection Hfail as ->. eexists. split; [reflexivity|].
      eapply remove_quietly_file; eassumption.
    + exact (IH fs1 (d0 ++ chunk r)%string msg Hf1 Hfail Hcap).
  - assert (Hempty : chunk r = "") by (apply len_zero; lia).
    cbn [andb]. rewrite Hempty, append_nil_r in *.
    destruct (read_err r) as [[|msg']|]; [discriminate | |].
    + injection Hfail as ->. eexists. split; [reflexivity|].
      eapply remove_quietly_file; eassumption.
    + exact (IH fs0 d0 msg Hf Hfail Hcap).
Qed.

End FailedUpload.

(** X17. An upload whose reader fails leaves no file: [UploadFile] answers
    "Failed to read chunk", hands nothing to the hub, and the path names
    nothing afterwards, also when it named a regular file before the call,
    which is lost. *)
Theorem X17_failed_upload_leaves_no_file (p : PublicFilesService) (w : World)
    (filePath file : string) (data : Reader) (msg : string) :
  filepath.IsAbs (cwd w) = true ->
  sanitizePathForWrite p w filePath = Ok file ->
  (os.Stat (cwd w) (fs w) file = Err os.ENOENT
   \/ exists old, os.ReadFile (cwd w) (fs w) file = Ok old) ->
  fails_with data = Some msg ->
  (strings.len (stream_bytes data) <= maxTotalSize)%Z ->
  exists w',
    UploadFile p w filePath data
    = (Err (response ("Failed to read chunk: " ++ msg) (Some msg)), w')
    /\ os.Stat (cwd w') (fs w') file = Err os.ENOENT
    /\ sent w' = sent w.
Proof.
  intros Hcwd Hfile Htarget Hfail Hcap.
  destruct (write_shape p w filePath file Hcwd Hfile) as (_ & _ & _ & l & e & Hl & He & ->).
  pose proof (plain_snoc _ _ Hl He) as Hp.
  assert (Ht : os.find (l ++ [e]) (fs w) = Err os.ENOENT
               \/ exists old, os.find (l ++ [e]) (fs w) = Ok (os.File old)).
  { destruct Htarget as [H|[old H]].
    - left. rewrite Stat_Lookup, Lookup_rooted in H by assumption.
      destruct (os.find (l ++ [e]) (fs w)); [discriminate | congruence].
    - right. exists old. rewrite ReadFile_Lookup, Lookup_rooted in H by assumption.
      destruct (os.find (l ++ [e]) (fs w)) as [[|]|]; try discriminate. congruence. }
  destruct (create_target l e (fs w) Ht) as (fs1 & fs2 & Hm & Hu & Hf2).
  destruct (upload_loop_fails w l e Hp data fs2 "" msg Hf2 Hfail Hcap) as (fs3 & Hloop & Hgone).
  change (strings.len "") with 0%Z in Hloop.
  unfold UploadFile. rewrite Hfile.
  rewrite Dir_rooted, MkdirAll_rooted, Hm by assumption.
  unfold os.Create. rewrite WriteFile_rooted, Hu, Hloop by assumption.
  eexists. split; [reflexivity|]. cbn [cwd fs sent with_fs].
  split; [|reflexivity]. now rewrite Stat_Lookup, Lookup_rooted, Hgone.
Qed.

Lemma X17_failed_upload_leaves_no_file_witness :
  os.ReadFile "/app" (fs Demo.world) "/srv/pub/notes.txt" = Ok "hello"
  /\ exists w',
       UploadFile Demo.service Demo.world "notes.txt"
         [ {| chunk := "abc"; read_err := None |};
           {| chunk := ""; read_err := Some (ReadFailure "connection reset") |} ]
       = (Err (response "Failed to read chunk: connection reset" (Some "connection reset")), w')
       /\ os.Stat (cwd w') (fs w') "/srv/pub/notes.txt" = Err os.ENOENT
       /\ sent w' = [].
Proof.
  split; [reflexivity|].
  apply (X17_failed_upload_leaves_no_file Demo.service Demo.world "notes.txt"
           "/srv/pub/notes.txt" _ "connection reset" eq_refl eq_refl).
  - right. now exists "hello".
  - reflexivity.
  - vm_compute. discriminate.
Defined.

(** ** Symbolic links *)

Section LinkedPaths.
Import filepath.

Lemma walk_steps links root follow here comps :
  linked.walk links root follow here comps
  = linked.steps (fun here' comps' =>
                    match links with
                    | O => Err os.ELOOP
                    | S links' => linked.walk links' root follow here' comps'
                    end) root follow here comps.
Proof. destruct links; reflexivity. Qed.

Lemma linked_find_app l : forall l' n,
  linked.find (l ++ l') n
  = match linked.find l n with Ok m => linked.find l' m | Err e => Err e end.
Proof.
  induction l as [|e l IH]; intros l' n; [reflexivity|].
  cbn [app linked.find]. destruct n as [|es|]; try reflexivity.
  destruct (os.assoc e es); [apply IH | reflexivity].
Qed.

Lemma plain_tests c :
  plain c -> (c =? "") || (c =? ".") = false /\ (c =? "..") = false.
Proof.
  intros (Hr & Hd & _). unfold real in Hr. apply negb_true_iff in Hr.
  split; [assumption | now apply String.eqb_neq].
Qed.

(** Along names that are there and are no links, resolution goes down the
    tree. *)
Lemma steps_along onward root follow l : forall here rest n,
  Forall plain l -> linked.find (here ++ l) root = Ok n ->
  (forall target, n <> linked.Symlink target) ->
  linked.steps onward root follow here (l ++ rest)
  = linked.steps onward root follow (here ++ l) rest.
Proof.
  induction l as [|c l IH]; intros here rest n Hl Hf Hn.
  - now rewrite app_nil_r.
  - inversion Hl as [|? ? Hc Hl']; subst.
    destruct (plain_tests c Hc) as [H1 H2].
    rewrite linked_find_app in Hf.
    destruct (linked.find here root) as [[|es|]|] eqn:Hh; try discriminate.
    cbn [linked.find] in Hf.
    destruct (os.assoc c es) as [child|] eqn:Hc'; [|discriminate].
    cbn [app linked.steps]. rewrite Hh, H1, H2, Hc'.
    replace (here ++ c :: l)%list with ((here ++ [c]) ++ l)%list by now rewrite <- app_assoc.
    assert (Hchild : linked.find ((here ++ [c]) ++ l) root = Ok n).
    { rewrite <- app_assoc. cbn [app]. rewrite linked_find_app, Hh. cbn [linked.find].
      now rewrite Hc'. }
    destruct child as [d|es'|target].
    + now apply (IH _ _ n).
    + now apply (IH _ _ n).
    + destruct l; [|discriminate]. injection Hf as <-. now destruct (Hn target).
Qed.

(** At a link that is not the end of the path, or when the call follows
    links, resolution goes on at the target of the link. *)
Lemma steps_link onward root follow here es c target rest :
  plain c -> linked.find here root = Ok (linked.Dir es) ->
  os.assoc c es = Some (linked.Symlink target) -> target <> "" ->
  rest <> [] \/ follow = true ->
  linked.steps onward root follow here (c :: rest)
  = onward (if IsAbs target then [] else here)
           (strings.Split target Separator ++ rest)%list.
Proof.
  intros Hc Hh Ha Ht Hr. destruct (plain_tests c Hc) as [H1 H2].
  apply String.eqb_neq in Ht.
  cbn [linked.steps]. rewrite Hh, H1, H2, Ha, Ht.
  destruct rest; [|reflexivity]. destruct Hr as [Hr| ->]; [now destruct Hr | reflexivity].
Qed.

Lemma steps_missing onward root follow here es c :
  plain c -> linked.find here root = Ok (linked.Dir es) -> os.assoc c es = None ->
  linked.steps onward root follow here [c] = Ok (linked.Missing here c).
Proof.
  intros Hc Hh Ha. destruct (plain_tests c Hc) as [H1 H2].
  cbn [linked.steps]. now rewrite Hh, H1, H2, Ha.
Qed.

Lemma steps_rooted onward root follow l es :
  linked.find [] root = Ok (linked.Dir es) ->
  linked.steps onward root follow [] ("" :: l) = linked.steps onward root follow [] l.
Proof. intros H. cbn [linked.steps]. now rewrite H. Qed.

Lemma linked_root_is_dir l e t n :
  linked.find (l ++ [e]) t = Ok n -> exists es, t = linked.Dir es.
Proof.
  intros H. destruct t as [d|es|target]; [|now exists es|];
    destruct l; discriminate.
Qed.

Lemma linked_find_snoc l e t n :
  linked.find (l ++ [e]) t = Ok n ->
  exists es, linked.find l t = Ok (linked.Dir es) /\ os.assoc e es = Some n.
Proof.
  rewrite linked_find_app. destruct (linked.find l t) as [[d|es|target]|]; try discriminate.
  cbn [linked.find]. destruct (os.assoc e es) as [c|] eqn:Ha; [|discriminate].
  intros [= <-]. exists es. now split.
Qed.

(** Resolution of a canonical path that runs through a link to [q]. *)
Lemma walk_through_link links t follow X name q n R :
  Forall plain X -> plain name -> Forall plain q -> Forall plain R ->
  linked.find (X ++ [name]) t = Ok (linked.Symlink (render true q)) ->
  linked.find q t = Ok n -> (forall target, n <> linked.Symlink target) ->
  R <> [] \/ follow = true ->
  linked.walk (S links) t follow [] (strings.Split (render true (X ++ name :: R)) Separator)
  = linked.steps (fun here' comps' =>
                    match links with
                    | O => Err os.ELOOP
                    | S links' => linked.walk links' t follow here' comps'
                    end) t follow q R.
Proof.
  intros HX Hname Hq HRp Hlink Hn Hnl HR.
  destruct (linked_root_is_dir _ _ _ _ Hlink) as [es0 Ht].
  destruct (linked_find_snoc _ _ _ _ Hlink) as (es & HfX & Ha).
  assert (Hroot : linked.find [] t = Ok (linked.Dir es0)) by now rewrite Ht.
  rewrite Split_render_rooted
    by (apply Forall_app; split; [assumption | now constructor]).
  replace (match (X ++ name :: R)%list with [] => [""] | _ :: _ => (X ++ name :: R)%list end)
    with (X ++ name :: R)%list by now destruct X.
  rewrite walk_steps, (steps_rooted _ _ _ _ _ Hroot).
  rewrite (steps_along _ _ _ X [] (name :: R) (linked.Dir es));
    try assumption; try discriminate.
  cbn [app].
  rewrite (steps_link _ _ _ X es name (render true q) R Hname HfX Ha) by (discriminate || exact HR).
  rewrite IsAbs_render_rooted, Split_render_rooted by assumption.
  rewrite walk_steps. cbn [app]. rewrite (steps_rooted _ _ _ _ _ Hroot).
  destruct q as [|q0 q'].
  - cbn [app linked.steps]. now rewrite Hroot.
  - now rewrite (steps_along _ _ _ (q0 :: q') [] R n).
Qed.

Section Calls.
Variable cwd0 : string.

Lemma resolve_through_link t follow X name q n R :
  Forall plain X -> plain name -> Forall plain q -> Forall plain R ->
  linked.find (X ++ [name]) t = Ok (linked.Symlink (render true q)) ->
  linked.find q t = Ok n -> (forall target, n <> linked.Symlink target) ->
  R <> [] \/ follow = true ->
  linked.resolve cwd0 t follow (render true (X ++ name :: R))
  = linked.steps (fun here' comps' => linked.walk 38 t follow here' comps') t follow q R.
Proof.
  intros. unfold linked.resolve. rewrite render_rooted_not_empty, IsAbs_render_rooted.
  change linked.maxSymlinks with 40%nat.
  now rewrite (walk_through_link 39 t follow X name q n R).
Qed.

Lemma Stat_through_link t X name q n :
  Forall plain X -> plain name -> Forall plain q ->
  linked.find (X ++ [name]) t = Ok (linked.Symlink (render true q)) ->
  linked.find q t = Ok n -> (forall target, n <> linked.Symlink target) ->
  linked.Stat cwd0 t (render true (X ++ [name]))
  = Ok (linked.info_of (render true (X ++ [name])) n).
Proof.
  intros HX Hname Hq Hlink Hn Hnl. unfold linked.Stat.
  rewrite (resolve_through_link t true X name q n []); auto.
  cbn [linked.steps]. now rewrite Hn.
Qed.

Lemma ReadFile_through_link t X name q data :
  Forall plain X -> plain name -> Forall plain q ->
  linked.find (X ++ [name]) t = Ok (linked.Symlink (render true q)) ->
  linked.find q t = Ok (linked.File data) ->
  linked.ReadFile cwd0 t (render true (X ++ [name])) = Ok data.
Proof.
  intros HX Hname Hq Hlink Hn. unfold linked.ReadFile.
  rewrite (resolve_through_link t true X name q (linked.File data) []); auto; try discriminate.
  cbn [linked.steps]. now rewrite Hn.
Qed.

Lemma WriteFile_through_link t X name q es f data :
  Forall plain X -> plain name -> Forall plain q -> plain f ->
  linked.find (X ++ [name]) t = Ok (linked.Symlink (render true q)) ->
  linked.find q t = Ok (linked.Dir es) -> os.assoc f es = None ->
  linked.WriteFile cwd0 t (render true (X ++ [name; f])) data
  = Ok (linked.put (q ++ [f]) (linked.File data) t).
Proof.
  intros HX Hname Hq Hf Hlink Hn Ha. unfold linked.WriteFile.
  rewrite (resolve_through_link t true X name q (linked.Dir es) [f]); auto; try discriminate.
  now rewrite (steps_missing _ _ _ q es f).
Qed.

Lemma MkdirAll_through_link t X name q es :
  Forall plain X -> plain name -> Forall plain q ->
  linked.find (X ++ [name]) t = Ok (linked.Symlink (render true q)) ->
  linked.find q t = Ok (linked.Dir es) ->
  linked.MkdirAll cwd0 t (render true (X ++ [name])) = Ok t.
Proof.
  intros HX Hname Hq Hlink Hn. unfold linked.MkdirAll.
  destruct (String.length (render true (X ++ [name]))); cbn [linked.MkdirAll_from];
    rewrite (Stat_through_link t X name q (linked.Dir es)); auto; discriminate.
Qed.

End Calls.

Lemma linked_find_put q f v : forall t es,
  linked.find q t = Ok (linked.Dir es) ->
  linked.find (q ++ [f]) (linked.put (q ++ [f]) v t) = Ok v.
Proof.
  induction q as [|e q IH]; intros t es H.
  - cbn in H. injection H as ->. cbn [app linked.put linked.find].
    now rewrite assoc_replace_same.
  - cbn [app linked.find linked.put] in *. destruct t as [d|es0|target]; try discriminate.
    destruct (os.assoc e es0) as [c|] eqn:Ha; [|discriminate].
    cbn [linked.find]. rewrite assoc_replace_same. now apply (IH c es).
Qed.

End LinkedPaths.

Section LinkedService.
Import filepath.
Variable p : PublicFilesService.
Variable lw : linked.World.

Lemma linked_write_lexical input :
  linked.sanitizePathForWrite p lw input = sanitizePathForWrite p (lexical lw) input.
Proof. reflexivity. Qed.

Lemma kept_not_hidden input R :
  filter real (strings.Split (normalized input) Separator) = R ->
  Forall (fun e => strings.HasPrefix e "." = false) R ->
  no_hidden_component input.
Proof.
  intros E HR. unfold no_hidden_component. apply Forall_forall. intros c Hin Hp.
  destruct (real c) eqn:Hr.
  - assert (HinR : In c R) by (rewrite <- E; apply filter_In; now split).
    rewrite Forall_forall in HR. rewrite (HR c HinR) in Hp. discriminate.
  - unfold real in Hr. apply negb_false_iff, orb_true_iff in Hr as [Hr|Hr].
    + apply String.eqb_eq in Hr. subst c. discriminate.
    + now apply String.eqb_eq in Hr.
Qed.

Lemma linked_read_below_root input info :
  IsAbs (linked.cwd lw) = true -> denylist_free input -> normalized input <> "" ->
  linked.Stat (linked.cwd lw) (linked.fs lw) (canonical_of p (lexical lw) input) = Ok info ->
  no_hidden_component input ->
  linked.sanitizePathForRead p lw input = Ok (canonical_of p (lexical lw) input).
Proof.
  intros Hcwd Hfree Hne Hstat Hhid.
  destruct (canonical_below_root p (lexical lw) input Hcwd Hfree Hne) as (X & HX & HR & Hpc & Hc).
  assert (Hpre : strings.HasPrefix (canonical_of p (lexical lw) input)
                   (publicCanonical p (lexical lw)) = true)
    by (rewrite Hc, Hpc; apply render_rooted_prefix).
  unfold linked.sanitizePathForRead. rewrite Hfree. fold (normalized input).
  apply String.eqb_neq in Hne as ->. cbv zeta.
  change (Abs (linked.cwd lw) (Join (publicDir p) (normalized input)))
    with (canonical_of p (lexical lw) input).
  change (Abs (linked.cwd lw) (publicDir p)) with (publicCanonical p (lexical lw)).
  rewrite Hpre. cbn [negb]. rewrite Hstat, andb_false_r.
  rewrite Hpc, Hc at 1. rewrite Rel_below by assumption.
  apply check_components_ok.
  remember (filter real (strings.Split (normalized input) Separator)) as R eqn:ER.
  destruct R as [|r R'].
  - repeat constructor.
  - rewrite (Split_concat _ "/"%char) by (try discriminate; now apply plain_no_slash).
    apply Forall_forall. intros c Hc'. rewrite ER in Hc'. apply filter_In in Hc' as [Hin Hr].
    split; [|now apply (denylist_free_chars input)].
    unfold no_hidden_component in Hhid. rewrite Forall_forall in Hhid.
    destruct (strings.HasPrefix c ".") eqn:Hp; [|reflexivity].
    rewrite (Hhid c Hin Hp) in Hr. discriminate.
Qed.

Lemma linked_canonical input R :
  IsAbs (linked.cwd lw) = true -> denylist_free input ->
  filter real (strings.Split (normalized input) Separator) = R -> R <> [] ->
  normalized input <> ""
  /\ Forall plain (linked_root p lw) /\ Forall plain R
  /\ canonical_of p (lexical lw) input = render true (linked_root p lw ++ R).
Proof.
  intros Hcwd Hfree ER HR.
  assert (Hne : normalized input <> "").
  { intros E. rewrite E in ER. cbn in ER. now subst R. }
  destruct (canonical_below_root p (lexical lw) input Hcwd Hfree Hne) as (X & HX & HRp & Hpc & Hc).
  unfold linked_root. rewrite (root_elements_plain p (lexical lw) X HX Hpc).
  rewrite ER in *. tauto.
Qed.

(** A link below the root to a regular file is read through, wherever the
    file lies. *)
Lemma DownloadItem_through_link input R name q data :
  IsAbs (linked.cwd lw) = true -> denylist_free input ->
  filter real (strings.Split (normalized input) Separator) = (R ++ [name])%list ->
  Forall (fun e => strings.HasPrefix e "." = false) (R ++ [name]) ->
  linked.find (linked_root p lw ++ R ++ [name]) (linked.fs lw)
  = Ok (linked.Symlink (render true q)) ->
  Forall plain q -> linked.find q (linked.fs lw) = Ok (linked.File data) ->
  linked.DownloadItem p lw input = (Ok data, lw).
Proof.
  intros Hcwd Hfree ER Hdot Hlink Hq Hfile.
  destruct (linked_canonical input (R ++ [name]) Hcwd Hfree ER) as (Hne & HX & HR & Hc);
    [now destruct R|].
  apply Forall_app in HR as [HR Hname]. inversion Hname as [|? ? Hname' _]; subst.
  assert (HXR : Forall plain (linked_root p lw ++ R)) by (apply Forall_app; now split).
  rewrite app_assoc in Hc, Hlink.
  assert (Hstat : linked.Stat (linked.cwd lw) (linked.fs lw) (canonical_of p (lexical lw) input)
                  = Ok (linked.info_of (canonical_of p (lexical lw) input) (linked.File data))).
  { rewrite Hc. apply (Stat_through_link _ _ _ _ q); auto; discriminate. }
  unfold linked.DownloadItem.
  rewrite (linked_read_below_root input _ Hcwd Hfree Hne Hstat)
    by now apply (kept_not_hidden input (R ++ [name])).
  cbv zeta. rewrite Hstat. cbn [linked.info_of os.IsDir].
  rewrite Hc, (ReadFile_through_link _ _ _ _ q data); auto.
Qed.

(** Through a link below the root to a directory, a file is created in
    that directory, wherever it lies. *)
Lemma CreateFile_through_link input R name f q es :
  IsAbs (linked.cwd lw) = true -> denylist_free input ->
  filter real (strings.Split (normalized input) Separator) = (R ++ [name; f])%list ->
  strings.HasPrefix f "." = false -> (strings.len f <= 255)%Z ->
  linked.find (linked_root p lw ++ R ++ [name]) (linked.fs lw)
  = Ok (linked.Symlink (render true q)) ->
  Forall plain q -> linked.find q (linked.fs lw) = Ok (linked.Dir es) ->
  os.assoc f es = None ->
  exists r lw',
    linked.CreateFile p lw input = (Ok r, lw')
    /\ linked.fs lw' = linked.put (q ++ [f]) (linked.File "") (linked.fs lw)
    /\ linked.find (q ++ [f]) (linked.fs lw') = Ok (linked.File "").
Proof.
  intros Hcwd Hfree ER Hdot Hlen Hlink Hq Hdir Hnew.
  destruct (linked_canonical input (R ++ [name; f]) Hcwd Hfree ER) as (Hne & HX & HR & Hc);
    [now destruct R|].
  apply Forall_app in HR as [HR HR']. inversion HR' as [|? ? Hname HR'']; subst.
  inversion HR'' as [|? ? Hf _]; subst.
  set (L := (linked_root p lw ++ R)%list) in *.
  assert (HL : Forall plain L) by (apply Forall_app; now split).
  assert (HLn : Forall plain (L ++ [name])) by now apply plain_snoc.
  assert (EL : (linked_root p lw ++ R ++ [name; f])%list = ((L ++ [name]) ++ [f])%list)
    by (unfold L; now rewrite <- !app_assoc).
  assert (ELn : (linked_root p lw ++ R ++ [name])%list = (L ++ [name])%list)
    by (unfold L; now rewrite <- !app_assoc).
  rewrite EL in Hc. rewrite ELn in Hlink.
  assert (Hw : sanitizePathForWrite p (lexical lw) input
               = Ok (render true ((L ++ [name]) ++ [f]))).
  { unfold sanitizePathForWrite. rewrite Hfree. fold (normalized input).
    apply String.eqb_neq in Hne as ->. cbv zeta.
    fold (canonical_of p (lexical lw) input). fold (publicCanonical p (lexical lw)).
    rewrite Hc.
    rewrite Dir_rooted, Base_rooted by assumption.
    unfold Abs at 1.
    rewrite IsAbs_render_rooted, Clean_render_rooted by assumption.
    replace (publicCanonical p (lexical lw)) with (render true (linked_root p lw)).
    - unfold L. rewrite <- app_assoc, render_rooted_prefix. cbn [negb].
      rewrite andb_false_r, Hdot.
      destruct (Z.gtb_spec (strings.len f) 255) as [Hgt|_]; [lia|].
      rewrite (denylist_free_chars input); [reflexivity | assumption |].
      assert (Hin : In f (R ++ [name; f])) by (apply in_or_app; right; right; now left).
      rewrite <- ER in Hin. now apply filter_In in Hin as [Hin _].
    - destruct (canonical_below_root p (lexical lw) input Hcwd Hfree)
        as (X & HX' & _ & Hpc & _).
      + intros E. rewrite E in ER. now destruct R.
      + unfold linked_root. now rewrite (root_elements_plain p (lexical lw) X HX' Hpc). }
  unfold linked.CreateFile. rewrite linked_write_lexical, Hw.
  rewrite Dir_rooted by assumption.
  rewrite (MkdirAll_through_link _ _ _ _ q es) by assumption.
  cbv zeta. cbn [linked.with_fs linked.cwd].
  rewrite <- app_assoc. cbn [app].
  rewrite (WriteFile_through_link _ _ _ _ q es f "") by assumption.
  do 2 eexists. split; [reflexivity|].
  assert (Hfs : forall w0 ev d, linked.fs (linked.notifyWebSocket p w0 ev d) = linked.fs w0).
  { intros. unfold linked.notifyWebSocket. now destruct (wsHub p). }
  rewrite Hfs. cbn [linked.fs]. split; [reflexivity|]. now apply (linked_find_put q f _ _ es).
Qed.

End LinkedService.

Section LinkFree.
Import filepath.

Lemma assoc_of_os c es :
  os.assoc c (map (fun kv => (fst kv, linked.of_os (snd kv))) es)
  = option_map linked.of_os (os.assoc c es).
Proof.
  induction es as [|[k v] es IH]; [reflexivity|]. cbn [map os.assoc fst snd].
  destruct (k =? c); [reflexivity | apply IH].
Qed.

Lemma find_of_os l : forall t,
  linked.find l (linked.of_os t)
  = match os.find l t with Ok n => Ok (linked.of_os n) | Err e => Err e end.
Proof.
  induction l as [|e l IH]; intros t; [reflexivity|].
  destruct t as [d|es]; [reflexivity|]. cbn [linked.of_os linked.find os.find].
  rewrite assoc_of_os. destruct (os.assoc e es); cbn [option_map]; [apply IH | reflexivity].
Qed.

Lemma rev_removelast (A : Type) (l : list A) : rev (removelast l) = tl (rev l).
Proof.
  destruct l as [|x l] using rev_ind; [reflexivity|].
  now rewrite removelast_last, rev_app_distr.
Qed.

Lemma plain_removelast l : Forall plain l -> Forall plain (removelast l).
Proof.
  destruct l as [|x l] using rev_ind; [trivial|].
  rewrite removelast_last. intros H. now apply Forall_app in H as [H _].
Qed.

(** In a tree without links, resolution ends where the cleaned text of the
    path leads. *)
Lemma steps_link_free onward t follow comps : forall here path n,
  Forall plain here -> Forall (fun c => has_char "/" c = false) comps ->
  linked.steps onward (linked.of_os t) follow here comps = Ok (linked.Found path n) ->
  path = rev (clean_stack true (rev here) comps)
  /\ Forall plain path /\ linked.find path (linked.of_os t) = Ok n.
Proof.
  induction comps as [|c rest IH]; intros here path n Hh Hc H.
  - cbn [linked.steps] in H.
    destruct (linked.find here (linked.of_os t)) eqn:E; [|discriminate].
    injection H as <- <-. unfold clean_stack. cbn [fold_left]. rewrite rev_involutive. auto.
  - cbn [linked.steps] in H. rewrite find_of_os in H.
    destruct (os.find here t) as [[d|es]|] eqn:E; try discriminate.
    cbn [linked.of_os] in H. inversion Hc as [|? ? Hsep Hc']; subst.
    unfold clean_stack. cbn [fold_left].
    fold (clean_stack true (clean_step true (rev here) c) rest).
    destruct ((c =? "") || (c =? ".")) eqn:H1.
    + rewrite clean_step_skip by (unfold real; now rewrite H1). now apply IH.
    + destruct (String.eqb_spec c "..") as [->|H2].
      * replace (clean_step true (rev here) "..") with (rev (removelast here)).
        -- apply IH; [now apply plain_removelast | assumption | assumption].
        -- rewrite rev_removelast. unfold clean_step. cbn [String.eqb Ascii.eqb orb].
           assert (Hr : Forall plain (rev here)) by now apply Forall_rev.
           destruct (rev here) as [|top r]; [reflexivity|].
           inversion Hr as [|? ? (_ & Ht & _) _]; subst.
           apply String.eqb_neq in Ht. cbn. cbn in Ht. now rewrite Ht.
      * assert (Hp : plain c) by (repeat split; [unfold real; now rewrite H1 | assumption..]).
        rewrite clean_step_real by (try assumption; apply Hp).
        replace (c :: rev here) with (rev (here ++ [c])) by now rewrite rev_app_distr.
        rewrite assoc_of_os in H. destruct (os.assoc c es) as [child|]; cbn [option_map] in H.
        -- destruct child; cbn [linked.of_os] in H;
             (apply IH; [now apply plain_snoc | assumption | assumption]).
        -- destruct rest; discriminate.
Qed.

Section Calls.
Variable cwd0 : string.
Hypothesis Hcwd : IsAbs cwd0 = true.

Lemma start_plain : Forall plain (rev (clean_stack true [] (strings.Split cwd0 Separator))).
Proof. apply Forall_rev, rooted_stack_plain. constructor. Qed.

Lemma elements_cwd :
  elements (Clean cwd0) = rev (clean_stack true [] (strings.Split cwd0 Separator)).
Proof. rewrite Clean_rooted by assumption. apply elements_render_rooted, start_plain. Qed.

Lemma resolve_link_free t follow path at_ n :
  linked.resolve cwd0 (linked.of_os t) follow path = Ok (linked.Found at_ n) ->
  os.resolve cwd0 path = Some at_
  /\ exists n0, os.find at_ t = Ok n0 /\ n = linked.of_os n0.
Proof.
  unfold linked.resolve, os.resolve. destruct (path =? "") eqn:Hne; [discriminate|].
  rewrite walk_steps. intros H.
  apply steps_link_free in H as (Hat & Hplain & Hfind).
  - split.
    + f_equal. rewrite Hat in Hplain |- *.
      destruct (IsAbs path) eqn:Hp.
      * unfold Abs. rewrite Hp, Clean_rooted by assumption.
        now apply elements_render_rooted.
      * rewrite elements_cwd, rev_involutive in *.
        rewrite Abs_relative by assumption.
        assert (Hc : cwd0 <> "") by (intros E; rewrite E in Hcwd; discriminate).
        rewrite Clean_rooted by (rewrite IsAbs_append; assumption).
        change (cwd0 ++ "/" ++ path) with (cwd0 ++ String "/" path).
        rewrite Split_append, clean_stack_app.
        now apply elements_render_rooted.
    + rewrite find_of_os in Hfind. destruct (os.find at_ t) as [n0|]; [|discriminate].
      injection Hfind as <-. now exists n0.
  - destruct (IsAbs path); [constructor|]. rewrite elements_cwd. apply start_plain.
  - apply Split_no_sep.
Qed.

Lemma info_of_os path n : linked.info_of path (linked.of_os n) = os.info_of path n.
Proof. now destruct n. Qed.

Lemma Stat_link_free t path info :
  linked.Stat cwd0 (linked.of_os t) path = Ok info -> os.Stat cwd0 t path = Ok info.
Proof.
  unfold linked.Stat, os.Stat, os.at_path.
  destruct (linked.resolve cwd0 (linked.of_os t) true path) as [[at_ n|]|] eqn:E; try discriminate.
  apply resolve_link_free in E as (-> & n0 & -> & ->). now rewrite info_of_os.
Qed.

Lemma ReadFile_link_free t path data :
  linked.ReadFile cwd0 (linked.of_os t) path = Ok data -> os.ReadFile cwd0 t path = Ok data.
Proof.
  unfold linked.ReadFile, os.ReadFile, os.at_path.
  destruct (linked.resolve cwd0 (linked.of_os t) true path) as [[at_ n|]|] eqn:E; try discriminate.
  apply resolve_link_free in E as (-> & n0 & -> & ->). now destruct n0.
Qed.

End Calls.

Lemma read_link_free (p : PublicFilesService) (w : World) (input c : string) :
  IsAbs (cwd w) = true ->
  linked.sanitizePathForRead p (as_linked w) input = Ok c ->
  sanitizePathForRead p w input = Ok c.
Proof.
  intros Hcwd. unfold linked.sanitizePathForRead, sanitizePathForRead.
  cbn [as_linked linked.cwd linked.fs].
  destruct (List.find (strings.Contains input) dangerousPatterns); [trivial|].
  destruct (_ =? ""); [trivial|]. cbv zeta.
  destruct (negb (strings.HasPrefix _ _)); [trivial|].
  destruct (linked.Stat _ _ _) as [stat|e] eqn:E.
  - now rewrite (Stat_link_free _ Hcwd _ _ _ E).
  - destruct (os.IsNotExist e); discriminate.
Qed.

(** In a tree without links, what [DownloadItem] answers with is what it
    answers with when links are left out of the picture. *)
Lemma DownloadItem_link_free (p : PublicFilesService) (w : World) (input data : string) lw' :
  IsAbs (cwd w) = true ->
  linked.DownloadItem p (as_linked w) input = (Ok data, lw') ->
  DownloadItem p w input = (Ok data, w).
Proof.
  intros Hcwd. unfold linked.DownloadItem, DownloadItem.
  destruct (linked.sanitizePathForRead p (as_linked w) input) as [c|] eqn:Hr; [|discriminate].
  rewrite (read_link_free _ _ _ _ Hcwd Hr). cbv zeta. cbn [as_linked linked.cwd linked.fs].
  destruct (linked.Stat _ _ _) as [info|] eqn:Hs; [|discriminate].
  rewrite (Stat_link_free _ Hcwd _ _ _ Hs).
  destruct (os.IsDir info); [discriminate|].
  destruct (linked.ReadFile _ _ _) as [d|] eqn:Hd; [|discriminate].
  rewrite (ReadFile_link_free _ Hcwd _ _ _ Hd). now intros [= -> _].
Qed.

Lemma map_replace_entry name (c : os.node) es :
  map (fun kv => (fst kv, linked.of_os (snd kv))) (os.replace_entry name c es)
  = os.replace_entry name (linked.of_os c) (map (fun kv => (fst kv, linked.of_os (snd kv))) es).
Proof.
  induction es as [|[k v] es IH]; [reflexivity|]. cbn [os.replace_entry map fst snd].
  destruct (k =? name); [reflexivity|]. cbn [map fst snd]. now rewrite IH.
Qed.

Lemma replace_entry_twice (A : Type) name (a b : A) es :
  os.replace_entry name a (os.replace_entry name b es) = os.replace_entry name a es.
Proof.
  induction es as [|[k v] es IH]; cbn [os.replace_entry].
  - now rewrite String.eqb_refl.
  - destruct (k =? name) eqn:E; cbn [os.replace_entry].
    + now rewrite String.eqb_refl.
    + now rewrite E, IH.
Qed.

Lemma of_os_Dir es :
  linked.of_os (os.Dir es) = linked.Dir (map (fun kv => (fst kv, linked.of_os (snd kv))) es).
Proof. reflexivity. Qed.

(** On a tree without links, [put] is what [update] does when it sets an
    entry of a directory that is there. *)
Lemma update_put parent : forall name f t es v,
  os.find parent t = Ok (os.Dir es) -> f (os.assoc name es) = Ok (Some v) ->
  exists t', os.update (parent ++ [name]) f t = Ok t'
             /\ linked.of_os t' = linked.put (parent ++ [name]) (linked.of_os v) (linked.of_os t).
Proof.
  induction parent as [|a l IH]; intros name f t es v Hfind Hf.
  - cbn in Hfind. injection Hfind as ->. cbn [app os.update]. rewrite Hf.
    eexists. split; [reflexivity|]. cbn [os.set_entry]. rewrite !of_os_Dir, map_replace_entry.
    reflexivity.
  - destruct t as [|es0]; [discriminate|]. cbn [os.find] in Hfind.
    destruct (os.assoc a es0) as [c|] eqn:Ha; [|discriminate].
    cbn [app os.update]. rewrite Ha.
    destruct (l ++ [name])%list eqn:E; [now destruct l|]. rewrite <- E. clear E.
    destruct (IH name f c es v Hfind Hf) as (c' & Hu & Hc'). rewrite Hu.
    eexists. split; [reflexivity|]. cbn [os.set_entry].
    rewrite !of_os_Dir, map_replace_entry. cbn [linked.put].
    now rewrite assoc_of_os, Ha, Hc'.
Qed.

Lemma mkdir_all_snoc_new l : forall e t tm es,
  os.mkdir_all l t = Ok tm -> os.find l tm = Ok (os.Dir es) -> os.assoc e es = None ->
  exists t', os.mkdir_all (l ++ [e]) t = Ok t'
             /\ linked.of_os t' = linked.put (l ++ [e]) (linked.Dir []) (linked.of_os tm).
Proof.
  induction l as [|a l IH]; intros e t tm es Hm Hfind He.
  - destruct t as [|es0]; [discriminate|]. cbn in Hm. injection Hm as <-.
    cbn in Hfind. injection Hfind as ->. cbn [app os.mkdir_all]. rewrite He.
    eexists. split; [reflexivity|]. cbn [os.set_entry]. rewrite !of_os_Dir, map_replace_entry.
    reflexivity.
  - destruct t as [|es0]; [discriminate|]. cbn [os.mkdir_all] in Hm.
    destruct (os.mkdir_all l _) as [c'|] eqn:Hc; [|discriminate].
    injection Hm as <-. cbn [os.set_entry os.find] in Hfind.
    rewrite assoc_replace_same in Hfind.
    destruct (IH e _ c' es Hc Hfind He) as (c'' & Hm' & Hc'').
    cbn [app os.mkdir_all]. rewrite Hm'. eexists. split; [reflexivity|].
    cbn [os.set_entry]. rewrite !of_os_Dir, !map_replace_entry. cbn [linked.put].
    now rewrite assoc_replace_same, replace_entry_twice, Hc''.
Qed.

Lemma mkdir_all_snoc_existing l : forall e t tm es es',
  os.mkdir_all l t = Ok tm -> os.find l tm = Ok (os.Dir es) ->
  os.assoc e es = Some (os.Dir es') ->
  os.mkdir_all (l ++ [e]) t = Ok tm.
Proof.
  induction l as [|a l IH]; intros e t tm es es' Hm Hfind He.
  - destruct t as [|es0]; [discriminate|]. cbn in Hm. injection Hm as <-.
    cbn in Hfind. injection Hfind as ->. cbn [app os.mkdir_all]. rewrite He.
    cbn [os.set_entry]. now rewrite replace_entry_same.
  - destruct t as [|es0]; [discriminate|]. cbn [os.mkdir_all] in Hm.
    destruct (os.mkdir_all l _) as [c'|] eqn:Hc; [|discriminate].
    injection Hm as <-. cbn [os.set_entry os.find] in Hfind.
    rewrite assoc_replace_same in Hfind.
    cbn [app os.mkdir_all]. now rewrite (IH e _ c' es es' Hc Hfind He).
Qed.

(** Where resolution ends at a name that is not there. *)
Lemma steps_missing_link_free onward t follow comps : forall here parent name,
  Forall plain here -> Forall (fun c => has_char "/" c = false) comps ->
  linked.steps onward (linked.of_os t) follow here comps = Ok (linked.Missing parent name) ->
  (parent ++ [name])%list = rev (clean_stack true (rev here) comps)
  /\ Forall plain (parent ++ [name])
  /\ exists es, os.find parent t = Ok (os.Dir es) /\ os.assoc name es = None.
Proof.
  induction comps as [|c rest IH]; intros here path n Hh Hc H.
  - cbn [linked.steps] in H.
    destruct (linked.find here (linked.of_os t)); discriminate.
  - cbn [linked.steps] in H. rewrite find_of_os in H.
    destruct (os.find here t) as [[d|es]|] eqn:E; try discriminate.
    cbn [linked.of_os] in H. inversion Hc as [|? ? Hsep Hc']; subst.
    unfold clean_stack. cbn [fold_left].
    fold (clean_stack true (clean_step true (rev here) c) rest).
    destruct ((c =? "") || (c =? ".")) eqn:H1.
    + rewrite clean_step_skip by (unfold real; now rewrite H1). now apply IH.
    + destruct (String.eqb_spec c "..") as [->|H2].
      * replace (clean_step true (rev here) "..") with (rev (removelast here)).
        -- apply IH; [now apply plain_removelast | assumption | assumption].
        -- rewrite rev_removelast. unfold clean_step. cbn [String.eqb Ascii.eqb orb].
           assert (Hr : Forall plain (rev here)) by now apply Forall_rev.
           destruct (rev here) as [|top r]; [reflexivity|].
           inversion Hr as [|? ? (_ & Ht & _) _]; subst.
           apply String.eqb_neq in Ht. cbn. cbn in Ht. now rewrite Ht.
      * assert (Hp : plain c) by (repeat split; [unfold real; now rewrite H1 | assumption..]).
        rewrite clean_step_real by (try assumption; apply Hp).
        replace (c :: rev here) with (rev (here ++ [c])) by now rewrite rev_app_distr.
        rewrite assoc_of_os in H.
        destruct (os.assoc c es) as [child|] eqn:Ha; cbn [option_map] in H.
        -- destruct child; cbn [linked.of_os] in H;
             (apply IH; [now apply plain_snoc | assumption | assumption]).
        -- destruct rest; [|discriminate]. injection H as <- <-.
           unfold clean_stack. cbn [fold_left]. rewrite rev_involutive.
           split; [reflexivity|]. split; [now apply plain_snoc|]. now exists es.
Qed.

Section Calls.
Variable cwd0 : string.
Hypothesis Hcwd : IsAbs cwd0 = true.

Lemma resolve_text path here :
  (path =? "") = false ->
  here = (if IsAbs path then [] else elements (Clean cwd0)) ->
  Forall plain (rev (clean_stack true (rev here) (strings.Split path Separator))) ->
  os.resolve cwd0 path
  = Some (rev (clean_stack true (rev here) (strings.Split path Separator))).
Proof.
  intros Hne -> Hplain. unfold os.resolve. rewrite Hne. f_equal.
  destruct (IsAbs path) eqn:Hp.
  - unfold Abs. rewrite Hp, Clean_rooted by assumption.
    now apply elements_render_rooted.
  - rewrite (elements_cwd _ Hcwd), rev_involutive in *.
    rewrite Abs_relative by assumption.
    assert (Hc : cwd0 <> "") by (intros E; rewrite E in Hcwd; discriminate).
    rewrite Clean_rooted by (rewrite IsAbs_append; assumption).
    change (cwd0 ++ "/" ++ path) with (cwd0 ++ String "/" path).
    rewrite Split_append, clean_stack_app.
    now apply elements_render_rooted.
Qed.

Lemma resolve_missing_link_free t follow path parent name :
  linked.resolve cwd0 (linked.of_os t) follow path = Ok (linked.Missing parent name) ->
  os.resolve cwd0 path = Some (parent ++ [name])%list
  /\ exists es, os.find parent t = Ok (os.Dir es) /\ os.assoc name es = None.
Proof.
  unfold linked.resolve. destruct (path =? "") eqn:Hne; [discriminate|].
  rewrite walk_steps. intros H.
  apply steps_missing_link_free in H as (Hat & Hplain & Hfind).
  - split; [|assumption]. rewrite Hat in *. now apply resolve_text.
  - destruct (IsAbs path); [constructor|]. rewrite (elements_cwd _ Hcwd). now apply start_plain.
  - apply Split_no_sep.
Qed.

Lemma WriteFile_link_free t path data t2 :
  linked.WriteFile cwd0 (linked.of_os t) path data = Ok t2 ->
  os.resolve cwd0 path <> Some [] ->
  exists t', os.WriteFile cwd0 t path data = Ok t' /\ t2 = linked.of_os t'.
Proof.
  unfold linked.WriteFile, os.WriteFile, os.at_path. intros H Hroot.
  destruct (linked.resolve cwd0 (linked.of_os t) true path) as [[at_ n|parent name]|] eqn:E;
    try discriminate.
  - apply (resolve_link_free _ Hcwd) in E as (Hres & n0 & Hn0 & ->).
    rewrite Hres in *. destruct n0 as [d|]; [|discriminate]. injection H as <-.
    destruct at_ as [|a0 at_] using rev_ind; [now destruct Hroot|]. clear IHat_.
    destruct (find_parent_dir _ _ _ _ Hn0) as [es Hes].
    assert (Ha : os.assoc a0 es = Some (os.File d)).
    { rewrite find_app, Hes in Hn0. cbn [os.find] in Hn0.
      destruct (os.assoc a0 es); [now injection Hn0 as -> | discriminate]. }
    destruct (update_put at_ a0
                (fun cur => match cur with
                            | Some (os.Dir _) => Err os.EISDIR
                            | _ => Ok (Some (os.File data))
                            end) t es (os.File data) Hes) as (t' & Hu & Ht').
    { now rewrite Ha. }
    exists t'. destruct (at_ ++ [a0])%list eqn:El; [now destruct at_|].
    rewrite <- El in Hu, Ht' |- *. now split.
  - apply resolve_missing_link_free in E as (Hres & es & Hes & Ha).
    rewrite Hres. injection H as <-.
    destruct (update_put parent name
                (fun cur => match cur with
                            | Some (os.Dir _) => Err os.EISDIR
                            | _ => Ok (Some (os.File data))
                            end) t es (os.File data) Hes) as (t' & Hu & Ht').
    { now rewrite Ha. }
    exists t'. destruct (parent ++ [name])%list eqn:El; [now destruct parent|].
    rewrite <- El in Hu, Ht' |- *. now split.
Qed.

Lemma Lstat_link_free t path info :
  linked.Lstat cwd0 (linked.of_os t) path = Ok info -> os.Stat cwd0 t path = Ok info.
Proof.
  unfold linked.Lstat, os.Stat, os.at_path.
  destruct (linked.resolve cwd0 (linked.of_os t) false path) as [[at_ n|]|] eqn:E; try discriminate.
  apply (resolve_link_free _ Hcwd) in E as (-> & n0 & -> & ->). now rewrite info_of_os.
Qed.

Lemma Stat_dir t l dir :
  Forall plain l -> os.Stat cwd0 t (render true l) = Ok dir -> os.IsDir dir = true ->
  exists es, os.find l t = Ok (os.Dir es).
Proof.
  intros Hl H Hd. rewrite Stat_Lookup, Lookup_rooted in H by assumption.
  destruct (os.find l t) as [[d|es]|]; try discriminate.
  - injection H as <-. discriminate.
  - now exists es.
Qed.

Lemma MkdirAll_from_eq fuel fs0 path :
  linked.MkdirAll_from cwd0 fuel fs0 path
  = match linked.Stat cwd0 fs0 path with
    | Ok dir => if os.IsDir dir then Ok fs0 else Err os.ENOTDIR
    | Err _ =>
        let before := dir_part (strings.TrimRight path Separator) in
        let made :=
          if (1 <? String.length before)%nat
          then match fuel with
               | O => Err os.EINVAL
               | S fuel' => linked.MkdirAll_from cwd0 fuel' fs0 (linked.chop before)
               end
          else Ok fs0 in
        match made with
        | Err e => Err e
        | Ok fs1 =>
            match linked.Mkdir cwd0 fs1 path with
            | Ok fs2 => Ok fs2
            | Err e =>
                match linked.Lstat cwd0 fs1 path with
                | Ok dir => if os.IsDir dir then Ok fs1 else Err e
                | Err _ => Err e
                end
            end
        end
    end.
Proof. destruct fuel; reflexivity. Qed.

Lemma length_chop (s : string) : String.length (linked.chop s) = pred (String.length s).
Proof.
  induction s as [|a s IH]; [reflexivity|]. cbn [linked.chop].
  destruct s as [|b s]; [reflexivity|]. cbn [String.length] in *. now rewrite IH.
Qed.

Lemma length_dir_part (s : string) : (String.length (dir_part s) <= String.length s)%nat.
Proof.
  induction s as [|a s IH]; [apply Nat.le_refl|]. cbn [dir_part].
  destruct (dir_part s) as [|b d].
  - destruct (Ascii.eqb a Separator); cbn [String.length]; lia.
  - cbn [String.length] in *. lia.
Qed.

Lemma length_TrimRight (s : string) c :
  (String.length (strings.TrimRight s c) <= String.length s)%nat.
Proof.
  induction s as [|a s IH]; [apply Nat.le_refl|]. cbn [strings.TrimRight].
  destruct (strings.TrimRight s c) as [|b t].
  - destruct (Ascii.eqb a c); cbn [String.length]; lia.
  - cbn [String.length] in *. lia.
Qed.

(** The fuel of [MkdirAll] is never used up. *)
Lemma MkdirAll_fuel fuel : forall fs0 path,
  (String.length path <= fuel)%nat ->
  linked.MkdirAll_from cwd0 (S fuel) fs0 path = linked.MkdirAll_from cwd0 fuel fs0 path.
Proof.
  induction fuel as [|fuel IH]; intros fs0 path Hlen; rewrite !(MkdirAll_from_eq _ fs0 path);
    destruct (linked.Stat cwd0 fs0 path); try reflexivity; cbv zeta;
    pose proof (length_dir_part (strings.TrimRight path Separator)) as H1;
    pose proof (length_TrimRight path Separator) as H2;
    destruct (Nat.ltb_spec 1 (String.length (dir_part (strings.TrimRight path Separator))))
      as [Hlt|Hge]; try reflexivity.
  - lia.
  - rewrite IH; [reflexivity|]. rewrite length_chop. lia.
Qed.

Lemma chop_snoc (s : string) c : linked.chop (s ++ String c "") = s.
Proof.
  induction s as [|a s IH]; [reflexivity|].
  change (String a s ++ String c "") with (String a (s ++ String c "")).
  cbn [linked.chop]. rewrite IH. now destruct s.
Qed.

Lemma before_rooted l e :
  Forall plain l -> plain e ->
  dir_part (strings.TrimRight (render true (l ++ [e])) Separator)
  = (match l with [] => "" | _ => render true l end) ++ "/".
Proof.
  intros Hl He. pose proof He as (Hr & _ & Hs).
  assert (Hne : e <> "") by (intros ->; discriminate).
  rewrite render_rooted_snoc.
  replace (strings.TrimRight _ Separator)
    with ((match l with [] => "" | _ => render true l end) ++ "/" ++ e).
  - now apply dir_part_append.
  - symmetry. rewrite <- append_assoc. now apply TrimRight_id.
Qed.

(** The last step of [MkdirAll]: with the parent made, the directory is
    created, or it is there. *)
Lemma MkdirAll_last t tm l e t1 :
  Forall plain l -> plain e ->
  (os.mkdir_all l t = Ok tm \/ (l = [] /\ tm = t)) ->
  match linked.Mkdir cwd0 (linked.of_os tm) (render true (l ++ [e])) with
  | Ok fs2 => Ok fs2
  | Err err =>
      match linked.Lstat cwd0 (linked.of_os tm) (render true (l ++ [e])) with
      | Ok dir => if os.IsDir dir then Ok (linked.of_os tm) else Err err
      | Err _ => Err err
      end
  end = Ok t1 ->
  exists t', os.mkdir_all (l ++ [e]) t = Ok t' /\ t1 = linked.of_os t'.
Proof.
  intros Hl He Hm H.
  assert (Hle : Forall plain (l ++ [e])) by now apply plain_snoc.
  assert (Hparent : forall es, os.find l tm = Ok (os.Dir es) -> os.mkdir_all l t = Ok tm).
  { intros es Hes. destruct Hm as [Hm|[-> ->]]; [assumption|].
    cbn in Hes. now injection Hes as ->. }
  unfold linked.Mkdir in H.
  destruct (linked.resolve cwd0 (linked.of_os tm) false (render true (l ++ [e])))
    as [[at_ n|parent name]|] eqn:E.
  - destruct (linked.Lstat cwd0 (linked.of_os tm) _) as [dir|] eqn:EL; [|discriminate].
    destruct (os.IsDir dir) eqn:Hd; [|discriminate]. injection H as <-.
    apply Lstat_link_free in EL. destruct (Stat_dir _ _ _ Hle EL Hd) as [es' Hes'].
    destruct (find_parent_dir _ _ _ _ Hes') as [es Hes].
    exists tm. split; [|reflexivity].
    apply (mkdir_all_snoc_existing l e t tm es es'); [now apply (Hparent es) | assumption |].
    rewrite find_app, Hes in Hes'. cbn [os.find] in Hes'.
    destruct (os.assoc e es); [now injection Hes' as -> | discriminate].
  - injection H as <-.
    apply resolve_missing_link_free in E as (Hres & es & Hes & Ha).
    rewrite resolve_rooted in Hres by assumption. injection Hres as Hres.
    apply app_inj_tail in Hres as [<- <-].
    destruct (mkdir_all_snoc_new l e t tm es (Hparent es Hes) Hes Ha) as (t' & Ht' & Hp).
    exists t'. split; [assumption | now rewrite Hp].
  - destruct (linked.Lstat cwd0 (linked.of_os tm) _) as [dir|] eqn:EL; [|discriminate].
    destruct (os.IsDir dir) eqn:Hd; [|discriminate]. injection H as <-.
    apply Lstat_link_free in EL. destruct (Stat_dir _ _ _ Hle EL Hd) as [es' Hes'].
    destruct (find_parent_dir _ _ _ _ Hes') as [es Hes].
    exists tm. split; [|reflexivity].
    apply (mkdir_all_snoc_existing l e t tm es es'); [now apply (Hparent es) | assumption |].
    rewrite find_app, Hes in Hes'. cbn [os.find] in Hes'.
    destruct (os.assoc e es); [now injection Hes' as -> | discriminate].
Qed.

(** On a tree without links, where [MkdirAll] succeeds on a canonical path
    it has made the directories that [mkdir_all] makes. *)
Lemma MkdirAll_from_link_free l :
  Forall plain l -> forall fuel t t1,
  linked.MkdirAll_from cwd0 fuel (linked.of_os t) (render true l) = Ok t1 ->
  exists t', os.mkdir_all l t = Ok t' /\ t1 = linked.of_os t'.
Proof.
  induction l as [|e l IH] using rev_ind; intros Hl fuel t t1; rewrite MkdirAll_from_eq.
  - destruct (linked.Stat cwd0 (linked.of_os t) (render true [])) as [dir|] eqn:Es.
    + destruct (os.IsDir dir) eqn:Hd; [|discriminate]. intros [= <-].
      apply (Stat_link_free _ Hcwd) in Es. destruct (Stat_dir _ _ _ Hl Es Hd) as [es Hes].
      exists t. split; [now apply (mkdir_all_existing [] t es) | reflexivity].
    + change (dir_part (strings.TrimRight (render true []) Separator)) with "".
      cbn [String.length Nat.ltb Nat.leb]. cbv zeta.
      unfold linked.Mkdir.
      destruct (linked.resolve cwd0 (linked.of_os t) false (render true []))
        as [[at_ n|parent name]|] eqn:E.
      * intros H.
        destruct (linked.Lstat cwd0 (linked.of_os t) _) as [dir|] eqn:EL; [|discriminate].
        destruct (os.IsDir dir) eqn:Hd; [|discriminate]. injection H as <-.
        apply Lstat_link_free in EL. destruct (Stat_dir _ _ _ Hl EL Hd) as [es Hes].
        exists t. split; [now apply (mkdir_all_existing [] t es) | reflexivity].
      * apply resolve_missing_link_free in E as (Hres & _).
        rewrite resolve_rooted in Hres by assumption. injection Hres as Hres.
        now destruct parent.
      * intros H.
        destruct (linked.Lstat cwd0 (linked.of_os t) _) as [dir|] eqn:EL; [|discriminate].
        destruct (os.IsDir dir) eqn:Hd; [|discriminate]. injection H as <-.
        apply Lstat_link_free in EL. destruct (Stat_dir _ _ _ Hl EL Hd) as [es Hes].
        exists t. split; [now apply (mkdir_all_existing [] t es) | reflexivity].
  - apply Forall_app in Hl as [Hl He]. inversion He as [|? ? He' _]; subst.
    assert (Hle : Forall plain (l ++ [e])) by now apply plain_snoc.
    destruct (linked.Stat cwd0 (linked.of_os t) (render true (l ++ [e]))) as [dir|] eqn:Es.
    + destruct (os.IsDir dir) eqn:Hd; [|discriminate]. intros [= <-].
      apply (Stat_link_free _ Hcwd) in Es. destruct (Stat_dir _ _ _ Hle Es Hd) as [es Hes].
      exists t. split; [now apply (mkdir_all_existing _ t es) | reflexivity].
    + rewrite before_rooted by assumption. cbv zeta.
      destruct l as [|x l'].
      * change (1 <? String.length ("" ++ "/"))%nat with false. cbv iota.
        apply MkdirAll_last; auto.
      * assert (Hlen : (1 <? String.length (render true (x :: l') ++ "/"))%nat = true).
        { apply Nat.ltb_lt. rewrite length_append_string. cbn. lia. }
        rewrite Hlen, chop_snoc. destruct fuel as [|fuel]; [discriminate|].
        destruct (linked.MkdirAll_from cwd0 fuel (linked.of_os t) (render true (x :: l')))
          as [fs1|] eqn:Em; [|discriminate].
        destruct (IH Hl _ _ _ Em) as (tm & Htm & ->).
        apply MkdirAll_last; auto.
Qed.

Lemma MkdirAll_link_free t l t1 :
  Forall plain l ->
  linked.MkdirAll cwd0 (linked.of_os t) (render true l) = Ok t1 ->
  exists t', os.MkdirAll cwd0 t (render true l) = Ok t' /\ t1 = linked.of_os t'.
Proof.
  intros Hl H. unfold os.MkdirAll. rewrite at_rooted by assumption.
  now apply (MkdirAll_from_link_free l Hl _ _ _ H).
Qed.

End Calls.

End LinkFree.

(** In a tree without links [CreateFile] leaves a tree without links, which
    differs from the old one below the root only. *)
Lemma CreateFile_link_free (p : PublicFilesService) (w : World) (input : string) :
  filepath.IsAbs (cwd w) = true ->
  exists t',
    linked.fs (snd (linked.CreateFile p (as_linked w) input)) = linked.of_os t'
    /\ inside (root_elements p w) (fs w) t'.
Proof.
  intros Hcwd. unfold linked.CreateFile.
  change (linked.sanitizePathForWrite p (as_linked w) input)
    with (sanitizePathForWrite p w input).
  assert (Hfs : forall w0 ev d, linked.fs (linked.notifyWebSocket p w0 ev d) = linked.fs w0).
  { intros. unfold linked.notifyWebSocket. now destruct (wsHub p). }
  destruct (sanitizePathForWrite p w input) as [c|] eqn:Hw;
    [|exists (fs w); split; [reflexivity | apply inside_refl]].
  destruct (write_below p w input c Hcwd Hw) as (R & e & HX & HR & He & _ & Hc & _).
  destruct (write_places p w Hcwd _ _ Hw) as (t & t' & Ht & Hpt & Ht' & Hpt').
  assert (Hl : Forall plain (root_elements p w ++ R)) by (apply Forall_app; now split).
  assert (Hdir : filepath.Dir c = filepath.render true (root_elements p w ++ R)).
  { rewrite Hc, app_assoc. apply Dir_rooted; [assumption | apply He]. }
  cbn [as_linked linked.cwd linked.fs].
  destruct (linked.MkdirAll (cwd w) (linked.of_os (fs w)) (filepath.Dir c)) as [fs1|] eqn:E1;
    [|exists (fs w); split; [reflexivity | apply inside_refl]].
  rewrite Hdir in E1.
  destruct (MkdirAll_link_free _ Hcwd _ _ _ Hl E1) as (t1 & Hm & ->).
  rewrite <- Hdir in Hm.
  pose proof (MkdirAll_inside _ _ _ _ Ht' Hpt' _ _ Hm) as H1.
  cbv zeta. cbn [linked.with_fs linked.cwd linked.fs as_linked].
  destruct (linked.WriteFile (cwd w) (linked.of_os t1) c "") as [fs2|] eqn:E2;
    [|exists t1; split; [reflexivity | assumption]].
  destruct (WriteFile_link_free _ Hcwd _ _ _ _ E2) as (t2 & Hwr & ->).
  { rewrite Hc, resolve_rooted.
    - intros [= E]. destruct (root_elements p w); [destruct R|]; discriminate.
    - apply Forall_app. split; [assumption|]. apply plain_snoc; [assumption | apply He]. }
  exists t2. cbn [snd]. rewrite Hfs. cbn [linked.fs]. split; [reflexivity|].
  eapply inside_trans; [exact H1|].
  exact (WriteFile_inside _ _ _ _ Ht Hpt _ _ _ Hwr).
Qed.

(** X16. [DownloadItem] never changes the world. In a tree without symbolic
    links it discloses nothing but regular files at or below the root that
    are reached through components none of which starts with a dot. The
    sanitizer compares the text of the path with the text of the root, and
    the operating system follows the links it meets: a symbolic link below
    the root to a regular file is read through, and the bytes of that file
    are disclosed, wherever it lies. *)
Theorem X16_DownloadItem_reads_below_the_root_or_through_a_link (p : PublicFilesService) :
  (forall lw input, snd (linked.DownloadItem p lw input) = lw)
  /\ (forall w input data lw',
        filepath.IsAbs (cwd w) = true ->
        linked.DownloadItem p (as_linked w) input = (Ok data, lw') ->
        exists R, Forall visible R
                  /\ os.find (root_elements p w ++ R) (fs w) = Ok (os.File data))
  /\ (forall lw input R name q data,
        filepath.IsAbs (linked.cwd lw) = true -> denylist_free input ->
        filter real (strings.Split (normalized input) filepath.Separator)
        = (R ++ [name])%list ->
        Forall (fun e => strings.HasPrefix e "." = false) (R ++ [name]) ->
        linked.find (linked_root p lw ++ R ++ [name]) (linked.fs lw)
        = Ok (linked.Symlink (filepath.render true q)) ->
        Forall plain q -> linked.find q (linked.fs lw) = Ok (linked.File data) ->
        linked.DownloadItem p lw input = (Ok data, lw)).
Proof.
  split; [|split].
  - intros lw input. unfold linked.DownloadItem.
    destruct (linked.sanitizePathForRead p lw input) as [c|]; [|reflexivity]. cbv zeta.
    destruct (linked.Stat _ _ c) as [info|]; [|reflexivity].
    destruct (os.IsDir info); [reflexivity|].
    now destruct (linked.ReadFile _ _ c).
  - intros w input data lw' Hcwd H.
    apply (DownloadItem_link_free p w input data lw' Hcwd) in H.
    exact (proj2 (DownloadItem_reads_below p w w input data Hcwd H)).
  - intros lw input R name q data. apply DownloadItem_through_link.
Qed.

Lemma X16_DownloadItem_reads_below_the_root_or_through_a_link_witness :
  linked.DownloadItem Demo.service Demo.linked_world "shadow"
  = (Ok "root:x", Demo.linked_world)
  /\ linked_root Demo.service Demo.linked_world = ["srv"; "pub"]
  /\ linked.find ["etc"; "shadow"] (linked.fs Demo.linked_world) = Ok (linked.File "root:x")
  /\ exists R, Forall visible R
               /\ os.find (["srv"; "pub"] ++ R) (fs Demo.world) = Ok (os.File "bb").
Proof.
  destruct (X16_DownloadItem_reads_below_the_root_or_through_a_link Demo.service)
    as (_ & Hfree & Hlink).
  split; [|split; [reflexivity | split; [reflexivity|]]].
  - apply (Hlink Demo.linked_world "shadow" [] "shadow" ["etc"; "shadow"] "root:x");
      try reflexivity.
    + repeat constructor.
    + repeat constructor; discriminate.
  - apply (Hfree Demo.world "docs/b.txt" "bb" (as_linked Demo.world)); [reflexivity|].
    vm_compute. reflexivity.
Defined.

(** X11. In a tree without symbolic links, with path arguments that went
    through the sanitizers, no mutation changes anything outside the root:
    whatever place is apart from the root, it names the same before and
    after the call, be the call a success or a failure. For [CreateFile]
    this is shown once more with the operating system resolving paths as
    the kernel does, on a tree that holds no link. It does not hold of a
    tree with links: the sanitizers work on the text of a path, and the
    operating system follows the links it meets, so that through a symbolic
    link below the root to a directory [CreateFile] creates its file in that
    directory, wherever it lies. *)
Theorem X11_mutations_stay_below_the_root_unless_linked (p : PublicFilesService) :
  (forall w q,
     filepath.IsAbs (cwd w) = true -> apart q (root_elements p w) ->
     (forall input, os.find q (fs (snd (CreateFile p w input))) = os.find q (fs w))
     /\ (forall input, os.find q (fs (snd (CreateFolder p w input))) = os.find q (fs w))
     /\ (forall input data, os.find q (fs (snd (UploadFile p w input data))) = os.find q (fs w))
     /\ (forall input content,
           os.find q (fs (snd (EditFile p w input content))) = os.find q (fs w))
     /\ (forall input, os.find q (fs (snd (DeleteItem p w input))) = os.find q (fs w))
     /\ (forall a b, os.find q (fs (snd (RenameFile p w a b))) = os.find q (fs w))
     /\ (forall a b, os.find q (fs (snd (MoveFile p w a b))) = os.find q (fs w))
     /\ (forall a b, os.find q (fs (snd (CopyFile p w a b))) = os.find q (fs w)))
  /\ (forall w q input,
        filepath.IsAbs (cwd w) = true -> apart q (root_elements p w) ->
        linked.find q (linked.fs (snd (linked.CreateFile p (as_linked w) input)))
        = linked.find q (linked.fs (as_linked w)))
  /\ (forall lw input R name f q es,
        filepath.IsAbs (linked.cwd lw) = true -> denylist_free input ->
        filter real (strings.Split (normalized input) filepath.Separator)
        = (R ++ [name; f])%list ->
        strings.HasPrefix f "." = false -> (strings.len f <= 255)%Z ->
        linked.find (linked_root p lw ++ R ++ [name]) (linked.fs lw)
        = Ok (linked.Symlink (filepath.render true q)) ->
        Forall plain q -> linked.find q (linked.fs lw) = Ok (linked.Dir es) ->
        os.assoc f es = None ->
        exists r lw',
          linked.CreateFile p lw input = (Ok r, lw')
          /\ linked.fs lw' = linked.put (q ++ [f]) (linked.File "") (linked.fs lw)
          /\ linked.find (q ++ [f]) (linked.fs lw') = Ok (linked.File "")).
Proof.
  split; [|split].
  - intros w q Hcwd Hq. repeat split; intros.
    + now apply CreateFile_inside.
    + now apply CreateFolder_inside.
    + now apply UploadFile_inside.
    + now apply EditFile_inside.
    + now apply DeleteItem_inside.
    + now apply RenameFile_inside.
    + now apply MoveFile_inside.
    + now apply CopyFile_inside.
  - intros w q input Hcwd Hq.
    destruct (CreateFile_link_free p w input Hcwd) as (t' & -> & Hin).
    cbn [as_linked linked.fs]. now rewrite !find_of_os, (Hin q Hq).
  - intros lw input R name f q es. apply CreateFile_through_link.
Qed.

Lemma X11_mutations_stay_below_the_root_unless_linked_witness :
  (apart ["app"; "data"] (root_elements Demo.service Demo.world)
   /\ os.find ["app"; "data"] (fs (snd (DeleteItem Demo.service Demo.world "/")))
      = os.find ["app"; "data"] (fs Demo.world)
   /\ os.find ["srv"; "pub"] (fs (snd (DeleteItem Demo.service Demo.world "/"))) = Err os.ENOENT)
  /\ linked.find ["app"; "data"]
       (linked.fs (snd (linked.CreateFile Demo.service (as_linked Demo.world) "new/x.txt")))
     = linked.find ["app"; "data"] (linked.fs (as_linked Demo.world))
  /\ linked_root Demo.service Demo.linked_world = ["srv"; "pub"]
  /\ linked.find ["etc"; "x.txt"] (linked.fs Demo.linked_world) = Err os.ENOENT
  /\ exists r lw',
       linked.CreateFile Demo.service Demo.linked_world "conf/x.txt" = (Ok r, lw')
       /\ linked.find ["etc"; "x.txt"] (linked.fs lw') = Ok (linked.File "").
Proof.
  destruct (X11_mutations_stay_below_the_root_unless_linked Demo.service)
    as (Hfree & Hcreate & Hlink).
  split; [|split; [|split; [reflexivity | split; [reflexivity|]]]].
  - split; [split; reflexivity|]. split; [|reflexivity].
    apply (Hfree Demo.world ["app"; "data"] eq_refl); split; reflexivity.
  - apply (Hcreate Demo.world ["app"; "data"] "new/x.txt" eq_refl); split; reflexivity.
  - destruct (Hlink Demo.linked_world "conf/x.txt" [] "conf" "x.txt" ["etc"]
                [("shadow", linked.File "root:x")]) as (r & lw' & H1 & _ & H3);
      try reflexivity.
    + vm_compute. discriminate.
    + repeat constructor; discriminate.
    + exists r, lw'. split; assumption.
Defined.

(** ** Uploading and downloading a folder *)

Section FlatUpload.
Import filepath.
Variable w : World.
Variable F : list string.
Hypothesis HF : Forall plain F.
Hypothesis HFne : F <> [].

Lemma update_put_same d : forall n m,
  os.find d n = Ok m -> d <> [] -> os.update d (put m) n = Ok n.
Proof.
  induction d as [|a d IH]; intros n m Hf Hne; [congruence|].
  destruct n as [|es]; [discriminate|]. cbn [os.find] in Hf.
  destruct (os.assoc a es) as [c|] eqn:Ha; [|discriminate].
  destruct d as [|b d].
  - cbn [os.find] in Hf. injection Hf as ->. cbn [os.update put os.set_entry].
    now rewrite replace_entry_same.
  - rewrite update_cons, Ha, (IH c m Hf) by discriminate. cbn [os.set_entry].
    now rewrite replace_entry_same.
Qed.

Lemma map_fst_as_files files : map fst (as_files files) = map fst files.
Proof. unfold as_files. rewrite map_map. now apply map_ext. Qed.

Lemma upload_files_flat fs1 (files : list (string * string)) : forall done fs_i count,
  forallb (fun kv => file_name (fst kv)) files = true ->
  NoDup (map fst (done ++ files)) ->
  os.update F (put (os.Dir (as_files done))) fs1 = Ok fs_i ->
  exists fs',
    upload_files w (render true F) files fs_i count
    = (fs', (count + Z.of_nat (List.length files))%Z)
    /\ os.update F (put (os.Dir (as_files (done ++ files)))) fs1 = Ok fs'.
Proof.
  induction files as [|[name data] files IH]; intros done fs_i count Hnames Hnd Hi.
  - cbn [upload_files List.length Z.of_nat]. rewrite Z.add_0_r, app_nil_r. eauto.
  - cbn [forallb fst] in Hnames. apply andb_true_iff in Hnames as [Hname Hnames].
    apply file_name_plain in Hname.
    assert (Hdst : os.find F fs_i = Ok (os.Dir (as_files done))).
    { destruct (find_update_same _ _ _ _ Hi) as (v & Hv & Hf).
      cbn [put] in Hv. injection Hv as <-. exact Hf. }
    assert (Hfresh : os.assoc name (as_files done) = None).
    { apply assoc_absent. rewrite map_fst_as_files. intros Hdone.
      rewrite map_app in Hnd. cbn [map fst] in Hnd.
      apply NoDup_remove_2 in Hnd. apply Hnd, in_or_app. now left. }
    pose proof (plain_snoc _ _ HF Hname) as Hp.
    cbn [upload_files]. rewrite Join_rooted_name, Dir_rooted, MkdirAll_rooted by assumption.
    rewrite (mkdir_all_existing F fs_i _ Hdst).
    rewrite WriteFile_rooted by assumption.
    rewrite (update_child F name _ fs1 fs_i (as_files done) (Some (os.File data)) HFne Hi)
      by now rewrite Hfresh.
    cbn [os.set_entry]. rewrite replace_absent by assumption.
    change [(name, os.File data)] with (as_files [(name, data)]).
    unfold as_files at 1 2. rewrite <- map_app. fold (as_files (done ++ [(name, data)])).
    destruct (update_put_any F _ (os.Dir (as_files (done ++ [(name, data)]))) _ _ Hi)
      as [fs2 H2].
    rewrite H2.
    destruct (IH (done ++ [(name, data)])%list fs2 (count + 1)%Z Hnames) as (fs' & Hrun & Hfin);
      [now rewrite <- app_assoc | exact H2 |].
    exists fs'. rewrite Hrun, <- app_assoc in *. split; [|exact Hfin].
    f_equal. cbn [List.length]. lia.
Qed.

Lemma as_files_well_formed files :
  forallb (fun kv => file_name (fst kv)) files = true ->
  distinct (map fst files) = true ->
  well_formed (os.Dir (as_files files)) = true.
Proof.
  intros Hn Hd. cbn [well_formed]. rewrite map_fst_as_files, Hd.
  assert (H1 : forallb (fun kv => file_name (fst kv)) (as_files files) = true).
  { clear Hd. induction files as [|kv files IH]; [reflexivity|].
    cbn [forallb map as_files fst] in *. apply andb_true_iff in Hn as [-> Hn]. now apply IH. }
  rewrite H1. cbn [andb]. clear.
  induction files as [|kv files IH]; [reflexivity|]. exact IH.
Qed.

Lemma as_files_find files sub v :
  distinct (map fst files) = true ->
  os.find sub (os.Dir (as_files files)) = Ok (os.File v)
  <-> exists k, sub = [k] /\ In (k, v) files.
Proof.
  intros Hd. split.
  - destruct sub as [|k sub]; [discriminate|]. cbn [os.find].
    destruct (os.assoc k (as_files files)) as [c|] eqn:Ha; [|discriminate].
    apply assoc_In in Ha. apply in_map_iff in Ha as ([k' v'] & [= -> <-] & Hin).
    destruct sub; [|discriminate]. cbn [os.find]. intros [= <-]. eauto.
  - intros (k & -> & Hin). cbn [os.find].
    rewrite (distinct_assoc _ (as_files files) k (os.File v)); [reflexivity | |].
    + now rewrite map_fst_as_files.
    + apply in_map_iff. now exists (k, v).
Qed.

End FlatUpload.

(** X18. A folder uploaded to a place that did not exist and that no hidden
    component leads to, from a map whose keys are plain file names, is
    downloaded again as the same map: every file is counted as uploaded, and
    [DownloadFolder] of the same path answers exactly the entries of the
    map. *)
Theorem X18_uploaded_folder_downloads_the_same (p : PublicFilesService) (w : World)
    (folderPath folder : string) (files : list (string * string)) :
  filepath.IsAbs (cwd w) = true ->
  sanitizePathForWrite p w folderPath = Ok folder ->
  no_hidden_component folderPath ->
  os.Stat (cwd w) (fs w) folder = Err os.ENOENT ->
  forallb (fun kv => file_name (fst kv)) files = true ->
  distinct (map fst files) = true ->
  exists r w' got,
    UploadFolder p w folderPath files = (Ok r, w')
    /\ In ("files_count", dtos.VInt (Z.of_nat (List.length files))) r
    /\ DownloadFolder p w' folderPath = (Ok got, w')
    /\ forall k data, os.assoc k got = Some data <-> In (k, data) files.
Proof.
  intros Hcwd Hw Hnh Hmiss Hnames Hd.
  destruct (write_below p w folderPath folder Hcwd Hw) as (R & e & HX & HR & He & _ & E & _).
  set (F := (root_elements p w ++ R ++ [e])%list) in *.
  assert (HF : Forall plain F).
  { apply Forall_app. split; [assumption|]. apply Forall_app. split; [assumption|].
    constructor; [apply He | constructor]. }
  assert (HFne : F <> []).
  { unfold F. destruct (root_elements p w); [destruct R|]; discriminate. }
  subst folder. rewrite Stat_Lookup, Lookup_rooted in Hmiss by assumption.
  assert (Hmiss' : os.find F (fs w) = Err os.ENOENT)
    by (destruct (os.find F (fs w)); [discriminate | congruence]).
  clear Hmiss.
  destruct (mkdir_all_missing F "x" (fs w)) as [fs1 Hm].
  { now rewrite find_app, Hmiss'. }
  pose proof (mkdir_all_new_empty F _ _ Hmiss' Hm) as Hempty.
  pose proof (update_put_same F fs1 _ Hempty HFne) as H0.
  apply distinct_NoDup in Hd as Hnd.
  destruct (upload_files_flat w F HF HFne fs1 files [] fs1 0%Z Hnames Hnd H0)
    as (fs2 & Hrun & Hfin).
  cbn [app] in Hfin. rewrite Z.add_0_l in Hrun.
  assert (Hdir : os.find F fs2 = Ok (os.Dir (as_files files))).
  { destruct (find_update_same _ _ _ _ Hfin) as (v & Hv & Hf).
    cbn [put] in Hv. injection Hv as <-. exact Hf. }
  unfold UploadFolder. rewrite Hw, MkdirAll_rooted, Hm, Hrun by assumption.
  match goal with |- exists _ _ _, (_, ?w1) = _ /\ _ => set (w' := w1) end.
  eexists. exists w'.
  assert (Hfs : fs w' = fs2) by (unfold w'; now rewrite fs_notify).
  assert (Ecwd : cwd w' = cwd w) by (unfold w', notifyWebSocket; now destruct (wsHub p)).
  assert (Hr : sanitizePathForRead p w' folderPath = Ok (filepath.render true F)).
  { apply (read_after_write p w w' folderPath _ Hcwd Hw Ecwd); [|assumption].
    now rewrite Stat_Lookup, Lookup_rooted, Hfs, Hdir by assumption. }
  unfold DownloadFolder. rewrite Hr. cbv zeta.
  rewrite Stat_Lookup, Lookup_rooted, Hfs, Hdir by assumption. cbn [os.info_of os.IsDir negb].
  eexists. split; [reflexivity|]. split; [simpl; tauto|]. split; [reflexivity|].
  intros k data. rewrite Walk_download. unfold walk_order_from.
  rewrite resolve_rooted, Hfs, Hdir by assumption.
  rewrite <- Hfs in Hdir.
  rewrite (download_assoc_iff w' F (as_files files) HF Hdir
             (as_files_well_formed files Hnames Hd)).
  split.
  - intros (sub & Hsub & -> & Hf). rewrite find_app, Hdir in Hf.
    apply as_files_find in Hf as (k & -> & Hin); [|assumption].
    cbn [String.concat]. exact Hin.
  - intros Hin. exists [k]. split; [|split; [reflexivity|]].
    + constructor; [|constructor]. apply file_name_plain.
      rewrite forallb_forall in Hnames. exact (Hnames _ Hin).
    + rewrite find_app, Hdir. apply as_files_find; eauto.
Qed.

Lemma X18_uploaded_folder_downloads_the_same_witness :
  exists r w' got,
    UploadFolder Demo.service Demo.world "up" [("a.txt", "1"); ("b.md", "2")] = (Ok r, w')
    /\ In ("files_count", dtos.VInt 2) r
    /\ DownloadFolder Demo.service w' "up" = (Ok got, w')
    /\ forall k data, os.assoc k got = Some data <-> In (k, data) [("a.txt", "1"); ("b.md", "2")].
Proof.
  apply (X18_uploaded_folder_downloads_the_same Demo.service Demo.world "up" "/srv/pub/up"
           [("a.txt", "1"); ("b.md", "2")] eq_refl eq_refl);
    [repeat constructor; discriminate | reflexivity..].
Defined.

(** ** Entity tags *)

Lemma append_inv_head (a x y : string) : a ++ x = a ++ y -> x = y.
Proof. induction a as [|c a IH]; cbn [String.append]; [tauto|]. intros [= H]. now apply IH. Qed.

Lemma digits_then (u u' : Decimal.uint) : forall x x',
  NilEmpty.string_of_uint u ++ x = NilEmpty.string_of_uint u' ++ x' ->
  ends_number x -> ends_number x' -> u = u' /\ x = x'.
Proof.
  revert u'. induction u as [|u IH|u IH|u IH|u IH|u IH|u IH|u IH|u IH|u IH|u IH];
    intros u' x x' E Hx Hx';
    destruct u'; cbn [NilEmpty.string_of_uint String.append] in E;
    try (destruct x as [|c x]; [discriminate|]; injection E as -> _; vm_compute in Hx; discriminate);
    try (destruct x' as [|c x']; [discriminate|]; injection E as <- _; vm_compute in Hx'; discriminate);
    try discriminate;
    try (injection E as E; destruct (IH _ _ _ E Hx Hx') as [-> ->]; now split).
  now split.
Qed.

Lemma to_uint_digit p : exists c s,
  NilZero.string_of_uint (Pos.to_uint p) = NilEmpty.string_of_uint (Pos.to_uint p)
  /\ NilEmpty.string_of_uint (Pos.to_uint p) = String c s /\ is_digit c = true.
Proof.
  pose proof (DecimalPos.Unsigned.to_uint_nonnil p) as H.
  destruct (Pos.to_uint p); [congruence|..];
    cbn [NilZero.string_of_uint NilEmpty.string_of_uint]; eauto.
Qed.

Lemma to_int_digits z : exists (neg : bool) u c s,
  Z.to_int z = (if neg then Decimal.Neg u else Decimal.Pos u)
  /\ NilZero.string_of_uint u = NilEmpty.string_of_uint u
  /\ NilEmpty.string_of_uint u = String c s /\ is_digit c = true.
Proof.
  destruct z as [|q|q]; cbn [Z.to_int].
  - exists false, (Decimal.D0 Decimal.Nil). cbn. eauto 6.
  - destruct (to_uint_digit q) as (c & s & E0 & E & Hc). exists false, (Pos.to_uint q). eauto 6.
  - destruct (to_uint_digit q) as (c & s & E0 & E & Hc). exists true, (Pos.to_uint q). eauto 6.
Qed.

(** A number formatted with [%d] can be read back from the front of a string,
    whatever follows it, as long as that is no digit. *)
Lemma decimal_then (z z' : Z) (x x' : string) :
  decimal z ++ x = decimal z' ++ x' -> ends_number x -> ends_number x' -> z = z' /\ x = x'.
Proof.
  unfold decimal. intros E Hx Hx'.
  destruct (to_int_digits z) as (n & u & c & s & Ez & E0 & Eu & Hc).
  destruct (to_int_digits z') as (n' & u' & c' & s' & Ez' & E0' & Eu' & Hc').
  rewrite Ez, Ez' in E.
  assert (H : n = n' /\ u = u' /\ x = x').
  { destruct n, n'; cbn [NilZero.string_of_int String.append] in E; rewrite E0, E0' in E.
    - injection E as E. destruct (digits_then _ _ _ _ E Hx Hx'). auto.
    - rewrite Eu' in E. injection E as <- _. discriminate.
    - rewrite Eu in E. injection E as -> _. discriminate.
    - destruct (digits_then _ _ _ _ E Hx Hx'). auto. }
  destruct H as (-> & -> & ->). split; [|reflexivity].
  apply DecimalZ.to_int_inj. congruence.
Qed.

(** X19. The entity tag of a path tells its modification time and its size:
    two tags of one path are equal only when both the time (or its absence)
    and the size are. *)
Theorem X19_generateEtag_tells_time_and_size (filePath : string)
    (modified modified' : option Z) (size size' : Z) :
  modified <> modified' \/ size <> size' ->
  generateEtag filePath modified size <> generateEtag filePath modified' size'.
Proof.
  intros Hdiff E. unfold generateEtag, quote in E.
  assert (Hq : forall a b, decimal a ++ String "034" "" = decimal b ++ String "034" "" -> a = b).
  { intros a b H. now destruct (decimal_then _ _ _ _ H eq_refl eq_refl). }
  assert (H : modified = modified' /\ size = size'); [|tauto].
  destruct modified as [m|], modified' as [m'|];
    cbn [String.append] in E; injection E as E; apply append_inv_head in E;
    cbn [String.append] in E; injection E as E.
  - destruct (decimal_then _ _ _ _ E eq_refl eq_refl) as [-> E'].
    cbn [String.append] in E'. injection E' as E'. now rewrite (Hq _ _ E').
  - destruct (decimal_then _ _ _ _ E eq_refl eq_refl) as [_ E']. discriminate.
  - destruct (decimal_then _ _ _ _ E eq_refl eq_refl) as [_ E']. discriminate.
  - now rewrite (Hq _ _ E).
Qed.

Lemma X19_generateEtag_tells_time_and_size_witness :
  generateEtag "/srv/pub/a.txt" (Some 1700000000%Z) 12
  <> generateEtag "/srv/pub/a.txt" (Some 1700000000%Z) 120.
Proof.
  apply (X19_generateEtag_tells_time_and_size "/srv/pub/a.txt"
           (Some 1700000000%Z) (Some 1700000000%Z) 12 120).
  right. lia.
Defined.

(** ** The hub runs on *)

Section Heap.
Import hub.
Context {A : Type}.

Lemma store_length (l : list A) : forall i x, List.length (store i x l) = List.length l.
Proof. induction l as [|y l IH]; intros [|i] x; cbn [store List.length]; auto. Qed.

Lemma store_same (l : list A) : forall i x y,
  nth_error l i = Some y -> nth_error (store i x l) i = Some x.
Proof.
  induction l as [|z l IH]; intros [|i] x y H; try discriminate; cbn [store nth_error] in *;
    [reflexivity | eauto].
Qed.

Lemma store_other (l : list A) : forall i j x,
  i <> j -> nth_error (store i x l) j = nth_error l j.
Proof.
  induction l as [|z l IH]; intros [|i] [|j] x H; cbn [store nth_error]; auto; congruence.
Qed.

Lemma store_lookup (l : list A) i j x y :
  nth_error (store i x l) j = Some y ->
  (i = j /\ y = x /\ j < List.length l) \/ (i <> j /\ nth_error l j = Some y).
Proof.
  intros H. destruct (Nat.eq_dec i j) as [->|Hne].
  - left. assert (Hj : j < List.length l).
    { rewrite <- (store_length l j x). apply nth_error_Some. congruence. }
    destruct (nth_error l j) as [z|] eqn:E; [|apply nth_error_None in E; lia].
    rewrite (store_same l j x z E) in H. now injection H as <-.
  - right. now rewrite store_other in H.
Qed.

End Heap.

Section Keys.
Import hub.

Lemma has_In c keys : has c keys = true <-> In c keys.
Proof.
  unfold has. rewrite existsb_exists. split.
  - intros (k & Hk & E). apply Nat.eqb_eq in E. now subst.
  - intros H. exists c. split; [assumption | apply Nat.eqb_refl].
Qed.

Lemma has_add c k keys : has c (add k keys) = (c =? k)%nat || has c keys.
Proof.
  apply eq_true_iff_eq. rewrite orb_true_iff, Nat.eqb_eq, !has_In. unfold add.
  destruct (has k keys) eqn:E.
  - apply has_In in E. split; [tauto|]. now intros [->|H].
  - rewrite in_app_iff. cbn [In]. split; [intros [H|[->|[]]]; tauto | intros [->|H]; tauto].
Qed.

Lemma has_delete c k keys : has c (delete k keys) = negb (c =? k)%nat && has c keys.
Proof.
  apply eq_true_iff_eq. rewrite andb_true_iff, negb_true_iff, Nat.eqb_neq, !has_In.
  unfold delete. rewrite filter_In, negb_true_iff, Nat.eqb_neq. split; intros [H1 H2]; split; auto.
Qed.

Lemma has_visit msg todo : forall msg' todo' c,
  visit msg todo = Some (msg', todo') -> has c todo' = true -> msg' = msg /\ has c todo = true.
Proof. destruct todo; intros msg' todo' c [= <- <-] H; now split. Qed.

End Keys.

Section Soundness.
Import hub.

Lemma send_open cap ch m :
  closed ch = false ->
  send cap ch m = None
  \/ exists ch', send cap ch m = Some (Ok ch') /\ closed ch' = false
                 /\ buffer ch' = (buffer ch ++ [m])%list.
Proof.
  intros H. unfold send. rewrite H. destruct (Nat.ltb _ _); [right | now left].
  eexists. split; [reflexivity|]. now split.
Qed.

Lemma offer_open cap ch m :
  closed ch = false ->
  exists ch', offer cap ch m = Ok ch' /\ closed ch' = false
              /\ (buffer ch' = buffer ch \/ buffer ch' = (buffer ch ++ [m])%list).
Proof.
  intros H. unfold offer. destruct (send_open cap ch m H) as [->|(ch' & -> & Hc & Hb)].
  - exists ch. auto.
  - exists ch'. auto.
Qed.

Lemma receive_some ch m ch' :
  receive ch = Some (m, ch') ->
  closed ch' = closed ch
  /\ match m with Some msg => buffer ch = msg :: buffer ch' | None => ch' = ch end.
Proof.
  unfold receive. destruct (buffer ch) as [|x rest] eqn:E.
  - destruct (closed ch) eqn:Ec; [|discriminate]. intros [= <- <-]. split; [assumption | reflexivity].
  - intros [= <- <-]. split; reflexivity.
Qed.

(** Replacing the record of one client by a sound one. *)
Lemma sound_with_client h c client client' :
  sound h -> nth_error (heap h) c = Some client ->
  sound_client (clients h) c client' -> sound (with_client h c client').
Proof.
  intros (H1 & H2 & H3 & H4) Hc Hs. unfold sound, with_client, with_heap.
  cbn [heap clients broadcast visiting]. rewrite store_length.
  split; [assumption|]. split; [assumption|]. split; [assumption|].
  intros c' cl' Hl. apply store_lookup in Hl as [(<- & -> & _)|(_ & Hl)]; [exact Hs | eauto].
Qed.

Lemma sound_lookup h c client :
  sound h -> nth_error (heap h) c = Some client -> sound_client (clients h) c client.
Proof. intros (_ & _ & _ & H). apply H. Qed.

(** A goroutine that is about to send finds the channel open. *)
Lemma sender_finds_open keys c client :
  sound_client keys c client ->
  match handler client, reader client with
  | AtGreet _, _ | _, AtPong _ | _, AtRead | _, AtUnregister => closed (Send client) = false
  | _, _ => True
  end.
Proof.
  intros (H1 & _ & H3).
  destruct (closed (Send client)); [|now destruct (handler client), (reader client)].
  specialize (H1 eq_refl). rewrite H1 in *. destruct (handler client); try exact I; discriminate.
Qed.

Lemma step_sound h e s :
  sound h -> step h e = Some s -> exists h', s = Live h' /\ sound h'.
Proof.
  intros Hs Hstep. pose proof Hs as (H1 & H2 & H3 & H4).
  destruct e as [msg|id|c now now'|c|c msg now|c|c| |c|c ok]; cbn [step] in Hstep.
  - (* Broadcast *)
    injection Hstep as <-. unfold Broadcast.
    destruct (offer_open broadcast_capacity (broadcast h) msg H1) as (ch & -> & Hc & _).
    eexists. split; [reflexivity|]. unfold sound. cbn [heap clients broadcast visiting]. auto.
  - (* HandleConnection *)
    injection Hstep as <-. eexists. split; [reflexivity|].
    unfold sound, HandleConnection, with_heap. cbn [heap clients broadcast visiting].
    rewrite length_app. cbn [List.length].
    split; [assumption|]. split; [intros c Hc; specialize (H2 c Hc); lia|].
    split; [assumption|]. intros c client Hl.
    destruct (Nat.lt_ge_cases c (List.length (heap h))) as [Hlt|Hge].
    + rewrite nth_error_app1 in Hl by assumption. eauto.
    + rewrite nth_error_app2 in Hl by assumption.
      destruct (c - List.length (heap h)) as [|[|k]]; try discriminate. injection Hl as <-.
      unfold sound_client. cbn [Send closed reader handler make]. repeat split; discriminate.
  - (* register *)
    destruct (visiting h) eqn:Hv; [discriminate|].
    destruct (nth_error (heap h) c) as [client|] eqn:Hc; [|discriminate].
    destruct (handler client) eqn:Hh; try discriminate. injection Hstep as <-.
    eexists. split; [reflexivity|].
    pose proof (H4 c client Hc) as (Hc1 & Hc2 & Hc3). rewrite Hh in Hc3.
    unfold sound, with_client, with_heap, Run_register. cbn [heap clients broadcast visiting].
    rewrite store_length, Hv.
    split; [assumption|]. split.
    { intros c'. rewrite has_add. destruct (Nat.eqb_spec c' c) as [->|Hne]; cbn [orb]; [|auto].
      intros _. apply nth_error_Some. congruence. }
    split; [discriminate|].
    intros c' cl' Hl. apply store_lookup in Hl as [(<- & -> & _)|(Hne & Hl)].
    + unfold sound_client, handler_to. cbn [Send reader handler].
      split; [assumption|]. split; [|assumption]. intros _.
      destruct (closed (Send client)); [|reflexivity]. rewrite Hc1 in Hc3; [discriminate|reflexivity].
    + destruct (H4 c' cl' Hl) as (Ha & Hb & Hd). split; [assumption|]. split; [|assumption].
      rewrite has_add. destruct (Nat.eqb_spec c' c); [congruence | exact Hb].
  - (* the greeting *)
    destruct (nth_error (heap h) c) as [client|] eqn:Hc; [|discriminate].
    destruct (handler client) as [|m| |] eqn:Hh; try discriminate.
    pose proof (H4 c client Hc) as Hsc.
    pose proof (sender_finds_open _ _ _ Hsc) as Hopen. rewrite Hh in Hopen.
    destruct (send_open Send_capacity (Send client) m Hopen) as [E|(ch & E & Hch & _)];
      rewrite E in Hstep; [discriminate|]. injection Hstep as <-.
    eexists. split; [reflexivity|]. apply (sound_with_client h c client _ Hs Hc).
    unfold sound_client. cbn [Send reader handler reader_to handler_to with_Send].
    rewrite Hch. repeat split; discriminate.
  - (* readPump *)
    destruct (nth_error (heap h) c) as [client|] eqn:Hc; [|discriminate].
    destruct (reader client) eqn:Hr; try discriminate.
    pose proof (H4 c client Hc) as Hsc.
    pose proof (sender_finds_open _ _ _ Hsc) as Hopen. rewrite Hr in Hopen.
    assert (Hopen' : closed (Send client) = false) by now destruct (handler client).
    destruct Hsc as (_ & _ & Hc3).
    assert (Hlate : forall r, match handler client with
                              | AtRegister | AtGreet _ => r = NotStarted
                              | _ => True
                              end).
    { intros r. rewrite Hr in Hc3. destruct (handler client); try exact I; discriminate. }
    destruct msg as [msg|]; injection Hstep as <-; (eexists; split; [reflexivity|]);
      apply (sound_with_client h c client _ Hs Hc).
    + unfold readPump_message.
      destruct (EventType msg =? "subscribe"); [|destruct (EventType msg =? "unsubscribe");
        [|destruct (EventType msg =? "ping")]];
        unfold sound_client; cbn [Send reader handler reader_to with_Subs];
        rewrite ?Hr, Hopen'; (split; [discriminate|]); (split; [reflexivity|]); apply Hlate.
    + unfold sound_client. cbn [Send reader handler reader_to]. rewrite Hopen'.
      split; [discriminate|]. split; [reflexivity|]. apply Hlate.
  - (* the pong *)
    destruct (nth_error (heap h) c) as [client|] eqn:Hc; [|discriminate].
    destruct (reader client) as [| |m| |] eqn:Hr; try discriminate.
    pose proof (H4 c client Hc) as Hsc.
    pose proof (sender_finds_open _ _ _ Hsc) as Hopen. rewrite Hr in Hopen.
    assert (Hopen' : closed (Send client) = false) by now destruct (handler client).
    destruct Hsc as (_ & _ & Hc3). rewrite Hr in Hc3.
    destruct (send_open Send_capacity (Send client) m Hopen') as [E|(ch & E & Hch & _)];
      rewrite E in Hstep; [discriminate|]. injection Hstep as <-.
    eexists. split; [reflexivity|]. apply (sound_with_client h c client _ Hs Hc).
    unfold sound_client. cbn [Send reader handler reader_to with_Send]. rewrite Hch.
    split; [discriminate|]. split; [reflexivity|].
    destruct (handler client); try exact I; discriminate.
  - (* unregister *)
    destruct (visiting h) eqn:Hv; [discriminate|].
    destruct (nth_error (heap h) c) as [client|] eqn:Hc; [|discriminate].
    destruct (reader client) eqn:Hr; try discriminate. injection Hstep as <-.
    pose proof (H4 c client Hc) as (Hc1 & Hc2 & Hc3). rewrite Hr in Hc3.
    assert (Hlate : match handler client with
                    | AtRegister | AtGreet _ => Ended = NotStarted
                    | _ => True
                    end)
      by (destruct (handler client); try exact I; discriminate).
    unfold Run_unregister. destruct (has c (clients h)) eqn:Hin.
    + unfold close. cbn [Send reader_to]. rewrite (Hc2 eq_refl).
      eexists. split; [reflexivity|].
      unfold sound. cbn [heap clients broadcast visiting]. rewrite store_length, Hv.
      split; [assumption|]. split.
      { intros c'. rewrite has_delete. intros [_ H]%andb_true_iff. auto. }
      split; [discriminate|].
      intros c' cl' Hl. apply store_lookup in Hl as [(<- & -> & _)|(Hne & Hl)].
      * unfold sound_client. cbn [Send reader handler reader_to with_Send closed].
        rewrite has_delete, Nat.eqb_refl. split; [reflexivity|]. split; [discriminate | assumption].
      * destruct (H4 c' cl' Hl) as (Ha & Hb & Hd). split; [assumption|]. split; [|assumption].
        rewrite has_delete. intros [_ H]%andb_true_iff. auto.
    + eexists. split; [reflexivity|]. apply (sound_with_client h c client _ Hs Hc).
      unfold sound_client. cbn [Send reader handler reader_to]. rewrite Hin.
      split; [reflexivity|]. split; [discriminate | assumption].
  - (* a message is taken *)
    destruct (visiting h) eqn:Hv; [discriminate|].
    destruct (receive (broadcast h)) as [[[msg|] ch]|] eqn:E; try discriminate.
    injection Hstep as <-. apply receive_some in E as [Ech _].
    eexists. split; [reflexivity|]. unfold sound. cbn [heap clients broadcast visiting].
    split; [congruence|]. split; [assumption|]. split; [|assumption].
    intros msg' todo c Hvis Hin. now destruct (has_visit _ _ _ _ c Hvis Hin).
  - (* a message is offered *)
    destruct (visiting h) as [[msg todo]|] eqn:Hv; [|discriminate].
    destruct (nth_error (heap h) c) as [client|] eqn:Hc; [|discriminate].
    destruct (has c todo) eqn:Hin; [|discriminate].
    pose proof (H3 msg todo c eq_refl Hin) as Hreg.
    pose proof (H4 c client Hc) as (Hc1 & Hc2 & Hc3).
    destruct (offer_open Send_capacity (Send client) msg (Hc2 Hreg)) as (ch & E & Hch & _).
    rewrite E in Hstep. injection Hstep as <-.
    eexists. split; [reflexivity|]. unfold sound. cbn [heap clients broadcast visiting].
    rewrite store_length. split; [assumption|]. split; [assumption|]. split.
    { intros msg' todo' c' Hvis Hin'. destruct (has_visit _ _ _ _ c' Hvis Hin') as [_ H].
      rewrite has_delete in H. apply andb_true_iff in H as [_ H]. eauto. }
    intros c' cl' Hl. apply store_lookup in Hl as [(<- & -> & _)|(Hne & Hl)]; [|eauto].
    unfold sound_client. cbn [Send reader handler with_Send]. rewrite Hch.
    split; [discriminate|]. split; [reflexivity | assumption].
  - (* writePump *)
    destruct (nth_error (heap h) c) as [client|] eqn:Hc; [|discriminate].
    destruct (handler client) eqn:Hh; try discriminate.
    destruct (receive (Send client)) as [[[msg|] ch]|] eqn:E; try discriminate;
      injection Hstep as <-; apply receive_some in E as [Ech _];
      (eexists; split; [reflexivity|]); apply (sound_with_client h c client _ Hs Hc);
      pose proof (H4 c client Hc) as (Hc1 & Hc2 & Hc3).
    + destruct ok; unfold sound_client;
        cbn [Send reader handler handler_to with_Send WriteJSON]; rewrite Ech, ?Hh;
        (split; [assumption|]); (split; [assumption | exact I]).
    + unfold sound_client. cbn [Send reader handler handler_to].
      split; [assumption|]. split; [assumption | exact I].
Qed.

End Soundness.

Lemma run_sound schedule : forall h s,
  sound h -> hub.run (hub.Live h) schedule = Some s -> exists h', s = hub.Live h' /\ sound h'.
Proof.
  induction schedule as [|e schedule IH]; intros h s Hs Hrun; cbn [hub.run] in Hrun.
  - injection Hrun as <-. eauto.
  - destruct (hub.step h e) as [s'|] eqn:E; [|discriminate].
    destruct (step_sound h e s' Hs E) as (h' & -> & Hs'). eauto.
Qed.

Lemma sound_NewWebSocketHub : sound hub.NewWebSocketHub.
Proof.
  unfold sound, hub.NewWebSocketHub. cbn.
  split; [reflexivity|]. split; [discriminate|]. split; [discriminate|].
  intros [|c] client H; discriminate.
Qed.

(** X20. The hub never ends in a run-time panic: whatever the connections,
    the callers of [Broadcast] and the scheduler do, no goroutine sends on a
    closed channel and no channel is closed twice; the channel of every
    client in the map of the hub is open. *)
Theorem X20_hub_never_panics (schedule : list hub.event) (s : hub.status) :
  hub.run (hub.Live hub.NewWebSocketHub) schedule = Some s ->
  exists h,
    s = hub.Live h
    /\ forall c, hub.has c (hub.clients h) = true ->
         exists client, nth_error (hub.heap h) c = Some client
                        /\ hub.closed (hub.Send client) = false.
Proof.
  intros Hrun.
  destruct (run_sound schedule _ s sound_NewWebSocketHub Hrun) as (h & -> & H1 & H2 & H3 & H4).
  exists h. split; [reflexivity|]. intros c Hc.
  destruct (nth_error (hub.heap h) c) as [client|] eqn:E.
  - exists client. split; [reflexivity|]. now apply (H4 c client E).
  - apply nth_error_None in E. specialize (H2 c Hc). lia.
Qed.

Lemma X20_hub_never_panics_witness :
  exists h,
    hub.Live
      {| hub.heap :=
           [ {| hub.ID := "a"; hub.Send := {| hub.buffer := []; hub.closed := true |};
                hub.Subs := [];
                hub.written :=
                  [hub.connMsg "a" 1 1;
                   {| dtos.EventType := "file_created"; dtos.Data := [];
                      dtos.Timestamp := 5 |};
                   hub.pongMsg 7];
                hub.handler := hub.Returned; hub.reader := hub.Ended |} ];
         hub.clients := []; hub.broadcast := hub.make; hub.visiting := None |}
    = hub.Live h
    /\ forall c, hub.has c (hub.clients h) = true ->
         exists client, nth_error (hub.heap h) c = Some client
                        /\ hub.closed (hub.Send client) = false.
Proof.
  apply (X20_hub_never_panics
           [hub.Connect "a"; hub.Register 0 1 1; hub.Greet 0;
            hub.CallBroadcast {| dtos.EventType := "file_created"; dtos.Data := [];
                                 dtos.Timestamp := 5 |};
            hub.Take; hub.Offer 0; hub.Write 0 true; hub.Write 0 true;
            hub.Read 0 (Some {| hub.EventType := "ping"; hub.Data := hub.JNull |}) 7;
            hub.Pong 0; hub.Read 0 None 8; hub.Unregister 0; hub.Write 0 true;
            hub.Write 0 true]).
  vm_compute. reflexivity.
Defined.

(** ** What the clients are sent *)

Section Subsequences.
Context {A : Type}.
Implicit Types l : list A.

Lemma subsequence_refl l : subsequence l l.
Proof. induction l; constructor; assumption. Qed.

Lemma subsequence_nil_l l : subsequence [] l.
Proof. induction l; constructor; assumption. Qed.

Lemma subsequence_trans l1 l2 l3 :
  subsequence l1 l2 -> subsequence l2 l3 -> subsequence l1 l3.
Proof.
  intros H12 H23. revert l1 H12.
  induction H23 as [|x l2 l3 H IH|x l2 l3 H IH]; intros l1 H12.
  - exact H12.
  - constructor. now apply IH.
  - inversion H12; subst; constructor; now apply IH.
Qed.

Lemma subsequence_app l1 l1' l2 l2' :
  subsequence l1 l1' -> subsequence l2 l2' -> subsequence (l1 ++ l2) (l1' ++ l2').
Proof. intros H1 H2. induction H1; cbn [app]; try constructor; assumption. Qed.

Lemma subsequence_app_l l1 l2 : subsequence l1 (l1 ++ l2).
Proof.
  rewrite <- (app_nil_r l1) at 1.
  apply subsequence_app; [apply subsequence_refl | apply subsequence_nil_l].
Qed.

Lemma subsequence_grow l l' x : subsequence l l' -> subsequence l (l' ++ [x]).
Proof. intros H. eapply subsequence_trans; [exact H | apply subsequence_app_l]. Qed.

Lemma subsequence_filter (f : A -> bool) l : subsequence (filter f l) l.
Proof. induction l as [|x l IH]; cbn [filter]; [constructor|]. destruct (f x); now constructor. Qed.

Lemma subsequence_filtered (f : A -> bool) l l' :
  subsequence l l' -> subsequence (filter f l) (filter f l').
Proof.
  induction 1 as [|x l l' H IH|x l l' H IH]; cbn [filter]; [constructor| |];
    destruct (f x); try constructor; assumption.
Qed.

End Subsequences.

Section Order.
Import hub.

Lemma notifications_app l l' : notifications (l ++ l') = (notifications l ++ notifications l')%list.
Proof. apply filter_app. Qed.

Lemma notifications_own l m : notification m = false -> notifications (l ++ [m]) = notifications l.
Proof. intros H. rewrite notifications_app. cbn. rewrite H. apply app_nil_r. Qed.

Lemma pending_visit msg todo c heap' clients' broadcast' :
  pending {| heap := heap'; clients := clients'; broadcast := broadcast';
             visiting := visit msg todo |} c = has c todo.
Proof. unfold pending. cbn [visiting]. now destruct todo. Qed.

(** Replacing the record of one client, its messages staying in order. *)
Lemma in_order_with_client history h c client client' :
  messages_in_order history h -> nth_error (heap h) c = Some client ->
  own_messages client' ->
  subsequence (notifications (written client' ++ buffer (Send client')))
              (notifications (written client ++ buffer (Send client))) ->
  messages_in_order history (with_client h c client').
Proof.
  intros (taken & H1 & H2 & H3) Hc Hown Hsub. exists taken.
  unfold with_client, with_heap, pending in *. cbn [heap clients broadcast visiting].
  split; [assumption|]. split; [assumption|].
  intros c' cl' Hl. apply store_lookup in Hl as [(<- & -> & _)|(_ & Hl)]; [|eauto].
  split; [assumption|]. eapply subsequence_trans; [exact Hsub|]. now apply (H3 c client Hc).
Qed.

Lemma own_connMsg id now now' : notification (connMsg id now now') = false.
Proof. reflexivity. Qed.

Lemma own_pongMsg now : notification (pongMsg now) = false.
Proof. reflexivity. Qed.

Lemma step_in_order history h e h' :
  messages_in_order history h -> step h e = Some (Live h') ->
  messages_in_order (history ++ broadcasts [e]) h'.
Proof.
  intros Hin Hstep. pose proof Hin as (taken & H1 & H2 & H3).
  destruct e as [msg|id|c now now'|c|c msg now|c|c| |c|c ok];
    cbn [step broadcasts flat_map app] in *; rewrite ?app_nil_r.
  - (* Broadcast *)
    unfold Broadcast, offer, send in Hstep. exists taken.
    destruct (closed (broadcast h)); [discriminate|].
    destruct (Nat.ltb _ _); injection Hstep as <-; unfold pending;
      cbn [heap clients broadcast visiting buffer];
      (split; [|split; assumption]).
    + rewrite app_assoc. apply subsequence_app; [assumption | apply subsequence_refl].
    + now apply subsequence_grow.
  - (* HandleConnection *)
    injection Hstep as <-. exists taken. unfold HandleConnection, with_heap, pending.
    cbn [heap clients broadcast visiting]. split; [assumption|]. split; [assumption|].
    intros c client Hl.
    destruct (Nat.lt_ge_cases c (List.length (heap h))) as [Hlt|Hge].
    + rewrite nth_error_app1 in Hl by assumption. now apply H3.
    + rewrite nth_error_app2 in Hl by assumption.
      destruct (c - List.length (heap h)) as [|[|k]]; try discriminate. injection Hl as <-.
      split; [now split | apply subsequence_nil_l].
  - (* register *)
    destruct (visiting h) eqn:Hv; [discriminate|].
    destruct (nth_error (heap h) c) as [client|] eqn:Hc; [|discriminate].
    destruct (handler client) eqn:Hh; try discriminate. injection Hstep as <-.
    destruct (H3 c client Hc) as [[_ Hown] Hsub].
    exists taken. unfold with_client, with_heap, Run_register, pending in *.
    cbn [heap clients broadcast visiting]. rewrite Hv in *.
    split; [assumption|]. split; [discriminate|].
    intros c' cl' Hl. apply store_lookup in Hl as [(<- & -> & _)|(_ & Hl)]; [|eauto].
    split; [|exact Hsub]. split; [apply own_connMsg | exact Hown].
  - (* the greeting *)
    destruct (nth_error (heap h) c) as [client|] eqn:Hc; [|discriminate].
    destruct (handler client) as [|m| |] eqn:Hh; try discriminate.
    destruct (H3 c client Hc) as [[Hown _] _]. rewrite Hh in Hown.
    unfold send in Hstep. destruct (closed (Send client)); [discriminate|].
    destruct (Nat.ltb _ _); [|discriminate]. injection Hstep as <-.
    apply (in_order_with_client history h c client _ Hin Hc); [now split|].
    cbn [written Send buffer reader_to handler_to with_Send]. rewrite app_assoc.
    rewrite notifications_own by assumption. apply subsequence_refl.
  - (* readPump *)
    destruct (nth_error (heap h) c) as [client|] eqn:Hc; [|discriminate].
    destruct (reader client) eqn:Hr; try discriminate.
    destruct (H3 c client Hc) as [[Hown _] _].
    destruct msg as [msg|]; injection Hstep as <-;
      apply (in_order_with_client history h c client _ Hin Hc).
    + unfold readPump_message.
      destruct (EventType msg =? "subscribe"); [|destruct (EventType msg =? "unsubscribe");
        [|destruct (EventType msg =? "ping")]];
        split; cbn [handler reader reader_to with_Subs]; rewrite ?Hr; auto using own_pongMsg.
    + unfold readPump_message.
      destruct (EventType msg =? "subscribe"); [|destruct (EventType msg =? "unsubscribe");
        [|destruct (EventType msg =? "ping")]]; apply subsequence_refl.
    + split; [exact Hown | exact I].
    + apply subsequence_refl.
  - (* the pong *)
    destruct (nth_error (heap h) c) as [client|] eqn:Hc; [|discriminate].
    destruct (reader client) as [| |m| |] eqn:Hr; try discriminate.
    destruct (H3 c client Hc) as [[Hown Hown'] _]. rewrite Hr in Hown'.
    unfold send in Hstep. destruct (closed (Send client)); [discriminate|].
    destruct (Nat.ltb _ _); [|discriminate]. injection Hstep as <-.
    apply (in_order_with_client history h c client _ Hin Hc); [now split|].
    cbn [written Send buffer reader_to with_Send]. rewrite app_assoc.
    rewrite notifications_own by assumption. apply subsequence_refl.
  - (* unregister *)
    destruct (visiting h) eqn:Hv; [discriminate|].
    destruct (nth_error (heap h) c) as [client|] eqn:Hc; [|discriminate].
    destruct (reader client) eqn:Hr; try discriminate.
    destruct (H3 c client Hc) as [[Hown _] Hsub].
    unfold Run_unregister in Hstep. destruct (has c (clients h)).
    + unfold close in Hstep. destruct (closed (Send (reader_to client Ended))); [discriminate|].
      injection Hstep as <-. exists taken. unfold pending in *.
      cbn [heap clients broadcast visiting]. rewrite Hv in *.
      split; [assumption|]. split; [discriminate|].
      intros c' cl' Hl. apply store_lookup in Hl as [(<- & -> & _)|(_ & Hl)]; [|eauto].
      split; [split; [exact Hown | exact I] | exact Hsub].
    + injection Hstep as <-.
      apply (in_order_with_client history h c client _ Hin Hc);
        [split; [exact Hown | exact I] | apply subsequence_refl].
  - (* a message is taken *)
    destruct (visiting h) eqn:Hv; [discriminate|].
    destruct (receive (broadcast h)) as [[[msg|] ch]|] eqn:E; try discriminate.
    injection Hstep as <-. apply receive_some in E as [_ E]. rewrite E in H1.
    exists (taken ++ [msg])%list. split; [|split].
    + cbn [broadcast]. now rewrite <- app_assoc.
    + cbn [visiting]. intros m todo Hvis. exists taken.
      destruct (clients h); [discriminate|]. now injection Hvis as <- _.
    + intros c client Hl. cbn [heap] in Hl. destruct (H3 c client Hl) as [Hown Hsub].
      split; [exact Hown|]. rewrite pending_visit. unfold pending in Hsub. rewrite Hv in Hsub.
      destruct (has c (clients h)); [now rewrite removelast_last | now apply subsequence_grow].
  - (* a message is offered *)
    destruct (visiting h) as [[msg todo]|] eqn:Hv; [|discriminate].
    destruct (nth_error (heap h) c) as [client|] eqn:Hc; [|discriminate].
    destruct (has c todo) eqn:Hin'; [|discriminate].
    destruct (H2 msg todo eq_refl) as [before ->].
    unfold offer, send in Hstep.
    destruct (closed (Send client)); [discriminate|].
    assert (Hdel : forall c', c' <> c -> has c' (delete c todo) = has c' todo).
    { intros c' Hne. rewrite has_delete. now destruct (Nat.eqb_spec c' c). }
    assert (Hgone : has c (delete c todo) = false)
      by (now rewrite has_delete, Nat.eqb_refl).
    destruct (H3 c client Hc) as [Hown Hsub]. unfold pending in Hsub.
    rewrite Hv, Hin', removelast_last in Hsub.
    assert (Hothers : forall c' cl', c <> c' -> nth_error (heap h) c' = Some cl' ->
              own_messages cl'
              /\ subsequence (notifications (written cl' ++ buffer (Send cl')))
                   (if has c' (delete c todo) then removelast (before ++ [msg])
                    else (before ++ [msg])%list)).
    { intros c' cl' Hne Hl. destruct (H3 c' cl' Hl) as [Ho Hs]. split; [exact Ho|].
      unfold pending in Hs. now rewrite Hv, <- Hdel in Hs by congruence. }
    destruct (Nat.ltb _ _); injection Hstep as <-; exists (before ++ [msg])%list;
      (split; [exact H1|]);
      (split; [intros m todo' Hvis; exists before;
               cbn [visiting] in Hvis; destruct (delete c todo); [discriminate|];
               now injection Hvis as <- _|]);
      intros c' cl' Hl; cbn [heap] in Hl; rewrite pending_visit;
      apply store_lookup in Hl as [(<- & -> & _)|(Hne & Hl)]; try (now apply Hothers);
      (split; [exact Hown|]); rewrite Hgone; cbn [written Send buffer with_Send].
    + rewrite app_assoc, notifications_app.
      apply subsequence_app; [exact Hsub | apply subsequence_filter].
    + now apply subsequence_grow.
  - (* writePump *)
    destruct (nth_error (heap h) c) as [client|] eqn:Hc; [|discriminate].
    destruct (handler client) eqn:Hh; try discriminate.
    destruct (H3 c client Hc) as [[_ Hown] _].
    destruct (receive (Send client)) as [[[msg|] ch]|] eqn:E; try discriminate;
      injection Hstep as <-; apply receive_some in E as [_ E];
      apply (in_order_with_client history h c client _ Hin Hc).
    + destruct ok; split; cbn [handler reader handler_to with_Send WriteJSON];
        rewrite ?Hh; auto.
    + rewrite E. destruct ok; cbn [written Send handler_to with_Send WriteJSON].
      * rewrite <- app_assoc. apply subsequence_refl.
      * apply subsequence_filtered, subsequence_app; [apply subsequence_refl|].
        constructor. apply subsequence_refl.
    + split; cbn [handler reader handler_to]; auto.
    + apply subsequence_refl.
Qed.

End Order.

Lemma broadcasts_cons e schedule :
  broadcasts (e :: schedule) = (broadcasts [e] ++ broadcasts schedule)%list.
Proof. unfold broadcasts. cbn [flat_map]. now rewrite app_nil_r. Qed.

Lemma run_in_order schedule : forall history h h',
  messages_in_order history h -> hub.run (hub.Live h) schedule = Some (hub.Live h') ->
  messages_in_order (history ++ broadcasts schedule) h'.
Proof.
  induction schedule as [|e schedule IH]; intros history h h' Hin Hrun; cbn [hub.run] in Hrun.
  - injection Hrun as <-. cbn. now rewrite app_nil_r.
  - destruct (hub.step h e) as [[h1|panic]|] eqn:E; [| |discriminate].
    + rewrite broadcasts_cons, app_assoc.
      apply (IH _ h1 h'); [|assumption]. now apply (step_in_order history h e h1).
    + destruct schedule; discriminate.
Qed.

(** X21. What a client is written and what waits in its channel are, the
    greeting and the pongs apart, messages that were given to [Broadcast],
    in the order in which they were given and none of them twice; messages
    may be missing. *)
Theorem X21_notifications_arrive_in_order (schedule : list hub.event)
    (h : hub.WebSocketHub) (c : nat) (client : hub.Client) :
  hub.run (hub.Live hub.NewWebSocketHub) schedule = Some (hub.Live h) ->
  nth_error (hub.heap h) c = Some client ->
  subsequence (notifications (hub.written client ++ hub.buffer (hub.Send client)))
              (broadcasts schedule).
Proof.
  intros Hrun Hc.
  assert (H0 : messages_in_order [] hub.NewWebSocketHub).
  { exists []. split; [constructor|]. split; [discriminate|]. intros [|k] cl; discriminate. }
  destruct (run_in_order schedule [] _ h H0 Hrun) as (taken & H1 & H2 & H3).
  cbn [app] in H1. destruct (H3 c client Hc) as [_ Hsub].
  eapply subsequence_trans; [exact Hsub|].
  eapply subsequence_trans; [|exact H1].
  eapply subsequence_trans; [|apply subsequence_app_l].
  unfold pending. destruct (hub.visiting h) as [[m todo]|] eqn:Hv; [|apply subsequence_refl].
  destruct (hub.has c todo); [|apply subsequence_refl].
  destruct (H2 m todo eq_refl) as [before ->]. rewrite removelast_last.
  apply subsequence_app_l.
Qed.

Lemma X21_notifications_arrive_in_order_witness :
  exists h client,
    hub.run (hub.Live hub.NewWebSocketHub)
      [hub.Connect "a"; hub.Register 0 1 1; hub.Greet 0;
       hub.CallBroadcast {| dtos.EventType := "file_created"; dtos.Data := [];
                            dtos.Timestamp := 5 |};
       hub.CallBroadcast {| dtos.EventType := "file_deleted"; dtos.Data := [];
                            dtos.Timestamp := 6 |};
       hub.Take; hub.Offer 0; hub.Write 0 true; hub.Write 0 true; hub.Take; hub.Offer 0]
    = Some (hub.Live h)
    /\ nth_error (hub.heap h) 0 = Some client
    /\ map dtos.EventType (hub.written client ++ hub.buffer (hub.Send client))
       = ["connection_established"; "file_created"; "file_deleted"]
    /\ subsequence
         (notifications (hub.written client ++ hub.buffer (hub.Send client)))
         [ {| dtos.EventType := "file_created"; dtos.Data := []; dtos.Timestamp := 5 |};
           {| dtos.EventType := "file_deleted"; dtos.Data := []; dtos.Timestamp := 6 |} ].
Proof.
  eexists. eexists. split; [vm_compute; reflexivity|]. split; [reflexivity|].
  split; [reflexivity|].
  exact (X21_notifications_arrive_in_order
           [hub.Connect "a"; hub.Register 0 1 1; hub.Greet 0;
            hub.CallBroadcast {| dtos.EventType := "file_created"; dtos.Data := [];
                                 dtos.Timestamp := 5 |};
            hub.CallBroadcast {| dtos.EventType := "file_deleted"; dtos.Data := [];
                                 dtos.Timestamp := 6 |};
            hub.Take; hub.Offer 0; hub.Write 0 true; hub.Write 0 true; hub.Take; hub.Offer 0]
           _ 0 _ eq_refl eq_refl).
Defined.

Section Stuck.
Import hub.

Lemma with_Send_same client : with_Send client (Send client) = client.
Proof. now destruct client. Qed.

Lemma stuck_cannot_send client m :
  stuck client = true -> send Send_capacity (Send client) m = None.
Proof.
  unfold stuck, send. intros [[Ho Hfull]%andb_true_iff _]%andb_true_iff.
  apply negb_true_iff in Ho. rewrite Ho.
  apply Nat.leb_le in Hfull. now apply Nat.ltb_ge in Hfull as ->.
Qed.

Lemma stuck_places client :
  stuck client = true ->
  (exists m, handler client = AtGreet m /\ reader client = NotStarted)
  \/ (handler client = Returned /\ exists m, reader client = AtPong m).
Proof.
  unfold stuck. intros [_ H]%andb_true_iff.
  destruct (handler client) as [|m| |], (reader client) as [| |m'| |]; try discriminate; eauto.
Qed.

Lemma step_stuck h c client e h' :
  nth_error (heap h) c = Some client -> stuck client = true ->
  step h e = Some (Live h') ->
  nth_error (heap h') c = Some client /\ has c (clients h') = has c (clients h).
Proof.
  intros Hc Hst Hstep.
  assert (Hplaces := stuck_places client Hst).
  assert (Hchoice : forall c0 (P : Prop),
            (c0 = c -> P) -> (c0 <> c -> P) -> P)
    by (intros c0 P H1 H2; destruct (Nat.eq_dec c0 c); auto).
  destruct e as [msg|id|c0 now now'|c0|c0 msg now|c0|c0| |c0|c0 ok]; cbn [step] in Hstep.
  - unfold Broadcast in Hstep. destruct (offer _ _ _); [|discriminate].
    injection Hstep as <-. now split.
  - injection Hstep as <-. unfold HandleConnection, with_heap. cbn [heap clients]. split; [|reflexivity].
    rewrite nth_error_app1; [assumption|]. apply nth_error_Some. congruence.
  - destruct (visiting h); [discriminate|].
    destruct (nth_error (heap h) c0) as [client0|] eqn:Hc0; [|discriminate].
    destruct (handler client0) eqn:Hh; try discriminate. injection Hstep as <-.
    apply (Hchoice c0); intros Hcase.
    + subst c0. rewrite Hc in Hc0. injection Hc0 as <-.
      destruct Hplaces as [(m & E & _)|(E & _)]; congruence.
    + unfold with_client, with_heap, Run_register. cbn [heap clients].
      rewrite store_other, has_add by assumption. split; [assumption|].
      destruct (Nat.eqb_spec c c0); [congruence | reflexivity].
  - destruct (nth_error (heap h) c0) as [client0|] eqn:Hc0; [|discriminate].
    destruct (handler client0) as [|m| |] eqn:Hh; try discriminate.
    apply (Hchoice c0); intros Hcase.
    + subst c0. rewrite Hc in Hc0. injection Hc0 as <-.
      now rewrite (stuck_cannot_send client m Hst) in Hstep.
    + destruct (send _ _ _) as [[ch|]|]; try discriminate. injection Hstep as <-.
      unfold with_client, with_heap. cbn [heap clients]. now rewrite store_other.
  - destruct (nth_error (heap h) c0) as [client0|] eqn:Hc0; [|discriminate].
    destruct (reader client0) eqn:Hr; try discriminate.
    apply (Hchoice c0); intros Hcase.
    + subst c0. rewrite Hc in Hc0. injection Hc0 as <-.
      destruct Hplaces as [(m & _ & E)|(_ & m & E)]; congruence.
    + destruct msg; injection Hstep as <-; unfold with_client, with_heap; cbn [heap clients];
        now rewrite store_other.
  - destruct (nth_error (heap h) c0) as [client0|] eqn:Hc0; [|discriminate].
    destruct (reader client0) as [| |m| |] eqn:Hr; try discriminate.
    apply (Hchoice c0); intros Hcase.
    + subst c0. rewrite Hc in Hc0. injection Hc0 as <-.
      now rewrite (stuck_cannot_send client m Hst) in Hstep.
    + destruct (send _ _ _) as [[ch|]|]; try discriminate. injection Hstep as <-.
      unfold with_client, with_heap. cbn [heap clients]. now rewrite store_other.
  - destruct (visiting h); [discriminate|].
    destruct (nth_error (heap h) c0) as [client0|] eqn:Hc0; [|discriminate].
    destruct (reader client0) eqn:Hr; try discriminate.
    apply (Hchoice c0); intros Hcase.
    + subst c0. rewrite Hc in Hc0. injection Hc0 as <-.
      destruct Hplaces as [(m & _ & E)|(_ & m & E)]; congruence.
    + unfold Run_unregister in Hstep. destruct (has c0 (clients h)).
      * destruct (close _); [|discriminate]. injection Hstep as <-. cbn [heap clients].
        rewrite store_other, has_delete by assumption. split; [assumption|].
        destruct (Nat.eqb_spec c c0); [congruence | reflexivity].
      * injection Hstep as <-. unfold with_client, with_heap. cbn [heap clients].
        now rewrite store_other.
  - destruct (visiting h); [discriminate|].
    destruct (receive (broadcast h)) as [[[msg|] ch]|]; try discriminate.
    injection Hstep as <-. now split.
  - destruct (visiting h) as [[msg todo]|]; [|discriminate].
    destruct (nth_error (heap h) c0) as [client0|] eqn:Hc0; [|discriminate].
    destruct (has c0 todo); [|discriminate].
    apply (Hchoice c0); intros Hcase.
    + subst c0. rewrite Hc in Hc0. injection Hc0 as <-.
      unfold offer in Hstep. rewrite (stuck_cannot_send client msg Hst) in Hstep.
      injection Hstep as <-. cbn [heap clients]. rewrite with_Send_same.
      split; [|reflexivity]. now apply (store_same (heap h) c client client).
    + destruct (offer _ _ _); [|discriminate]. injection Hstep as <-. cbn [heap clients].
      now rewrite store_other.
  - destruct (nth_error (heap h) c0) as [client0|] eqn:Hc0; [|discriminate].
    destruct (handler client0) eqn:Hh; try discriminate.
    apply (Hchoice c0); intros Hcase.
    + subst c0. rewrite Hc in Hc0. injection Hc0 as <-.
      destruct Hplaces as [(m & E & _)|(E & _)]; congruence.
    + destruct (receive _) as [[[msg|] ch]|]; try discriminate; injection Hstep as <-;
        unfold with_client, with_heap; cbn [heap clients]; now rewrite store_other.
Qed.

End Stuck.

(** X22. A goroutine that waits to send on the full channel of a client
    while no goroutine receives from it - the handler at its greeting, ten
    notifications having come first, or the reader at a pong after
    [writePump] has ended - waits for ever: whatever happens next, the
    client gets nothing more, is written nothing more and, if it is in the
    map of the hub, stays there. *)
Theorem X22_sender_without_receiver_waits_for_ever (h h' : hub.WebSocketHub) (c : nat)
    (client : hub.Client) (schedule : list hub.event) :
  nth_error (hub.heap h) c = Some client ->
  stuck client = true ->
  hub.run (hub.Live h) schedule = Some (hub.Live h') ->
  nth_error (hub.heap h') c = Some client
  /\ hub.has c (hub.clients h') = hub.has c (hub.clients h).
Proof.
  revert h. induction schedule as [|e schedule IH]; intros h Hc Hst Hrun; cbn [hub.run] in Hrun.
  - injection Hrun as <-. now split.
  - destruct (hub.step h e) as [[h1|panic]|] eqn:E; [| |discriminate].
    + destruct (step_stuck h c client e h1 Hc Hst E) as [Hc1 Hin1].
      destruct (IH h1 Hc1 Hst Hrun) as [Hc' Hin']. split; congruence.
    + destruct schedule; discriminate.
Qed.

Lemma X22_sender_without_receiver_waits_for_ever_witness :
  exists h h' client,
    hub.run (hub.Live hub.NewWebSocketHub)
      ([hub.Connect "a"; hub.Register 0 1 1]
       ++ flat_map (fun k => [hub.CallBroadcast {| dtos.EventType := "file_created";
                                                   dtos.Data := [];
                                                   dtos.Timestamp := Z.of_nat k |};
                              hub.Take; hub.Offer 0]) (seq 0 10))
    = Some (hub.Live h)
    /\ nth_error (hub.heap h) 0 = Some client
    /\ hub.handler client = hub.AtGreet (hub.connMsg "a" 1 1)
    /\ List.length (hub.buffer (hub.Send client)) = 10
    /\ hub.run (hub.Live h)
         [hub.CallBroadcast {| dtos.EventType := "file_deleted"; dtos.Data := [];
                               dtos.Timestamp := 11 |};
          hub.Take; hub.Offer 0; hub.Connect "b"; hub.Register 1 12 12; hub.Greet 1;
          hub.Write 1 true]
       = Some (hub.Live h')
    /\ hub.step h' (hub.Greet 0) = None
    /\ hub.has 0 (hub.clients h) = true
    /\ nth_error (hub.heap h') 0 = Some client
    /\ hub.has 0 (hub.clients h') = hub.has 0 (hub.clients h).
Proof.
  eexists. eexists. eexists. split; [vm_compute; reflexivity|].
  split; [reflexivity|]. split; [reflexivity|]. split; [reflexivity|].
  split; [vm_compute; reflexivity|]. split; [reflexivity|]. split; [reflexivity|].
  apply X22_sender_without_receiver_waits_for_ever
    with (schedule := [hub.CallBroadcast {| dtos.EventType := "file_deleted";
                                            dtos.Data := []; dtos.Timestamp := 11 |};
                       hub.Take; hub.Offer 0; hub.Connect "b"; hub.Register 1 12 12;
                       hub.Greet 1; hub.Write 1 true]);
    reflexivity.
Defined.

(** ** Subscriptions *)

Section Subscriptions.
Import hub.

Lemma map_store {A B : Type} (f : A -> B) (l : list A) : forall i x,
  map f (store i x l) = store i (f x) (map f l).
Proof. induction l as [|y l IH]; intros [|i] x; cbn [store map]; try reflexivity. now rewrite IH. Qed.

Lemma without_Subs_twice client : without_Subs (without_Subs client) = without_Subs client.
Proof. reflexivity. Qed.

Lemma forget_heap h : map without_Subs (heap (forget_Subs h)) = map without_Subs (heap h).
Proof.
  unfold forget_Subs, with_heap. cbn [heap]. rewrite map_map. now apply map_ext.
Qed.

(** The hubs that [with_client] makes of two hubs that differ in the
    subscriptions only, with two such clients. *)
Lemma forget_with_client h k c client client' :
  forget_Subs h = forget_Subs k -> without_Subs client = without_Subs client' ->
  forget_Subs (with_client h c client) = forget_Subs (with_client k c client').
Proof.
  unfold forget_Subs, with_client, with_heap. cbn [heap clients broadcast visiting].
  intros E0 E. injection E0 as E1 E2 E3 E4. rewrite !map_store.
  now rewrite E, E1, E2, E3, E4.
Qed.

Lemma forget_fields h k :
  forget_Subs h = forget_Subs k ->
  clients h = clients k /\ broadcast h = broadcast k /\ visiting h = visiting k
  /\ map without_Subs (heap h) = map without_Subs (heap k).
Proof. unfold forget_Subs, with_heap. intros [= E1 E2 E3 E4]. auto. Qed.

Lemma forget_lookup h k c :
  forget_Subs h = forget_Subs k ->
  match nth_error (heap h) c, nth_error (heap k) c with
  | Some client, Some client' => without_Subs client = without_Subs client'
  | None, None => True
  | _, _ => False
  end.
Proof.
  intros E. apply forget_fields in E as (_ & _ & _ & E).
  assert (H : nth_error (map without_Subs (heap h)) c = nth_error (map without_Subs (heap k)) c)
    by now rewrite E.
  rewrite !nth_error_map in H.
  destruct (nth_error (heap h) c), (nth_error (heap k) c); cbn [option_map] in H;
    try discriminate; [congruence | exact I].
Qed.

Lemma without_Subs_fields client client' :
  without_Subs client = without_Subs client' ->
  ID client = ID client' /\ Send client = Send client' /\ written client = written client'
  /\ handler client = handler client' /\ reader client = reader client'.
Proof. unfold without_Subs, with_Subs. intros [= ? ? ? ? ?]. auto. Qed.

(** The client of both hubs at [c], equal but for the subscriptions. *)
Ltac both_clients h k c E client client' :=
  let Hl := fresh "Hl" in
  pose proof (forget_lookup h k c E) as Hl;
  destruct (nth_error (heap h) c) as [client|], (nth_error (heap k) c) as [client'|];
  try contradiction; try discriminate;
  let EI := fresh "EI" in let ES := fresh "ES" in let EW := fresh "EW" in
  let EH := fresh "EH" in let ER := fresh "ER" in
  pose proof (without_Subs_fields _ _ Hl) as (EI & ES & EW & EH & ER);
  rewrite <- ?EI, <- ?ES, <- ?EW, <- ?EH, <- ?ER.

Ltac same_hubs :=
  unfold forget_Subs, with_client, Run_register, HandleConnection; unfold with_heap;
  cbn [heap clients broadcast visiting];
  rewrite ?map_store, ?map_app.

Ltac same_fields :=
  match goal with
  | Eheap : map without_Subs (heap ?h) = map without_Subs (heap ?k),
    Ecl : clients ?h = clients ?k, Ebr : broadcast ?h = broadcast ?k |- _ =>
      rewrite <- ?Eheap, <- ?Ecl, <- ?Ebr
  end;
  repeat match goal with
         | Evis : _ = visiting ?k |- context [visiting ?k] => rewrite <- Evis
         end;
  repeat match goal with
         | Hv : visiting ?h = None |- context [visiting ?h] => rewrite Hv
         end.

Ltac same_clients :=
  unfold without_Subs, with_Subs, with_Send, handler_to, reader_to, WriteJSON in *;
  cbn [ID Send Subs written handler reader] in *; congruence.

Lemma step_forget h k e e' s :
  forget_Subs h = forget_Subs k -> same_but_data e e' -> step h e = Some s ->
  exists s', step k e' = Some s' /\ apart_from_Subs s' = apart_from_Subs s.
Proof.
  intros E Hsame Hstep.
  destruct (forget_fields h k E) as (Ecl & Ebr & Evis & Eheap).
  assert (Hother : (forall c m now, e <> Read c (Some m) now) -> e' = e).
  { intros H. destruct e as [| | | |c [m|] now| | | | |]; cbn in Hsame; try congruence;
      try now destruct (H c m now). }
  destruct e as [msg|id|c now now'|c|c msg now|c|c| |c|c ok];
    try (rewrite Hother by discriminate; clear Hother Hsame); cbn [step] in *.
  - (* Broadcast *)
    injection Hstep as <-. unfold Broadcast. rewrite <- Ebr.
    eexists. split; [reflexivity|].
    destruct (offer _ _ _); [|reflexivity]. cbn [apart_from_Subs]. f_equal.
    same_hubs. same_fields; reflexivity.
  - (* HandleConnection *)
    injection Hstep as <-. eexists. split; [reflexivity|]. cbn [apart_from_Subs]. f_equal.
    same_hubs. same_fields; reflexivity.
  - (* register *)
    rewrite <- Evis. destruct (visiting h) eqn:Hv; [discriminate|].
    both_clients h k c E client client'.
    destruct (handler client) eqn:Hh; try discriminate. injection Hstep as <-.
    eexists. split; [reflexivity|]. cbn [apart_from_Subs]. f_equal.
    same_hubs. same_fields. do 2 f_equal. same_clients.
  - (* the greeting *)
    both_clients h k c E client client'.
    destruct (handler client) as [|m| |] eqn:Hh; try discriminate.
    destruct (send _ _ _) as [[ch|panic]|]; try discriminate; injection Hstep as <-;
      (eexists; split; [reflexivity|]); [|reflexivity].
    cbn [apart_from_Subs]. f_equal. apply forget_with_client; [symmetry; exact E|]. same_clients.
  - (* readPump *)
    assert (He' : exists msg', e' = Read c msg' now
               /\ match msg, msg' with
                  | Some m, Some m' => EventType m = EventType m'
                  | None, None => True
                  | _, _ => False
                  end).
    { destruct msg as [m|].
      + destruct e' as [| | | |c' [m'|] now'| | | | |]; cbn in Hsame; try discriminate.
        destruct Hsame as (-> & -> & Hm). exists (Some m'). now split.
      + cbn in Hsame. subst e'. exists None. now split. }
    destruct He' as (msg' & -> & Hm). clear Hother Hsame. cbn [step].
    both_clients h k c E client client'.
    destruct (reader client) eqn:Hr; try discriminate.
    destruct msg as [m|], msg' as [m'|]; try contradiction; injection Hstep as <-;
      (eexists; split; [reflexivity|]); cbn [apart_from_Subs]; f_equal;
      (apply forget_with_client; [symmetry; exact E|]).
    + unfold readPump_message. rewrite <- Hm.
      destruct (EventType m =? "subscribe"); [same_clients|].
      destruct (EventType m =? "unsubscribe"); [same_clients|].
      destruct (EventType m =? "ping"); [same_clients | congruence].
    + same_clients.
  - (* the pong *)
    both_clients h k c E client client'.
    destruct (reader client) as [| |m| |] eqn:Hr; try discriminate.
    destruct (send _ _ _) as [[ch|panic]|]; try discriminate; injection Hstep as <-;
      (eexists; split; [reflexivity|]); [|reflexivity].
    cbn [apart_from_Subs]. f_equal. apply forget_with_client; [symmetry; exact E|]. same_clients.
  - (* unregister *)
    rewrite <- Evis. destruct (visiting h) eqn:Hv; [discriminate|].
    both_clients h k c E client client'.
    destruct (reader client) eqn:Hr; try discriminate. injection Hstep as <-.
    eexists. split; [reflexivity|]. unfold Run_unregister. rewrite <- Ecl.
    destruct (has c (clients h)).
    + cbn [Send reader_to]. rewrite <- ES. destruct (close (Send client)); [|reflexivity].
      cbn [apart_from_Subs]. f_equal. same_hubs. same_fields. do 2 f_equal.
      same_clients.
    + cbn [apart_from_Subs]. f_equal. apply forget_with_client; [symmetry; exact E|].
      same_clients.
  - (* a message is taken *)
    rewrite <- Evis, <- Ebr, <- Ecl. destruct (visiting h); [discriminate|].
    destruct (receive (broadcast h)) as [[[msg|] ch]|]; try discriminate.
    injection Hstep as <-. eexists. split; [reflexivity|]. cbn [apart_from_Subs]. f_equal.
    same_hubs. same_fields; reflexivity.
  - (* a message is offered *)
    rewrite <- Evis. destruct (visiting h) as [[msg todo]|]; [|discriminate].
    both_clients h k c E client client'.
    destruct (has c todo); [|discriminate].
    destruct (offer _ _ _) as [ch|panic]; injection Hstep as <-;
      (eexists; split; [reflexivity|]); [|reflexivity].
    cbn [apart_from_Subs]. f_equal. same_hubs. same_fields. do 2 f_equal.
    same_clients.
  - (* writePump *)
    both_clients h k c E client client'.
    destruct (handler client) eqn:Hh; try discriminate.
    destruct (receive _) as [[[msg|] ch]|]; try discriminate; injection Hstep as <-;
      (eexists; split; [reflexivity|]); cbn [apart_from_Subs]; f_equal;
      (apply forget_with_client; [symmetry; exact E|]); [destruct ok|]; same_clients.
Qed.

End Subscriptions.

Lemma run_forget schedule schedule' :
  Forall2 same_but_data schedule schedule' ->
  forall s0 s0' s,
    apart_from_Subs s0 = apart_from_Subs s0' -> hub.run s0 schedule = Some s ->
    exists s', hub.run s0' schedule' = Some s' /\ apart_from_Subs s' = apart_from_Subs s.
Proof.
  induction 1 as [|e e' schedule schedule' He Hrest IH]; intros s0 s0' s E Hrun;
    cbn [hub.run] in *.
  - injection Hrun as <-. eauto.
  - destruct s0 as [h|]; [|discriminate]. destruct s0' as [k|]; [|discriminate].
    cbn [apart_from_Subs] in E.
    apply (f_equal (fun s => match s with hub.Live x => x | hub.Crashed _ => h end)) in E.
    destruct (hub.step h e) as [s1|] eqn:E1; [|discriminate].
    destruct (step_forget h k e e' s1 E He E1) as (s1' & -> & E1').
    now apply (IH s1 s1' s).
Qed.

(** X23. What the clients subscribe to has no effect on what any client is
    sent: when the messages that the clients send carry other data, such as
    other paths to subscribe to, the hub does the same, event after event,
    and ends in the same state but for the [Subs] of the clients. *)
Theorem X23_subscriptions_filter_nothing (h : hub.WebSocketHub)
    (schedule schedule' : list hub.event) (s : hub.status) :
  Forall2 same_but_data schedule schedule' ->
  hub.run (hub.Live h) schedule = Some s ->
  exists s',
    hub.run (hub.Live h) schedule' = Some s' /\ apart_from_Subs s' = apart_from_Subs s.
Proof. intros Hsame Hrun. now apply (run_forget schedule schedule' Hsame (hub.Live h) (hub.Live h) s). Qed.

Lemma X23_subscriptions_filter_nothing_witness :
  exists s',
    hub.run (hub.Live hub.NewWebSocketHub)
      [hub.Connect "a"; hub.Register 0 1 1; hub.Greet 0;
       hub.Read 0 (Some {| hub.EventType := "subscribe";
                           hub.Data := hub.JObject [("paths", hub.JArray [hub.JString "docs"])] |}) 2;
       hub.CallBroadcast {| dtos.EventType := "file_created";
                            dtos.Data := [("path", dtos.VStr "music/a.mp3")];
                            dtos.Timestamp := 3 |};
       hub.Take; hub.Offer 0; hub.Write 0 true; hub.Write 0 true]
    = Some s'
    /\ apart_from_Subs s'
       = apart_from_Subs
           (hub.Live
              {| hub.heap :=
                   [ {| hub.ID := "a"; hub.Send := hub.make; hub.Subs := [];
                        hub.written :=
                          [hub.connMsg "a" 1 1;
                           {| dtos.EventType := "file_created";
                              dtos.Data := [("path", dtos.VStr "music/a.mp3")];
                              dtos.Timestamp := 3 |}];
                        hub.handler := hub.AtWrite; hub.reader := hub.AtRead |} ];
                 hub.clients := [0]; hub.broadcast := hub.make; hub.visiting := None |}).
Proof.
  apply (X23_subscriptions_filter_nothing hub.NewWebSocketHub
           [hub.Connect "a"; hub.Register 0 1 1; hub.Greet 0;
            hub.Read 0 (Some {| hub.EventType := "subscribe"; hub.Data := hub.JNull |}) 2;
            hub.CallBroadcast {| dtos.EventType := "file_created";
                                 dtos.Data := [("path", dtos.VStr "music/a.mp3")];
                                 dtos.Timestamp := 3 |};
            hub.Take; hub.Offer 0; hub.Write 0 true; hub.Write 0 true]).
  - repeat constructor.
  - reflexivity.
Defined.

(** ** One broadcast *)

Section FanOut.
Import hub.
Variable msg : dtos.WebSocketMessage.

Lemma visit_None todo : visit msg todo = None -> todo = [].
Proof. now destruct todo. Qed.

Lemma visit_Some todo m todo' : visit msg todo = Some (m, todo') -> m = msg /\ todo' = todo.
Proof. destruct todo; [discriminate|]. now intros [= <- <-]. Qed.

Lemma offer_result ch ch' :
  offer Send_capacity ch msg = Ok ch' ->
  closed ch' = false
  /\ buffer ch' = if (List.length (buffer ch) <? Send_capacity)%nat
                  then (buffer ch ++ [msg])%list else buffer ch.
Proof.
  unfold offer, send. destruct (closed ch) eqn:Ec; [discriminate|].
  destruct (Nat.ltb _ _); intros [= <-]; now split.
Qed.

Lemma run_Crashed panic schedule h' : run (Crashed panic) schedule <> Some (Live h').
Proof. destruct schedule; discriminate. Qed.

Lemma offers_run order : forall g g' todo,
  visiting g = visit msg todo ->
  run (Live g) (map Offer order) = Some (Live g') ->
  exists todo',
    visiting g' = visit msg todo' /\ clients g' = clients g /\ broadcast g' = broadcast g
    /\ forall c,
         (has c todo' = true -> has c todo = true)
         /\ (has c todo = true -> has c todo' = false -> offered msg g g' c)
         /\ (has c todo = has c todo' -> nth_error (heap g') c = nth_error (heap g) c).
Proof.
  induction order as [|c0 order IH]; intros g g' todo Hv Hrun; cbn [map run] in Hrun.
  - injection Hrun as <-. exists todo. repeat split; auto. congruence.
  - cbn [step] in Hrun. rewrite Hv in Hrun.
    destruct (visit msg todo) as [[m todo0]|] eqn:Hvis; [|discriminate].
    apply visit_Some in Hvis as [-> ->].
    destruct (nth_error (heap g) c0) as [client0|] eqn:Hc0; [|discriminate].
    destruct (has c0 todo) eqn:Hin; [|discriminate].
    destruct (offer Send_capacity (Send client0) msg) as [ch|panic] eqn:Hoffer;
      [|now apply run_Crashed in Hrun].
    destruct (offer_result _ _ Hoffer) as [Hopen Hbuf].
    match type of Hrun with run (Live ?g1) _ = _ =>
      destruct (IH g1 g' (delete c0 todo) eq_refl Hrun) as (todo' & Hv' & Hcl & Hbr & Hall)
    end.
    cbn [clients broadcast heap] in Hcl, Hbr, Hall.
    exists todo'. split; [assumption|]. split; [assumption|]. split; [assumption|].
    intros c. destruct (Hall c) as (H1 & H2 & H3). rewrite has_delete in H1, H2, H3.
    destruct (Nat.eq_dec c c0) as [Heq|Hne].
    + subst c. rewrite Nat.eqb_refl in H1, H2, H3. cbn [negb andb] in H1, H2, H3.
      split; [intros H; specialize (H1 H); discriminate|]. split.
      * intros _ Hout. exists client0, ch. rewrite H3 by congruence.
        rewrite (store_same (heap g) c0 _ client0 Hc0). auto.
      * intros E. rewrite Hin in E. symmetry in E. specialize (H1 E). discriminate.
    + apply Nat.eqb_neq in Hne as Hneb. rewrite Hneb in H1, H2, H3.
      cbn [negb andb] in H1, H2, H3.
      split; [assumption|]. split.
      * intros Hc Hout. destruct (H2 Hc Hout) as (client & ch' & Ha & Hb & Hc' & Hd).
        cbn [heap] in Ha. rewrite store_other in Ha by congruence. exists client, ch'. auto.
      * intros E. rewrite H3 by assumption. apply store_other. congruence.
Qed.

End FanOut.

(** X24. One broadcast reaches every client of the map once: when the hub is
    at its [select] with nothing waiting, a call of [Broadcast] followed by
    the turn of the hub - the clients being visited in whatever order -
    appends the message to the channel of each client in the map whose
    buffer has room, skips the clients whose buffer is full, and changes
    nothing else. *)
Theorem X24_one_broadcast_reaches_every_client (h h' : hub.WebSocketHub)
    (msg : dtos.WebSocketMessage) (order : list nat) :
  hub.visiting h = None ->
  hub.buffer (hub.broadcast h) = [] ->
  hub.run (hub.Live h) ([hub.CallBroadcast msg; hub.Take] ++ map hub.Offer order)
  = Some (hub.Live h') ->
  hub.visiting h' = None ->
  hub.clients h' = hub.clients h
  /\ hub.broadcast h' = hub.broadcast h
  /\ forall c,
       if hub.has c (hub.clients h) then offered msg h h' c
       else nth_error (hub.heap h') c = nth_error (hub.heap h) c.
Proof.
  intros Hv Hempty Hrun Hv'. cbn [app hub.run hub.step] in Hrun.
  unfold hub.Broadcast, hub.offer, hub.send in Hrun. rewrite Hempty in Hrun.
  destruct (hub.closed (hub.broadcast h)) eqn:Hopen; [discriminate|].
  cbn [List.length Nat.ltb Nat.leb hub.broadcast_capacity hub.step hub.visiting hub.receive
       hub.broadcast hub.buffer app hub.closed hub.heap hub.clients] in Hrun.
  rewrite Hv in Hrun.
  match type of Hrun with hub.run (hub.Live ?g) _ = _ =>
    destruct (offers_run msg order g h' (hub.clients h) eq_refl Hrun)
      as (todo' & Hvis & Hcl & Hbr & Hall)
  end.
  cbn [hub.clients hub.broadcast hub.heap] in Hcl, Hbr, Hall.
  rewrite Hv' in Hvis. symmetry in Hvis. apply visit_None in Hvis. subst todo'.
  split; [assumption|]. split.
  - rewrite Hbr. destruct (hub.broadcast h) as [b cl]. cbn in *. now subst.
  - intros c. destruct (Hall c) as (_ & H2 & H3).
    destruct (hub.has c (hub.clients h)) eqn:Hin; [now apply H2 | now apply H3].
Qed.

Lemma X24_one_broadcast_reaches_every_client_witness :
  exists h h',
    hub.run (hub.Live hub.NewWebSocketHub)
      ([hub.Connect "a"; hub.Register 0 1 1]
       ++ flat_map (fun k => [hub.CallBroadcast {| dtos.EventType := "file_created";
                                                   dtos.Data := [];
                                                   dtos.Timestamp := Z.of_nat k |};
                              hub.Take; hub.Offer 0]) (seq 0 10)
       ++ [hub.Connect "b"; hub.Register 1 12 12; hub.Greet 1])
    = Some (hub.Live h)
    /\ map (fun client => List.length (hub.buffer (hub.Send client))) (hub.heap h) = [10; 1]
    /\ hub.run (hub.Live h)
         ([hub.CallBroadcast {| dtos.EventType := "file_deleted"; dtos.Data := [];
                                dtos.Timestamp := 13 |}; hub.Take]
          ++ map hub.Offer [1; 0])
       = Some (hub.Live h')
    /\ map (fun client => List.length (hub.buffer (hub.Send client))) (hub.heap h') = [10; 2]
    /\ hub.clients h' = hub.clients h
    /\ hub.broadcast h' = hub.broadcast h
    /\ forall c,
         if hub.has c (hub.clients h)
         then offered {| dtos.EventType := "file_deleted"; dtos.Data := [];
                         dtos.Timestamp := 13 |} h h' c
         else nth_error (hub.heap h') c = nth_error (hub.heap h) c.
Proof.
  eexists. eexists. split; [vm_compute; reflexivity|]. split; [reflexivity|].
  split; [vm_compute; reflexivity|]. split; [reflexivity|].
  apply X24_one_broadcast_reaches_every_client with (order := [1; 0]); reflexivity.
Defined.
